(* ===== verification/_CoqProject ===== *)
-Q . S2P
Prelude.v
GoLib.v
GoStrings.v
Float64.v
Netip.v
GoEncoding.v
Crypto.v
GoNet.v
WgshimCodec.v
WgshimPath.v
RoutedConfig.v
RoutedFrame.v
RoutedRouter.v
RoutedNetwork.v
RoutedSession.v
RoutedMesh.v
RoutedNode.v
ControlStore.v
ControlLog.v
ControlFsm.v
ControlProjection.v
ControlNode.v
ControlTls.v
ControlCheckpoint.v
P2pGrant.v
P2pPolicy.v
P2pAuthority.v
P2pMux.v
P2pRelay.v
P2pEndpoint.v
AgentConfig.v
AgentControl.v
AgentRuntime.v
AgentP2p.v
AgentLoop.v
AgentInstall.v
ControlApi.v
WgshimTcp.v
WgshimRelay.v
WgshimAdaptive.v
WgshimFlow.v
WgshimMulti.v
WgshimTransport.v
AgentTransport.v
RelayCommands.v
WgshimExamples.v
WgshimNetExamples.v
RoutedExamples.v
MeshExamples.v
RoutedNodeExamples.v
ControlExamples.v
P2pExamples.v
AgentExamples.v
P2pRelayExamples.v
ControlNodeExamples.v
ControlApiExamples.v
AgentP2pExamples.v
RelayExamples.v
