(* ===== verification/Prelude.v ===== *)
(** * BPC: a verification development of its Go code

    BPC is a private overlay network.  Nodes forward IPv4 packets of Devices to
    sites over authenticated UDP links ([src/internal/routed]); the links and the
    WireGuard relay use one datagram codec and a relay path manager
    ([src/internal/wgshim]); a replicated Controller holds the canonical state from
    which every policy derives ([src/internal/controlplane]); two Devices of one user
    may open a short-lived P2P session ([src/internal/p2p]); and an agent enrolls a
    Device and keeps it configured ([src/internal/agentctl], [src/cmd/bpc-agent]).  The
    processes around them are [bpc-controld], [bpc-routed-node] and the relays.  This
    library models the decision logic of these parts as executable definitions and
    proves what makes them correct.

    ** Files and what they model

    Foundations.  [Prelude]: results of Go functions ([Ok], [Err], [Panic]), bytes,
    bounds-checked indexing and slicing, big-endian integers, loops with early
    return, the tactics [guards], [ok_step] and [ok_steps] and the rewrite database
    [go_bool].  [GoLib]: time, durations and the contract of [sort.Slice] as the
    class [GoSort].  [GoStrings]: [strings] and [filepath].  [Float64]: IEEE 754
    binary64 and its order.  [Netip]: IPv4 addresses and prefixes.  [GoEncoding]:
    base64 and hexadecimal.  [Crypto]: AES-GCM and hashes as classes with their
    documented laws.

    Routing.  [RoutedConfig] is config.go: the configuration, its validation,
    [RouteFor] and [SourcePaths].  [RoutedFrame] is frame.go: the wire format and
    the authorisation of a frame.  [RoutedRouter] is router.go: a [Router] with its
    selections and reverse paths, [choosePath], [HandleTunPacket] and
    [HandleMeshData], over the classes [MeshTransport] and [PacketWriter] (the
    interfaces of the code).  [RoutedNetwork] connects routers along a path.
    [RoutedSession] is session.go with the sequence numbers of mesh.go: the replay
    window and the epochs.  [RoutedMesh] is mesh.go: peers, reconciliation, probes
    and the body of the receive loop; it is an instance of [MeshTransport].
    [RoutedNode] is the process [src/cmd/bpc-routed-node]: programs of kernel commands
    that may fail ([reconcile], [cleanup], the policy rule), the start, reloads and the
    packet loops over the router and the mesh.

    Shim.  [GoNet] models what the code uses of connections: short writes, limited
    readers, frames.  [WgshimCodec] is codec.go and [WgshimPath] is path.go.
    [WgshimTcp] is tcp.go: framing, the reconnecting client link and the TCP server;
    [WgshimRelay] is the plain client and server of relay.go and [WgshimAdaptive] its
    adaptive client; [WgshimFlow] is flow.go, [WgshimMulti] multi.go and
    [WgshimTransport] transport.go.

    Controller.  [ControlStore] is store.go over the class [BoltBucket], and
    [ControlLog] the finite map it implements; [ControlFsm] is fsm.go: [Apply], the
    projection to files (class [ProjectionFS]) and snapshots (class [ControlJson]);
    [ControlProjection] is the rest of fsm.go: reconciliation of the files and
    bootstrap.  [ControlNode] is node.go and reconcile.go around Raft, [ControlTls]
    the membership check of tls.go, [ControlCheckpoint] is checkpoint.go.  [ControlApi]
    is the daemon [src/cmd/bpc-controld]: its handlers over the node, the forwarding to
    the leader and the reconciliation of revisions among members and Gateways.

    P2P.  [P2pGrant] is grant.go, [P2pPolicy] is policy.go, [P2pAuthority] is
    authority.go and [P2pMux] is mux.go with the [FilterTUN] of policy.go;
    [P2pRelay] is relay.go and [P2pEndpoint] managed_endpoint.go with the client side
    of the relay.

    Agent.  [AgentConfig] is path.go, wireguard.go and the validation of control.go in
    [src/internal/agentctl]; [AgentControl] is the rest of control.go and p2p.go;
    [AgentRuntime] is the enrolment, synchronisation, recovery and update logic of
    [src/cmd/bpc-agent].  [AgentP2p] is its P2P pilot: files, pinned trust, commands and
    the inbox (p2p.go, p2p_inbox.go, p2p_setup.go); [AgentLoop] is the P2P loop, the
    workers and the supervisor of runtime.go and the start of the overlay; [AgentInstall]
    is payload.go, the installation, the Windows service and the configuration of the
    device and the interface (main.go, service_windows.go, tunnel_windows.go);
    [AgentTransport] sets up the shim from a configuration and holds the status files, the
    take-over of a legacy tunnel and the registration of the service.  [RelayCommands] is
    [src/cmd/bpc-agent-relay], [src/cmd/bpc-wgshim] and [src/cmd/bpc-p2p-relay].

    [WgshimExamples], [WgshimNetExamples], [RoutedExamples], [MeshExamples],
    [RoutedNodeExamples], [ControlExamples], [ControlNodeExamples], [ControlApiExamples],
    [P2pExamples], [P2pRelayExamples], [AgentExamples], [AgentP2pExamples] and
    [RelayExamples] instantiate the classes with small executable functions, run the
    model on concrete inputs and apply the theorems there.

    ** How the code is rendered

    Names follow the Go code; a method whose name is taken carries its receiver
    ([Mesh_Send], [Path_Validate]).  A method that changes its receiver takes and
    returns it; a lock-protected critical section is one step.  A clock reading or
    a random source is an argument.  Integers are [Z] with the wrap-around written
    where the width matters ([u64], [int64], [int64_of]); floats are binary64 with
    one rounding per operation, as on amd64.  An error carries its format string,
    not the interpolated arguments.  Go's map iteration is the order of
    [map_to_list], and a comment says where the choice is visible.  IPv6 addresses
    are represented only as far as the code rejects them.

    A system call is an argument that says whether it fails; a program of kernel commands
    is a tree with a branch for each answer.

    Recursion is structural, with fuel in four places: [GoNet.write_loop] takes the
    length of the payload, since every round writes at least one byte or returns;
    [WgshimTcp.read_frames] the length of the stream, since a frame has a header; the
    decimal printer of [AgentControl] twenty digits, enough for 64 bits; and
    [AgentInstall.fields_loop] the length of the string, of which every round takes a
    character.  Loops that wait for input (receive loops, tickers, readers) are modelled
    by their body, and the step relations ([mesh_step], [fsm_reach], [manager_reach], [policy_reach],
    [store_step], [mux_step], [link_step], [relay_step], [ctl_step], [agent_step],
    [machine_step], [loop_step], [supervisor_step], [process_step], [kernel_run],
    [process_run] and those of the shim clients) give their runs under every interleaving.

    ** What the theorems show

    Routing: a configuration is accepted exactly when it is well formed, route
    lookup is a longest-prefix match, the frame codec is exact, a frame is
    authorised exactly on its approved path, handlers fail closed, packets and
    replies are delivered end to end, and path selection fails over at once, does
    not oscillate and converges.  Links: the replay window is exact, epochs are
    learned only from fresh answers, reconciliation keeps sessions, linked Nodes
    deliver each other's payloads and a dead neighbour is dropped in time.  Shim:
    sealing and opening are inverse and authentic; the path manager keeps its
    invariant, switches only with reason, hands off and rolls back.  Controller: the
    log store reads back what was written, mutations are atomic and replay-safe, no
    address has two owners, files mirror the state and stay in their directory,
    snapshots round-trip.  P2P: grants are authentic and short-lived, the filter
    passes only the granted service and only answers to opened flows, revocation is
    permanent across restarts, checkpoints cannot be replayed, and a reserved peer
    never falls back to the gateway; the relay forwards only between the two
    authenticated sides of a session, within its bounds, and forgets a revoked one; a
    managed endpoint fails closed wherever it returns.  Shim clients and servers:
    framing survives short writes, packets fail over without loss or duplication,
    measurements are genuine, peers are isolated and reloads revoke.  Restarts: no
    Controller answers below a revision it had, reconciliation unblocks without
    changing policy, a checkpoint import is safe and what is exported can be imported,
    the TLS layer admits exactly the members of the replicated state.  Agent: it always
    restarts as the same Device and installs only signed, newer updates; its pinned P2P
    trust is never reset; an offer of the Controller reaches a session, a session runs only
    for the request read last, and nothing is authorised while none runs; a reserved peer
    stays reserved across restarts; applying a configuration restarts only what changed.
    Daemon: a mutation answered with success can be read, a removed Controller is shut out,
    a reconciliation is confirmed by every member.  Node process: the kernel's policy rule
    never stands without its unreachable default, only the Node's own entries are removed,
    and an expired policy stops all traffic.  Commands: an agent and a relay that have the
    same key understand each other, and the relay serves exactly the Devices with a key.

    Some lemmas record defects: [ControlFsm.PoisonPath.snapshot_not_restorable],
    [ControlStore.zero_time_not_preserved], [AgentExamples.Laptop.Login_mixes_controllers],
    [ControlNodeExamples.Files.stray_file_survives],
    [ControlNodeExamples.Restarts.nonvoter_removal_refused],
    [ControlApiExamples.addMember_other_record],
    [RoutedNodeExamples.SiteRouter.overlay_change_leaks] and [failed_start_leaks],
    [RoutedNodeExamples.Public.late_reload_leaks],
    [AgentP2pExamples.Supervised.apply_keeps_cancelled], [AgentInstall.copyFile_loses],
    [AgentInstall.padded_profile_refused] and [RelayCommands.zero_tcp_flows_opens_one].

    ** Not modelled

    Sockets, TLS records, goroutine scheduling inside a critical section, JSON text, Raft,
    bbolt, wireguard-go, the Windows service manager and the cryptographic primitives are
    not part of the repository (classes with laws or arguments, where used).  Left out are
    the parsing of flags and [main] functions beyond what is listed above, logging and
    statistics, the status report and HTTP servers of the daemon, the stream layer and the
    key files of tls.go, the Windows user interface (a PowerShell script in string
    constants), the credential prompt and access lists, which only call the system, and the
    Python and shell tools. *)

From Stdlib Require Export ZArith.
From Stdlib Require Import Strings.Byte.
From stdpp Require Export base tactics numbers list gmap strings sorting.

#[global] Open Scope Z_scope.

(** ** Results of Go functions

    [Ok] is a normal return with a nil error, [Err] a return with a non-nil
    error, and [Panic] a run-time panic (an index or a slice bound out of
    range).  An [Err] carries the format string of the Go error; the arguments
    interpolated into it are not kept. *)

Inductive result (A : Type) : Type :=
| Ok (a : A)
| Err (e : string)
| Panic.
Arguments Ok {A} _.
Arguments Err {A} _.
Arguments Panic {A}.

#[export] Instance result_eq_decision {A} `{EqDecision A} : EqDecision (result A).
Proof. solve_decision. Defined.

#[export] Instance result_ret : MRet result := @Ok.
#[export] Instance result_bind : MBind result := λ A B f r,
  match r with Ok a => f a | Err e => Err e | Panic => Panic end.

Definition is_ok {A} (r : result A) : bool :=
  match r with Ok _ => true | _ => false end.

(** [check b e]: an early return with error [e] when the guard [b] holds. *)
Definition check (b : bool) (e : string) : result unit :=
  if b then Err e else Ok tt.

Lemma bind_Ok {A B} (r : result A) (f : A → result B) b :
  (r ≫= f) = Ok b ↔ ∃ a, r = Ok a ∧ f a = Ok b.
Proof. destruct r; cbn; naive_solver. Qed.

Lemma check_Ok b e u : check b e = Ok u ↔ b = false.
Proof. destruct b, u; cbn; naive_solver. Qed.

Lemma check_no_panic b e : check b e ≠ Panic.
Proof. by destruct b. Qed.

Lemma check_then {A} b e (r : result A) x : (check b e ;; r) = Ok x ↔ b = false ∧ r = Ok x.
Proof. destruct b; cbn; naive_solver. Qed.

Lemma check_err {A} b e e' (r : result A) : (check b e ;; r) = Err e' → e ≠ e' → r = Err e'.
Proof. destruct b; cbn; congruence. Qed.

Lemma bind_unit_Ok (r s : result unit) : (r ;; s) = Ok tt ↔ r = Ok tt ∧ s = Ok tt.
Proof. rewrite bind_Ok. split; [intros ([] & ? & ?)|intros []]; eauto. Qed.

Lemma bind_no_panic {A B} (r : result A) (f : A → result B) :
  r ≠ Panic → (∀ a, r = Ok a → f a ≠ Panic) → (r ≫= f) ≠ Panic.
Proof. destruct r; cbn; naive_solver. Qed.

Lemma check_bind_no_panic {B} b e (r : result B) :
  (b = false → r ≠ Panic) → (check b e ;; r) ≠ Panic.
Proof. destruct b; cbn; naive_solver. Qed.

(** ** Automation *)

Create HintDb go.
Create HintDb go_bool.

#[export] Hint Rewrite andb_true_iff andb_false_iff orb_true_iff orb_false_iff
  negb_true_iff negb_false_iff Z.eqb_eq Z.eqb_neq Z.ltb_lt Z.ltb_ge
  Z.leb_le Z.leb_gt bool_decide_eq_true bool_decide_eq_false
  String.eqb_eq String.eqb_neq : go_bool.

(** Turn the boolean guards of the code into propositions. *)
Ltac guards := autorewrite with go_bool in *.

(** Destruct the scrutinee of a match in a hypothesis. *)
Ltac destr_match_in H :=
  match type of H with
  | context [match ?x with _ => _ end] => destruct x eqn:?
  end.

(** Walk the success path of a monadic computation [H : _ = Ok _]. *)
Ltac ok_step H :=
  match type of H with
  | (check _ _ ≫= _) = Ok _ =>
      let u := fresh "u" in let Hc := fresh "Hc" in
      apply bind_Ok in H; destruct H as (u & Hc & H); apply check_Ok in Hc;
      clear u
  | (_ ≫= _) = Ok _ =>
      let x := fresh "x" in let Hx := fresh "Hx" in
      apply bind_Ok in H; destruct H as (x & Hx & H)
  end.
Ltac ok_steps H := repeat (ok_step H; cbn beta in H).

(** ** Bytes *)

Abbreviation bytes := (list byte).

#[export] Instance byte_eq_decision : EqDecision byte := Byte.byte_eq_dec.

Definition byte_val (b : byte) : Z := Z.of_N (Byte.to_N b).
Definition byte_of (z : Z) : byte :=
  match Byte.of_N (Z.to_N (z mod 256)) with Some b => b | None => x00 end.

Lemma byte_val_range b : 0 <= byte_val b < 256.
Proof.
  unfold byte_val. pose proof (Byte.to_N_bounded b). lia.
Qed.

Lemma byte_of_val b : byte_of (byte_val b) = b.
Proof.
  unfold byte_of. pose proof (byte_val_range b).
  rewrite Z.mod_small by lia. unfold byte_val. rewrite N2Z.id.
  by rewrite Byte.of_to_N.
Qed.

Lemma byte_val_of z : byte_val (byte_of z) = z mod 256.
Proof.
  unfold byte_of. pose proof (Z.mod_pos_bound z 256 ltac:(lia)).
  destruct (Byte.of_N _) as [b|] eqn:E.
  - apply Byte.to_of_N in E. unfold byte_val. rewrite E. lia.
  - apply Byte.of_N_None_iff in E. lia.
Qed.

Lemma byte_val_inj a b : byte_val a = byte_val b → a = b.
Proof. intros E. by rewrite <- (byte_of_val a), E, byte_of_val. Qed.

Lemma byte_val_of_small z : 0 <= z < 256 → byte_val (byte_of z) = z.
Proof. intros. rewrite byte_val_of. by apply Z.mod_small. Qed.
#[export] Hint Resolve byte_val_range : go.

(** Go's [len], an [int]. *)
Definition zlen {A} (l : list A) : Z := Z.of_nat (length l).

Lemma zlen_app {A} (l k : list A) : zlen (l ++ k) = zlen l + zlen k.
Proof. unfold zlen. rewrite length_app. lia. Qed.
Lemma zlen_cons {A} (x : A) l : zlen (x :: l) = 1 + zlen l.
Proof. unfold zlen. cbn [length]. lia. Qed.
Lemma zlen_nil {A} : zlen (@nil A) = 0.
Proof. done. Qed.
Lemma zlen_nonneg {A} (l : list A) : 0 <= zlen l.
Proof. unfold zlen. lia. Qed.
#[export] Hint Rewrite @zlen_app @zlen_cons @zlen_nil : zlen.
#[export] Hint Resolve zlen_nonneg : go.

(** [s[i]] and [s[lo:hi]] with Go's bounds checks. *)
Definition index {A} (l : list A) (i : Z) : result A :=
  if (0 <=? i) && (i <? zlen l)
  then match l !! Z.to_nat i with Some x => Ok x | None => Panic end
  else Panic.

Definition slice {A} (l : list A) (lo hi : Z) : result (list A) :=
  if (0 <=? lo) && (lo <=? hi) && (hi <=? zlen l)
  then Ok (take (Z.to_nat (hi - lo)) (drop (Z.to_nat lo) l))
  else Panic.

Lemma index_ok {A} (l : list A) i :
  0 <= i < zlen l → ∃ x, index l i = Ok x ∧ l !! Z.to_nat i = Some x.
Proof.
  intros [H1 H2]. unfold index.
  rewrite (proj2 (Z.leb_le _ _) H1), (proj2 (Z.ltb_lt _ _) H2). cbn.
  destruct (lookup_lt_is_Some_2 l (Z.to_nat i)) as [x Hx]; [unfold zlen in *; lia|].
  rewrite Hx. eauto.
Qed.

Lemma index_app_r {A} (l k : list A) i :
  zlen l <= i → index (l ++ k) i = index k (i - zlen l).
Proof.
  intros. unfold index, zlen in *. rewrite length_app.
  destruct (Z.leb_spec 0 i), (Z.leb_spec 0 (i - Z.of_nat (length l))),
    (Z.ltb_spec i (Z.of_nat (length l + length k))),
    (Z.ltb_spec (i - Z.of_nat (length l)) (Z.of_nat (length k))); try lia; cbn; try done.
  rewrite lookup_app_r by lia.
  by replace (Z.to_nat i - length l)%nat
    with (Z.to_nat (i - Z.of_nat (length l))) by lia.
Qed.

Lemma index_cons_0 {A} (x : A) l : index (x :: l) 0 = Ok x.
Proof.
  unfold index. rewrite zlen_cons.
  pose proof (zlen_nonneg l). destruct (Z.ltb_spec 0 (1 + zlen l)); [done|lia].
Qed.

Lemma slice_ok {A} (l : list A) lo hi :
  0 <= lo <= hi → hi <= zlen l →
  slice l lo hi = Ok (take (Z.to_nat (hi - lo)) (drop (Z.to_nat lo) l)).
Proof.
  intros [H1 H2] H3. unfold slice.
  apply Z.leb_le in H1 as ->. apply Z.leb_le in H2 as ->.
  by apply Z.leb_le in H3 as ->.
Qed.

(** The slice that starts behind a known prefix. *)
Lemma slice_mid {A} (l m r : list A) lo hi :
  lo = zlen l → hi = zlen l + zlen m → slice (l ++ m ++ r) lo hi = Ok m.
Proof.
  intros -> ->.
  rewrite slice_ok; unfold zlen in *; rewrite ?length_app; [|lia..].
  rewrite Nat2Z.id, drop_app_length.
  replace (Z.to_nat _) with (length m) by lia. by rewrite take_app_length.
Qed.

(** Reading at the boundary between what was consumed and what is left. *)
Lemma index_at {A} (pre rest : list A) :
  index (pre ++ rest) (zlen pre) = match rest with [] => Panic | x :: _ => Ok x end.
Proof.
  rewrite index_app_r, Z.sub_diag by lia. destruct rest; [done|]. apply index_cons_0.
Qed.

Lemma slice_at {A} (pre rest : list A) n :
  0 <= n →
  slice (pre ++ rest) (zlen pre) (zlen pre + n)
  = if n <=? zlen rest then Ok (take (Z.to_nat n) rest) else Panic.
Proof.
  intros Hn. unfold slice. rewrite zlen_app. pose proof (zlen_nonneg pre).
  destruct (Z.leb_spec 0 (zlen pre)); [|lia].
  destruct (Z.leb_spec (zlen pre) (zlen pre + n)); [|lia]. cbn.
  destruct (Z.leb_spec n (zlen rest)), (Z.leb_spec (zlen pre + n) (zlen pre + zlen rest));
    try lia; [|done].
  replace (zlen pre + n - zlen pre) with n by lia.
  unfold zlen. by rewrite Nat2Z.id, drop_app_length.
Qed.

Lemma take_zlen {A} (l : list A) : take (Z.to_nat (zlen l)) l = l.
Proof. unfold zlen. by rewrite Nat2Z.id, firstn_all. Qed.

Lemma zlen_take {A} (l : list A) n : 0 <= n <= zlen l → zlen (take (Z.to_nat n) l) = n.
Proof. unfold zlen. rewrite length_take. lia. Qed.

Lemma index_last {A} (l : list A) x :
  2 <= zlen l → index l (zlen l - 1) = Ok x ↔ last l = Some x.
Proof.
  intros H. destruct (index_ok l (zlen l - 1)) as (y & -> & Hy); [lia|].
  rewrite last_lookup.
  replace (Init.Nat.pred (length l)) with (Z.to_nat (zlen l - 1)) by (unfold zlen in *; lia).
  rewrite Hy. naive_solver.
Qed.

(** ** Big-endian integers ([encoding/binary]) *)

Fixpoint be_encode (n : nat) (z : Z) : bytes :=
  match n with
  | O => []
  | S n' => byte_of (Z.shiftr z (8 * Z.of_nat n')) :: be_encode n' z
  end.

Definition be_decode (bs : bytes) : Z :=
  fold_left (λ acc b, acc * 256 + byte_val b) bs 0.

Lemma be_encode_length n z : length (be_encode n z) = n.
Proof. induction n; cbn; auto. Qed.

Lemma zlen_be_encode n z : zlen (be_encode n z) = Z.of_nat n.
Proof. unfold zlen. by rewrite be_encode_length. Qed.
#[export] Hint Rewrite zlen_be_encode : zlen.

Lemma be_decode_acc bs acc :
  fold_left (λ acc b, acc * 256 + byte_val b) bs acc
  = acc * 256 ^ zlen bs + be_decode bs.
Proof.
  unfold be_decode. revert acc. induction bs as [|b bs IH]; intros acc; cbn [fold_left].
  - rewrite zlen_nil. lia.
  - rewrite IH, (IH (0 * 256 + _)), zlen_cons, Z.pow_add_r by (try lia; apply zlen_nonneg).
    ring.
Qed.

Lemma be_decode_cons b bs : be_decode (b :: bs) = byte_val b * 256 ^ zlen bs + be_decode bs.
Proof. unfold be_decode at 1. cbn [fold_left]. rewrite be_decode_acc. f_equal. Qed.

Lemma be_decode_range bs : 0 <= be_decode bs < 256 ^ zlen bs.
Proof.
  induction bs as [|b bs IH]; [done|].
  rewrite be_decode_cons, zlen_cons, Z.pow_add_r by (try lia; apply zlen_nonneg).
  pose proof (byte_val_range b). nia.
Qed.

Lemma be_decode_encode n z : be_decode (be_encode n z) = z mod 256 ^ Z.of_nat n.
Proof.
  induction n as [|n IH].
  - cbn. by rewrite Z.mod_1_r.
  - cbn [be_encode]. rewrite be_decode_cons, IH, zlen_be_encode, byte_val_of.
    rewrite Z.shiftr_div_pow2 by lia.
    rewrite (Z.pow_mul_r 2 8) by lia. change (2 ^ 8) with 256.
    rewrite (Nat2Z.inj_succ n), Z.pow_succ_r by lia.
    set (P := 256 ^ Z.of_nat n). assert (0 < P) by (apply Z.pow_pos_nonneg; lia).
    rewrite (Z.mul_comm 256 P), (Z.rem_mul_r z P 256) by lia. ring.
Qed.

Lemma be_decode_encode_small n z :
  0 <= z < 256 ^ Z.of_nat n → be_decode (be_encode n z) = z.
Proof. intros. rewrite be_decode_encode. by apply Z.mod_small. Qed.

Lemma be_decode_inj bs cs :
  length bs = length cs → be_decode bs = be_decode cs → bs = cs.
Proof.
  revert cs. induction bs as [|b bs IH]; intros [|c cs] L; try done.
  injection L as L. rewrite !be_decode_cons. intros E.
  pose proof (be_decode_range bs). pose proof (be_decode_range cs).
  unfold zlen in *. rewrite L in *. set (P := 256 ^ _) in *.
  pose proof (byte_val_range b). pose proof (byte_val_range c).
  assert (byte_val b = byte_val c) as Hv by nia.
  rewrite Hv in E. f_equal; [by apply byte_val_inj|]. apply IH; [done|lia].
Qed.

Lemma be_encode_decode bs : be_encode (length bs) (be_decode bs) = bs.
Proof.
  apply be_decode_inj; [by rewrite be_encode_length|].
  apply be_decode_encode_small, be_decode_range.
Qed.

(** Elements of a list whose keys are distinct are determined by the key. *)
Lemma NoDup_fmap_eq {A B} (f : A → B) l x y :
  NoDup (f <$> l) → x ∈ l → y ∈ l → f x = f y → x = y.
Proof.
  intros N [i Hi]%list_elem_of_lookup [j Hj]%list_elem_of_lookup E.
  assert (i = j) as ->; [|congruence].
  eapply (NoDup_lookup _ _ _ (f x) N); rewrite list_lookup_fmap.
  - by rewrite Hi.
  - rewrite Hj. cbn. by rewrite E.
Qed.

(** ** Filtering *)

Lemma pair_of {A B} (x : A * B) b : x.2 = b → x = (x.1, b).
Proof. destruct x. cbn. by intros ->. Qed.

Lemma filter_ext_in {A} (P Q : A → Prop) `{∀ x, Decision (P x), ∀ x, Decision (Q x)} (l : list A) :
  (∀ x, x ∈ l → P x ↔ Q x) → filter P l = filter Q l.
Proof.
  induction l as [|x l IH]; intros E; [done|]. rewrite !filter_cons.
  rewrite IH by (intros; apply E; by right).
  pose proof (E x (list_elem_of_here _ _)). repeat case_decide; naive_solver.
Qed.

Lemma filter_none {A} (P : A → Prop) `{∀ x, Decision (P x)} (l : list A) :
  (∀ x, x ∈ l → ¬ P x) → filter P l = [].
Proof.
  induction l as [|x l IH]; intros E; [done|].
  rewrite filter_cons_False by (apply E; left). apply IH. intros y Hy. apply E. by right.
Qed.

(** ** Loops with early return *)

Fixpoint for_each {A} (f : A → result unit) (l : list A) : result unit :=
  match l with
  | [] => Ok tt
  | x :: r => f x ;; for_each f r
  end.

Lemma for_each_Ok {A} (f : A → result unit) l :
  for_each f l = Ok tt ↔ Forall (λ x, f x = Ok tt) l.
Proof.
  induction l as [|x l IH]; cbn; [by split|].
  rewrite bind_Ok, Forall_cons, <- IH. split.
  - by intros ([] & ? & ?).
  - intros [? ?]. by exists tt.
Qed.

Lemma for_each_no_panic {A} (f : A → result unit) l :
  (∀ x, x ∈ l → f x ≠ Panic) → for_each f l ≠ Panic.
Proof.
  induction l as [|x l IH]; intros H; cbn; [done|].
  destruct (f x) as [?| |] eqn:E; cbn; [|done|].
  - apply IH. intros y Hy. apply H. by right.
  - by destruct (H x (list_elem_of_here _ _)).
Qed.

(** A loop over names that rejects one it has seen before, as with the
    [map[string]struct{}] sets of the code; [f] is the check of one element and
    [key] the name recorded. *)
Fixpoint for_each_unique {A} (f : A → result unit) (key : A → string) (dup : string)
    (seen : gset string) (l : list A) : result unit :=
  match l with
  | [] => Ok tt
  | x :: r =>
      f x ;;
      check (bool_decide (key x ∈ seen)) dup ;;
      for_each_unique f key dup ({[ key x ]} ∪ seen) r
  end.

Lemma for_each_unique_Ok {A} (f : A → result unit) key dup seen l :
  for_each_unique f key dup seen l = Ok tt ↔
  Forall (λ x, f x = Ok tt) l ∧ NoDup (key <$> l) ∧ ∀ x, x ∈ l → key x ∉ seen.
Proof.
  revert seen. induction l as [|x l IH]; intros seen; cbn.
  { split; [|done]. repeat split; [constructor..|]. set_solver. }
  rewrite bind_Ok. setoid_rewrite bind_Ok.
  rewrite Forall_cons, NoDup_cons.
  split.
  - intros ([] & Hf & [] & Hc & Hr). apply check_Ok in Hc. guards.
    apply IH in Hr as (F & N & S). split_and!; [done..| |done|].
    + intros (y & Hy & Hin)%list_elem_of_fmap. apply (S y Hin). set_solver.
    + intros y [->|Hy]%elem_of_cons; [done|]. specialize (S y Hy). set_solver.
  - intros ([Hf F] & [Nx N] & S). exists tt. split; [done|]. exists tt. split.
    { apply check_Ok, bool_decide_eq_false. apply S. by left. }
    apply IH. split_and!; [done..|]. intros y Hy.
    rewrite not_elem_of_union, not_elem_of_singleton. split.
    + intros E. apply Nx, list_elem_of_fmap. by exists y.
    + apply S. by right.
Qed.

Lemma for_each_unique_no_panic {A} (f : A → result unit) key dup seen l :
  (∀ x, x ∈ l → f x ≠ Panic) → for_each_unique f key dup seen l ≠ Panic.
Proof.
  revert seen. induction l as [|x l IH]; intros seen H; cbn; [done|].
  destruct (f x) as [?| |] eqn:E; cbn; [|done|by destruct (H x (list_elem_of_here _ _))].
  case_bool_decide; cbn; [done|]. apply IH. intros y Hy. apply H. by right.
Qed.

(** ** For the evaluation of the model *)

(** The value of a run that succeeds. *)
Definition ok_or {A} (d : A) (r : result A) : A := match r with Ok x => x | _ => d end.

Lemma ok_or_eq {A} (d : A) r : is_ok r = true → r = Ok (ok_or d r).
Proof. by destruct r. Qed.

(** A byte code for countable types. *)
#[export] Program Instance byte_countable : Countable byte :=
  inj_countable Byte.to_N Byte.of_N _.
Next Obligation. apply Byte.of_to_N. Qed.

Fixpoint bits_of (p : positive) : bytes :=
  match p with xH => [] | xO q => x00 :: bits_of q | xI q => x01 :: bits_of q end.
Fixpoint of_bits (b : bytes) : positive :=
  match b with
  | [] => xH
  | x :: r => if bool_decide (x = x00) then xO (of_bits r) else xI (of_bits r)
  end.
Lemma of_bits_of p : of_bits (bits_of p) = p.
Proof. induction p as [p IH|p IH|]; cbn; by rewrite ?IH. Qed.
