(* ===== verification/GoLib.v ===== *)
(** * The parts of Go's standard library the sources use

    Times and durations ([time]), sorting ([sort.Slice]) and string helpers
    ([strings], [path/filepath], [encoding/hex]).  Nothing here maps to code of
    the repository; the components are written on top of it. *)

From Stdlib Require Import Strings.Byte.
From S2P Require Import Prelude.

(** ** [time]

    An instant is the number of nanoseconds since the Unix epoch and a duration
    a number of nanoseconds.  The wall and the monotonic reading of a Go
    [time.Time] are one number: the model has a single clock. *)

Definition millisecond : Z := 1000000.
Definition second : Z := 1000 * millisecond.
Definition minute : Z := 60 * second.

(** [time.Time{}] is 1 January of year 1. *)
Definition zero_time : Z := -62135596800 * second.
Definition time_is_zero (t : Z) : bool := t =? zero_time.

(** [Time.Sub] saturates at the range of a 64-bit [Duration]. *)
Definition time_sub (t u : Z) : Z := Z.max (- 2 ^ 63) (Z.min (2 ^ 63 - 1) (t - u)).
Definition time_unix (t : Z) : Z := t / second.
Definition unix_time (s : Z) : Z := s * second.

Lemma time_sub_small t u : - 2 ^ 63 <= t - u < 2 ^ 63 → time_sub t u = t - u.
Proof. unfold time_sub. lia. Qed.

Lemma time_sub_le t u d : - 2 ^ 63 < d < 2 ^ 63 - 1 → d <= time_sub t u ↔ d <= t - u.
Proof. unfold time_sub. lia. Qed.

Lemma time_sub_ltb t u d :
  - 2 ^ 63 < d < 2 ^ 63 - 1 → (time_sub t u <? d) = (t - u <? d).
Proof.
  intros. unfold time_sub.
  destruct (Z.ltb_spec (t - u) d); [apply Z.ltb_lt|apply Z.ltb_ge]; lia.
Qed.

(** ** [sort.Slice]

    What the documentation promises: the result is a permutation, and it is
    ordered when the comparison is a strict weak order on the elements.  The
    order of equal elements is not specified, so the components are written
    against this interface and their theorems hold for every implementation. *)

Definition strict_weak_on {A} (less : A → A → bool) (l : list A) : Prop :=
  (∀ x y, x ∈ l → y ∈ l → less x y = true → less y x = false) ∧
  (∀ x y z, x ∈ l → y ∈ l → z ∈ l → less x z = true →
     less x y = true ∨ less y z = true).

Class GoSort := {
  sort_slice : ∀ {A : Type}, (A → A → bool) → list A → list A;
  sort_slice_perm : ∀ {A} (less : A → A → bool) (l : list A),
    sort_slice less l ≡ₚ l;
  sort_slice_sorted : ∀ {A} (less : A → A → bool) (l : list A),
    strict_weak_on less l →
    StronglySorted (λ x y, less y x = false) (sort_slice less l);
}.

(** The insertion sort Go runs on slices of at most twelve elements.  [sift]
    moves a new element down the sorted prefix, which is kept in reverse. *)
Fixpoint sift {A} (less : A → A → bool) (x : A) (prefix : list A) : list A :=
  match prefix with
  | [] => [x]
  | y :: prefix' =>
      if less x y then y :: sift less x prefix' else x :: y :: prefix'
  end.

Definition insertion_sort {A} (less : A → A → bool) (l : list A) : list A :=
  reverse (fold_left (λ prefix x, sift less x prefix) l []).

Section insertion_sort.
Context {A : Type} (less : A → A → bool).

Lemma sift_perm x l : sift less x l ≡ₚ x :: l.
Proof.
  induction l as [|y l IH]; cbn; [done|].
  destruct (less x y); [|done]. rewrite IH. apply Permutation_swap.
Qed.

Lemma fold_sift_perm l acc :
  fold_left (λ prefix x, sift less x prefix) l acc ≡ₚ l ++ acc.
Proof.
  revert acc. induction l as [|x l IH]; intros acc; cbn; [done|].
  rewrite IH, sift_perm. symmetry. apply Permutation_middle.
Qed.

Lemma insertion_sort_perm l : insertion_sort less l ≡ₚ l.
Proof.
  unfold insertion_sort. rewrite reverse_Permutation, fold_sift_perm.
  by rewrite app_nil_r.
Qed.

Lemma strict_weak_on_incl l k :
  (∀ x, x ∈ l → x ∈ k) → strict_weak_on less k → strict_weak_on less l.
Proof. unfold strict_weak_on. naive_solver. Qed.

Lemma sift_sorted x l :
  strict_weak_on less (x :: l) →
  StronglySorted (λ a b, less a b = false) l →
  StronglySorted (λ a b, less a b = false) (sift less x l).
Proof.
  induction l as [|y l IH]; intros W S; cbn.
  { repeat constructor. }
  apply StronglySorted_cons in S as [Sy Sl]. rewrite Forall_forall in Sy.
  destruct W as [Wa Wn]. destruct (less x y) eqn:E.
  - apply StronglySorted_cons. split.
    + apply Forall_forall. intros z. rewrite sift_perm, elem_of_cons.
      intros [->|Hz]; [|by apply Sy]. apply Wa; [set_solver..|done].
    + apply IH; [|done]. eapply strict_weak_on_incl; [|done]. set_solver.
  - repeat (apply StronglySorted_cons; split); [|by apply Forall_forall|done].
    apply Forall_forall. intros z Hz.
    destruct (less x z) eqn:Exz; [|done]. exfalso.
    apply elem_of_cons in Hz as [->|Hz]; [congruence|].
    destruct (Wn x y z) as [?|?]; [set_solver..|done|congruence|].
    specialize (Sy z Hz). congruence.
Qed.

Lemma fold_sift_sorted l acc :
  strict_weak_on less (l ++ acc) →
  StronglySorted (λ a b, less a b = false) acc →
  StronglySorted (λ a b, less a b = false)
    (fold_left (λ prefix x, sift less x prefix) l acc).
Proof.
  revert acc. induction l as [|x l IH]; intros acc W S; cbn; [done|].
  apply IH.
  - eapply strict_weak_on_incl; [|done]. intros y.
    rewrite !elem_of_app, sift_perm. set_solver.
  - apply sift_sorted; [|done]. eapply strict_weak_on_incl; [|done]. set_solver.
Qed.

Lemma StronglySorted_reverse (R : relation A) l :
  StronglySorted (flip R) l → StronglySorted R (reverse l).
Proof.
  induction 1 as [|x l S IH F]; [constructor|].
  rewrite reverse_cons. apply StronglySorted_app_2; [|done|repeat constructor].
  intros y z Hy Hz. apply list_elem_of_singleton in Hz as ->.
  rewrite elem_of_reverse in Hy. rewrite Forall_forall in F. by apply F.
Qed.

Lemma insertion_sort_sorted l :
  strict_weak_on less l →
  StronglySorted (λ x y, less y x = false) (insertion_sort less l).
Proof.
  intros W. apply StronglySorted_reverse.
  apply fold_sift_sorted; [by rewrite app_nil_r|constructor].
Qed.
End insertion_sort.

#[export] Instance go_insertion_sort : GoSort := {|
  sort_slice := @insertion_sort;
  sort_slice_perm := @insertion_sort_perm;
  sort_slice_sorted := @insertion_sort_sorted;
|}.

Section sort_facts.
Context `{GoSort} {A : Type} (less : A → A → bool).

(** The element a client takes from the head of the sorted slice. *)
Lemma sort_slice_head l x r :
  sort_slice less l = x :: r →
  x ∈ l ∧ (strict_weak_on less l → ∀ y, y ∈ l → less y x = false).
Proof.
  intros E. split.
  - rewrite <- (sort_slice_perm less l), E. left.
  - intros W y Hy. pose proof (sort_slice_sorted less l W) as S.
    rewrite <- (sort_slice_perm less l), E in Hy.
    rewrite E in S. apply StronglySorted_cons in S as [F _].
    rewrite Forall_forall in F.
    apply elem_of_cons in Hy as [->|Hy]; [|by apply F].
    destruct (less x x) eqn:Exx; [|done].
    exfalso. destruct W as [Wa _].
    assert (x ∈ l) as Hx by (rewrite <- (sort_slice_perm less l), E; left).
    specialize (Wa x x Hx Hx Exx). congruence.
Qed.

Lemma sort_slice_nil l : sort_slice less l = [] → l = [].
Proof.
  intros E. pose proof (sort_slice_perm less l) as P. rewrite E in P.
  by apply Permutation_nil in P.
Qed.

Lemma sort_slice_elem l x : x ∈ sort_slice less l ↔ x ∈ l.
Proof. by rewrite sort_slice_perm. Qed.

Lemma sort_slice_length l : length (sort_slice less l) = length l.
Proof. by rewrite sort_slice_perm. Qed.
End sort_facts.

(** A comparison through a key into a total order is a strict weak order. *)
Lemma strict_weak_key {A} (less : A → A → bool) (key : A → Z) l :
  (∀ x y, less x y = true ↔ key x < key y) → strict_weak_on less l.
Proof.
  intros K. split.
  - intros x y _ _ Hxy. apply K in Hxy.
    destruct (less y x) eqn:E; [|done]. apply K in E. lia.
  - intros x y z _ _ _ Hxz. apply K in Hxz.
    destruct (decide (key x < key y)); [left|right]; apply K; lia.
Qed.
