(* ===== verification/GoStrings.v ===== *)
(** * Go strings: [strings], [path/filepath] and [encoding/hex]

    A Go string is a byte sequence, modelled by [string]; [[]byte(s)] and
    [string(b)] are the conversions below.  [filepath] is the Unix version. *)

From Stdlib Require Import Strings.Byte Ascii.
From S2P Require Import Prelude.

#[local] Arguments String.append : simpl nomatch.

Definition str_bytes (s : string) : bytes := String.list_byte_of_string s.
Definition bytes_str (b : bytes) : string := String.string_of_list_byte b.
Definition str_len (s : string) : Z := Z.of_nat (String.length s).

Lemma bytes_str_bytes s : bytes_str (str_bytes s) = s.
Proof. apply String.string_of_list_byte_of_string. Qed.
Lemma str_bytes_str b : str_bytes (bytes_str b) = b.
Proof. apply String.list_byte_of_string_of_list_byte. Qed.
#[export] Hint Rewrite bytes_str_bytes str_bytes_str : go.

Lemma str_bytes_length s : length (str_bytes s) = String.length s.
Proof.
  unfold str_bytes, String.list_byte_of_string. rewrite length_map.
  induction s; cbn; auto.
Qed.

Lemma zlen_str_bytes s : zlen (str_bytes s) = str_len s.
Proof. unfold zlen, str_len. by rewrite str_bytes_length. Qed.
#[export] Hint Rewrite zlen_str_bytes : zlen.

Lemma str_len_bytes b : str_len (bytes_str b) = zlen b.
Proof. by rewrite <- zlen_str_bytes, str_bytes_str. Qed.
#[export] Hint Rewrite str_len_bytes : zlen.

Lemma str_len_nonneg s : 0 <= str_len s.
Proof. unfold str_len. lia. Qed.
#[export] Hint Resolve str_len_nonneg : go.

(** ** [strings.TrimSpace]

    The UTF-8 encodings of the runes for which [unicode.IsSpace] holds. *)
Definition space_runes : list bytes :=
  [[x09]; [x0a]; [x0b]; [x0c]; [x0d]; [x20]; [xc2; x85]; [xc2; xa0];
   [xe1; x9a; x80]; [xe2; x80; x80]; [xe2; x80; x81]; [xe2; x80; x82];
   [xe2; x80; x83]; [xe2; x80; x84]; [xe2; x80; x85]; [xe2; x80; x86];
   [xe2; x80; x87]; [xe2; x80; x88]; [xe2; x80; x89]; [xe2; x80; x8a];
   [xe2; x80; xa8]; [xe2; x80; xa9]; [xe2; x80; xaf]; [xe2; x81; x9f];
   [xe3; x80; x80]].

Fixpoint strip_prefix (p b : bytes) : option bytes :=
  match p, b with
  | [], _ => Some b
  | x :: p', y :: b' => if decide (x = y) then strip_prefix p' b' else None
  | _ :: _, [] => None
  end.

Fixpoint strip_any (ps : list bytes) (b : bytes) : option bytes :=
  match ps with
  | [] => None
  | p :: ps' => match strip_prefix p b with Some r => Some r | None => strip_any ps' b end
  end.

Fixpoint trim_loop (ps : list bytes) (fuel : nat) (b : bytes) : bytes :=
  match fuel with
  | O => b
  | S fuel' => match strip_any ps b with Some r => trim_loop ps fuel' r | None => b end
  end.

Definition trim_space (s : string) : string :=
  let b := str_bytes s in
  let l := trim_loop space_runes (length b) b in
  let r := trim_loop (reverse <$> space_runes) (length l) (reverse l) in
  bytes_str (reverse r).

Definition blank (s : string) : bool := String.eqb (trim_space s) "".

(** ** Prefixes *)

Definition has_prefix (s p : string) : bool := String.prefix p s.

Fixpoint str_drop (n : nat) (s : string) : string :=
  match n, s with
  | S n', String _ s' => str_drop n' s'
  | _, _ => s
  end.

Definition trim_prefix (s p : string) : string :=
  if has_prefix s p then str_drop (String.length p) s else s.

Lemma prefix_app (p s : string) : String.prefix p (p +:+ s) = true.
Proof.
  induction p as [|c p IH]; cbn; [by destruct s|].
  destruct (ascii_dec c c); [done|congruence].
Qed.

Lemma prefix_inv (p s : string) : String.prefix p s = true → ∃ r, s = p +:+ r.
Proof.
  revert s. induction p as [|c p IH]; intros [|d s]; cbn; intros E; try done.
  - by exists "".
  - by exists (String d s).
  - destruct (ascii_dec c d) as [->|]; [|done].
    apply IH in E as [r ->]. by exists r.
Qed.

Lemma has_prefix_spec s p : has_prefix s p = true ↔ ∃ r, s = p +:+ r.
Proof.
  split; [apply prefix_inv|]. intros [r ->]. apply prefix_app.
Qed.

Lemma str_app_inj (p a b : string) : p +:+ a = p +:+ b → a = b.
Proof. induction p; cbn; [done|]. intros [=]. auto. Qed.

Lemma str_app_assoc (a b c : string) : (a +:+ b) +:+ c = a +:+ (b +:+ c).
Proof. induction a; cbn; [done|]. by f_equal. Qed.

Lemma str_app_nil (a : string) : a +:+ "" = a.
Proof. induction a; cbn; [done|]. by f_equal. Qed.

(** ** [path/filepath] *)

Definition is_slash (c : ascii) : bool := Ascii.eqb c "/"%char.

(** The components between slashes; a string has at least one. *)
Fixpoint split_slash (s : string) : list string :=
  match s with
  | EmptyString => [EmptyString]
  | String c r =>
      if is_slash c then EmptyString :: split_slash r
      else match split_slash r with
           | h :: t => String c h :: t
           | [] => [String c EmptyString]
           end
  end.

Fixpoint join_slash (l : list string) : string :=
  match l with
  | [] => ""
  | [x] => x
  | x :: r => x +:+ "/" +:+ join_slash r
  end.

(** One component of the lexical processing of [filepath.Clean]: the stack
    holds the components kept so far, the last one first. *)
Definition clean_step (rooted : bool) (stack : list string) (c : string) : list string :=
  if String.eqb c "" || String.eqb c "." then stack
  else if String.eqb c ".." then
    match stack with
    | top :: rest => if String.eqb top ".." then c :: stack else rest
    | [] => if rooted then [] else [c]
    end
  else c :: stack.

Definition clean_stack (rooted : bool) (cs : list string) : list string :=
  fold_left (clean_step rooted) cs [].

Definition is_abs (p : string) : bool := has_prefix p "/".

Definition filepath_clean (p : string) : string :=
  let comps := reverse (clean_stack (is_abs p) (split_slash p)) in
  if is_abs p then "/" +:+ join_slash comps
  else match comps with [] => "." | _ => join_slash comps end.

Definition filepath_join (a b : string) : string :=
  if String.eqb a "" then (if String.eqb b "" then "" else filepath_clean b)
  else if String.eqb b "" then filepath_clean a
  else filepath_clean (a +:+ "/" +:+ b).

Definition no_slash (c : string) : Prop := split_slash c = [c].

Lemma split_slash_cons s : ∃ h t, split_slash s = h :: t.
Proof.
  destruct s as [|c r]; cbn; [eauto|]. destruct (is_slash c); [eauto|].
  destruct (split_slash r); eauto.
Qed.

Lemma join_split s : join_slash (split_slash s) = s.
Proof.
  induction s as [|c r IH]; cbn; [done|].
  destruct (split_slash_cons r) as (h & t & E). rewrite E in *.
  destruct (is_slash c) eqn:Ec.
  - apply Ascii.eqb_eq in Ec as ->. cbn. by rewrite <- IH.
  - destruct t as [|k t]; cbn in *; by rewrite <- IH.
Qed.

Lemma split_slash_no_slash s : Forall no_slash (split_slash s).
Proof.
  unfold no_slash. induction s as [|c r IH]; cbn; [by repeat constructor|].
  destruct (is_slash c) eqn:Ec; [by constructor|].
  destruct (split_slash_cons r) as (h & t & E). rewrite E in *.
  inversion_clear IH. constructor; [|done]. cbn. by rewrite Ec, H.
Qed.

Lemma split_app_slash a s : no_slash a → split_slash (a +:+ "/" +:+ s) = a :: split_slash s.
Proof.
  unfold no_slash. induction a as [|c a IH]; cbn; [done|].
  destruct (is_slash c) eqn:Ec.
  { intros [=]. }
  destruct (split_slash_cons a) as (h & t & E). rewrite E. intros [= -> ->].
  cbn in IH. rewrite IH by done. done.
Qed.

Lemma split_join l : l ≠ [] → Forall no_slash l → split_slash (join_slash l) = l.
Proof.
  induction l as [|x l IH]; intros Hne F; [done|].
  inversion_clear F as [|?? Hx Hl].
  destruct l as [|y l]; [done|].
  change (join_slash (x :: y :: l)) with (x +:+ "/" +:+ join_slash (y :: l)).
  rewrite split_app_slash by done. by rewrite IH.
Qed.

(** What [Clean] leaves on a relative path: no empty component, no ["."], and
    [".."] only in front. *)
Definition plain_component (c : string) : Prop := c ≠ "" ∧ c ≠ "." ∧ c ≠ "..".

Definition clean_inv (stack : list string) : Prop :=
  ∃ n k, stack = k ++ replicate n ".." ∧ Forall plain_component k.

Lemma clean_step_inv rooted stack c : clean_inv stack → clean_inv (clean_step rooted stack c).
Proof.
  intros (n & k & -> & F). unfold clean_step.
  destruct (String.eqb_spec c ""); [by exists n, k|].
  destruct (String.eqb_spec c "."); [by exists n, k|]. cbn.
  destruct (String.eqb_spec c "..") as [->|].
  - destruct k as [|t k]; cbn.
    + destruct n as [|n]; cbn.
      * destruct rooted; [by exists 0%nat, []|]. by exists 1%nat, [].
      * by exists (S (S n)), [].
    + inversion_clear F as [|?? [? [? ?]]].
      destruct (String.eqb_spec t ".."); [done|]. by exists n, k.
  - exists n, (c :: k). split; [done|]. by constructor.
Qed.

Lemma clean_stack_inv rooted cs : clean_inv (clean_stack rooted cs).
Proof.
  unfold clean_stack. cut (∀ st, clean_inv st → clean_inv (fold_left (clean_step rooted) cs st)).
  { intros C. apply C. by exists 0%nat, []. }
  induction cs as [|c cs IH]; intros st I; cbn; [done|]. by apply IH, clean_step_inv.
Qed.

Lemma clean_step_sub rooted stack c x :
  x ∈ clean_step rooted stack c → x = c ∨ x ∈ stack.
Proof.
  unfold clean_step. repeat case_match; set_solver.
Qed.

Lemma clean_stack_sub rooted cs x : x ∈ clean_stack rooted cs → x ∈ cs.
Proof.
  unfold clean_stack.
  cut (∀ st, x ∈ fold_left (clean_step rooted) cs st → x ∈ cs ∨ x ∈ st).
  { intros C Hx. apply C in Hx as [?|?]; [done|set_solver]. }
  induction cs as [|c cs IH]; intros st; cbn; [auto|].
  intros [?|[->|?]%clean_step_sub]%IH; set_solver.
Qed.

Lemma clean_stack_no_slash rooted p : Forall no_slash (clean_stack rooted (split_slash p)).
Proof.
  apply Forall_forall. intros x Hx%clean_stack_sub.
  pose proof (split_slash_no_slash p) as F. rewrite Forall_forall in F. by apply F.
Qed.

(** The components of a cleaned relative path that does not start with [".."]
    are all plain. *)
Lemma clean_rel_plain p :
  is_abs p = false → filepath_clean p ≠ "." →
  head (split_slash (filepath_clean p)) ≠ Some ".." →
  Forall plain_component (split_slash (filepath_clean p)).
Proof.
  intros Ha. unfold filepath_clean. rewrite Ha.
  pose proof (clean_stack_inv false (split_slash p)) as (n & k & E & F).
  pose proof (clean_stack_no_slash false p) as NS.
  set (st := clean_stack false (split_slash p)) in *.
  destruct (reverse st) as [|h t] eqn:R; [done|].
  rewrite split_join; [|done|by rewrite <- R; apply Forall_reverse].
  rewrite <- R, E. intros _ Hh. rewrite reverse_app, reverse_replicate in *.
  destruct n as [|n]; [|done]. cbn. by apply Forall_reverse.
Qed.

(** Cleaning what is already clean does nothing. *)
Lemma clean_stack_plain rooted l st :
  Forall plain_component l →
  fold_left (clean_step rooted) l st = reverse l ++ st.
Proof.
  revert st. induction l as [|c l IH]; intros st F; cbn [fold_left]; [done|].
  inversion_clear F as [|?? (H1 & H2 & H3)]. rewrite IH by done.
  rewrite reverse_cons, <- app_assoc. cbn. f_equal. unfold clean_step.
  destruct (String.eqb_spec c ""), (String.eqb_spec c "."), (String.eqb_spec c "..");
    done.
Qed.

Lemma filepath_clean_plain q :
  Forall plain_component (split_slash q) → filepath_clean q = q.
Proof.
  intros F. unfold filepath_clean, clean_stack.
  assert (is_abs q = false) as Ha.
  { destruct (is_abs q) eqn:E; [|done]. apply has_prefix_spec in E as [r ->].
    inversion_clear F as [|?? [? _]]. done. }
  rewrite Ha, clean_stack_plain, app_nil_r, reverse_involutive by done.
  destruct (split_slash_cons q) as (h & t & E). rewrite E, <- E. apply join_split.
Qed.

(** Joining a clean absolute root, other than ["/"] itself, with a plain
    relative path only appends it. *)
Lemma split_app_no_slash_l l q :
  l ≠ [] → Forall no_slash l →
  split_slash (join_slash l +:+ "/" +:+ q) = l ++ split_slash q.
Proof.
  induction l as [|x l IH]; intros Hne F; [done|]. inversion_clear F.
  destruct l as [|y l]; [by apply split_app_slash|].
  change (join_slash (x :: y :: l)) with (x +:+ "/" +:+ join_slash (y :: l)).
  rewrite !str_app_assoc, split_app_slash by done. cbn [app]. f_equal.
  by apply IH.
Qed.

Lemma join_slash_app l k :
  l ≠ [] → k ≠ [] → join_slash (l ++ k) = join_slash l +:+ "/" +:+ join_slash k.
Proof.
  intros Hl Hk. induction l as [|x l IH]; [done|].
  destruct l as [|y l].
  - cbn. by destruct k.
  - cbn [app] in *. change (join_slash (x :: y :: l)) with (x +:+ "/" +:+ join_slash (y :: l)).
    rewrite !str_app_assoc, <- IH by done. done.
Qed.

Lemma filepath_join_plain comps q :
  comps ≠ [] → Forall plain_component comps → Forall no_slash comps →
  Forall plain_component (split_slash q) →
  filepath_join ("/" +:+ join_slash comps) q = "/" +:+ join_slash comps +:+ "/" +:+ q.
Proof.
  intros Hne Fp Fs Fq. unfold filepath_join.
  assert (String.eqb q "" = false) as ->.
  { apply String.eqb_neq. intros ->. inversion_clear Fq as [|?? [? _]]. done. }
  destruct (String.eqb_spec ("/" +:+ join_slash comps) ""); [done|].
  unfold filepath_clean.
  assert (∀ s, is_abs ("/" +:+ s) = true) as Habs.
  { intros s. apply has_prefix_spec. by exists s. }
  rewrite !str_app_assoc, Habs. f_equal. unfold clean_stack.
  change (split_slash ("/" +:+ ?x)) with ("" :: split_slash x). cbn [fold_left].
  rewrite split_app_no_slash_l by done.
  change (clean_step true [] "") with (@nil string).
  rewrite clean_stack_plain, app_nil_r, reverse_involutive by (by apply Forall_app).
  destruct (split_slash_cons q) as (h & t & E).
  rewrite join_slash_app; [|done|by rewrite E]. by rewrite join_split.
Qed.
