(* ===== verification/Float64.v ===== *)
(** * IEEE 754 binary64: Go's [float64]

    Scores, costs and round-trip times are [float64] in the code.  They are
    modelled by the binary64 instance of the Standard Library's executable
    IEEE 754 specification, so rounding, infinities and NaN behave as in Go.
    The lemmas say in which sense comparison is an order. *)

From Stdlib Require Import SpecFloat.
From S2P Require Import Prelude GoLib.

Abbreviation float64 := spec_float.

Definition fadd : float64 → float64 → float64 := SFadd 53 1024.
Definition fsub : float64 → float64 → float64 := SFsub 53 1024.
Definition fmul : float64 → float64 → float64 := SFmul 53 1024.
Definition fdiv : float64 → float64 → float64 := SFdiv 53 1024.
Definition fabs : float64 → float64 := SFabs.
Definition flt : float64 → float64 → bool := SFltb.
Definition feq : float64 → float64 → bool := SFeqb.

(** Conversion of an integer, rounded to nearest even. *)
Definition f_of_Z (z : Z) : float64 := binary_normalize 53 1024 z 0 false.
Definition f0 : float64 := f_of_Z 0.

Definition is_nan (f : float64) : bool :=
  match f with S754_nan => true | _ => false end.

#[export] Instance float64_eq_decision : EqDecision float64.
Proof. solve_decision. Defined.

(** Comparison of non-NaN numbers is the lexicographic order of a key. *)
Definition fkey (f : float64) : Z * Z * Z :=
  match f with
  | S754_nan => (0, 0, 0)
  | S754_infinity s => ((if s then -2 else 2), 0, 0)
  | S754_zero _ => (0, 0, 0)
  | S754_finite true m e => (-1, - e, - Z.pos m)
  | S754_finite false m e => (1, e, Z.pos m)
  end.

Definition key_lt (a b : Z * Z * Z) : Prop :=
  let '(a1, a2, a3) := a in let '(b1, b2, b3) := b in
  a1 < b1 ∨ (a1 = b1 ∧ (a2 < b2 ∨ (a2 = b2 ∧ a3 < b3))).

Lemma sfcompare_key x y :
  is_nan x = false → is_nan y = false →
  match SFcompare x y with
  | Some Lt => key_lt (fkey x) (fkey y)
  | Some Gt => key_lt (fkey y) (fkey x)
  | Some Eq => fkey x = fkey y
  | None => False
  end.
Proof.
  intros Hx Hy.
  destruct x as [sx|sx| |sx mx ex], y as [sy|sy| |sy my ey]; try done;
    try destruct sx; try destruct sy; unfold key_lt; cbn; try lia; try done.
  - destruct (Z.compare_spec ex ey) as [->| |]; try lia.
    fold (Pos.compare mx my). destruct (Pos.compare_spec mx my) as [->| |]; cbn; try lia; done.
  - destruct (Z.compare_spec ex ey) as [->| |]; try lia.
    fold (Pos.compare mx my). destruct (Pos.compare_spec mx my) as [->| |]; cbn; try lia; done.
Qed.

Lemma flt_key x y :
  is_nan x = false → is_nan y = false → flt x y = true ↔ key_lt (fkey x) (fkey y).
Proof.
  intros Hx Hy. unfold flt, SFltb. pose proof (sfcompare_key x y Hx Hy) as C.
  destruct (SFcompare x y) as [[]|]; [|done| |done].
  - split; [done|]. rewrite C. unfold key_lt. destruct (fkey y) as [[??]?]. lia.
  - split; [done|]. revert C. unfold key_lt.
    destruct (fkey x) as [[??]?], (fkey y) as [[??]?]. lia.
Qed.

Lemma feq_key x y :
  is_nan x = false → is_nan y = false → feq x y = true ↔ fkey x = fkey y.
Proof.
  intros Hx Hy. unfold feq, SFeqb. pose proof (sfcompare_key x y Hx Hy) as C.
  destruct (SFcompare x y) as [[]|]; [done| | |done].
  - split; [done|]. intros E. rewrite E in C. unfold key_lt in C.
    destruct (fkey y) as [[??]?]. lia.
  - split; [done|]. intros E. rewrite E in C. unfold key_lt in C.
    destruct (fkey y) as [[??]?]. lia.
Qed.

Lemma flt_nan_l y : flt S754_nan y = false.
Proof. done. Qed.
Lemma flt_nan_r x : flt x S754_nan = false.
Proof. by destruct x. Qed.

Lemma flt_not_nan x y : flt x y = true → is_nan x = false ∧ is_nan y = false.
Proof. by destruct x, y. Qed.

Ltac fkeys :=
  repeat match goal with
  | H : flt _ _ = true |- _ => apply flt_key in H; [|done..]
  | H : feq _ _ = true |- _ => apply feq_key in H; [|done..]
  end.

Lemma flt_irrefl x : flt x x = false.
Proof.
  destruct (flt x x) eqn:E; [|done]. exfalso.
  pose proof (flt_not_nan _ _ E) as [? _]. fkeys. unfold key_lt in E.
  destruct (fkey x) as [[??]?]. lia.
Qed.

Lemma flt_asym x y : flt x y = true → flt y x = false.
Proof.
  intros E. pose proof (flt_not_nan _ _ E) as [? ?].
  destruct (flt y x) eqn:E'; [|done]. exfalso. fkeys. unfold key_lt in *.
  destruct (fkey x) as [[??]?], (fkey y) as [[??]?]. lia.
Qed.

Lemma flt_neg_trans x y z :
  is_nan y = false → flt x z = true → flt x y = true ∨ flt y z = true.
Proof.
  intros Hy E. pose proof (flt_not_nan _ _ E) as [Hx Hz]. fkeys.
  rewrite !flt_key by done. unfold key_lt in *.
  destruct (fkey x) as [[??]?], (fkey y) as [[??]?], (fkey z) as [[??]?]. lia.
Qed.

Lemma feq_not_flt x y :
  is_nan x = false → is_nan y = false →
  feq x y = negb (flt x y) && negb (flt y x).
Proof.
  intros Hx Hy. apply eq_true_iff_eq.
  rewrite feq_key, andb_true_iff, !negb_true_iff, <- !not_true_iff_false, !flt_key by done.
  unfold key_lt. destruct (fkey x) as [[??]?], (fkey y) as [[??]?].
  split; [intros [=]; subst; lia|]. intros. f_equal; [f_equal|]; lia.
Qed.

Lemma feq_refl x : is_nan x = false → feq x x = true.
Proof. intros. by apply feq_key. Qed.

Lemma feq_sym x y : feq x y = feq y x.
Proof.
  destruct (is_nan x) eqn:Hx; [destruct x; try done; by destruct y|].
  destruct (is_nan y) eqn:Hy; [destruct y; try done; by destruct x|].
  rewrite !feq_not_flt by done. apply andb_comm.
Qed.

(** ** Sorting by a float and then by name

    The comparison [if a.f == b.f { return a.id < b.id }; return a.f < b.f]. *)
Definition score_less {A} (score : A → float64) (id : A → string) (a b : A) : bool :=
  if feq (score a) (score b) then String.ltb (id a) (id b) else flt (score a) (score b).

Lemma string_ltb_irrefl s : String.ltb s s = false.
Proof.
  unfold String.ltb. pose proof (String.compare_antisym s s) as E.
  by destruct (String.compare s s).
Qed.

Lemma string_ltb_leb s t : String.ltb s t = negb (String.leb t s).
Proof.
  unfold String.ltb, String.leb. rewrite String.compare_antisym.
  by destruct (String.compare t s).
Qed.

Lemma string_leb_trans s t u :
  String.leb s t = true → String.leb t u = true → String.leb s u = true.
Proof.
  intros H1 H2. apply Is_true_eq_true.
  change (String.le s u). transitivity t; by apply Is_true_eq_left.
Qed.

Lemma string_ltb_neg_trans s t u :
  String.ltb s u = true → String.ltb s t = true ∨ String.ltb t u = true.
Proof.
  rewrite !string_ltb_leb, !negb_true_iff. intros E.
  destruct (String.leb t s) eqn:E1; [|auto].
  destruct (String.leb u t) eqn:E2; [|auto].
  rewrite (string_leb_trans u t s) in E by done. done.
Qed.

Lemma string_ltb_asym s t : String.ltb s t = true → String.ltb t s = false.
Proof.
  rewrite !string_ltb_leb, negb_true_iff, negb_false_iff.
  destruct (String.leb_total s t); congruence.
Qed.

Lemma string_ltb_total s t : String.ltb s t = false → String.ltb t s = false → s = t.
Proof.
  rewrite !string_ltb_leb, !negb_false_iff. intros H1 H2. by apply String.leb_antisym.
Qed.

Lemma score_less_key {A} (score : A → float64) (id : A → string) a b :
  is_nan (score a) = false → is_nan (score b) = false →
  score_less score id a b = true ↔
    key_lt (fkey (score a)) (fkey (score b)) ∨
    (fkey (score a) = fkey (score b) ∧ String.ltb (id a) (id b) = true).
Proof.
  intros Ha Hb. unfold score_less.
  destruct (feq (score a) (score b)) eqn:E.
  - fkeys. rewrite E. split; [auto|]. intros [K|[_ ?]]; [|done].
    unfold key_lt in K. destruct (fkey (score b)) as [[??]?]. lia.
  - rewrite flt_key by done. apply not_true_iff_false in E. rewrite feq_key in E by done.
    tauto.
Qed.

Lemma key_trichotomy k1 k2 : key_lt k1 k2 ∨ k1 = k2 ∨ key_lt k2 k1.
Proof.
  unfold key_lt. destruct k1 as [[a b] c], k2 as [[d e] f].
  destruct (decide (a = d)) as [->|]; [|lia].
  destruct (decide (b = e)) as [->|]; [|lia].
  destruct (decide (c = f)) as [->|]; [auto|lia].
Qed.

Lemma score_less_strict_weak {A} (score : A → float64) (id : A → string) l :
  (∀ a, a ∈ l → is_nan (score a) = false) →
  strict_weak_on (score_less score id) l.
Proof.
  intros N. split.
  - intros x y Hx%N Hy%N. unfold score_less.
    rewrite (feq_sym (score y)). destruct (feq (score x) (score y)).
    + apply string_ltb_asym.
    + apply flt_asym.
  - intros x y z Hx%N Hy%N Hz%N. rewrite !score_less_key by done.
    intros [K|[K S]].
    + rewrite <- !flt_key in * by done.
      destruct (flt_neg_trans (score x) (score y) (score z)); auto.
    + destruct (key_trichotomy (fkey (score x)) (fkey (score y))) as [?|[E|?]];
        [auto| |rewrite K in *; auto].
      rewrite <- E, K in *. destruct (string_ltb_neg_trans (id x) (id y) (id z)); auto.
Qed.

(** Conversion to a 64-bit integer: truncation; what does not fit is the smallest
    integer, as on amd64. *)
Definition f_trunc (f : float64) : Z :=
  match f with
  | S754_zero _ => 0
  | S754_finite s m e =>
      let v := if 0 <=? e then Z.pos m * 2 ^ e else Z.pos m / 2 ^ (- e) in
      let v := if s then - v else v in
      if (- 2 ^ 63 <=? v) && (v <? 2 ^ 63) then v else - 2 ^ 63
  | _ => - 2 ^ 63
  end.
