(* ===== verification/Netip.v ===== *)
(** * [net/netip]: IPv4 addresses and prefixes

    An IPv4 address is its 32-bit value.  Every caller in the modelled code
    requires [Is4], so a string that [netip.ParsePrefix] reads as an IPv6 prefix
    is rejected here together with the malformed ones: [parse_prefix4] is
    [ParsePrefix] followed by the [Is4] test. *)

From Stdlib Require Import Ascii.
From S2P Require Import Prelude GoStrings.

Definition addr_valid (a : Z) : Prop := 0 <= a < 2 ^ 32.

Record Prefix := mkPrefix { pfx_addr : Z; pfx_bits : Z }.

#[export] Instance prefix_eq_decision : EqDecision Prefix.
Proof. solve_decision. Defined.

Definition prefix_valid (p : Prefix) : Prop :=
  addr_valid (pfx_addr p) ∧ 0 <= pfx_bits p <= 32.

(** ** Parsing *)

Definition digit_val (c : ascii) : option Z :=
  let n := Z.of_N (N_of_ascii c) in
  if (48 <=? n) && (n <=? 57) then Some (n - 48) else None.

Fixpoint parse_digits (acc : Z) (s : string) : option Z :=
  match s with
  | EmptyString => Some acc
  | String c r => d ← digit_val c; parse_digits (acc * 10 + d) r
  end.

(** A decimal number without sign or leading zero, at most [max]. *)
Definition parse_dec (max : Z) (s : string) : option Z :=
  match s with
  | EmptyString => None
  | String c r =>
      if Ascii.eqb c "0"%char && negb (String.eqb r "") then None
      else n ← parse_digits 0 s; if n <=? max then Some n else None
  end.

Fixpoint split_dot (s : string) : list string :=
  match s with
  | EmptyString => [EmptyString]
  | String c r =>
      if Ascii.eqb c "."%char then EmptyString :: split_dot r
      else match split_dot r with
           | h :: t => String c h :: t
           | [] => [String c EmptyString]
           end
  end.

Definition parse_addr4 (s : string) : option Z :=
  match split_dot s with
  | [a; b; c; d] =>
      a ← parse_dec 255 a; b ← parse_dec 255 b; c ← parse_dec 255 c;
      d ← parse_dec 255 d; Some (((a * 256 + b) * 256 + c) * 256 + d)
  | _ => None
  end.

Definition parse_prefix4 (s : string) : option Prefix :=
  match split_slash s with
  | [a; b] =>
      ip ← parse_addr4 a; bits ← parse_dec 32 b; Some (mkPrefix ip bits)
  | _ => None
  end.

Lemma digit_val_range c d : digit_val c = Some d → 0 <= d <= 9.
Proof. unfold digit_val. case_match; [|done]. guards. intros [= <-]. lia. Qed.

Lemma parse_digits_nonneg s acc n :
  0 <= acc → parse_digits acc s = Some n → 0 <= n.
Proof.
  revert acc. induction s as [|c s IH]; intros acc Ha; cbn; [intros [= <-]; lia|].
  destruct (digit_val c) as [d|] eqn:E; [|done]. cbn. apply digit_val_range in E.
  apply IH. lia.
Qed.

Lemma parse_dec_range max s n : parse_dec max s = Some n → 0 <= n <= max.
Proof.
  destruct s as [|c r]; [done|]. unfold parse_dec. case_match; [done|].
  destruct (parse_digits 0 (String c r)) as [m|] eqn:E; [|done]. cbn.
  destruct (Z.leb_spec m max); [|done]. intros [= <-].
  apply parse_digits_nonneg in E; lia.
Qed.

Lemma parse_addr4_valid s a : parse_addr4 s = Some a → addr_valid a.
Proof.
  unfold parse_addr4, addr_valid. intros E. repeat case_match; try done.
  repeat match type of E with
  | (?x ≫= _) = Some _ => destruct x eqn:?; [|done]; cbn in E
  end.
  repeat match goal with
  | H : parse_dec _ _ = Some _ |- _ => apply parse_dec_range in H
  end.
  injection E as <-. lia.
Qed.

Lemma parse_prefix4_valid s p : parse_prefix4 s = Some p → prefix_valid p.
Proof.
  unfold parse_prefix4, prefix_valid. intros E. repeat case_match; try done.
  destruct (parse_addr4 _) eqn:Ea; [|done]. cbn in E.
  destruct (parse_dec 32 _) eqn:Eb; [|done]. cbn in E. injection E as <-.
  split; [by eapply parse_addr4_valid|by eapply parse_dec_range].
Qed.

(** ** Operations *)

(** [Prefix.Contains] on two IPv4 values. *)
Definition prefix_contains (p : Prefix) (a : Z) : bool :=
  Z.shiftr (Z.lxor a (pfx_addr p)) (32 - pfx_bits p) =? 0.

Definition mask_addr (a bits : Z) : Z :=
  Z.shiftl (Z.shiftr a (32 - bits)) (32 - bits).

Definition prefix_masked (p : Prefix) : Prefix :=
  mkPrefix (mask_addr (pfx_addr p) (pfx_bits p)) (pfx_bits p).

Definition prefix_overlaps (p o : Prefix) : bool :=
  if bool_decide (p = o) then true
  else
    let min_bits := Z.min (pfx_bits p) (pfx_bits o) in
    if min_bits =? 0 then true
    else mask_addr (pfx_addr p) min_bits =? mask_addr (pfx_addr o) min_bits.

(** [Addr.IsPrivate] on IPv4 (RFC 1918). *)
Definition addr_is_private (a : Z) : bool :=
  (Z.shiftr a 24 =? 10)
  || ((Z.shiftr a 24 =? 172) && (Z.land (Z.shiftr a 16) 240 =? 16))
  || ((Z.shiftr a 24 =? 192) && (Z.land (Z.shiftr a 16) 255 =? 168)).

Lemma prefix_contains_spec p a :
  prefix_contains p a = true ↔
  Z.shiftr a (32 - pfx_bits p) = Z.shiftr (pfx_addr p) (32 - pfx_bits p).
Proof.
  unfold prefix_contains. rewrite Z.eqb_eq, Z.shiftr_lxor.
  split; [apply Z.lxor_eq|]. intros ->. apply Z.lxor_nilpotent.
Qed.

Lemma mask_addr_eq a b bits :
  0 <= bits <= 32 →
  mask_addr a bits = mask_addr b bits ↔ Z.shiftr a (32 - bits) = Z.shiftr b (32 - bits).
Proof.
  intros. unfold mask_addr. split; [|by intros ->]. intros E.
  apply (f_equal (λ z, Z.shiftr z (32 - bits))) in E.
  by rewrite !Z.shiftr_shiftl_l, Z.sub_diag, !Z.shiftl_0_r in E by lia.
Qed.

Lemma shiftr_coarser a b j k :
  0 <= j <= k → Z.shiftr a j = Z.shiftr b j → Z.shiftr a k = Z.shiftr b k.
Proof.
  intros H E. replace k with (j + (k - j)) by lia.
  by rewrite <- !Z.shiftr_shiftr, E by lia.
Qed.

Lemma prefix_contains_self p : prefix_contains p (pfx_addr p) = true.
Proof. by apply prefix_contains_spec. Qed.

Lemma prefix_masked_contains p a :
  0 <= pfx_bits p <= 32 → prefix_contains (prefix_masked p) a = prefix_contains p a.
Proof.
  intros H. apply eq_true_iff_eq. rewrite !prefix_contains_spec. cbn.
  assert (Z.shiftr (mask_addr (pfx_addr p) (pfx_bits p)) (32 - pfx_bits p)
          = Z.shiftr (pfx_addr p) (32 - pfx_bits p)) as ->; [|done].
  unfold mask_addr. by rewrite Z.shiftr_shiftl_l, Z.sub_diag, Z.shiftl_0_r by lia.
Qed.

Lemma mask_addr_valid a bits : addr_valid a → 0 <= bits <= 32 → addr_valid (mask_addr a bits).
Proof.
  unfold addr_valid, mask_addr. intros Ha Hb.
  rewrite Z.shiftl_mul_pow2, Z.shiftr_div_pow2 by lia.
  pose proof (Z.pow_pos_nonneg 2 (32 - bits)).
  pose proof (Z.mul_div_le a (2 ^ (32 - bits))). split.
  - apply Z.mul_nonneg_nonneg; [apply Z.div_pos|]; lia.
  - lia.
Qed.

Lemma prefix_masked_valid p : prefix_valid p → prefix_valid (prefix_masked p).
Proof. intros [? ?]. split; [by apply mask_addr_valid|done]. Qed.

Lemma shiftr_32 a : addr_valid a → Z.shiftr a 32 = 0.
Proof. unfold addr_valid. intros. rewrite Z.shiftr_div_pow2 by lia. by apply Z.div_small. Qed.

Lemma prefix_overlaps_sym p o : prefix_overlaps p o = prefix_overlaps o p.
Proof.
  unfold prefix_overlaps. rewrite (Z.min_comm (pfx_bits o)).
  rewrite (bool_decide_ext (o = p) (p = o)) by naive_solver.
  case_bool_decide; [done|]. case_match; [done|]. apply Z.eqb_sym.
Qed.

(** Two prefixes overlap exactly when some address is in both. *)
Lemma prefix_overlaps_spec p o :
  prefix_valid p → prefix_valid o →
  prefix_overlaps p o = true ↔
  ∃ a, addr_valid a ∧ prefix_contains p a = true ∧ prefix_contains o a = true.
Proof.
  intros [Ap Bp] [Ao Bo].
  set (m := Z.min (pfx_bits p) (pfx_bits o)).
  assert (prefix_overlaps p o = true ↔
          Z.shiftr (pfx_addr p) (32 - m) = Z.shiftr (pfx_addr o) (32 - m)) as ->.
  { unfold prefix_overlaps. fold m. case_bool_decide as E; [by subst|].
    destruct (Z.eqb_spec m 0) as [->|].
    - by rewrite !shiftr_32 by done.
    - rewrite Z.eqb_eq. apply mask_addr_eq. lia. }
  setoid_rewrite prefix_contains_spec. split.
  - intros E. destruct (Z.le_gt_cases (pfx_bits p) (pfx_bits o)).
    + exists (pfx_addr o). replace m with (pfx_bits p) in E by lia. eauto.
    + exists (pfx_addr p). replace m with (pfx_bits o) in E by lia. eauto.
  - intros (a & _ & Ep & Eo).
    transitivity (Z.shiftr a (32 - m)); [symmetry|];
      (eapply shiftr_coarser; [|done]); lia.
Qed.

(** The containment test of a grant against a route: the route's addresses are
    addresses of the grant. *)
Lemma prefix_contains_sub g p a :
  0 <= pfx_bits g <= pfx_bits p → pfx_bits p <= 32 →
  prefix_contains g (pfx_addr p) = true → prefix_contains p a = true →
  prefix_contains g a = true.
Proof.
  rewrite !prefix_contains_spec. intros ?? E1 E2. rewrite <- E1.
  eapply shiftr_coarser; [|done]. lia.
Qed.

Example parse_prefix4_ok :
  parse_prefix4 "10.77.0.0/16" = Some (mkPrefix 172818432 16).
Proof. reflexivity. Qed.

Example parse_prefix4_bad :
  parse_prefix4 <$> ["10.0.0.0/33"; "10.0.0/8"; "010.0.0.0/8"; "10.0.0.0/08"; "10.0.0.0";
                     "::1/128"; "10.0.0.0.1/8"; "256.0.0.0/8"; "/8"; ""]
  = replicate 10 None.
Proof. reflexivity. Qed.
