(* ===== verification/GoEncoding.v ===== *)
(** * [encoding/base64] and [encoding/hex]

    [base64.StdEncoding]: the decoder skips carriage returns and newlines,
    requires padding, and ignores the unused low bits of the last digit. *)

From Stdlib Require Import Strings.Byte Ascii.
From S2P Require Import Prelude GoStrings.

Definition b64_digit (z : Z) : byte :=
  byte_of (if z <? 26 then 65 + z
           else if z <? 52 then 71 + z
           else if z <? 62 then z - 4
           else if z =? 62 then 43 else 47).

Definition b64_value (b : byte) : option Z :=
  let c := byte_val b in
  if (65 <=? c) && (c <=? 90) then Some (c - 65)
  else if (97 <=? c) && (c <=? 122) then Some (c - 71)
  else if (48 <=? c) && (c <=? 57) then Some (c + 4)
  else if c =? 43 then Some 62
  else if c =? 47 then Some 63
  else None.

Definition b64_pad : byte := x3d.

Fixpoint b64_encode (l : bytes) : bytes :=
  match l with
  | [] => []
  | [a] =>
      let n := byte_val a * 65536 in
      [b64_digit (n / 262144); b64_digit (n / 4096 mod 64); b64_pad; b64_pad]
  | [a; b] =>
      let n := byte_val a * 65536 + byte_val b * 256 in
      [b64_digit (n / 262144); b64_digit (n / 4096 mod 64); b64_digit (n / 64 mod 64); b64_pad]
  | a :: b :: c :: r =>
      let n := byte_val a * 65536 + byte_val b * 256 + byte_val c in
      b64_digit (n / 262144) :: b64_digit (n / 4096 mod 64) :: b64_digit (n / 64 mod 64)
        :: b64_digit (n mod 64) :: b64_encode r
  end.

Fixpoint b64_quanta (l : bytes) : option bytes :=
  match l with
  | [] => Some []
  | a :: b :: c :: d :: r =>
      if decide (c = b64_pad) then
        if decide (d = b64_pad ∧ r = []) then
          a ← b64_value a; b ← b64_value b;
          Some [byte_of ((a * 64 + b) / 16)]
        else None
      else if decide (d = b64_pad) then
        if decide (r = []) then
          a ← b64_value a; b ← b64_value b; c ← b64_value c;
          Some [byte_of ((a * 64 + b) / 16); byte_of (((a * 64 + b) * 64 + c) / 4)]
        else None
      else
        a ← b64_value a; b ← b64_value b; c ← b64_value c; d ← b64_value d;
        let n := ((a * 64 + b) * 64 + c) * 64 + d in
        rest ← b64_quanta r;
        Some (byte_of (n / 65536) :: byte_of (n / 256) :: byte_of n :: rest)
  | _ => None
  end.

Definition b64_newline (b : byte) : bool := bool_decide (b = x0a ∨ b = x0d).

Definition base64_decode (s : string) : option bytes :=
  b64_quanta (List.filter (λ b, negb (b64_newline b)) (str_bytes s)).
Definition base64_encode (b : bytes) : string := bytes_str (b64_encode b).

(** ** Hexadecimal *)

Definition hex_digit (z : Z) : byte := byte_of (if z <? 10 then 48 + z else 87 + z).

Definition hex_value (b : byte) : option Z :=
  let c := byte_val b in
  if (48 <=? c) && (c <=? 57) then Some (c - 48)
  else if (97 <=? c) && (c <=? 102) then Some (c - 87)
  else if (65 <=? c) && (c <=? 70) then Some (c - 55)
  else None.

Fixpoint hex_bytes (l : bytes) : bytes :=
  match l with
  | [] => []
  | b :: r => hex_digit (byte_val b / 16) :: hex_digit (byte_val b mod 16) :: hex_bytes r
  end.

Definition hex_encode (b : bytes) : string := bytes_str (hex_bytes b).

Fixpoint hex_decode_bytes (l : bytes) : option bytes :=
  match l with
  | [] => Some []
  | a :: b :: r =>
      a ← hex_value a; b ← hex_value b; rest ← hex_decode_bytes r;
      Some (byte_of (a * 16 + b) :: rest)
  | [_] => None
  end.

Definition hex_decode (s : string) : option bytes := hex_decode_bytes (str_bytes s).

(** ** Round trips *)

Lemma byte_of_eq z b : z mod 256 = byte_val b → byte_of z = b.
Proof. intros E. apply byte_val_inj. by rewrite byte_val_of. Qed.

Lemma hex_value_digit z : 0 <= z < 16 → hex_value (hex_digit z) = Some z.
Proof.
  intros H. assert (z ∈ seqZ 0 16) as Hz by (apply elem_of_seqZ; lia). clear H.
  revert z Hz. apply Forall_forall, (bool_decide_unpack _). by vm_compute.
Qed.

Lemma hex_roundtrip b : hex_decode (hex_encode b) = Some b.
Proof.
  unfold hex_decode, hex_encode. rewrite str_bytes_str.
  induction b as [|x b IH]; [done|]. cbn [hex_bytes hex_decode_bytes].
  pose proof (byte_val_range x).
  assert (0 <= byte_val x / 16 < 16) by (Z.to_euclidean_division_equations; lia).
  assert (0 <= byte_val x mod 16 < 16) by (apply Z.mod_pos_bound; lia).
  rewrite !hex_value_digit by done. cbn.
  rewrite IH. cbn. do 2 f_equal. apply byte_of_eq.
  Z.to_euclidean_division_equations. lia.
Qed.

Lemma hex_encode_inj a b : hex_encode a = hex_encode b → a = b.
Proof.
  intros E. apply (f_equal hex_decode) in E. rewrite !hex_roundtrip in E. by injection E.
Qed.

Lemma b64_value_digit z :
  0 <= z < 64 → b64_value (b64_digit z) = Some z ∧ b64_digit z ≠ b64_pad
               ∧ b64_newline (b64_digit z) = false.
Proof.
  intros H. assert (z ∈ seqZ 0 64) as Hz by (apply elem_of_seqZ; lia). clear H.
  revert z Hz. apply Forall_forall, (bool_decide_unpack _). by vm_compute.
Qed.

(** The four digits of a 24-bit group. *)
Lemma b64_digits_range n :
  0 <= n < 16777216 →
  0 <= n / 262144 < 64 ∧ 0 <= n / 4096 mod 64 < 64 ∧ 0 <= n / 64 mod 64 < 64
  ∧ 0 <= n mod 64 < 64.
Proof.
  intros. split_and!; try (apply Z.mod_pos_bound; lia).
  - apply Z.div_pos; lia.
  - apply Z.div_lt_upper_bound; lia.
Qed.

Lemma list_ind3 {A} (P : list A → Prop) :
  P [] → (∀ a, P [a]) → (∀ a b, P [a; b]) →
  (∀ a b c r, P r → P (a :: b :: c :: r)) → ∀ l, P l.
Proof.
  intros H0 H1 H2 H3.
  assert (∀ l, P l ∧ (∀ a, P (a :: l)) ∧ (∀ a b, P (a :: b :: l))) as H.
  { induction l as [|x l (IH0 & IH1 & IH2)]; [auto|]. split_and!; auto. }
  intros l. apply H.
Qed.

Ltac b64_digits n :=
  let R := fresh in
  pose proof (b64_digits_range n ltac:(lia)) as R;
  destruct R as (R & ?); destruct (b64_value_digit _ R) as (? & ? & ?);
  repeat match goal with
  | H : 0 <= n / _ mod 64 < 64 ∧ _ |- _ =>
      let Q := fresh in destruct H as [Q H]; destruct (b64_value_digit _ Q) as (? & ? & ?)
  | H : 0 <= n mod 64 < 64 |- _ =>
      destruct (b64_value_digit _ H) as (? & ? & ?); clear H
  end.

Lemma b64_encode_no_newline l :
  List.filter (λ b, negb (b64_newline b)) (b64_encode l) = b64_encode l.
Proof.
  induction l as [|a|a b|a b c r IH] using list_ind3; [done|..].
  - pose proof (byte_val_range a). cbn [b64_encode].
    set (n := _ * 65536). b64_digits n. cbn.
    by repeat match goal with E : b64_newline _ = false |- _ => rewrite E; clear E end.
  - pose proof (byte_val_range a). pose proof (byte_val_range b). cbn [b64_encode].
    set (n := _ + _). b64_digits n. cbn.
    by repeat match goal with E : b64_newline _ = false |- _ => rewrite E; clear E end.
  - pose proof (byte_val_range a). pose proof (byte_val_range b).
    pose proof (byte_val_range c). cbn [b64_encode].
    set (n := _ + _). b64_digits n. cbn.
    repeat match goal with E : b64_newline _ = false |- _ => rewrite E; clear E end.
    cbn. by rewrite IH.
Qed.

Lemma b64_quanta_encode l : b64_quanta (b64_encode l) = Some l.
Proof.
  induction l as [|a|a b|a b c r IH] using list_ind3; [done|..].
  - pose proof (byte_val_range a). cbn [b64_encode].
    set (n := _ * 65536). b64_digits n. cbn [b64_quanta].
    rewrite decide_True by done. rewrite decide_True by done.
    repeat match goal with E : b64_value _ = Some _ |- _ => rewrite E; clear E; cbn end.
    do 2 f_equal. apply byte_of_eq. subst n. Z.to_euclidean_division_equations. lia.
  - pose proof (byte_val_range a). pose proof (byte_val_range b). cbn [b64_encode].
    set (n := _ + _). b64_digits n. cbn [b64_quanta].
    rewrite decide_False by done. rewrite !decide_True by done.
    repeat match goal with E : b64_value _ = Some _ |- _ => rewrite E; clear E; cbn end.
    do 2 f_equal; [|f_equal]; apply byte_of_eq; subst n;
      Z.to_euclidean_division_equations; lia.
  - pose proof (byte_val_range a). pose proof (byte_val_range b).
    pose proof (byte_val_range c). cbn [b64_encode].
    set (n := _ + _). b64_digits n. cbn [b64_quanta].
    rewrite !decide_False by done.
    repeat match goal with E : b64_value _ = Some _ |- _ => rewrite E; clear E; cbn end.
    rewrite IH. cbn. do 2 f_equal; [|f_equal; [|f_equal]]; apply byte_of_eq; subst n;
      Z.to_euclidean_division_equations; lia.
Qed.

Lemma base64_roundtrip b : base64_decode (base64_encode b) = Some b.
Proof.
  unfold base64_decode, base64_encode.
  by rewrite str_bytes_str, b64_encode_no_newline, b64_quanta_encode.
Qed.
