(* ===== verification/Crypto.v ===== *)
(** * Cryptographic primitives

    The packages [crypto/aes], [crypto/cipher], [crypto/hmac], [crypto/sha256] and
    [crypto/ed25519] are not part of the repository.  Their operations are the
    methods of classes, with the documented facts the code relies on as laws.
    The instances at the end are small executable functions that satisfy the
    laws; they give no secrecy and serve to evaluate the model. *)

From Stdlib Require Import Strings.Byte.
From S2P Require Import Prelude GoStrings.

(** [crypto/rand.Reader] and the other sources of random bytes are the bytes
    still to be read; [io.ReadFull] takes a block or fails at the end. *)
Definition read_full {A} (random : list A) (n : nat) : option (list A * list A) :=
  if (n <=? length random)%nat then Some (take n random, drop n random) else None.

Lemma read_full_Some {A} (random : list A) n out rest :
  read_full random n = Some (out, rest) ↔ random = out ++ rest ∧ length out = n.
Proof.
  unfold read_full. destruct (Nat.leb_spec n (length random)).
  - split.
    + intros [= <- <-]. by rewrite take_drop, length_take_le.
    + intros [-> <-]. by rewrite take_app_length, drop_app_length.
  - split; [done|]. intros [-> <-]. rewrite length_app in *. lia.
Qed.

(** AES-GCM as [cipher.AEAD]: a key is accepted when it has an AES length; a
    sealed text is [Overhead] bytes longer; and opening is the exact inverse of
    sealing, which is deterministic for a nonce, a key and additional data. *)
Class AesGcm := {
  aead : Type;
  new_gcm : bytes → option aead;
  aead_seal : aead → bytes → bytes → bytes → bytes;
  aead_open : aead → bytes → bytes → bytes → option bytes;
  new_gcm_key : ∀ key, is_Some (new_gcm key) ↔
    length key = 16%nat ∨ length key = 24%nat ∨ length key = 32%nat;
  aead_seal_length : ∀ a nonce plaintext ad,
    length (aead_seal a nonce plaintext ad) = (length plaintext + 16)%nat;
  aead_open_iff : ∀ a nonce ciphertext ad plaintext,
    aead_open a nonce ciphertext ad = Some plaintext ↔
    ciphertext = aead_seal a nonce plaintext ad;
}.

Class Hashes := {
  sha256 : bytes → bytes;
  hmac_sha256 : bytes → bytes → bytes;
  sha256_length : ∀ b, length (sha256 b) = 32%nat;
  hmac_sha256_length : ∀ k b, length (hmac_sha256 k b) = 32%nat;
}.

(** ** Executable instances *)

Definition toy_tag (n : nat) (b : bytes) : bytes := be_encode n (be_decode b).

Definition toy_open (key nonce ciphertext ad : bytes) : option bytes :=
  let n := (length ciphertext - 16)%nat in
  let plaintext := take n ciphertext in
  if bool_decide (16 <= length ciphertext)%nat
     && bool_decide (drop n ciphertext = toy_tag 16 (nonce ++ plaintext ++ ad ++ key))
  then Some plaintext else None.

Definition toy_seal (key nonce plaintext ad : bytes) : bytes :=
  plaintext ++ toy_tag 16 (nonce ++ plaintext ++ ad ++ key).

Definition aes_key (key : bytes) : option bytes :=
  if bool_decide (length key = 16%nat ∨ length key = 24%nat ∨ length key = 32%nat)
  then Some key else None.

Lemma toy_open_iff key nonce c ad p :
  toy_open key nonce c ad = Some p ↔ c = toy_seal key nonce p ad.
Proof.
  unfold toy_open, toy_seal, toy_tag. split.
  - destruct (_ && _) eqn:G; [|done]. apply andb_true_iff in G as [_ G].
    apply bool_decide_eq_true in G. intros [= <-]. by rewrite <- G, take_drop.
  - intros ->. rewrite length_app, be_encode_length.
    replace (length p + 16 - 16)%nat with (length p) by lia.
    rewrite take_app_length, drop_app_length, !bool_decide_eq_true_2; [done|done|lia].
Qed.

#[export] Program Instance toy_gcm : AesGcm := {|
  aead := bytes; new_gcm := aes_key; aead_seal := toy_seal; aead_open := toy_open;
|}.
Next Obligation.
  intros key. unfold aes_key. case_bool_decide; [by split|].
  split; [by intros [? ?]|done].
Qed.
Next Obligation. intros. unfold toy_seal, toy_tag. by rewrite length_app, be_encode_length. Qed.
Next Obligation. intros. apply toy_open_iff. Qed.

#[export] Program Instance toy_hashes : Hashes := {|
  sha256 := toy_tag 32; hmac_sha256 := λ k b, toy_tag 32 (k ++ b);
|}.
Next Obligation. intros. apply be_encode_length. Qed.
Next Obligation. intros. apply be_encode_length. Qed.
