(* ===== verification/GoNet.v ===== *)
(** * The parts of Go's [net], [io] and [sync/atomic] the transports use

    Sockets are classes: a write changes the socket and may fail; what arrives is
    the argument of the handler that reads it.  An error is its outermost text
    together with whether [errors.Is(err, net.ErrClosed)] holds of it. *)

From Stdlib Require Import Strings.Byte.
From S2P Require Import Prelude.

Record net_error := mkNetError { error_text : string; error_closed : bool }.

#[export] Instance net_error_eq_decision : EqDecision net_error.
Proof. solve_decision. Defined.

(** [errors.New] and [fmt.Errorf] with [%w]. *)
Definition new_error (text : string) : net_error := mkNetError text false.
Definition wrap_error (text : string) (e : net_error) : net_error := mkNetError text (error_closed e).

(** How one iteration of a goroutine's loop ends: it goes on, it returns silently,
    it returns after sending a (possibly nil) error to the error channel, or it
    panics. *)
Inductive outcome := Continue | Return | Stop (e : option net_error) | Crash.

#[export] Instance outcome_eq_decision : EqDecision outcome.
Proof. solve_decision. Defined.

(** An address is only sent to, copied and printed. *)
Class NetAddr (A : Type) := { addr_string : A → string }.

(** [net.UDPConn]: unconnected ([WriteToUDP]) and connected ([Write]). *)
Class UDPSocket (A C : Type) := { WriteTo : C → bytes → A → C * option net_error }.
Class UDPLink (C : Type) := { LinkWrite : C → bytes → C * option net_error }.

(** [io.Writer]: a write appends a prefix of its argument to what was written and
    reports the length of the prefix.  The code does not rely on a short write
    being reported as an error. *)
Class Writer (W : Type) := {
  Write : W → bytes → W * Z * option net_error;
  written : W → bytes;
  Write_bounds : ∀ w p, 0 <= (Write w p).1.2 <= zlen p;
  Write_appends : ∀ w p,
    written (Write w p).1.1 = written w ++ take (Z.to_nat (Write w p).1.2) p;
}.

(** The loops that write a buffer to an [io.Writer].  [stalled] is the test on the
    length of a write that ends the loop with the error [stall].  An iteration that
    does not return writes at least one byte, so [length payload] iterations are
    enough ([write_loop_spec]); [None] is the fuel running out. *)
Section write_loop.
Context {W : Type} `{WR : Writer W} (stalled : Z → bool) (stall : string).

Fixpoint write_loop (fuel : nat) (w : W) (payload : bytes) : option (W * result unit) :=
  match payload with
  | [] => Some (w, Ok tt)
  | _ =>
      match fuel with
      | O => None
      | S fuel =>
          match Write w payload with
          | (w, n, Some e) => Some (w, Err (error_text e))
          | (w, n, None) =>
              if stalled n then Some (w, Err stall)
              else match slice payload n (zlen payload) with
                   | Ok rest => write_loop fuel w rest
                   | Err e => Some (w, Err e)
                   | Panic => Some (w, Panic)
                   end
          end
      end
  end.

Lemma write_loop_spec fuel w p :
  (∀ n, 0 <= n → stalled n = false → 0 < n) →
  (length p <= fuel)%nat →
  ∃ w' r, write_loop fuel w p = Some (w', r) ∧ r ≠ Panic ∧
    ∃ sent rest, p = sent ++ rest ∧ written w' = written w ++ sent ∧ (r = Ok tt → rest = []).
Proof.
  intros St. revert w p. induction fuel as [|fuel IH]; intros w [|b p] L; cbn in L; try lia.
  1, 2: exists w, (Ok tt); split_and!; [done..|]; exists [], []; split_and!; by rewrite ?app_nil_r.
  cbn [write_loop]. pose proof (Write_bounds w (b :: p)) as Hn.
  pose proof (Write_appends w (b :: p)) as Ha.
  destruct (Write w (b :: p)) as [[w1 n] [e|]]; cbn in Hn, Ha.
  - exists w1, (Err (error_text e)). split_and!; [done..|].
    exists (take (Z.to_nat n) (b :: p)), (drop (Z.to_nat n) (b :: p)). by rewrite take_drop.
  - destruct (stalled n) eqn:E.
    { exists w1, (Err stall). split_and!; [done..|].
      exists (take (Z.to_nat n) (b :: p)), (drop (Z.to_nat n) (b :: p)). by rewrite take_drop. }
    assert (0 < n) by (apply St; [lia|done]).
    rewrite slice_ok by lia. rewrite take_ge by (rewrite length_drop; unfold zlen; lia).
    destruct (IH w1 (drop (Z.to_nat n) (b :: p))) as (w2 & r & -> & Hr & sent & rest & E2 & Hw & Hl).
    { rewrite length_drop. cbn. lia. }
    exists w2, r. split_and!; [done..|]. exists (take (Z.to_nat n) (b :: p) ++ sent), rest.
    rewrite <- app_assoc, <- E2, take_drop, Hw, Ha, <- app_assoc. done.
Qed.

(** What every write preserves, the loop preserves. *)
Lemma write_loop_preserves (Q : W → Prop) fuel w p w' r :
  (∀ w p, Q w → Q (Write w p).1.1) → Q w → write_loop fuel w p = Some (w', r) → Q w'.
Proof.
  intros St. revert w p. induction fuel as [|fuel IH]; intros w [|b p] H E; cbn [write_loop] in E.
  1-3: naive_solver.
  pose proof (St w (b :: p) H) as H1. destruct (Write w (b :: p)) as [[w1 n] [e|]]; cbn in H1.
  { naive_solver. }
  destruct (stalled n); [naive_solver|].
  destruct (slice (b :: p) n (zlen (b :: p))); naive_solver.
Qed.
End write_loop.

(** [io.ReadFull] on what is still to arrive on a connection. *)
Definition read_exact (stream : bytes) (n : Z) : result (bytes * bytes) :=
  if zlen stream <? n then Err "unexpected EOF"
  else Ok (take (Z.to_nat n) stream, drop (Z.to_nat n) stream).

Lemma read_exact_Ok s n out rest :
  0 <= n → read_exact s n = Ok (out, rest) ↔ s = out ++ rest ∧ zlen out = n.
Proof.
  intros Hn. unfold read_exact. destruct (Z.ltb_spec (zlen s) n).
  - split; [done|]. intros [-> <-]. rewrite zlen_app in *. pose proof (zlen_nonneg rest). lia.
  - split.
    + intros [= <- <-]. rewrite take_drop, zlen_take by lia. done.
    + intros [-> <-]. unfold zlen. by rewrite Nat2Z.id, take_app_length, drop_app_length.
Qed.

Lemma read_exact_no_panic s n : read_exact s n ≠ Panic.
Proof. unfold read_exact. by destruct (_ <? _). Qed.

(** What [io.LimitReader] lets through. *)
Definition limit_reader (n : Z) (raw : bytes) : bytes :=
  if zlen raw <=? n then raw else take (Z.to_nat n) raw.

Lemma limit_reader_take n raw : limit_reader n raw = take (Z.to_nat n) raw.
Proof.
  unfold limit_reader. destruct (Z.leb_spec (zlen raw) n); [|done].
  rewrite take_ge; [done|]. unfold zlen in *. lia.
Qed.

(** Reading one byte more than the limit tells whether everything was read. *)
Lemma limit_reader_whole n raw : 0 <= n → zlen (limit_reader (n + 1) raw) <= n → limit_reader (n + 1) raw = raw.
Proof.
  intros Hn. unfold limit_reader. destruct (Z.leb_spec (zlen raw) (n + 1)); [done|]. rewrite zlen_take; lia.
Qed.

(** A frame: a four-byte big-endian length and the payload. *)
Definition tcp_frame (payload : bytes) : bytes := be_encode 4 (zlen payload) ++ payload.

Lemma zlen_tcp_frame p : zlen (tcp_frame p) = 4 + zlen p.
Proof. unfold tcp_frame. autorewrite with zlen. lia. Qed.

(** [atomic.Uint64.Add]. *)
Definition atomic_add (v d : Z) : Z := (v + d) mod 2 ^ 64.

(** A bounded channel used with [select]/[default]: what does not fit is dropped. *)
Definition try_send {X} (capacity : Z) (x : X) (queue : list X) : list X :=
  if zlen queue <? capacity then queue ++ [x] else queue.

Lemma try_send_bound {X} capacity (x : X) queue :
  zlen queue <= capacity → zlen (try_send capacity x queue) <= capacity.
Proof.
  unfold try_send. destruct (Z.ltb_spec (zlen queue) capacity); [|done].
  autorewrite with zlen. lia.
Qed.

Lemma try_send_elem {X} capacity (x y : X) queue :
  y ∈ try_send capacity x queue → y ∈ queue ∨ y = x.
Proof.
  unfold try_send. destruct (_ <? _); [|by left]. rewrite elem_of_app, list_elem_of_singleton. done.
Qed.

(** ** Executable instances *)

(** A socket that accepts every datagram and records where it went. *)
#[export] Instance log_socket {A} : UDPSocket A (list (A * bytes)) :=
  {| WriteTo := λ c p a, (c ++ [(a, p)], None) |}.
#[export] Instance log_link : UDPLink (list bytes) := {| LinkWrite := λ c p, (c ++ [p], None) |}.
#[export] Instance string_addr : NetAddr string := {| addr_string := λ s, s |}.

(** A connection that takes at most three bytes at a time and breaks after a quota
    of bytes. *)
Record narrow := mkNarrow { narrow_sent : bytes; narrow_quota : Z }.

Definition narrow_write (w : narrow) (p : bytes) : narrow * Z * option net_error :=
  let n := Z.max 0 (Z.min 3 (Z.min (narrow_quota w) (zlen p))) in
  (mkNarrow (narrow_sent w ++ take (Z.to_nat n) p) (narrow_quota w - n), n,
   if narrow_quota w <=? 0 then Some (new_error "broken pipe") else None).

#[export] Program Instance narrow_writer : Writer narrow :=
  {| Write := narrow_write; written := narrow_sent |}.
Next Obligation. intros w p. cbn. pose proof (zlen_nonneg p). lia. Qed.
Next Obligation. done. Qed.
