(* ===== verification/WgshimCodec.v ===== *)
(** * The datagram codec ([internal/wgshim/codec.go])

    Sealing and opening of typed datagrams with AES-GCM and random padding. *)

From Stdlib Require Import Strings.Byte.
From S2P Require Import Prelude GoStrings GoEncoding Crypto.

Definition protocolVersion : byte := x01.
Definition packetData : byte := x00.
Definition packetProbe : byte := x01.
Definition packetProbeReply : byte := x02.
Definition nonceSize : Z := 12.
Definition headerSize : Z := 4.
Definition maxInnerPacket : Z := 65507 - nonceSize - 16 - headerSize.

Definition aad : bytes := str_bytes "BPC-WGSHIM-v1".

Inductive Direction := ClientToServer | ServerToClient.

(** [LoadPSK] on the contents of the key file, [None] when it cannot be read. *)
Definition LoadPSK (file : option string) : result bytes :=
  match file with
  | None => Err "read key file: %w"
  | Some raw =>
      match base64_decode (trim_space raw) with
      | None => Err "decode base64 key: %w"
      | Some key =>
          check (negb (zlen key =? 32)) "key must decode to 32 bytes, got %d" ;; Ok key
      end
  end.

Definition known_type (packetType : byte) : bool :=
  bool_decide (packetType = packetData) || bool_decide (packetType = packetProbe)
  || bool_decide (packetType = packetProbeReply).

Definition IsProbe (packetType : byte) : bool := bool_decide (packetType = packetProbe).
Definition IsProbeReply (packetType : byte) : bool := bool_decide (packetType = packetProbeReply).
Definition IsData (packetType : byte) : bool := bool_decide (packetType = packetData).

Section codec.
Context `{GCM : AesGcm} `{HS : Hashes}.

Definition DeriveKey (psk : bytes) (direction : Direction) : result bytes :=
  check (negb (zlen psk =? 32)) "PSK must be 32 bytes, got %d" ;;
  let label := match direction with
               | ServerToClient => "bpc-wgshim-v1-s2c"
               | ClientToServer => "bpc-wgshim-v1-c2s"
               end in
  Ok (hmac_sha256 psk (str_bytes label)).

(** The random source of a codec is passed to the operations that draw from it. *)
Record Codec := mkCodec {
  codec_aead : aead;
  paddingMin : Z;
  paddingMax : Z;
}.

Definition NewCodec (key : bytes) (padMin padMax : Z) : result Codec :=
  check ((padMin <? 0) || (padMax <? padMin) || (255 <? padMax))
    "padding range must satisfy 0 <= min <= max <= 255" ;;
  match new_gcm key with
  | None => Err "create AES cipher: %w"
  | Some a => Ok (mkCodec a padMin padMax)
  end.

(** The rejection-sampling loop, one random byte per iteration. *)
Fixpoint sample_padding (lo span limit : Z) (random : bytes) : result (Z * bytes) :=
  match random with
  | [] => Err "generate padding length: %w"
  | b :: rest =>
      if byte_val b <? limit then Ok (lo + byte_val b mod span, rest)
      else sample_padding lo span limit rest
  end.

Definition randomPaddingLength (c : Codec) (random : bytes) : result (Z * bytes) :=
  if paddingMin c =? paddingMax c then Ok (paddingMin c, random)
  else
    let span := paddingMax c - paddingMin c + 1 in
    let limit := 256 - 256 mod span in
    sample_padding (paddingMin c) span limit random.

Definition plaintext_of (packetType : byte) (payload padding : bytes) : bytes :=
  [protocolVersion; packetType] ++ be_encode 2 (zlen payload) ++ payload ++ padding.

Definition sealType (c : Codec) (packetType : byte) (payload random : bytes)
    : result (bytes * bytes) :=
  check (negb (known_type packetType)) "unsupported packet type %d" ;;
  check ((maxInnerPacket <? zlen payload) || (65535 <? zlen payload))
    "inner UDP payload too large: %d" ;;
  '(padLen, random) ← randomPaddingLength c random;
  '(padding, random) ←
    (if 0 <? padLen then
       match read_full random (Z.to_nat padLen) with
       | Some r => Ok r
       | None => Err "generate padding: %w"
       end
     else Ok ([], random));
  match read_full random (Z.to_nat nonceSize) with
  | None => Err "generate nonce: %w"
  | Some (nonce, random) =>
      Ok (nonce ++ aead_seal (codec_aead c) nonce
            (plaintext_of packetType payload padding) aad, random)
  end.

Definition Seal (c : Codec) (payload random : bytes) := sealType c packetData payload random.
Definition SealProbe (c : Codec) (payload random : bytes) :=
  sealType c packetProbe payload random.
Definition SealProbeReply (c : Codec) (payload random : bytes) :=
  sealType c packetProbeReply payload random.

Definition open_plaintext (plaintext : bytes) : result (byte * bytes) :=
  header_ok ← (if zlen plaintext <? headerSize then Ok false
               else v ← index plaintext 0; Ok (bool_decide (v = protocolVersion)));
  check (negb header_ok) "invalid packet header" ;;
  packetType ← index plaintext 1;
  check (negb (known_type packetType)) "unsupported packet type" ;;
  lenRaw ← slice plaintext 2 4;
  let payloadLen := be_decode lenRaw in
  check (zlen plaintext - headerSize <? payloadLen) "invalid payload length" ;;
  payload ← slice plaintext headerSize (headerSize + payloadLen);
  Ok (packetType, payload).

Definition OpenTyped (c : Codec) (packet : bytes) : result (byte * bytes) :=
  check (zlen packet <? nonceSize + 16 + headerSize) "outer packet too short" ;;
  nonce ← slice packet 0 nonceSize;
  sealed ← slice packet nonceSize (zlen packet);
  match aead_open (codec_aead c) nonce sealed aad with
  | None => Err "authentication failed"
  | Some plaintext => open_plaintext plaintext
  end.

Definition Open (c : Codec) (packet : bytes) : result bytes :=
  '(packetType, payload) ← OpenTyped c packet;
  check (negb (bool_decide (packetType = packetData))) "packet is not data" ;;
  Ok payload.
End codec.

(** ** Facts *)

Section codec_facts.
Context `{GCM : AesGcm}.
Implicit Types c : Codec.

(** What [NewCodec] establishes. *)
Definition codec_wf c : Prop := 0 <= paddingMin c <= paddingMax c ∧ paddingMax c <= 255.

Lemma NewCodec_wf key lo hi c : NewCodec key lo hi = Ok c → codec_wf c.
Proof.
  intros [G E]%check_then. destruct (new_gcm key); [|done]. injection E as <-.
  guards. unfold codec_wf. cbn. lia.
Qed.

Lemma zlen_plaintext t payload padding :
  zlen (plaintext_of t payload padding) = headerSize + zlen payload + zlen padding.
Proof. unfold plaintext_of, headerSize. autorewrite with zlen. lia. Qed.

Lemma zlen_aead_seal a nonce p ad : zlen (aead_seal a nonce p ad) = zlen p + 16.
Proof. unfold zlen. rewrite aead_seal_length. lia. Qed.

Lemma open_plaintext_iff p t payload :
  open_plaintext p = Ok (t, payload) ↔
  known_type t = true ∧ zlen payload <= 65535 ∧ ∃ padding, p = plaintext_of t payload padding.
Proof.
  unfold open_plaintext. split.
  - destruct (Z.ltb_spec (zlen p) headerSize) as [|L]; [done|].
    destruct p as [|v [|ty [|l1 [|l2 body]]]];
      try (unfold headerSize in *; autorewrite with zlen in L; lia).
    rewrite index_cons_0. cbn [mbind result_bind].
    intros [V E]%check_then. guards. subst v.
    change (index (protocolVersion :: ty :: l1 :: l2 :: body) 1)
      with (index ([protocolVersion] ++ ty :: l1 :: l2 :: body) (zlen [protocolVersion])) in E.
    rewrite index_at in E. cbn [mbind result_bind] in E. apply check_then in E as [K E].
    change (protocolVersion :: ty :: l1 :: l2 :: body)
      with ([protocolVersion; ty] ++ [l1; l2] ++ body) in *.
    rewrite slice_mid in E by done. cbn [mbind result_bind] in E.
    apply check_then in E as [Hl E]. guards. rewrite zlen_app, zlen_app in Hl.
    pose proof (be_decode_range [l1; l2]) as R. change (256 ^ zlen [l1; l2]) with 65536 in R.
    rewrite app_assoc in E. change headerSize with (zlen ([protocolVersion; ty] ++ [l1; l2])) in E.
    rewrite slice_at in E by lia. change (zlen [protocolVersion; ty]) with 2 in Hl.
    change (zlen [l1; l2]) with 2 in Hl. unfold headerSize in Hl.
    rewrite (proj2 (Z.leb_le _ _)) in E by lia. injection E as <- <-.
    rewrite zlen_take by lia. split_and!; [done|lia|].
    exists (drop (Z.to_nat (be_decode [l1; l2])) body). unfold plaintext_of.
    rewrite zlen_take by lia. change 2%nat with (length [l1; l2]).
    by rewrite be_encode_decode, take_drop.
  - intros (K & Hp & padding & ->). pose proof (zlen_nonneg payload). pose proof (zlen_nonneg padding).
    rewrite zlen_plaintext. unfold plaintext_of.
    destruct (Z.ltb_spec (headerSize + zlen payload + zlen padding) headerSize); [lia|].
    cbn [app]. rewrite index_cons_0. cbn [mbind result_bind].
    rewrite bool_decide_eq_true_2 by done. cbn [negb check mbind result_bind].
    change (index (protocolVersion :: ?l) 1) with (index ([protocolVersion] ++ l) (zlen [protocolVersion])).
    rewrite index_at. cbn [mbind result_bind]. rewrite K. cbn [negb check mbind result_bind].
    change (protocolVersion :: t :: ?l) with ([protocolVersion; t] ++ l).
    rewrite (slice_mid [protocolVersion; t]) by (autorewrite with zlen; done).
    cbn [mbind result_bind]. rewrite be_decode_encode_small by (cbn; lia).
    apply check_then. split; [guards; unfold headerSize; lia|].
    rewrite app_assoc. rewrite slice_mid; [done|by autorewrite with zlen..].
Qed.

Lemma open_plaintext_no_panic p : open_plaintext p ≠ Panic.
Proof.
  unfold open_plaintext, headerSize. destruct (Z.ltb_spec (zlen p) 4) as [|L]; [done|].
  destruct (index_ok p 0) as (? & -> & _); [lia|]. cbn [mbind result_bind].
  apply check_bind_no_panic. intros _.
  destruct (index_ok p 1) as (? & -> & _); [lia|]. cbn [mbind result_bind].
  apply check_bind_no_panic. intros _.
  rewrite (slice_ok p 2 4) by lia. cbn [mbind result_bind]. apply check_bind_no_panic. intros G.
  guards. pose proof (be_decode_range (take (Z.to_nat (4 - 2)) (drop (Z.to_nat 2) p))).
  by rewrite slice_ok by lia.
Qed.

Lemma open_typed_iff c packet t payload :
  OpenTyped c packet = Ok (t, payload) ↔
  known_type t = true ∧ zlen payload <= 65535 ∧ ∃ nonce padding, zlen nonce = nonceSize ∧
    packet = nonce ++ aead_seal (codec_aead c) nonce (plaintext_of t payload padding) aad.
Proof.
  unfold OpenTyped, nonceSize. split.
  - intros [L E]%check_then. guards. unfold headerSize in L.
    rewrite !slice_ok in E by lia. cbn [mbind result_bind] in E.
    destruct (aead_open _ _ _ _) as [p|] eqn:O; [|done].
    apply aead_open_iff in O. apply open_plaintext_iff in E as (K & Hp & padding & ->).
    split_and!; [done..|]. exists (take (Z.to_nat (12 - 0)) (drop (Z.to_nat 0) packet)), padding.
    rewrite drop_0, zlen_take in * by lia. split; [done|]. rewrite <- O.
    change (Z.to_nat (12 - 0)) with (Z.to_nat 12).
    rewrite (take_ge (drop _ _)) by (rewrite length_drop; unfold zlen in *; lia).
    by rewrite take_drop.
  - intros (K & Hp & nonce & padding & Hn & ->).
    pose proof (zlen_aead_seal (codec_aead c) nonce (plaintext_of t payload padding) aad) as Hs.
    rewrite zlen_plaintext in Hs. pose proof (zlen_nonneg payload). pose proof (zlen_nonneg padding).
    apply check_then. split; [guards; rewrite zlen_app; unfold headerSize in *; lia|].
    set (sealed := aead_seal _ _ _ _) in *.
    change (slice (nonce ++ sealed) 0 12) with (slice ([] ++ nonce ++ sealed) 0 12).
    rewrite (slice_mid [] nonce sealed 0 12); [|done|by rewrite Hn]. cbn [mbind result_bind].
    rewrite <- (app_nil_r sealed) at 1.
    rewrite (slice_mid nonce sealed [] 12); [|lia|by rewrite zlen_app].
    cbn [mbind result_bind]. unfold sealed.
    rewrite (proj2 (aead_open_iff _ _ _ _ _) eq_refl).
    apply open_plaintext_iff. eauto.
Qed.

Lemma open_typed_no_panic c packet : OpenTyped c packet ≠ Panic.
Proof.
  unfold OpenTyped, nonceSize, headerSize.
  apply check_bind_no_panic. intros L. guards. rewrite !slice_ok by lia. cbn [mbind result_bind].
  destruct (aead_open _ _ _ _); [apply open_plaintext_no_panic|done].
Qed.

Lemma padding_span c : codec_wf c → paddingMin c ≠ paddingMax c →
  let span := paddingMax c - paddingMin c + 1 in
  2 <= span <= 256 ∧ 128 < 256 - 256 mod span <= 256 ∧ (256 - 256 mod span) mod span = 0.
Proof.
  intros [? ?] ? span. assert (2 <= span <= 256) as Hs by (subst span; lia). clearbody span.
  split; [done|]. pose proof (Z.mod_pos_bound 256 span ltac:(lia)).
  pose proof (Z.div_mod 256 span ltac:(lia)) as D. split.
  - assert (1 <= 256 / span) by (apply Z.div_le_lower_bound; lia). nia.
  - replace (256 - 256 mod span) with (256 / span * span) by lia. apply Z.mod_mul. lia.
Qed.

Lemma sample_padding_Ok lo span limit random n rest :
  0 < span → sample_padding lo span limit random = Ok (n, rest) → lo <= n < lo + span.
Proof.
  intros Hs. induction random as [|b random IH]; cbn; [done|].
  destruct (byte_val b <? limit); [|done]. intros [= <- <-].
  pose proof (Z.mod_pos_bound (byte_val b) span Hs). lia.
Qed.

Lemma randomPaddingLength_range c random n rest :
  codec_wf c → randomPaddingLength c random = Ok (n, rest) → paddingMin c <= n <= paddingMax c.
Proof.
  intros Wf. unfold randomPaddingLength. destruct (Z.eqb_spec (paddingMin c) (paddingMax c)) as [|Hne].
  - intros [= <- <-]. lia.
  - intros E. destruct (padding_span c Wf Hne) as [? _].
    apply sample_padding_Ok in E; lia.
Qed.

Lemma sealType_Ok c t payload random packet rest :
  codec_wf c → sealType c t payload random = Ok (packet, rest) →
  known_type t = true ∧ zlen payload <= maxInnerPacket ∧
  ∃ nonce padding, zlen nonce = nonceSize ∧ paddingMin c <= zlen padding <= paddingMax c ∧
    packet = nonce ++ aead_seal (codec_aead c) nonce (plaintext_of t payload padding) aad.
Proof.
  intros Wf [K E]%check_then. apply check_then in E as [L E]. guards.
  apply bind_Ok in E as ([padLen r1] & Hpad & E).
  apply randomPaddingLength_range in Hpad; [|done].
  apply bind_Ok in E as ([padding r2] & Hr & E).
  assert (zlen padding = padLen) as Hz.
  { destruct (Z.ltb_spec 0 padLen).
    - destruct (read_full r1 _) as [[p q]|] eqn:R; [|done]. injection Hr as -> ->.
      apply read_full_Some in R as [_ R]. unfold zlen. rewrite R. lia.
    - injection Hr as <- _. destruct Wf. rewrite zlen_nil. lia. }
  destruct (read_full r2 _) as [[nonce r3]|] eqn:R; [|done]. injection E as <- <-.
  apply read_full_Some in R as [_ R]. split_and!; [done|lia|]. exists nonce, padding.
  split_and!; [|lia|lia|done]. unfold zlen. by rewrite R.
Qed.

Lemma sample_padding_no_panic lo span limit random : sample_padding lo span limit random ≠ Panic.
Proof. induction random as [|b random IH]; cbn; [done|]. by destruct (byte_val b <? limit). Qed.

Lemma sealType_no_panic c t payload random : sealType c t payload random ≠ Panic.
Proof.
  unfold sealType. do 2 (apply check_bind_no_panic; intros _). apply bind_no_panic.
  - unfold randomPaddingLength. destruct (_ =? _); [done|]. apply sample_padding_no_panic.
  - intros [n r] _. apply bind_no_panic.
    + destruct (0 <? n); [|done]. by destruct (read_full _ _).
    + intros [p r'] _. by destruct (read_full _ _) as [[? ?]|].
Qed.

(** Datagram round trip: whatever the padding and the nonce drawn, the
    receiver's codec with the same key opens a sealed payload to the same type
    and bytes, and the datagram is longer than the payload by the nonce, tag and
    header and by a padding within the configured range. *)
Lemma sealType_OpenTyped c c' t payload random packet rest :
  codec_wf c → codec_aead c' = codec_aead c →
  sealType c t payload random = Ok (packet, rest) →
  OpenTyped c' packet = Ok (t, payload) ∧
  zlen payload + 32 + paddingMin c <= zlen packet <= zlen payload + 32 + paddingMax c.
Proof.
  intros Wf Ec E. apply sealType_Ok in E as (K & L & nonce & padding & Hn & Hp & ->); [|done].
  split.
  - apply open_typed_iff. rewrite Ec. split_and!; [done|unfold maxInnerPacket, nonceSize, headerSize in L; lia|eauto].
  - rewrite zlen_app, Hn, zlen_aead_seal, zlen_plaintext.
    unfold nonceSize, headerSize. lia.
Qed.

(** Authenticity at the codec: a datagram is accepted exactly when it is a
    nonce followed by the AES-GCM sealing, under this codec's key and the
    protocol's associated data, of a version-1 header with a known type, the
    payload length and the payload; no other datagram yields a payload and none
    makes the parser panic. *)
Lemma OpenTyped_exact c packet :
  OpenTyped c packet ≠ Panic ∧
  ∀ t payload, OpenTyped c packet = Ok (t, payload) ↔
    known_type t = true ∧ zlen payload <= 65535 ∧ ∃ nonce padding, zlen nonce = nonceSize ∧
      packet = nonce ++ aead_seal (codec_aead c) nonce (plaintext_of t payload padding) aad.
Proof.
  split; [apply open_typed_no_panic|intros; apply open_typed_iff].
Qed.

(** One block of [span] consecutive values holds each residue once. *)
Lemma filter_mod_block span q k :
  0 <= k < span → filter (λ b, b mod span = k) (seqZ (q * span) span) = [q * span + k].
Proof.
  intros Hk. replace (seqZ (q * span) span) with (seqZ (q * span) (k + (1 + (span - k - 1))))
    by (f_equal; lia).
  rewrite !seqZ_app, !filter_app by lia.
  assert (∀ b, q * span <= b < q * span + span → b mod span = b - q * span) as Hm.
  { intros b Hb. symmetry. apply (Z.mod_unique_pos _ _ q); lia. }
  rewrite (filter_none _ (seqZ (q * span) k)).
  2: { intros b Hb%elem_of_seqZ. rewrite Hm by lia. lia. }
  rewrite (filter_none _ (seqZ (q * span + k + 1) _)).
  2: { intros b Hb%elem_of_seqZ. rewrite Hm by lia. lia. }
  change (seqZ (q * span + k) 1) with [Z.succ (-1) + (q * span + k)].
  rewrite filter_cons_True; [cbn; f_equal; lia|]. rewrite Hm by lia. lia.
Qed.

Lemma filter_mod_count span k (q : nat) :
  0 <= k < span → zlen (filter (λ b, b mod span = k) (seqZ 0 (Z.of_nat q * span))) = Z.of_nat q.
Proof.
  intros Hk. induction q as [|q IH]; [done|].
  replace (Z.of_nat (S q) * span) with (Z.of_nat q * span + span) by lia.
  rewrite seqZ_app, filter_app, zlen_app, IH, Z.add_0_l, filter_mod_block by nia.
  change (zlen [_]) with 1. lia.
Qed.

(** The byte values on which the sampling loop returns the length [n] at once. *)
Definition padding_choices c (n : Z) : list Z :=
  filter (λ b, randomPaddingLength c [byte_of b] = Ok (n, [])) (seqZ 0 256).

(** The padding length is unbiased: each length of the configured range is
    selected by the same number of byte values. *)
Lemma padding_unbiased c n :
  codec_wf c → paddingMin c < paddingMax c → paddingMin c <= n <= paddingMax c →
  zlen (padding_choices c n) = 256 / (paddingMax c - paddingMin c + 1).
Proof.
  intros Wf Hlt Hn. destruct (padding_span c Wf) as (Hs & Hl & _); [lia|].
  unfold padding_choices, randomPaddingLength.
  destruct (Z.eqb_spec (paddingMin c) (paddingMax c)); [lia|].
  set (span := paddingMax c - paddingMin c + 1) in *.
  pose proof (Z.div_mod 256 span ltac:(lia)) as D.
  assert (0 <= 256 / span) by (apply Z.div_pos; lia).
  set (q := 256 / span) in *. set (limit := 256 - 256 mod span) in *.
  assert (limit = Z.of_nat (Z.to_nat q) * span) as EL
    by (rewrite Z2Nat.id by lia; lia).
  replace 256 with (limit + (256 - limit)) by lia.
  rewrite seqZ_app, filter_app, zlen_app by lia.
  rewrite (filter_none _ (seqZ (0 + limit) _)).
  2: { intros b Hb%elem_of_seqZ. cbn. rewrite byte_val_of_small by lia.
       by rewrite (proj2 (Z.ltb_ge _ _)) by lia. }
  rewrite (filter_ext_in _ (λ b, b mod span = n - paddingMin c)).
  2: { intros b Hb%elem_of_seqZ. cbn. rewrite byte_val_of_small by lia.
       rewrite (proj2 (Z.ltb_lt _ _)) by lia. split; [intros [= E]; lia|].
       intros E. do 2 f_equal. lia. }
  rewrite EL, filter_mod_count by lia. rewrite zlen_nil. nia.
Qed.
End codec_facts.
