(* ===== verification/WgshimPath.v ===== *)
(** * Relay path selection of the WireGuard shim ([internal/wgshim/path.go])

    The health of each relay endpoint, the choice of the active one, and the
    migration that is rolled back when traffic does not confirm it. *)

From S2P Require Import Prelude GoLib Float64.

(** Durations are nanoseconds, [int64] in Go. *)
Record PathPolicy := mkPathPolicy {
  MinimumImprovement : Z;
  MinimumStableDuration : Z;
  FailurePenalty : Z;
  RecoveryCooldown : Z;
  FailureThreshold : Z;
}.

Definition positive_or (v d : Z) : Z := if v <=? 0 then d else v.

Definition defaults (p : PathPolicy) : PathPolicy :=
  mkPathPolicy
    (positive_or (MinimumImprovement p) (15 * millisecond))
    (positive_or (MinimumStableDuration p) (5 * second))
    (positive_or (FailurePenalty p) (250 * millisecond))
    (positive_or (RecoveryCooldown p) (10 * second))
    (positive_or (FailureThreshold p) 2).

Record PathHealth := mkPathHealth {
  PH_Node : string;
  PH_Endpoint : string;
  PH_Reachable : bool;
  PH_RTTMS : float64;
  PH_LossPercent : float64;
  PH_JitterMS : float64;
  PH_LastSuccess : Z;
  PH_FailureCount : Z;
  PH_ConsecutiveFailures : Z;
  PH_State : string;
  PH_LastTraffic : Z;
}.

Record pathState := mkPathState {
  health : PathHealth;
  samples : list bool;
  lastRTT : Z;
  failedAt : Z;
  recoveredAt : Z;
}.

Record PathManager := mkPathManager {
  policy : PathPolicy;
  paths : list pathState;
  active : Z;
  candidate : Z;
  candidateSince : Z;
  migratingFrom : Z;
  migrationStarted : Z;
}.

Definition new_path (endpoint : string) : pathState :=
  mkPathState (mkPathHealth "" endpoint false f0 f0 f0 zero_time 0 0 "" zero_time)
    [] 0 zero_time zero_time.

Definition NewPathManager (endpoints : list string) (p : PathPolicy) : PathManager :=
  mkPathManager (defaults p) (new_path <$> endpoints) 0 (-1) zero_time (-1) zero_time.

Definition set_paths (m : PathManager) (ps : list pathState) : PathManager :=
  mkPathManager (policy m) ps (active m) (candidate m) (candidateSince m)
    (migratingFrom m) (migrationStarted m).

(** ** Probe rounds *)

Definition u64 (z : Z) : Z := z mod 2 ^ 64.
Definition int64 (z : Z) : Z := (z + 2 ^ 63) mod 2 ^ 64 - 2 ^ 63.

Definition quarter : float64 := fdiv (f_of_Z 1) (f_of_Z 4).
Definition three_quarters : float64 := fdiv (f_of_Z 3) (f_of_Z 4).

(** [.75*old + .25*new] *)
Definition smooth (old new : float64) : float64 :=
  fadd (fmul three_quarters old) (fmul quarter new).

Definition in_ms (d : Z) : float64 := fdiv (f_of_Z d) (f_of_Z millisecond).

(** One iteration of the jitter loop: the jitter and the last round-trip time. *)
Definition jitter_step (acc : float64 * Z) (rtt : Z) : float64 * Z :=
  let '(jitter, last) := acc in
  (if last =? 0 then jitter else smooth jitter (fabs (in_ms (int64 (rtt - last)))), rtt).

(** The rolling window of the last 32 probes. *)
Definition push_samples (window : list bool) (sent answered : Z) : list bool :=
  let window := window ++ ((λ i, Z.of_nat i <? answered) <$> seq 0 (Z.to_nat sent)) in
  drop (length window - 32) window.

Definition loss_percent (window : list bool) : float64 :=
  fdiv (fmul (f_of_Z 100) (f_of_Z (zlen (List.filter negb window)))) (f_of_Z (zlen window)).

Section path.
Context `{GS : GoSort}.

(** The median of the replies of a round, in milliseconds. *)
Definition median_rtt (replies : list Z) : result float64 :=
  let values := sort_slice Z.ltb replies in
  d ← index values (zlen values / 2);
  Ok (in_ms d).

Definition observe_path (pol : PathPolicy) (p : pathState) (sent : Z) (replies : list Z) (now : Z)
    : result pathState :=
  let replies := if sent <? zlen replies then take (Z.to_nat sent) replies else replies in
  let h := health p in
  let window := push_samples (samples p) sent (zlen replies) in
  let loss := loss_percent window in
  let failures := u64 (PH_FailureCount h + (sent - zlen replies)) in
  if zlen replies =? 0 then
    let misses := int64 (PH_ConsecutiveFailures h + 1) in
    let down := FailureThreshold pol <=? misses in
    Ok (mkPathState
      (mkPathHealth (PH_Node h) (PH_Endpoint h) (if down then false else PH_Reachable h)
         (PH_RTTMS h) loss (PH_JitterMS h) (PH_LastSuccess h) failures misses
         (PH_State h) (PH_LastTraffic h))
      window (lastRTT p) (if down then now else failedAt p) (recoveredAt p))
  else
    let recovered :=
      if negb (PH_Reachable h) && negb (time_is_zero (failedAt p)) then now else recoveredAt p in
    let '(jitter, last) := fold_left jitter_step replies (PH_JitterMS h, lastRTT p) in
    rtt ← median_rtt replies;
    let rttms := if feq (PH_RTTMS h) f0 then rtt else smooth (PH_RTTMS h) rtt in
    Ok (mkPathState
      (mkPathHealth (PH_Node h) (PH_Endpoint h) true rttms loss jitter now failures 0
         (PH_State h) (PH_LastTraffic h))
      window last (failedAt p) recovered).

Definition Observe (m : PathManager) (i sent : Z) (replies : list Z) (now : Z)
    : result PathManager :=
  if (i <? 0) || (zlen (paths m) <=? i) || (sent <=? 0) then Ok m
  else
    p ← index (paths m) i;
    p ← observe_path (policy m) p sent replies now;
    Ok (set_paths m (<[Z.to_nat i := p]> (paths m))).

(** ** Selection *)

Definition score (pol : PathPolicy) (p : pathState) (now : Z) : float64 :=
  let penalty :=
    if time_is_zero (failedAt p) then f0
    else
      let remaining :=
        fsub (f_of_Z 1) (fdiv (f_of_Z (time_sub now (failedAt p))) (f_of_Z (RecoveryCooldown pol))) in
      if flt f0 remaining
      then fdiv (fmul remaining (f_of_Z (FailurePenalty pol))) (f_of_Z millisecond)
      else f0 in
  let h := health p in
  fadd (fadd (fadd (PH_RTTMS h) (fmul (f_of_Z 2) (PH_JitterMS h)))
             (fmul (f_of_Z 3) (PH_LossPercent h))) penalty.

(** The guards of the selection loop. *)
Definition eligible (pol : PathPolicy) (currentUsable : bool) (now : Z) (p : pathState) : bool :=
  PH_Reachable (health p) && (PH_ConsecutiveFailures (health p) <=? 0)
  && negb (currentUsable && negb (time_is_zero (recoveredAt p))
           && (time_sub now (recoveredAt p) <? RecoveryCooldown pol)).

(** The selection loop from index [i] on; [best] is the index and the score of the
    best path so far. *)
Fixpoint select_best (pol : PathPolicy) (currentUsable : bool) (now : Z)
    (i : Z) (best : option (Z * float64)) (ps : list pathState) : option (Z * float64) :=
  match ps with
  | [] => best
  | p :: ps =>
      let s := score pol p now in
      let best :=
        if eligible pol currentUsable now p
           && match best with None => true | Some (_, b) => flt s b end
        then Some (i, s) else best in
      select_best pol currentUsable now (i + 1) best ps
  end.

Definition mark_failed (p : pathState) (now : Z) : pathState :=
  let h := health p in
  mkPathState
    (mkPathHealth (PH_Node h) (PH_Endpoint h) false (PH_RTTMS h) (PH_LossPercent h)
       (PH_JitterMS h) (PH_LastSuccess h) (u64 (PH_FailureCount h + 1))
       (PH_ConsecutiveFailures h) (PH_State h) (PH_LastTraffic h))
    (samples p) (lastRTT p) now (recoveredAt p).

(** Whether an unconfirmed migration is to be undone. *)
Definition rollback_due (m : PathManager) (now : Z) : result bool :=
  if (0 <=? migratingFrom m) && negb (time_is_zero (migrationStarted m))
     && (2 * second <? time_sub now (migrationStarted m))
  then p ← index (paths m) (migratingFrom m); Ok (PH_Reachable (health p))
  else Ok false.

Definition set_candidate (m : PathManager) (c since : Z) : PathManager :=
  mkPathManager (policy m) (paths m) (active m) c since (migratingFrom m) (migrationStarted m).

Definition migrate (m : PathManager) (best : Z) : PathManager :=
  mkPathManager (policy m) (paths m) best (-1) (candidateSince m) (active m) zero_time.

Definition Select (m : PathManager) (now : Z) : result (PathManager * Z * bool) :=
  if zlen (paths m) =? 0 then Ok (m, -1, false)
  else
    back ← rollback_due m now;
    if (back : bool) then
      failed ← index (paths m) (active m);
      Ok (mkPathManager (policy m) (<[Z.to_nat (active m) := mark_failed failed now]> (paths m))
            (migratingFrom m) (-1) (candidateSince m) (-1) (migrationStarted m),
          migratingFrom m, true)
    else
      current ← index (paths m) (active m);
      let usable := PH_Reachable (health current) in
      let reset := set_candidate m (-1) (candidateSince m) in
      match select_best (policy m) usable now 0 None (paths m) with
      | None => Ok (reset, active m, false)
      | Some (best, s) =>
          if best =? active m then Ok (reset, active m, false)
          else if usable then
            if flt (fsub (score (policy m) current now) s) (in_ms (MinimumImprovement (policy m)))
            then Ok (reset, active m, false)
            else if negb (candidate m =? best) then Ok (set_candidate m best now, active m, false)
            else if time_sub now (candidateSince m) <? MinimumStableDuration (policy m)
            then Ok (m, active m, false)
            else Ok (migrate m best, best, true)
          else Ok (migrate m best, best, true)
      end.

(** ** Traffic *)

Definition set_migratingFrom (m : PathManager) (from : Z) : PathManager :=
  mkPathManager (policy m) (paths m) (active m) (candidate m) (candidateSince m)
    from (migrationStarted m).

Definition touch (p : pathState) (now : Z) : pathState :=
  let h := health p in
  mkPathState
    (mkPathHealth (PH_Node h) (PH_Endpoint h) (PH_Reachable h) (PH_RTTMS h) (PH_LossPercent h)
       (PH_JitterMS h) (PH_LastSuccess h) (PH_FailureCount h) (PH_ConsecutiveFailures h)
       (PH_State h) now)
    (samples p) (lastRTT p) (failedAt p) (recoveredAt p).

Definition ConfirmTraffic (m : PathManager) (endpoint : string) (now : Z) : PathManager :=
  match list_find (λ p, PH_Endpoint (health p) = endpoint) (paths m) with
  | Some (i, p) =>
      let m' := set_paths m (<[i := touch p now]> (paths m)) in
      if Z.of_nat i =? active m then set_migratingFrom m' (-1) else m'
  | None => m
  end.

Definition MarkSent (m : PathManager) (i now : Z) : PathManager :=
  if (i =? active m) && (0 <=? migratingFrom m) && time_is_zero (migrationStarted m)
  then mkPathManager (policy m) (paths m) (active m) (candidate m) (candidateSince m)
         (migratingFrom m) now
  else m.

Definition MigrationFallback (m : PathManager) : result Z :=
  if migratingFrom m <? 0 then Ok (-1)
  else p ← index (paths m) (migratingFrom m);
       Ok (if PH_Reachable (health p) then migratingFrom m else -1).

Definition snapshot_state (m : PathManager) (i : Z) (p : pathState) : string :=
  if i =? active m then if 0 <=? migratingFrom m then "VERIFYING" else "ACTIVE"
  else if PH_Reachable (health p) then "STANDBY"
  else if time_is_zero (PH_LastSuccess (health p)) then "PROBING"
  else "FAILED".

Definition Snapshot (m : PathManager) : list PathHealth :=
  imap (λ i p,
    let h := health p in
    mkPathHealth (PH_Node h) (PH_Endpoint h) (PH_Reachable h) (PH_RTTMS h) (PH_LossPercent h)
      (PH_JitterMS h) (PH_LastSuccess h) (PH_FailureCount h) (PH_ConsecutiveFailures h)
      (snapshot_state m (Z.of_nat i) p) (PH_LastTraffic h)) (paths m).

(** ** The selection loop *)

Lemma select_best_Some pol u now ps i best b s :
  select_best pol u now i best ps = Some (b, s) →
  best = Some (b, s) ∨
  i <= b ∧ ∃ p, ps !! Z.to_nat (b - i) = Some p ∧ eligible pol u now p = true ∧ s = score pol p now.
Proof.
  revert i best. induction ps as [|p ps IH]; intros i best E; [by left|].
  cbn in E. apply IH in E as [E|(Hi & q & Hq & E)].
  - destruct (_ && _) eqn:G; [|by left]. injection E as <- <-. right. split; [lia|].
    exists p. rewrite Z.sub_diag. apply andb_true_iff in G as [G _]. done.
  - right. split; [lia|]. exists q. split; [|done].
    by replace (Z.to_nat (b - i)) with (S (Z.to_nat (b - (i + 1)))) by lia.
Qed.

Lemma select_best_None pol u now ps i best :
  select_best pol u now i best ps = None →
  best = None ∧ ∀ p, p ∈ ps → eligible pol u now p = false.
Proof.
  revert i best. induction ps as [|p ps IH]; intros i best E.
  { split; [done|]. intros p Hp. by apply not_elem_of_nil in Hp. }
  cbn in E. apply IH in E as [E H]. destruct (_ && _) eqn:G; [done|]. subst best.
  rewrite andb_true_r in G. split; [done|]. intros q [->|Hq]%elem_of_cons; auto.
Qed.

(** Without NaN scores the loop ends at a minimum. *)
Lemma select_best_min pol u now ps i best b s :
  (∀ p, p ∈ ps → eligible pol u now p = true → is_nan (score pol p now) = false) →
  (∀ c t, best = Some (c, t) → is_nan t = false) →
  select_best pol u now i best ps = Some (b, s) →
  is_nan s = false ∧ (∀ c t, best = Some (c, t) → flt t s = false) ∧
  ∀ p, p ∈ ps → eligible pol u now p = true → flt (score pol p now) s = false.
Proof.
  revert i best. induction ps as [|p ps IH]; intros i best N B E.
  { cbn in E. subst best. split_and!; [by eapply B| |intros p Hp; by apply not_elem_of_nil in Hp].
    intros c t [= <- <-]. apply flt_irrefl. }
  cbn in E. apply IH in E as (Hs & Hb & Hp).
  - split; [done|]. destruct (eligible pol u now p) eqn:G; cbn in *.
    + assert (is_nan (score pol p now) = false) as Np by (apply N; [left|done]).
      assert (flt (score pol p now) s = false ∧ ∀ c t, best = Some (c, t) → flt t s = false) as [H1 H2].
      { destruct best as [[c t]|]; [|split; [by eapply Hb|done]].
        destruct (flt (score pol p now) t) eqn:F.
        - split; [by eapply Hb|]. intros ? ? [= <- <-]. destruct (flt t s) eqn:F'; [|done].
          apply flt_asym in F. destruct (flt_neg_trans t (score pol p now) s Np F'); [congruence|].
          by erewrite Hb in H by done.
        - split; [|by intros ? ? [= <- <-]; eapply Hb].
          destruct (flt (score pol p now) s) eqn:F'; [|done].
          destruct (flt_neg_trans (score pol p now) t s (B _ _ eq_refl) F'); [congruence|].
          by erewrite Hb in H by done. }
      split; [done|]. intros q [->|Hq]%elem_of_cons; auto.
    + split; [done|]. intros q [->|Hq]%elem_of_cons; [congruence|auto].
  - intros q Hq. apply N. by right.
  - intros c t. destruct (eligible pol u now p) eqn:G; cbn; [|by apply B].
    destruct best as [[c' t']|]; cbn.
    + destruct (flt _ _); [|by apply B]. intros [= <- <-]. by apply N; [left|].
    + intros [= <- <-]. by apply N; [left|].
Qed.

(** ** The invariant *)

Record manager_inv (endpoints : list string) (m : PathManager) : Prop := {
  mi_endpoints : (PH_Endpoint ∘ health) <$> paths m = endpoints;
  mi_active : 0 <= active m < zlen (paths m);
  mi_from : -1 <= migratingFrom m < zlen (paths m) ∧ migratingFrom m ≠ active m;
  mi_candidate : -1 <= candidate m < zlen (paths m) ∧ candidate m ≠ active m;
  mi_window : Forall (λ p, (length (samples p) <= 32)%nat) (paths m);
}.

Lemma zlen_endpoints eps m m' :
  manager_inv eps m → (PH_Endpoint ∘ health) <$> paths m' = eps → zlen (paths m') = zlen (paths m).
Proof.
  intros I E. unfold zlen. f_equal. rewrite <- (length_fmap (PH_Endpoint ∘ health)), E.
  by rewrite <- (mi_endpoints _ _ I), length_fmap.
Qed.

(** Replacing one path by one with the same endpoint and a bounded window. *)
Lemma set_path_inv eps m i p p' :
  manager_inv eps m → paths m !! i = Some p →
  PH_Endpoint (health p') = PH_Endpoint (health p) → (length (samples p') <= 32)%nat →
  manager_inv eps (set_paths m (<[i := p']> (paths m))).
Proof.
  intros I Hp He Hw.
  assert ((PH_Endpoint ∘ health) <$> <[i := p']> (paths m) = eps) as E.
  { rewrite list_fmap_insert. cbn. rewrite He, <- (mi_endpoints _ _ I).
    apply list_insert_id. by rewrite list_lookup_fmap, Hp. }
  pose proof (zlen_endpoints eps m (set_paths m (<[i := p']> (paths m))) I E) as L.
  cbn in L. destruct I as [_ ? ? ? W]. constructor; cbn; rewrite ?L; try done.
  by apply Forall_insert.
Qed.

Lemma push_samples_bound w sent n : (length (push_samples w sent n) <= 32)%nat.
Proof. unfold push_samples. rewrite length_drop. lia. Qed.

Lemma median_rtt_ok replies : replies ≠ [] → ∃ f, median_rtt replies = Ok f.
Proof.
  intros H. unfold median_rtt.
  assert (0 < zlen (sort_slice Z.ltb replies)) as L.
  { unfold zlen. rewrite sort_slice_length. destruct replies; [done|cbn; lia]. }
  destruct (index_ok (sort_slice Z.ltb replies) (zlen (sort_slice Z.ltb replies) / 2))
    as (x & -> & _); [|cbn; eauto].
  split; [apply Z.div_pos; lia|apply Z.div_lt; lia].
Qed.

Lemma observe_path_ok pol p sent replies now :
  ∃ p', observe_path pol p sent replies now = Ok p' ∧
        PH_Endpoint (health p') = PH_Endpoint (health p) ∧ (length (samples p') <= 32)%nat.
Proof.
  unfold observe_path. set (rs := if sent <? zlen replies then _ else _). clearbody rs.
  destruct (Z.eqb_spec (zlen rs) 0) as [|N].
  - eexists. split; [done|]. cbn. split; [done|apply push_samples_bound].
  - destruct (median_rtt_ok rs) as [f ->]; [by intros ->|].
    destruct (fold_left jitter_step rs _) as [j l]. cbn [mbind result_bind].
    eexists. split; [done|]. cbn. split; [done|apply push_samples_bound].
Qed.

Lemma Observe_inv eps m i sent replies now :
  manager_inv eps m → ∃ m', Observe m i sent replies now = Ok m' ∧ manager_inv eps m'.
Proof.
  intros I. unfold Observe. destruct (_ || _) eqn:G; [eauto|]. guards.
  destruct (index_ok (paths m) i) as (p & -> & Hp); [lia|]. cbn [mbind result_bind].
  destruct (observe_path_ok (policy m) p sent replies now) as (p' & -> & He & Hw).
  cbn [mbind result_bind]. eexists. split; [done|]. by eapply set_path_inv.
Qed.

Lemma set_candidate_inv eps m c t :
  manager_inv eps m → -1 <= c < zlen (paths m) → c ≠ active m →
  manager_inv eps (set_candidate m c t).
Proof. intros [? ? ? ? ?] ? ?. by constructor. Qed.

Lemma migrate_inv eps m b :
  manager_inv eps m → 0 <= b < zlen (paths m) → b ≠ active m → manager_inv eps (migrate m b).
Proof. intros [? ? ? ? ?] ? ?. constructor; cbn; try done; lia. Qed.

(** The state after an undone migration. *)
Definition rolled_back (m : PathManager) (failed : pathState) (now : Z) : PathManager :=
  mkPathManager (policy m) (<[Z.to_nat (active m) := mark_failed failed now]> (paths m))
    (migratingFrom m) (-1) (candidateSince m) (-1) (migrationStarted m).

Lemma rolled_back_inv eps m p now :
  manager_inv eps m → 0 <= migratingFrom m → paths m !! Z.to_nat (active m) = Some p →
  manager_inv eps (rolled_back m p now).
Proof.
  intros I H Hp.
  assert (manager_inv eps (set_paths m (<[Z.to_nat (active m) := mark_failed p now]> (paths m))))
    as [E A F C W].
  { eapply set_path_inv; [done..|]. by apply (Forall_lookup_1 _ _ _ _ (mi_window _ _ I) Hp). }
  cbn in *. constructor; cbn; try done; lia.
Qed.

(** ** The three outcomes of [Select] *)

Definition settled (m : PathManager) (current q : pathState) (best now : Z) : Prop :=
  candidate m = best ∧ MinimumStableDuration (policy m) <= time_sub now (candidateSince m) ∧
  flt (fsub (score (policy m) current now) (score (policy m) q now))
    (in_ms (MinimumImprovement (policy m))) = false.

Inductive select_outcome (m : PathManager) (now : Z) (current : pathState)
    : PathManager * Z * bool → Prop :=
| outcome_rollback q :
    0 <= migratingFrom m → migrationStarted m ≠ zero_time →
    2 * second < time_sub now (migrationStarted m) →
    paths m !! Z.to_nat (migratingFrom m) = Some q → PH_Reachable (health q) = true →
    select_outcome m now current (rolled_back m current now, migratingFrom m, true)
| outcome_stay c t :
    -1 <= c < zlen (paths m) → c ≠ active m →
    (PH_Reachable (health current) = false →
     ∀ p, p ∈ paths m → PH_Reachable (health p) = true → 0 < PH_ConsecutiveFailures (health p)) →
    select_outcome m now current (set_candidate m c t, active m, false)
| outcome_switch best q :
    0 <= best < zlen (paths m) → best ≠ active m → paths m !! Z.to_nat best = Some q →
    select_best (policy m) (PH_Reachable (health current)) now 0 None (paths m)
      = Some (best, score (policy m) q now) →
    eligible (policy m) (PH_Reachable (health current)) now q = true →
    (PH_Reachable (health current) = true → settled m current q best now) →
    select_outcome m now current (migrate m best, best, true).

Lemma eligible_true pol u now p :
  eligible pol u now p = true ↔
  PH_Reachable (health p) = true ∧ PH_ConsecutiveFailures (health p) <= 0 ∧
  (u = true → recoveredAt p = zero_time ∨ RecoveryCooldown pol <= time_sub now (recoveredAt p)).
Proof.
  unfold eligible, time_is_zero. rewrite !andb_true_iff, negb_true_iff, Z.leb_le.
  destruct u; cbn; [|naive_solver].
  rewrite andb_false_iff, negb_false_iff, Z.eqb_eq, Z.ltb_ge. naive_solver.
Qed.

Lemma rollback_due_spec eps m now :
  manager_inv eps m →
  (∃ q, rollback_due m now = Ok true ∧ 0 <= migratingFrom m ∧ migrationStarted m ≠ zero_time ∧
     2 * second < time_sub now (migrationStarted m) ∧
     paths m !! Z.to_nat (migratingFrom m) = Some q ∧ PH_Reachable (health q) = true) ∨
  rollback_due m now = Ok false.
Proof.
  intros I. unfold rollback_due, time_is_zero. destruct (_ && _) eqn:G; [|by right].
  rewrite !andb_true_iff, negb_true_iff, Z.leb_le, Z.eqb_neq, Z.ltb_lt in G.
  destruct (index_ok (paths m) (migratingFrom m)) as (q & -> & Hq);
    [pose proof (mi_from _ _ I); lia|].
  cbn [mbind result_bind]. destruct (PH_Reachable (health q)) eqn:R; [left|by right].
  exists q. naive_solver.
Qed.

Lemma Select_outcome eps m now :
  manager_inv eps m →
  ∃ current out, paths m !! Z.to_nat (active m) = Some current ∧
    Select m now = Ok out ∧ select_outcome m now current out.
Proof.
  intros I. pose proof (mi_active _ _ I) as A. unfold Select.
  destruct (Z.eqb_spec (zlen (paths m)) 0); [lia|].
  destruct (index_ok (paths m) (active m) A) as (cur & Hi & Hc). exists cur.
  destruct (rollback_due_spec eps m now I) as [(q & -> & ? & ? & ? & ? & ?)| ->];
    cbn [mbind result_bind]; rewrite Hi; cbn [mbind result_bind].
  { eexists. split_and!; [done..|]. by eapply outcome_rollback. }
  destruct (select_best _ _ _ _ _ _) as [[best s]|] eqn:B.
  - pose proof (select_best_Some _ _ _ _ _ _ _ _ B) as [?|(H0 & q & Hq & G & ->)]; [done|].
    rewrite Z.sub_0_r in Hq. apply lookup_lt_Some in Hq as L.
    assert (0 <= best < zlen (paths m)) by (unfold zlen; lia).
    destruct (Z.eqb_spec best (active m)) as [->|Hne].
    { eexists. split_and!; [done..|]. apply outcome_stay; [lia|lia|]. intros R.
      rewrite Hc in Hq. injection Hq as ->. apply eligible_true in G as [G _]. congruence. }
    destruct (PH_Reachable (health cur)) eqn:R.
    + destruct (flt _ _) eqn:F; [|destruct (Z.eqb_spec (candidate m) best); cbn [negb];
        [destruct (Z.ltb_spec (time_sub now (candidateSince m)) (MinimumStableDuration (policy m)))|]];
        eexists; (split_and!; [done..|]).
      * apply outcome_stay; [lia|lia|congruence].
      * replace m with (set_candidate m (candidate m) (candidateSince m)) at 2 by by destruct m.
        apply outcome_stay; [apply I|apply I|congruence].
      * eapply outcome_switch; rewrite ?R; try done.
      * apply outcome_stay; [lia|done|congruence].
    + eexists. split_and!; [done..|]. eapply outcome_switch; rewrite ?R; try done.
  - eexists. split_and!; [done..|]. apply outcome_stay; [lia|lia|]. intros R p Hp Hr.
    apply select_best_None in B as [_ B]. specialize (B p Hp). rewrite R in B.
    destruct (Z.lt_ge_cases 0 (PH_ConsecutiveFailures (health p))); [done|].
    apply not_true_iff_false in B. exfalso. apply B, eligible_true. naive_solver.
Qed.

Lemma select_outcome_inv eps m now cur out :
  manager_inv eps m → paths m !! Z.to_nat (active m) = Some cur → select_outcome m now cur out →
  manager_inv eps out.1.1 ∧ out.1.2 = active out.1.1.
Proof.
  intros I Hc O. destruct O as [q ? ? ? ? ?|c t ? ? _|best q ? ? ? ? ? ?]; cbn.
  - split; [|done]. by apply rolled_back_inv.
  - split; [|done]. by apply set_candidate_inv.
  - split; [|done]. by apply migrate_inv.
Qed.

Lemma ConfirmTraffic_inv eps m e now : manager_inv eps m → manager_inv eps (ConfirmTraffic m e now).
Proof.
  intros I. unfold ConfirmTraffic. destruct (list_find _ _) as [[i p]|] eqn:F; [|done].
  apply list_find_Some in F as (Hp & _).
  assert (manager_inv eps (set_paths m (<[i := touch p now]> (paths m)))) as I'.
  { eapply set_path_inv; [done..|]. by apply (Forall_lookup_1 _ _ _ _ (mi_window _ _ I) Hp). }
  destruct (_ =? _); [|done]. destruct I' as [? A ? ? ?]. cbn in *.
  constructor; cbn; try done; lia.
Qed.

Lemma MarkSent_inv eps m i now : manager_inv eps m → manager_inv eps (MarkSent m i now).
Proof. intros I. unfold MarkSent. destruct (_ && _); [|done]. by destruct I; constructor. Qed.

Lemma MarkSent_active m i now : active (MarkSent m i now) = active m.
Proof. unfold MarkSent. by destruct (_ && _). Qed.

Lemma ConfirmTraffic_active m e now : active (ConfirmTraffic m e now) = active m.
Proof. unfold ConfirmTraffic. destruct (list_find _ _) as [[i p]|]; [|done]. by destruct (_ =? _). Qed.

Lemma MigrationFallback_ok eps m :
  manager_inv eps m → ∃ f, MigrationFallback m = Ok f ∧
    (f = -1 ∨ 0 <= f < zlen (paths m) ∧ f ≠ active m ∧
     ∃ p, paths m !! Z.to_nat f = Some p ∧ PH_Reachable (health p) = true).
Proof.
  intros I. unfold MigrationFallback. pose proof (mi_from _ _ I) as [? ?].
  destruct (Z.ltb_spec (migratingFrom m) 0); [eauto|].
  destruct (index_ok (paths m) (migratingFrom m)) as (p & -> & Hp); [lia|].
  cbn [mbind result_bind]. destruct (PH_Reachable (health p)) eqn:E; eexists; (split; [done|]).
  - right. split_and!; [lia..|eauto].
  - by left.
Qed.

(** ** Theorems *)

Inductive manager_reach (endpoints : list string) (pol : PathPolicy) : PathManager → Prop :=
| reach_new : manager_reach endpoints pol (NewPathManager endpoints pol)
| reach_observe m i sent replies now m' :
    manager_reach endpoints pol m → Observe m i sent replies now = Ok m' →
    manager_reach endpoints pol m'
| reach_select m now m' i switched :
    manager_reach endpoints pol m → Select m now = Ok (m', i, switched) →
    manager_reach endpoints pol m'
| reach_confirm m e now :
    manager_reach endpoints pol m → manager_reach endpoints pol (ConfirmTraffic m e now)
| reach_sent m i now :
    manager_reach endpoints pol m → manager_reach endpoints pol (MarkSent m i now).

Lemma NewPathManager_inv eps pol : eps ≠ [] → manager_inv eps (NewPathManager eps pol).
Proof.
  intros Hne. assert (0 < zlen (new_path <$> eps)).
  { unfold zlen. rewrite length_fmap. destruct eps; [done|cbn; lia]. }
  constructor; cbn; try lia.
  - rewrite <- list_fmap_compose. by apply list_fmap_id.
  - apply Forall_fmap, Forall_forall. intros e _. cbn. lia.
Qed.

Lemma manager_reach_inv eps pol m : eps ≠ [] → manager_reach eps pol m → manager_inv eps m.
Proof.
  intros Hne R. induction R as [|m i sent rs now m' _ IH E|m now m' i sw _ IH E|m e now _ IH|m i now _ IH].
  - by apply NewPathManager_inv.
  - destruct (Observe_inv eps m i sent rs now IH) as (m2 & E2 & I2). congruence.
  - destruct (Select_outcome eps m now IH) as (cur & out & Hc & E2 & O).
    apply (select_outcome_inv eps) in O as [I2 _]; [|done..]. rewrite E in E2. by injection E2 as <-.
  - by apply ConfirmTraffic_inv.
  - by apply MarkSent_inv.
Qed.

Lemma snapshot_marks m i h :
  Snapshot m !! i = Some h →
  (PH_State h = "ACTIVE" ∨ PH_State h = "VERIFYING") ↔ Z.of_nat i = active m.
Proof.
  unfold Snapshot. rewrite list_lookup_imap. intros (p & _ & ->)%fmap_Some. cbn.
  unfold snapshot_state. destruct (Z.eqb_spec (Z.of_nat i) (active m)) as [E|N].
  - destruct (_ <=? _); tauto.
  - destruct (PH_Reachable (health p)), (time_is_zero (PH_LastSuccess (health p))); split; intros; naive_solver.
Qed.

(** C25. Path manager invariant: whatever probe rounds, selections, sent packets
    and confirmations happen, the manager keeps the configured endpoints in order,
    its active, candidate and previous indices stay in range and distinct, each
    loss window holds at most 32 probes, no operation panics, [Select] returns the
    active index, the fallback is a reachable path other than the active one, and
    a snapshot marks exactly the active path as in use. *)
Theorem path_manager_safe endpoints pol m :
  endpoints ≠ [] → manager_reach endpoints pol m →
  manager_inv endpoints m ∧
  (∀ i sent replies now, Observe m i sent replies now ≠ Panic) ∧
  (∀ now, ∃ m' switched, Select m now = Ok (m', active m', switched)) ∧
  (∃ f, MigrationFallback m = Ok f ∧
     (f = -1 ∨ f ≠ active m ∧ ∃ p, paths m !! Z.to_nat f = Some p ∧ PH_Reachable (health p) = true)) ∧
  (∀ i h, Snapshot m !! i = Some h →
     (PH_State h = "ACTIVE" ∨ PH_State h = "VERIFYING") ↔ Z.of_nat i = active m).
Proof.
  intros Hne R. pose proof (manager_reach_inv _ _ _ Hne R) as I. split_and!; [done| | | |].
  - intros i sent rs now. by destruct (Observe_inv endpoints m i sent rs now I) as (m' & -> & _).
  - intros now. destruct (Select_outcome endpoints m now I) as (cur & [[m' i] sw] & Hc & E & O).
    apply (select_outcome_inv endpoints) in O as [_ Hi]; [|done..]. cbn in Hi. subst i. eauto.
  - destruct (MigrationFallback_ok endpoints m I) as (f & E & H). exists f. naive_solver.
  - intros i h. apply snapshot_marks.
Qed.

(** A switch is justified: [Select] leaves the active path only for another
    reachable path, and only to undo a migration that traffic used for more than
    two seconds without confirmation, or to move to a path with no pending
    failure that no eligible path beats; while the active path still works the new
    one must also be out of its recovery cooldown and must have been the candidate
    for the stable duration with the minimum improvement. *)
Lemma Select_switch endpoints m now m' i :
  manager_inv endpoints m → Select m now = Ok (m', i, true) →
  ∃ current q, paths m !! Z.to_nat (active m) = Some current ∧
    paths m !! Z.to_nat i = Some q ∧ PH_Reachable (health q) = true ∧
    i ≠ active m ∧ active m' = i ∧
    ((i = migratingFrom m ∧ migrationStarted m ≠ zero_time ∧
      2 * second < time_sub now (migrationStarted m) ∧ migratingFrom m' = -1) ∨
     (migratingFrom m' = active m ∧ migrationStarted m' = zero_time ∧
      PH_ConsecutiveFailures (health q) <= 0 ∧
      (PH_Reachable (health current) = true →
         settled m current q i now ∧
         (recoveredAt q = zero_time ∨
          RecoveryCooldown (policy m) <= time_sub now (recoveredAt q))) ∧
      ((∀ p, p ∈ paths m → eligible (policy m) (PH_Reachable (health current)) now p = true →
             is_nan (score (policy m) p now) = false) →
       ∀ p, p ∈ paths m → eligible (policy m) (PH_Reachable (health current)) now p = true →
         flt (score (policy m) p now) (score (policy m) q now) = false))).
Proof.
  intros I E. destruct (Select_outcome endpoints m now I) as (cur & out & Hc & E2 & O).
  rewrite E in E2. injection E2 as <-. exists cur.
  inversion O as [q H1 H2 H3 H4 H5|c t H1 H2|best q H1 H2 H3 H4 H5 H6]; subst; exists q; cbn.
  - split_and!; try done; [pose proof (mi_from _ _ I); lia|]. by left.
  - pose proof H5 as G. apply eligible_true in G as (? & ? & ?).
    split_and!; try done. right. split_and!; try done; [naive_solver|].
    intros N p Hp Hg. eapply select_best_min in H4 as (_ & _ & H4); [by apply H4|done|done].
Qed.

(** Emergency handoff: when the active path is down and some path answers
    probes without a pending failure, the next [Select] moves to a reachable path
    at once. *)
Lemma Select_handoff endpoints m now current p :
  manager_inv endpoints m →
  paths m !! Z.to_nat (active m) = Some current → PH_Reachable (health current) = false →
  p ∈ paths m → PH_Reachable (health p) = true → PH_ConsecutiveFailures (health p) <= 0 →
  ∃ m' i q, Select m now = Ok (m', i, true) ∧ i ≠ active m ∧ active m' = i ∧
    paths m !! Z.to_nat i = Some q ∧ PH_Reachable (health q) = true.
Proof.
  intros I Hc R Hp Hr Hf. destruct (Select_outcome endpoints m now I) as (cur & out & Hc' & E & O).
  rewrite Hc in Hc'. injection Hc' as <-. rewrite E.
  destruct O as [q ? ? ? ? ?|c t ? ? H|best q ? ? ? ? G ?].
  - pose proof (mi_from _ _ I). eexists _, _, q. split_and!; try done; lia.
  - specialize (H R p Hp Hr). lia.
  - apply eligible_true in G as [? _]. by eexists _, _, q.
Qed.

(** Black-hole protection: once traffic is sent over a newly selected path,
    the previous path is the fallback while it works; if nothing confirms the
    traffic, the first [Select] more than two seconds later returns to it and marks
    the new path failed; a confirmation on the active endpoint ends the migration. *)
Lemma blackhole_rollback endpoints m a sent now :
  manager_inv endpoints m → NoDup endpoints →
  migratingFrom m = a → 0 <= a → migrationStarted m = zero_time →
  (∃ q, paths m !! Z.to_nat a = Some q ∧ PH_Reachable (health q) = true) →
  sent ≠ zero_time → 2 * second < time_sub now sent →
  let m1 := MarkSent m (active m) sent in
  MigrationFallback m1 = Ok a ∧
  (∃ current, paths m !! Z.to_nat (active m) = Some current ∧
     Select m1 now = Ok (rolled_back m1 current now, a, true) ∧
     migratingFrom (ConfirmTraffic m1 (PH_Endpoint (health current)) now) = -1).
Proof.
  intros I ND Ha H0 Hz (q & Hq & Hr) Hs Ht m1.
  assert (m1 = mkPathManager (policy m) (paths m) (active m) (candidate m) (candidateSince m) a sent)
    as E1.
  { unfold m1, MarkSent. rewrite Z.eqb_refl, Ha, Hz. unfold time_is_zero.
    rewrite Z.eqb_refl. by destruct (Z.leb_spec 0 a); [|lia]. }
  pose proof (mi_from _ _ I) as [F _]. rewrite Ha in F.
  destruct (index_ok (paths m) a) as (q' & Hi & Hq'); [lia|]. rewrite Hq in Hq'. injection Hq' as <-.
  destruct (index_ok (paths m) (active m) (mi_active _ _ I)) as (cur & Hj & Hc).
  clearbody m1. subst m1. split; [|exists cur; split_and!; [done| |]].
  - unfold MigrationFallback. cbn. destruct (Z.ltb_spec a 0); [lia|]. rewrite Hi. cbn. by rewrite Hr.
  - unfold Select. cbn [paths]. pose proof (mi_active _ _ I).
    destruct (Z.eqb_spec (zlen (paths m)) 0); [lia|]. unfold rollback_due, time_is_zero. cbn.
    destruct (Z.leb_spec 0 a); [|lia]. destruct (Z.eqb_spec sent zero_time); [done|].
    destruct (Z.ltb_spec (2 * second) (time_sub now sent)); [|lia]. cbn. rewrite Hi. cbn.
    rewrite Hr. cbn. by rewrite Hj.
  - unfold ConfirmTraffic. cbn. destruct (list_find _ _) as [[i p]|] eqn:L.
    + apply list_find_Some in L as (Hp & He & _).
      assert (i = Z.to_nat (active m)) as ->.
      { rewrite <- (mi_endpoints _ _ I) in ND. eapply (NoDup_lookup _ _ _ _ ND).
        - by rewrite list_lookup_fmap, Hp.
        - rewrite list_lookup_fmap, Hc. cbn. by rewrite He. }
      pose proof (mi_active _ _ I). rewrite Z2Nat.id by lia. by rewrite Z.eqb_refl.
    + apply list_find_None in L. rewrite Forall_forall in L. exfalso.
      by apply (L cur); [apply list_elem_of_lookup; eauto|].
Qed.

End path.
