(* ===== verification/RoutedConfig.v ===== *)
(** * Routing configuration of a Node ([internal/routed/config.go])

    The enrollment and routing configuration a Controller issues, its
    validation, the longest-prefix route lookup and the selection of source and
    transit paths. *)

From S2P Require Import Prelude GoLib GoStrings GoEncoding Float64 Netip.

Definition DefaultMeshPort : Z := 24446.
Definition MaxPathHops : Z := 3.

Record LinkConfig := mkLinkConfig {
  Link_ID : string;
  Link_PeerNodeID : string;
  Link_PeerName : string;
  Link_PSK : string;
  Link_PeerEndpoint : string;
  Link_PeerPublic : bool;
  Link_PeerSiteRouter : bool;
  Link_Port : Z;
  Link_Cost : float64;
}.

Record Path := mkPath {
  Path_ID : string;
  Path_OwnerNodeID : string;
  Path_CIDR : string;
  Path_Hops : list string;
  Path_Health : string;
  Path_RTTMS : float64;
  Path_LossPercent : float64;
  Path_Cost : float64;
  Path_Score : float64;
  Path_LastSeen : Z;
}.

Record Route := mkRoute { Route_CIDR : string; Route_OwnerNodeID : string }.

Record RoutingConfig := mkRoutingConfig {
  PolicyExpiresAt : Z;
  Version : Z;
  ListenPort : Z;
  OverlaySubnet : string;
  LocalPublic : bool;
  LocalSiteRouter : bool;
  NodeNames : gmap string string;
  Links : list LinkConfig;
  Paths : list Path;
  TransitPaths : list Path;
  Routes : list Route;
}.

Record Enrollment := mkEnrollment {
  Enrollment_NodeID : string;
  Enrollment_Name : string;
  Enrollment_Roles : gmap string bool;
  Enrollment_Routing : RoutingConfig;
}.

#[export] Instance path_eq_decision : EqDecision Path.
Proof. solve_decision. Defined.
#[export] Instance route_eq_decision : EqDecision Route.
Proof. solve_decision. Defined.

(** ** Validation *)

Definition LinkConfig_PSKBytes (l : LinkConfig) : result bytes :=
  match base64_decode (trim_space (Link_PSK l)) with
  | None => Err "illegal base64 data at input byte %d"
  | Some raw =>
      if negb (zlen raw =? 32) then Err "link PSK must decode to 32 bytes" else Ok raw
  end.

Definition LinkConfig_Validate (l : LinkConfig) (localNodeID : string) : result unit :=
  check (blank (Link_ID l)) "routed link has no id" ;;
  check (blank (Link_PeerNodeID l) || String.eqb (Link_PeerNodeID l) localNodeID)
    "invalid routed link peer %q" ;;
  check (match base64_decode (trim_space (Link_PSK l)) with
         | None => true
         | Some raw => negb (zlen raw =? 32)
         end) "link %s has invalid PSK" ;;
  let port := if Link_Port l =? 0 then DefaultMeshPort else Link_Port l in
  check ((port <? 1024) || (65535 <? port)) "link %s has invalid port %d".

Definition Route_Prefix (r : Route) : result Prefix :=
  match parse_prefix4 (Route_CIDR r) with
  | Some prefix =>
      if pfx_bits prefix =? 0 then Err "invalid owned route %q"
      else Ok (prefix_masked prefix)
  | None => Err "invalid owned route %q"
  end.

Definition Path_Validate (p : Path) : result unit :=
  check (blank (Path_ID p)) "route path has no id" ;;
  check (blank (Path_OwnerNodeID p)) "route path %s has no owner" ;;
  check ((zlen (Path_Hops p) <? 2) || (MaxPathHops <? zlen (Path_Hops p)))
    "route path %s has invalid hop count %d" ;;
  for_each_unique (λ hop, check (blank hop) "route path %s has an empty hop")
    trim_space "route path %s contains a loop" ∅ (Path_Hops p) ;;
  last_hop ← index (Path_Hops p) (zlen (Path_Hops p) - 1);
  check (negb (String.eqb last_hop (Path_OwnerNodeID p)))
    "route path %s does not terminate at its owner" ;;
  match parse_prefix4 (Path_CIDR p) with
  | Some prefix => check (pfx_bits prefix =? 0) "route path %s has invalid CIDR %q"
  | None => Err "route path %s has invalid CIDR %q"
  end.

Definition RoutingConfig_Validate (c : RoutingConfig) (localNodeID : string) : result unit :=
  check (Version c =? 0) "routed mesh is not configured" ;;
  let port := if ListenPort c =? 0 then DefaultMeshPort else ListenPort c in
  check ((port <? 1024) || (65535 <? port)) "invalid routed mesh listen port %d" ;;
  (if negb (String.eqb (OverlaySubnet c) "") then
     match parse_prefix4 (OverlaySubnet c) with
     | Some _ => Ok tt
     | None => Err "invalid overlay subnet %q"
     end
   else Ok tt) ;;
  for_each_unique (λ link, LinkConfig_Validate link localNodeID)
    Link_PeerNodeID "duplicate routed link peer %q" ∅ (Links c) ;;
  for_each (λ route,
      Route_Prefix route ;;
      check (blank (Route_OwnerNodeID route)) "route %q has no owner") (Routes c) ;;
  for_each Path_Validate (Paths c ++ TransitPaths c).

Definition Enrollment_Validate (e : Enrollment) : result unit :=
  check (blank (Enrollment_NodeID e)) "routing enrollment has no node_id" ;;
  check (PolicyExpiresAt (Enrollment_Routing e) <=? 0)
    "routed policy lease missing; refresh Node heartbeat before starting" ;;
  RoutingConfig_Validate (Enrollment_Routing e) (Enrollment_NodeID e).

(** [LoadEnrollment] over the file system and the JSON decoder. *)
Definition LoadEnrollment (ReadFile : string → result bytes)
    (Unmarshal : bytes → result Enrollment) (path : string) : result Enrollment :=
  match ReadFile path with
  | Ok raw =>
      match Unmarshal raw with
      | Ok value => Enrollment_Validate value ;; Ok value
      | Err _ => Err "decode enrollment: %w"
      | Panic => Panic
      end
  | Err _ => Err "read enrollment: %w"
  | Panic => Panic
  end.

Definition PolicyValid (c : RoutingConfig) (now : Z) : bool :=
  (PolicyExpiresAt c =? 0) || (time_unix now <? PolicyExpiresAt c).

Definition IsPublicNode (c : RoutingConfig) (localNodeID : string) : bool := LocalPublic c.
Definition IsSiteRouter (c : RoutingConfig) (localNodeID : string) : bool := LocalSiteRouter c.

(** ** Lookup *)

Section lookup.
Context `{GoSort}.

(** The candidates of [RouteFor]: routes whose prefix contains the address. *)
Definition route_matches (routes : list Route) (addr : Z) : list (Route * Prefix) :=
  omap (λ route,
    match Route_Prefix route with
    | Ok prefix => if prefix_contains prefix addr then Some (route, prefix) else None
    | _ => None
    end) routes.

Definition RouteFor (c : RoutingConfig) (addr : Z) : option Route :=
  match sort_slice (λ a b, pfx_bits b.2 <? pfx_bits a.2) (route_matches (Routes c) addr) with
  | [] => None
  | m :: _ => Some m.1
  end.

Definition source_path_ok (localNodeID : string) (route : Route) (path : Path) : bool :=
  match Path_Hops path with
  | h :: _ :: _ =>
      String.eqb h localNodeID
      && String.eqb (Path_OwnerNodeID path) (Route_OwnerNodeID route)
      && String.eqb (Path_CIDR path) (Route_CIDR route)
  | _ => false
  end.

Definition SourcePaths (c : RoutingConfig) (localNodeID : string) (route : Route) : list Path :=
  sort_slice (score_less Path_Score Path_ID)
    (List.filter (source_path_ok localNodeID route) (Paths c)).
End lookup.

Fixpoint find_path (pathID : string) (paths : list Path) : option Path :=
  match paths with
  | [] => None
  | path :: rest => if String.eqb (Path_ID path) pathID then Some path else find_path pathID rest
  end.

Definition TransitPath (c : RoutingConfig) (pathID : string) : option Path :=
  find_path pathID (TransitPaths c).

Lemma find_path_Some id ps p : find_path id ps = Some p → p ∈ ps ∧ Path_ID p = id.
Proof.
  induction ps as [|q ps IH]; cbn; [done|].
  destruct (String.eqb_spec (Path_ID q) id) as [<-|].
  - intros [= <-]. split; [left|done].
  - intros [? ?]%IH. split; [by right|done].
Qed.

(** ** What a validated configuration satisfies *)

Record link_wf (local : string) (l : LinkConfig) : Prop := {
  lw_id : blank (Link_ID l) = false;
  lw_peer : blank (Link_PeerNodeID l) = false;
  lw_not_self : Link_PeerNodeID l ≠ local;
  lw_psk : ∃ raw, LinkConfig_PSKBytes l = Ok raw ∧ length raw = 32%nat;
  lw_port : Link_Port l = 0 ∨ 1024 <= Link_Port l <= 65535;
}.

Record path_wf (p : Path) : Prop := {
  pw_id : blank (Path_ID p) = false;
  pw_owner : blank (Path_OwnerNodeID p) = false;
  pw_count : 2 <= zlen (Path_Hops p) <= MaxPathHops;
  pw_hops : Forall (λ h, blank h = false) (Path_Hops p);
  pw_no_loop : NoDup (trim_space <$> Path_Hops p);
  pw_last : last (Path_Hops p) = Some (Path_OwnerNodeID p);
  pw_cidr : ∃ q, parse_prefix4 (Path_CIDR p) = Some q ∧ 0 < pfx_bits q;
}.

Record config_wf (c : RoutingConfig) (local : string) : Prop := {
  cw_version : Version c ≠ 0;
  cw_port : ListenPort c = 0 ∨ 1024 <= ListenPort c <= 65535;
  cw_overlay : OverlaySubnet c = "" ∨ is_Some (parse_prefix4 (OverlaySubnet c));
  cw_links : Forall (link_wf local) (Links c);
  cw_peers : NoDup (Link_PeerNodeID <$> Links c);
  cw_routes : Forall (λ r, is_ok (Route_Prefix r) = true ∧ blank (Route_OwnerNodeID r) = false)
                (Routes c);
  cw_paths : Forall path_wf (Paths c ++ TransitPaths c);
}.

Lemma port_check p :
  let q := if p =? 0 then DefaultMeshPort else p in
  (q <? 1024) || (65535 <? q) = false ↔ p = 0 ∨ 1024 <= p <= 65535.
Proof. cbn. unfold DefaultMeshPort. destruct (Z.eqb_spec p 0); guards; lia. Qed.

Lemma psk_check l :
  match base64_decode (trim_space (Link_PSK l)) with
  | None => true | Some raw => negb (zlen raw =? 32) end = false
  ↔ ∃ raw, LinkConfig_PSKBytes l = Ok raw ∧ length raw = 32%nat.
Proof.
  unfold LinkConfig_PSKBytes. destruct (base64_decode _) as [raw|].
  - destruct (Z.eqb_spec (zlen raw) 32); cbn; unfold zlen in *.
    + split; [intros _; exists raw; split; [done|lia]|done].
    + split; [done|]. by intros (? & ? & ?).
  - split; [done|]. by intros (? & ? & ?).
Qed.

Lemma LinkConfig_Validate_iff l local : LinkConfig_Validate l local = Ok tt ↔ link_wf local l.
Proof.
  unfold LinkConfig_Validate. rewrite !check_then, check_Ok, psk_check, port_check.
  guards. split.
  - intros (? & (? & ?) & ? & ?). by constructor.
  - intros []. auto.
Qed.

Lemma LinkConfig_Validate_no_panic l local : LinkConfig_Validate l local ≠ Panic.
Proof.
  unfold LinkConfig_Validate. repeat (apply check_bind_no_panic; intros _). apply check_no_panic.
Qed.

Lemma Path_Validate_iff p : Path_Validate p = Ok tt ↔ path_wf p.
Proof.
  unfold Path_Validate.
  rewrite !check_then, bind_unit_Ok, for_each_unique_Ok. setoid_rewrite check_Ok.
  rewrite bind_Ok. setoid_rewrite check_then. split.
  - intros (Hid & Ho & Hc & (Hb & Hn & _) & lh & Hl & He & Hp). guards.
    rewrite index_last in Hl by lia. subst lh.
    destruct (parse_prefix4 _) as [q|] eqn:Ep; [|done]. apply check_Ok in Hp. guards.
    constructor; try done.
    exists q. split; [done|]. apply parse_prefix4_valid in Ep as [_ ?]. lia.
  - intros [Hid Ho Hc Hb Hn Hl (q & Hq & Hq')]. guards.
    split_and!; [done..|lia|lia|done|done|set_solver|].
    exists (Path_OwnerNodeID p). rewrite index_last by lia. split_and!; [done|by guards|].
    rewrite Hq. apply check_Ok. guards. lia.
Qed.

(** [RoutingConfig.Validate] accepts exactly the well-formed
    configurations: usable ports and overlay, links to distinct other peers with
    a 32-byte key, routes with a valid non-default IPv4 prefix and an owner, and
    paths of two or three distinct hops that end at their owner and serve a
    valid non-default IPv4 prefix. *)
Lemma RoutingConfig_Validate_iff c local :
  RoutingConfig_Validate c local = Ok tt ↔ config_wf c local.
Proof.
  unfold RoutingConfig_Validate.
  rewrite !check_then, !bind_unit_Ok, for_each_unique_Ok, !for_each_Ok, port_check.
  setoid_rewrite LinkConfig_Validate_iff. setoid_rewrite Path_Validate_iff.
  assert (∀ r, (Route_Prefix r;; check (blank (Route_OwnerNodeID r)) "route %q has no owner")
               = Ok tt ↔ is_ok (Route_Prefix r) = true ∧ blank (Route_OwnerNodeID r) = false) as R.
  { intros r. destruct (Route_Prefix r); cbn; rewrite ?check_Ok; naive_solver. }
  setoid_rewrite R.
  assert ((if negb (String.eqb (OverlaySubnet c) "")
           then match parse_prefix4 (OverlaySubnet c) with
                | Some _ => Ok tt | None => Err "invalid overlay subnet %q" end
           else Ok tt) = Ok tt
          ↔ OverlaySubnet c = "" ∨ is_Some (parse_prefix4 (OverlaySubnet c))) as O.
  { destruct (String.eqb_spec (OverlaySubnet c) ""); cbn; [naive_solver|].
    destruct (parse_prefix4 _); naive_solver. }
  rewrite O. guards. split.
  - intros (? & ? & ? & (? & ? & _) & ? & ?). by constructor.
  - by intros [].
Qed.

(** ** Longest-prefix match *)

Section lookup_facts.
Context `{GoSort}.

Lemma route_matches_elem routes a r q :
  (r, q) ∈ route_matches routes a ↔
  r ∈ routes ∧ Route_Prefix r = Ok q ∧ prefix_contains q a = true.
Proof.
  unfold route_matches. rewrite list_elem_of_omap. split.
  - intros (r' & Hr & E). destruct (Route_Prefix r') eqn:P; try done.
    case_match; [|done]. injection E as <- <-. done.
  - intros (Hr & P & C). exists r. by rewrite P, C.
Qed.

Lemma bits_less_strict_weak (l : list (Route * Prefix)) :
  strict_weak_on (λ a b, pfx_bits b.2 <? pfx_bits a.2) l.
Proof.
  apply (strict_weak_key _ (λ a, - pfx_bits a.2)). intros x y. guards. lia.
Qed.

(** [RouteFor] is a longest-prefix match whatever the sorting algorithm
    does with ties: it fails exactly when no configured route contains the
    address, and otherwise returns a configured route whose prefix contains it
    and is at least as long as that of every other route that contains it. *)
Lemma RouteFor_longest_prefix c a :
  match RouteFor c a with
  | None => ∀ r q, r ∈ Routes c → Route_Prefix r = Ok q → prefix_contains q a = false
  | Some r =>
      r ∈ Routes c ∧ ∃ q, Route_Prefix r = Ok q ∧ prefix_contains q a = true ∧
      ∀ r' q', r' ∈ Routes c → Route_Prefix r' = Ok q' → prefix_contains q' a = true →
        pfx_bits q' <= pfx_bits q
  end.
Proof.
  unfold RouteFor. destruct (sort_slice _ _) as [|[r q] rest] eqn:E.
  - apply sort_slice_nil in E. intros r q Hr Hp.
    destruct (prefix_contains q a) eqn:C; [|done].
    assert ((r, q) ∈ route_matches (Routes c) a) as M by (by apply route_matches_elem).
    rewrite E in M. by apply elem_of_nil in M.
  - apply sort_slice_head in E as [Hin Hmin].
    specialize (Hmin (bits_less_strict_weak _)).
    apply route_matches_elem in Hin as (Hr & Hp & Hc). cbn. split; [done|].
    exists q. split_and!; [done..|]. intros r' q' Hr' Hp' Hc'.
    assert ((r', q') ∈ route_matches (Routes c) a) as M by (by apply route_matches_elem).
    apply Hmin in M. cbn in M. guards. lia.
Qed.

Lemma RouteFor_contains c a :
  match RouteFor c a with
  | None => True
  | Some r => ∃ q, Route_Prefix r = Ok q ∧ prefix_contains q a = true
  end.
Proof.
  unfold RouteFor. destruct (sort_slice _ _) as [|[r q] rest] eqn:E; [done|].
  apply sort_slice_head in E as [(_ & ? & ?)%route_matches_elem _]. by exists q.
Qed.

Lemma Route_Prefix_contains r a :
  (∃ q, Route_Prefix r = Ok q ∧ prefix_contains q a = true) →
  ∃ q, parse_prefix4 (Route_CIDR r) = Some q ∧ prefix_contains q a = true.
Proof.
  intros (q & Hq & Hc). unfold Route_Prefix in Hq.
  destruct (parse_prefix4 (Route_CIDR r)) as [q'|] eqn:P; [|done].
  apply parse_prefix4_valid in P as [? ?]. case_match; simplify_eq.
  exists q'. split; [done|]. by rewrite prefix_masked_contains in Hc.
Qed.

Lemma SourcePaths_elem c local route p :
  p ∈ SourcePaths c local route ↔ p ∈ Paths c ∧ source_path_ok local route p = true.
Proof.
  unfold SourcePaths. rewrite sort_slice_elem, !list_elem_of_In, filter_In. done.
Qed.

Lemma source_path_ok_spec local route p :
  source_path_ok local route p = true →
  head (Path_Hops p) = Some local ∧ 2 <= zlen (Path_Hops p) ∧
  Path_OwnerNodeID p = Route_OwnerNodeID route ∧ Path_CIDR p = Route_CIDR route.
Proof.
  unfold source_path_ok. destruct (Path_Hops p) as [|h [|k t]]; try done.
  guards. intros [[-> ->] ->]. rewrite !zlen_cons. pose proof (zlen_nonneg t).
  split_and!; [done|lia|done|done].
Qed.
End lookup_facts.

Lemma path_wf_nodup p : path_wf p → NoDup (Path_Hops p).
Proof. intros W. eapply NoDup_fmap_1, pw_no_loop, W. Qed.
