(* ===== verification/RoutedFrame.v ===== *)
(** * The routed mesh frame ([internal/routed/frame.go])

    Structural validation of a frame, its wire format in both directions, the
    IPv4 header check, and the authorisation of a received frame against the
    Controller-approved configuration. *)

From Stdlib Require Import Strings.Byte.
From S2P Require Import Prelude GoLib GoStrings GoEncoding Float64 Netip RoutedConfig.

Definition frameMagic : bytes := str_bytes "BPR1".
Definition frameFlagReturn : Z := 1.

Record Frame := mkFrame {
  Frame_PathID : string;
  Frame_OwnerNodeID : string;
  Frame_Hops : list string;
  Frame_HopIndex : Z;
  Frame_Return : bool;
  Frame_Payload : bytes;
}.

#[export] Instance frame_eq_decision : EqDecision Frame.
Proof. solve_decision. Defined.

(** ** Structural validation *)

Definition check_hop (hop : string) : result unit :=
  check ((str_len hop =? 0) || (128 <? str_len hop)) "invalid hop id".

Definition ValidateBasic (f : Frame) : result unit :=
  check ((str_len (Frame_PathID f) =? 0) || (64 <? str_len (Frame_PathID f)))
    "invalid path id length" ;;
  check ((str_len (Frame_OwnerNodeID f) =? 0) || (128 <? str_len (Frame_OwnerNodeID f)))
    "invalid route owner id" ;;
  check ((zlen (Frame_Hops f) <? 2) || (MaxPathHops <? zlen (Frame_Hops f)))
    "invalid hop count %d" ;;
  check ((Frame_HopIndex f <=? 0) || (zlen (Frame_Hops f) <=? Frame_HopIndex f))
    "invalid receiving hop index %d" ;;
  for_each_unique check_hop (λ hop, hop) "routing loop detected in hop list" ∅ (Frame_Hops f) ;;
  (if Frame_Return f then
     first ← index (Frame_Hops f) 0;
     check (negb (String.eqb first (Frame_OwnerNodeID f)))
       "return path does not originate at route owner"
   else
     final ← index (Frame_Hops f) (zlen (Frame_Hops f) - 1);
     check (negb (String.eqb final (Frame_OwnerNodeID f)))
       "forward path does not terminate at route owner") ;;
  check ((zlen (Frame_Payload f) =? 0) || (65535 <? zlen (Frame_Payload f)))
    "invalid inner packet length %d".

(** ** Wire format *)

(** A string behind its one-byte length. *)
Definition field_bytes (s : string) : bytes := byte_of (str_len s) :: str_bytes s.

Definition frame_bytes (f : Frame) : bytes :=
  frameMagic
  ++ [byte_of (if Frame_Return f then Z.lor 0 frameFlagReturn else 0);
      byte_of (Frame_HopIndex f); byte_of (zlen (Frame_Hops f))]
  ++ field_bytes (Frame_PathID f)
  ++ field_bytes (Frame_OwnerNodeID f)
  ++ concat (field_bytes <$> Frame_Hops f)
  ++ be_encode 2 (zlen (Frame_Payload f))
  ++ Frame_Payload f.

Definition MarshalFrame (f : Frame) : result bytes :=
  ValidateBasic f ;; Ok (frame_bytes f).

(** The reading of one length-prefixed string, which the parser does for the
    path id, the owner and each hop: the length at [offset] is at most [max] and
    leaves [slack] bytes behind the string. *)
Definition read_field (raw : bytes) (offset slack max : Z) (err : string)
    : result (string * Z) :=
  length_byte ← index raw offset;
  let len := byte_val length_byte in
  let offset := offset + 1 in
  check ((len =? 0) || (max <? len) || (zlen raw <? offset + len + slack)) err ;;
  name ← slice raw offset (offset + len);
  Ok (bytes_str name, offset + len).

Fixpoint unmarshal_hops (raw : bytes) (count : nat) (offset : Z) (hops : list string)
    : result (list string * Z) :=
  match count with
  | O => Ok (hops, offset)
  | S count' =>
      check (zlen raw <=? offset) "truncated routed frame hop" ;;
      '(hop, offset) ← read_field raw offset 0 128 "invalid routed frame hop";
      unmarshal_hops raw count' offset (hops ++ [hop])
  end.

(** The magic and the fixed bytes: flags, hop index and hop count. *)
Definition unmarshal_header (raw : bytes) : result (byte * byte * byte) :=
  header_ok ← (if zlen raw <? 12 then Ok false
               else magic ← slice raw 0 4; Ok (bool_decide (magic = frameMagic)));
  check (negb header_ok) "invalid routed frame header" ;;
  flags ← index raw 4;
  hopIndex ← index raw 5;
  hopCount ← index raw 6;
  Ok (flags, hopIndex, hopCount).

Definition unmarshal_payload (raw : bytes) (offset : Z) : result bytes :=
  check (zlen raw <? offset + 2) "truncated routed frame payload length" ;;
  payloadLenRaw ← slice raw offset (offset + 2);
  let payloadLen := be_decode payloadLenRaw in
  let offset := offset + 2 in
  check ((payloadLen =? 0) || negb (offset + payloadLen =? zlen raw))
    "invalid routed frame payload length" ;;
  slice raw offset (zlen raw).

Definition UnmarshalFrame (raw : bytes) : result Frame :=
  '(flags, hopIndex, hopCount) ← unmarshal_header raw;
  '(pathID, offset) ← read_field raw 7 1 64 "invalid routed frame path id";
  '(owner, offset) ← read_field raw offset 0 128 "invalid routed frame owner";
  check ((byte_val hopCount <? 2) || (MaxPathHops <? byte_val hopCount))
    "invalid routed frame hop count" ;;
  '(hops, offset) ← unmarshal_hops raw (Z.to_nat (byte_val hopCount)) offset [];
  payload ← unmarshal_payload raw offset;
  let frame := mkFrame pathID owner hops (byte_val hopIndex)
                 (negb (Z.land (byte_val flags) frameFlagReturn =? 0)) payload in
  check (negb (Z.ldiff (byte_val flags) frameFlagReturn =? 0))
    "unsupported routed frame flags" ;;
  ValidateBasic frame ;;
  Ok frame.

(** ** Helpers *)

Definition reverseStrings (values : list string) : list string := reverse values.

Fixpoint equalStrings (left right : list string) : bool :=
  match left, right with
  | [], [] => true
  | l :: left', r :: right' => String.eqb l r && equalStrings left' right'
  | _, _ => false
  end.

Definition ParseIPv4Endpoints (packet : bytes) : result (Z * Z) :=
  is4 ← (if zlen packet <? 20 then Ok false
         else b ← index packet 0; Ok (Z.shiftr (byte_val b) 4 =? 4));
  check (negb is4) "inner packet is not IPv4" ;;
  b0 ← index packet 0;
  let headerLen := Z.land (byte_val b0) 15 * 4 in
  check ((headerLen <? 20) || (zlen packet <? headerLen)) "invalid IPv4 header length" ;;
  totalRaw ← slice packet 2 4;
  let totalLen := be_decode totalRaw in
  check ((totalLen <? headerLen) || (zlen packet <? totalLen)) "invalid IPv4 total length" ;;
  sourceRaw ← slice packet 12 16;
  destinationRaw ← slice packet 16 20;
  Ok (be_decode sourceRaw, be_decode destinationRaw).

(** ** Authorisation of a received frame *)

Section validate.
Context `{GoSort}.

Definition ValidateFrameForNode (frame : Frame) (localNodeID senderPeerID : string)
    (config : RoutingConfig) : result Path :=
  ValidateBasic frame ;;
  here ← index (Frame_Hops frame) (Frame_HopIndex frame);
  check (negb (String.eqb here localNodeID)) "frame current hop is not local Node" ;;
  before ← index (Frame_Hops frame) (Frame_HopIndex frame - 1);
  check (negb (String.eqb before senderPeerID))
    "frame previous hop does not match authenticated peer" ;;
  match TransitPath config (Frame_PathID frame) with
  | None => Err "path %s is not controller-approved"
  | Some path =>
      check (negb (String.eqb (Path_OwnerNodeID path) (Frame_OwnerNodeID frame)))
        "path owner mismatch" ;;
      let expectedHops :=
        if Frame_Return frame then reverseStrings (Path_Hops path) else Path_Hops path in
      check (negb (equalStrings (Frame_Hops frame) expectedHops))
        "hop list does not match controller-approved path" ;;
      '(source, destination) ← ParseIPv4Endpoints (Frame_Payload frame);
      if Frame_Return frame then
        check (blank (OverlaySubnet config)) "overlay subnet is unavailable" ;;
        check (match parse_prefix4 (OverlaySubnet config) with
               | None => true
               | Some overlay => negb (prefix_contains overlay destination)
               end) "return packet destination is outside overlay" ;;
        check (match RouteFor config source with
               | None => true
               | Some owned =>
                   negb (String.eqb (Route_OwnerNodeID owned) (Frame_OwnerNodeID frame))
                   || negb (String.eqb (Route_CIDR owned) (Path_CIDR path))
               end) "return packet source is outside the route owner's approved CIDR" ;;
        Ok path
      else
        check (match parse_prefix4 (OverlaySubnet config) with
               | None => true
               | Some overlay => negb (prefix_contains overlay source)
               end) "forward packet source is outside overlay" ;;
        check (match parse_prefix4 (Path_CIDR path) with
               | None => true
               | Some prefix => negb (prefix_contains prefix destination)
               end) "forward packet destination is outside approved route" ;;
        check (match RouteFor config destination with
               | None => true
               | Some route =>
                   negb (String.eqb (Route_OwnerNodeID route) (Frame_OwnerNodeID frame))
                   || negb (String.eqb (Route_CIDR route) (Path_CIDR path))
               end) "route owner validation failed" ;;
        Ok path
  end.
End validate.

(** ** Well-formed frames *)

Record frame_wf (f : Frame) : Prop := {
  fw_path : 1 <= str_len (Frame_PathID f) <= 64;
  fw_owner : 1 <= str_len (Frame_OwnerNodeID f) <= 128;
  fw_count : 2 <= zlen (Frame_Hops f) <= MaxPathHops;
  fw_index : 0 < Frame_HopIndex f < zlen (Frame_Hops f);
  fw_hops : Forall (λ h, 1 <= str_len h <= 128) (Frame_Hops f);
  fw_no_loop : NoDup (Frame_Hops f);
  fw_end : (if Frame_Return f then head (Frame_Hops f) else last (Frame_Hops f))
           = Some (Frame_OwnerNodeID f);
  fw_payload : 1 <= zlen (Frame_Payload f) <= 65535;
}.

Lemma len_check n hi : 0 <= n → (n =? 0) || (hi <? n) = false ↔ 1 <= n <= hi.
Proof. intros. guards. lia. Qed.

Lemma index_head {A} (l : list A) x : 2 <= zlen l → index l 0 = Ok x ↔ head l = Some x.
Proof.
  destruct l as [|y l]; [done|]. intros _. rewrite index_cons_0. cbn. naive_solver.
Qed.

Lemma list_fmap_id_fun {A} (l : list A) : (λ x, x) <$> l = l.
Proof. apply list_fmap_id. Qed.

Lemma ValidateBasic_iff f : ValidateBasic f = Ok tt ↔ frame_wf f.
Proof.
  unfold ValidateBasic, check_hop.
  rewrite !check_then, !bind_unit_Ok, for_each_unique_Ok, check_Ok.
  setoid_rewrite check_Ok. rewrite list_fmap_id_fun.
  rewrite !len_check by auto with go. setoid_rewrite len_check; [|auto with go].
  assert (2 <= zlen (Frame_Hops f) →
    (if Frame_Return f
     then first ← index (Frame_Hops f) 0;
          check (negb (String.eqb first (Frame_OwnerNodeID f)))
            "return path does not originate at route owner"
     else final ← index (Frame_Hops f) (zlen (Frame_Hops f) - 1);
          check (negb (String.eqb final (Frame_OwnerNodeID f)))
            "forward path does not terminate at route owner") = Ok tt
    ↔ (if Frame_Return f then head (Frame_Hops f) else last (Frame_Hops f))
      = Some (Frame_OwnerNodeID f)) as E.
  { intros L. destruct (Frame_Return f); rewrite bind_Ok; setoid_rewrite check_Ok.
    - setoid_rewrite index_head; [|done]. setoid_rewrite negb_false_iff.
      setoid_rewrite String.eqb_eq. naive_solver.
    - setoid_rewrite index_last; [|done]. setoid_rewrite negb_false_iff.
      setoid_rewrite String.eqb_eq. naive_solver. }
  guards. split.
  - intros (Hp & Ho & [Hc1 Hc2] & [Hi1 Hi2] & (Hh & Hn & _) & He & Hl).
    constructor; try done. by apply E.
  - intros [Hp Ho [Hc1 Hc2] [Hi1 Hi2] Hh Hn He Hl].
    split_and!; try done; try lia. by apply E.
Qed.


Lemma ValidateBasic_no_panic f : ValidateBasic f ≠ Panic.
Proof.
  unfold ValidateBasic.
  do 2 (apply check_bind_no_panic; intros _).
  apply check_bind_no_panic; intros Hc. guards.
  apply check_bind_no_panic; intros _.
  apply bind_no_panic.
  { apply for_each_unique_no_panic. intros x _. apply check_no_panic. }
  intros [] _. apply bind_no_panic; [|intros [] _; apply check_no_panic].
  destruct (Frame_Return f); apply bind_no_panic.
  - destruct (index_ok (Frame_Hops f) 0) as (x & -> & _); [lia|done].
  - intros x _. apply check_no_panic.
  - destruct (index_ok (Frame_Hops f) (zlen (Frame_Hops f) - 1)) as (x & -> & _); [lia|done].
  - intros x _. apply check_no_panic.
Qed.

(** ** The parser reads exactly what the writer writes *)

Lemma zlen_field_bytes s : zlen (field_bytes s) = 1 + str_len s.
Proof. unfold field_bytes. by autorewrite with zlen. Qed.
#[export] Hint Rewrite zlen_field_bytes : zlen.

Lemma read_field_iff pre rest slack max err s off :
  0 <= slack → max < 256 →
  read_field (pre ++ rest) (zlen pre) slack max err = Ok (s, off) ↔
  ∃ rest', rest = field_bytes s ++ rest' ∧ 1 <= str_len s <= max ∧ slack <= zlen rest'
    ∧ off = zlen (pre ++ field_bytes s).
Proof.
  intros Hs Hm. unfold read_field. rewrite index_at.
  destruct rest as [|b rest]; cbn [mbind result_bind].
  { split; [done|]. by intros (? & ? & _). }
  rewrite check_then, bind_Ok. pose proof (byte_val_range b).
  assert (pre ++ b :: rest = (pre ++ [b]) ++ rest) as -> by (by rewrite <- app_assoc).
  replace (zlen pre + 1) with (zlen (pre ++ [b])) by (autorewrite with zlen; lia).
  rewrite slice_at by lia. autorewrite with zlen. guards. split.
  - intros ([[Hc1 Hc2] Hc3] & n & E & [= <- <-]).
    destruct (Z.leb_spec (byte_val b) (zlen rest)); [|done]. injection E as <-.
    set (n := take _ rest).
    assert (zlen n = byte_val b) as Ln by (apply zlen_take; lia).
    exists (drop (Z.to_nat (byte_val b)) rest). unfold field_bytes.
    rewrite str_bytes_str, str_len_bytes, Ln, byte_of_val. split_and!; try lia.
    + cbn. unfold n. by rewrite take_drop.
    + unfold zlen in *. rewrite length_drop. lia.
  - intros (rest' & [= -> ->] & Hl & Hr & ->). autorewrite with zlen in *.
    rewrite byte_val_of_small by lia. pose proof (zlen_nonneg rest').
    split_and!; try lia. exists (str_bytes s).
    destruct (Z.leb_spec (str_len s) (str_len s + zlen rest')); [|lia].
    rewrite <- zlen_str_bytes. unfold zlen. rewrite Nat2Z.id, take_app_length.
    split; [done|]. rewrite bytes_str_bytes, str_bytes_length. unfold str_len.
    do 2 f_equal. lia.
Qed.

Lemma read_field_no_panic pre rest slack max err :
  0 <= slack → rest ≠ [] → read_field (pre ++ rest) (zlen pre) slack max err ≠ Panic.
Proof.
  intros Hs Hne. unfold read_field. rewrite index_at.
  destruct rest as [|b rest]; [done|]. cbn [mbind result_bind].
  apply check_bind_no_panic. intros Hc. guards. pose proof (byte_val_range b).
  apply bind_no_panic; [|done]. rewrite slice_ok; [done| |lia].
  pose proof (zlen_nonneg pre). lia.
Qed.

Lemma unmarshal_hops_iff pre rest n acc hs off :
  unmarshal_hops (pre ++ rest) n (zlen pre) acc = Ok (hs, off) ↔
  ∃ hops rest', rest = concat (field_bytes <$> hops) ++ rest' ∧ hs = acc ++ hops
    ∧ length hops = n ∧ Forall (λ h, 1 <= str_len h <= 128) hops
    ∧ off = zlen (pre ++ concat (field_bytes <$> hops)).
Proof.
  revert pre rest acc. induction n as [|n IH]; intros pre rest acc; cbn [unmarshal_hops].
  { split.
    - intros [= <- <-]. exists [], rest. cbn. rewrite !app_nil_r. by repeat constructor.
    - intros ([|] & rest' & -> & -> & ? & _ & ->); [|done]. cbn. by rewrite !app_nil_r. }
  rewrite check_then, bind_Ok. split.
  - intros (_ & [h off'] & Hr & Hh).
    apply read_field_iff in Hr as (rest' & -> & Hl & _ & ->); [|lia..].
    rewrite app_assoc in Hh. apply IH in Hh as (hops & rest'' & -> & -> & <- & F & ->).
    exists (h :: hops), rest''. cbn. rewrite <- !app_assoc.
    split_and!; [done..|by constructor|done].
  - intros ([|h hops] & rest' & -> & -> & [= L] & F & ->).
    inversion_clear F as [|?? Hh Hr]. rewrite fmap_cons in *. cbn [concat] in *.
    rewrite <- app_assoc.
    set (tail := concat _ ++ rest'). split.
    { guards. autorewrite with zlen. pose proof (zlen_nonneg tail). lia. }
    exists (h, zlen (pre ++ field_bytes h)). split.
    { apply read_field_iff; [lia..|]. exists tail. pose proof (zlen_nonneg tail). auto. }
    rewrite (app_assoc pre). apply IH. exists hops, rest'. by rewrite <- !app_assoc.
Qed.

Lemma unmarshal_hops_no_panic pre rest n acc :
  unmarshal_hops (pre ++ rest) n (zlen pre) acc ≠ Panic.
Proof.
  revert pre rest acc. induction n as [|n IH]; intros pre rest acc; cbn; [done|].
  apply check_bind_no_panic. intros Hc. guards. autorewrite with zlen in Hc.
  apply bind_no_panic; [apply read_field_no_panic; [lia|]|].
  { intros ->. rewrite zlen_nil in Hc. lia. }
  intros [h off] (rest' & -> & _ & _ & ->)%read_field_iff; [|lia..].
  rewrite app_assoc. apply IH.
Qed.

Lemma zlen_zero {A} (l : list A) : zlen l = 0 → l = [].
Proof. unfold zlen. by destruct l. Qed.

Lemma unmarshal_payload_iff pre rest p :
  unmarshal_payload (pre ++ rest) (zlen pre) = Ok p ↔
  rest = be_encode 2 (zlen p) ++ p ∧ 1 <= zlen p <= 65535.
Proof.
  unfold unmarshal_payload. rewrite check_then, bind_Ok.
  rewrite slice_at by lia. autorewrite with zlen. guards. split.
  - intros (Hl & n & E & Hs).
    destruct rest as [|x [|y q]]; autorewrite with zlen in *; [lia..|].
    destruct (Z.leb_spec 2 (1 + (1 + zlen q))); [|done]. injection E as <-.
    apply check_then in Hs as [Hc Hs]. guards. pose proof (be_decode_range [x; y]) as Hr.
    replace (pre ++ x :: y :: q) with ((pre ++ [x; y]) ++ q) in Hs by (by rewrite <- app_assoc).
    replace (zlen pre + 2) with (zlen (pre ++ [x; y])) in Hs by (autorewrite with zlen; lia).
    replace (zlen pre + (1 + (1 + zlen q))) with (zlen (pre ++ [x; y]) + zlen q) in Hs
      by (autorewrite with zlen; lia).
    rewrite slice_at, Z.leb_refl in Hs by apply zlen_nonneg. injection Hs as <-.
    rewrite take_zlen, take_0 in *. change (256 ^ zlen [x; y]) with 65536 in Hr.
    assert (zlen q = be_decode [x; y]) as Eq by lia.
    rewrite Eq. change 2%nat with (length [x; y]). rewrite be_encode_decode.
    split; [done|lia].
  - intros [-> Hl]. autorewrite with zlen. split; [lia|].
    exists (be_encode 2 (zlen p)).
    destruct (Z.leb_spec 2 (Z.of_nat 2 + zlen p)); [|lia].
    split; [by destruct p|].
    rewrite be_decode_encode_small by (cbn; lia). apply check_then.
    guards. split; [lia|]. rewrite app_assoc.
    replace (zlen pre + 2) with (zlen (pre ++ be_encode 2 (zlen p)))
      by (autorewrite with zlen; lia).
    replace (zlen pre + (Z.of_nat 2 + zlen p))
      with (zlen (pre ++ be_encode 2 (zlen p)) + zlen p) by (autorewrite with zlen; lia).
    rewrite slice_at by lia. rewrite Z.leb_refl. by rewrite take_zlen.
Qed.

Lemma unmarshal_payload_no_panic pre rest :
  unmarshal_payload (pre ++ rest) (zlen pre) ≠ Panic.
Proof.
  unfold unmarshal_payload. pose proof (zlen_nonneg pre).
  apply check_bind_no_panic. intros Hc. guards.
  rewrite (slice_ok _ _ (zlen pre + 2)) by lia. cbn [mbind result_bind].
  apply check_bind_no_panic. intros _. by rewrite slice_ok by lia.
Qed.

Lemma unmarshal_header_iff raw fl hi hc :
  unmarshal_header raw = Ok (fl, hi, hc) ↔
  ∃ rest, raw = (frameMagic ++ [fl; hi; hc]) ++ rest ∧ 12 <= zlen raw.
Proof.
  unfold unmarshal_header. destruct (Z.ltb_spec (zlen raw) 12) as [L|L].
  { cbn. split; [done|]. intros (? & _ & ?). lia. }
  do 7 (destruct raw as [|?b raw]; [autorewrite with zlen in L; lia|]).
  set (raw' := _ :: _) in *.
  assert (slice raw' 0 4 = Ok [b; b0; b1; b2]) as ->.
  { apply (slice_mid [] [b; b0; b1; b2] (b3 :: b4 :: b5 :: raw)); done. }
  assert (index raw' 4 = Ok b3) as -> by (apply (index_at [b; b0; b1; b2] (b3 :: _))).
  assert (index raw' 5 = Ok b4) as -> by (apply (index_at [b; b0; b1; b2; b3] (b4 :: _))).
  assert (index raw' 6 = Ok b5) as -> by (apply (index_at [b; b0; b1; b2; b3; b4] (b5 :: _))).
  cbn [mbind result_bind]. case_bool_decide as E; cbn [negb check mbind result_bind].
  - split.
    + intros [= <- <- <-]. exists raw. rewrite <- E. done.
    + intros (rest & Er & _). unfold raw' in Er. rewrite <- E in Er.
      injection Er as -> -> -> _. done.
  - split; [done|]. intros (rest & Er & _). destruct E. unfold raw' in Er.
    by injection Er as -> -> -> -> _ _ _ _.
Qed.

Lemma unmarshal_header_no_panic raw : unmarshal_header raw ≠ Panic.
Proof.
  unfold unmarshal_header. destruct (Z.ltb_spec (zlen raw) 12) as [L|L]; [done|].
  rewrite slice_ok by lia. cbn [mbind result_bind].
  apply check_bind_no_panic. intros _.
  destruct (index_ok raw 4) as (? & -> & _); [lia|].
  destruct (index_ok raw 5) as (? & -> & _); [lia|].
  by destruct (index_ok raw 6) as (? & -> & _); [lia|].
Qed.

Lemma ldiff_flag_small z : 0 <= z < 256 → Z.ldiff z frameFlagReturn = 0 → z = 0 ∨ z = 1.
Proof.
  intros H. assert (z ∈ seqZ 0 256) as Hz by (apply elem_of_seqZ; lia). clear H.
  revert z Hz.
  apply (proj1 (Forall_forall (λ z, Z.ldiff z frameFlagReturn = 0 → z = 0 ∨ z = 1) _)).
  apply (bool_decide_unpack _). by vm_compute.
Qed.

(** The flag byte is the return bit alone. *)
Lemma flag_byte_iff fl r :
  Z.ldiff (byte_val fl) frameFlagReturn = 0 ∧ negb (Z.land (byte_val fl) frameFlagReturn =? 0) = r
  ↔ fl = byte_of (if r then Z.lor 0 frameFlagReturn else 0).
Proof.
  split; [|intros ->; by destruct r]. intros [Hd <-].
  destruct (ldiff_flag_small (byte_val fl)) as [E|E]; [apply byte_val_range|done|..];
    apply byte_val_inj; by rewrite E.
Qed.

Lemma frame_bytes_split f :
  frame_bytes f =
  (frameMagic ++ [byte_of (if Frame_Return f then Z.lor 0 frameFlagReturn else 0);
      byte_of (Frame_HopIndex f); byte_of (zlen (Frame_Hops f))])
  ++ field_bytes (Frame_PathID f) ++ field_bytes (Frame_OwnerNodeID f)
  ++ concat (field_bytes <$> Frame_Hops f)
  ++ be_encode 2 (zlen (Frame_Payload f)) ++ Frame_Payload f.
Proof. unfold frame_bytes. by rewrite <- !app_assoc. Qed.

(** The staged readers of [UnmarshalFrame], from the header on. *)
Lemma unmarshal_inv raw f :
  UnmarshalFrame raw = Ok f → frame_wf f ∧ raw = frame_bytes f.
Proof.
  unfold UnmarshalFrame. intros E. apply bind_Ok in E as ([[fl hi] hc] & Hh & E).
  apply unmarshal_header_iff in Hh as (rest & -> & _).
  set (pre := frameMagic ++ _) in *. change 7 with (zlen pre) in E.
  apply bind_Ok in E as ([path off] & Hp & E).
  apply read_field_iff in Hp as (rest1 & -> & Hp & _ & ->); [|lia..].
  rewrite app_assoc in E. apply bind_Ok in E as ([owner off] & Ho & E).
  apply read_field_iff in Ho as (rest2 & -> & Ho & _ & ->); [|lia..].
  apply check_then in E as [Hc E]. rewrite app_assoc in E.
  apply bind_Ok in E as ([hops off] & Hs & E).
  apply unmarshal_hops_iff in Hs as (hops' & rest3 & -> & -> & Hn & F & ->).
  rewrite app_assoc in E. apply bind_Ok in E as (payload & Hl & E).
  apply unmarshal_payload_iff in Hl as [-> Hl]. cbn [app] in E.
  apply check_then in E as [Hf E]. apply bind_Ok in E as ([] & W & [= <-]).
  apply ValidateBasic_iff in W. split; [done|].
  rewrite frame_bytes_split. cbn [Frame_Return Frame_HopIndex Frame_Hops Frame_PathID
    Frame_OwnerNodeID Frame_Payload]. rewrite <- !app_assoc. unfold pre.
  guards. pose proof (byte_val_range hc).
  rewrite <- (proj1 (flag_byte_iff fl _) (conj Hf eq_refl)), byte_of_val.
  replace (zlen hops') with (byte_val hc) by (unfold zlen; lia).
  rewrite byte_of_val. done.
Qed.

Lemma unmarshal_marshal f : frame_wf f → UnmarshalFrame (frame_bytes f) = Ok f.
Proof.
  intros W. pose proof W as [Hp Ho Hc Hi Hh Hn He Hl]. unfold MaxPathHops in *.
  destruct f as [path owner hops idx ret payload]. cbn in Hp, Ho, Hc, Hi, Hh, Hl.
  rewrite frame_bytes_split. cbn [Frame_Return Frame_HopIndex Frame_Hops Frame_PathID
    Frame_OwnerNodeID Frame_Payload]. unfold UnmarshalFrame.
  set (flag := byte_of (if ret then _ else _)). set (pre := frameMagic ++ _).
  set (tail := concat _ ++ _). pose proof (zlen_nonneg (concat (field_bytes <$> hops))).
  rewrite (proj2 (unmarshal_header_iff _ flag (byte_of idx) (byte_of (zlen hops)))).
  2:{ exists (field_bytes path ++ field_bytes owner ++ tail). split; [done|].
      unfold tail, pre. autorewrite with zlen. change (zlen frameMagic) with 4. lia. }
  cbn [mbind result_bind]. change 7 with (zlen pre).
  rewrite (proj2 (read_field_iff pre _ 1 64 _ path (zlen (pre ++ field_bytes path))
             ltac:(lia) ltac:(lia))).
  2:{ exists (field_bytes owner ++ tail). split_and!; [done|lia..| |done].
      unfold tail. autorewrite with zlen. lia. }
  cbn [mbind result_bind]. rewrite app_assoc. set (pre1 := pre ++ field_bytes path).
  rewrite (proj2 (read_field_iff pre1 _ 0 128 _ owner (zlen (pre1 ++ field_bytes owner))
             ltac:(lia) ltac:(lia))).
  2:{ exists tail. split_and!; [done|lia..|apply zlen_nonneg|done]. }
  cbn [mbind result_bind]. rewrite !byte_val_of_small by lia. unfold MaxPathHops.
  destruct (Z.ltb_spec (zlen hops) 2); [lia|].
  destruct (Z.ltb_spec 3 (zlen hops)); [lia|]. cbn [orb check mbind result_bind].
  rewrite app_assoc. set (pre2 := pre1 ++ field_bytes owner). unfold tail.
  rewrite (proj2 (unmarshal_hops_iff pre2 _ _ [] hops
             (zlen (pre2 ++ concat (field_bytes <$> hops))))).
  2:{ do 2 eexists. split_and!; [done|done|unfold zlen; lia|done|done]. }
  cbn [mbind result_bind]. rewrite (app_assoc pre2).
  rewrite (proj2 (unmarshal_payload_iff _ _ payload)) by done. cbn [mbind result_bind].
  destruct (proj2 (flag_byte_iff flag ret) eq_refl) as [Hd Hr]. rewrite Hd, Hr.
  cbn [Z.eqb negb check mbind result_bind].
  apply ValidateBasic_iff in W. by rewrite W.
Qed.

Lemma unmarshal_total raw : UnmarshalFrame raw ≠ Panic.
Proof.
  unfold UnmarshalFrame. apply bind_no_panic; [apply unmarshal_header_no_panic|].
  intros [[fl hi] hc] (rest & -> & L)%unmarshal_header_iff.
  set (pre := frameMagic ++ _) in *. change 7 with (zlen pre).
  assert (rest ≠ []).
  { intros ->. rewrite app_nil_r in L. by vm_compute in L. }
  apply bind_no_panic; [by apply read_field_no_panic|].
  intros [path off] (rest1 & -> & _ & Hr & ->)%read_field_iff; [|lia..].
  rewrite app_assoc. apply bind_no_panic.
  { apply read_field_no_panic; [lia|]. intros ->. by vm_compute in Hr. }
  intros [owner off] (rest2 & -> & _ & _ & ->)%read_field_iff; [|lia..].
  rewrite app_assoc. apply check_bind_no_panic. intros _.
  apply bind_no_panic; [apply unmarshal_hops_no_panic|].
  intros [hops off] (hops' & rest3 & -> & _ & _ & _ & ->)%unmarshal_hops_iff.
  rewrite app_assoc. apply bind_no_panic; [apply unmarshal_payload_no_panic|].
  intros payload _. apply check_bind_no_panic. intros _.
  apply bind_no_panic; [apply ValidateBasic_no_panic|done].
Qed.

(** The wire format is unambiguous and complete: [UnmarshalFrame] accepts a
    byte string with frame [f] exactly when [f] passes [ValidateBasic] and the
    bytes are what [MarshalFrame] writes for [f].  Hence marshalling followed by
    unmarshalling is the identity, every accepted input is canonical, and no two
    inputs decode to the same frame.  On every other input the parser returns an
    error: no index or slice expression of it is out of bounds. *)
Lemma UnmarshalFrame_exact raw :
  UnmarshalFrame raw ≠ Panic ∧ ∀ f, UnmarshalFrame raw = Ok f ↔ MarshalFrame f = Ok raw.
Proof.
  split; [apply unmarshal_total|]. intros f. unfold MarshalFrame. rewrite bind_Ok. split.
  - intros [W ->]%unmarshal_inv. exists tt. split; [by apply ValidateBasic_iff|done].
  - intros ([] & W & [= <-]). apply unmarshal_marshal. by apply ValidateBasic_iff.
Qed.

(** ** Authorisation *)

Lemma equalStrings_eq l r : equalStrings l r = true ↔ l = r.
Proof.
  revert r. induction l as [|x l IH]; intros [|y r]; cbn; try done.
  rewrite andb_true_iff, String.eqb_eq, IH. naive_solver.
Qed.

Lemma index_lookup {A} (l : list A) i x : index l i = Ok x ↔ 0 <= i ∧ l !! Z.to_nat i = Some x.
Proof.
  unfold index. split.
  - destruct (Z.leb_spec 0 i), (Z.ltb_spec i (zlen l)); cbn; try done.
    destruct (l !! Z.to_nat i) eqn:E; [|done]. by intros [= <-].
  - intros [H E]. pose proof (lookup_lt_Some _ _ _ E). unfold zlen.
    destruct (Z.leb_spec 0 i), (Z.ltb_spec i (Z.of_nat (length l))); try lia. cbn. by rewrite E.
Qed.

Lemma ParseIPv4Endpoints_no_panic packet : ParseIPv4Endpoints packet ≠ Panic.
Proof.
  unfold ParseIPv4Endpoints. destruct (Z.ltb_spec (zlen packet) 20) as [L|L]; [done|].
  destruct (index_ok packet 0) as (b & -> & _); [lia|]. cbn [mbind result_bind].
  do 2 (apply check_bind_no_panic; intros _; cbn [mbind result_bind]).
  rewrite (slice_ok packet 2 4) by lia. cbn [mbind result_bind].
  apply check_bind_no_panic; intros _. by rewrite !slice_ok by lia.
Qed.

(** The addresses of a packet are 32-bit values. *)
Lemma ParseIPv4Endpoints_valid packet s d :
  ParseIPv4Endpoints packet = Ok (s, d) → 20 <= zlen packet ∧ addr_valid s ∧ addr_valid d.
Proof.
  unfold ParseIPv4Endpoints. destruct (Z.ltb_spec (zlen packet) 20) as [L|L]; [done|].
  destruct (index_ok packet 0) as (b & -> & _); [lia|]. cbn [mbind result_bind].
  intros (_ & E)%check_then. cbn [mbind result_bind] in E. apply check_then in E as (_ & E).
  rewrite !slice_ok in E by lia. cbn [mbind result_bind] in E.
  apply check_then in E as (_ & [= <- <-]). split; [done|].
  assert (∀ n, 0 <= n → n + 4 <= zlen packet →
    addr_valid (be_decode (take (Z.to_nat 4) (drop (Z.to_nat n) packet)))) as V.
  { intros n H1 H2. unfold addr_valid. change (2 ^ 32) with (256 ^ 4).
    pose proof (be_decode_range (take (Z.to_nat 4) (drop (Z.to_nat n) packet))) as R.
    rewrite zlen_take in R; [done|]. unfold zlen in *. rewrite length_drop. lia. }
  split; [apply (V 12)|apply (V 16)]; lia.
Qed.

(** What the configuration approves for one packet of a frame on a path. *)
Definition packet_approved `{GoSort} (config : RoutingConfig) (frame : Frame) (path : Path)
    (source destination : Z) : Prop :=
  let '(device, site) :=
    if Frame_Return frame then (destination, source) else (source, destination) in
  (∃ overlay, parse_prefix4 (OverlaySubnet config) = Some overlay
     ∧ prefix_contains overlay device = true) ∧
  (Frame_Return frame = true → blank (OverlaySubnet config) = false) ∧
  (Frame_Return frame = false → ∃ prefix, parse_prefix4 (Path_CIDR path) = Some prefix
     ∧ prefix_contains prefix site = true) ∧
  (∃ route, RouteFor config site = Some route ∧ Route_OwnerNodeID route = Frame_OwnerNodeID frame
     ∧ Route_CIDR route = Path_CIDR path).

Record frame_authorised `{GoSort} (frame : Frame) (local sender : string)
    (config : RoutingConfig) (path : Path) : Prop := {
  fa_wf : frame_wf frame;
  fa_path : TransitPath config (Frame_PathID frame) = Some path;
  fa_owner : Path_OwnerNodeID path = Frame_OwnerNodeID frame;
  fa_hops : Frame_Hops frame =
            (if Frame_Return frame then reverse (Path_Hops path) else Path_Hops path);
  fa_here : Frame_Hops frame !! Z.to_nat (Frame_HopIndex frame) = Some local;
  fa_sender : Frame_Hops frame !! Z.to_nat (Frame_HopIndex frame - 1) = Some sender;
  fa_packet : ∃ s d, ParseIPv4Endpoints (Frame_Payload frame) = Ok (s, d)
                ∧ packet_approved config frame path s d;
}.

Section authorise.
Context `{GoSort}.

Lemma overlay_check o a :
  match o with None => true | Some p => negb (prefix_contains p a) end = false
  ↔ ∃ p, o = Some p ∧ prefix_contains p a = true.
Proof. destruct o as [p|]; [destruct (prefix_contains p a) eqn:E|]; naive_solver. Qed.

Lemma owner_check o (owner cidr : string) :
  match o with
  | None => true
  | Some r => negb (String.eqb (Route_OwnerNodeID r) owner)
              || negb (String.eqb (Route_CIDR r) cidr)
  end = false
  ↔ ∃ r, o = Some r ∧ Route_OwnerNodeID r = owner ∧ Route_CIDR r = cidr.
Proof.
  destruct o as [r|]; guards; [|naive_solver]. split; [naive_solver|].
  by intros (? & [= <-] & ? & ?).
Qed.

Lemma validate_frame_iff frame local sender config path :
  ValidateFrameForNode frame local sender config = Ok path ↔
  frame_authorised frame local sender config path.
Proof.
  unfold ValidateFrameForNode, reverseStrings. split.
  - intros E. apply bind_Ok in E as ([] & W & E). apply ValidateBasic_iff in W.
    apply bind_Ok in E as (h & Hh & E). apply check_then in E as [Eh E].
    apply bind_Ok in E as (b & Hb & E). apply check_then in E as [Eb E].
    guards. subst h b. apply index_lookup in Hh as [_ Hh], Hb as [_ Hb].
    destruct (TransitPath config _) as [q|] eqn:T; [|done].
    apply check_then in E as [Ho E]. apply check_then in E as [Hq E]. guards.
    apply equalStrings_eq in Hq. apply bind_Ok in E as ([s d] & P & E).
    assert (q = path ∧ packet_approved config frame q s d) as [-> A].
    { unfold packet_approved. destruct (Frame_Return frame);
        repeat (apply check_then in E as [? E]); injection E as ->;
        rewrite ?overlay_check, ?owner_check in *; split_and!; done. }
    constructor; eauto.
  - intros [W T Ho Hq Hh Hb (s & d & P & A)]. pose proof (fw_index _ W).
    rewrite (proj2 (ValidateBasic_iff frame) W). cbn [mbind result_bind].
    rewrite (proj2 (index_lookup _ (Frame_HopIndex frame) local)) by (split; [lia|done]).
    cbn [mbind result_bind].
    apply check_then. split; [by guards|].
    rewrite (proj2 (index_lookup _ (Frame_HopIndex frame - 1) sender)) by (split; [lia|done]).
    cbn [mbind result_bind].
    apply check_then. split; [by guards|].
    rewrite T. apply check_then. split; [by guards|].
    apply check_then. split; [guards; by apply equalStrings_eq|].
    rewrite P. cbn [mbind result_bind]. unfold packet_approved in A.
    destruct (Frame_Return frame); destruct A as (A1 & A2 & A3 & A4);
      repeat (apply check_then; rewrite ?overlay_check, ?owner_check; split; [auto|]); done.
Qed.

(** C3. [ValidateFrameForNode] accepts exactly the authorised frames: those that
    are structurally valid, arrived from the hop before the local Node on the
    Controller-approved path (or its reverse for return traffic), and carry an
    IPv4 packet between a Device address of the overlay and a site address whose
    longest-prefix route belongs to that path's owner and prefix. *)
Theorem ValidateFrameForNode_iff frame local sender config path :
  ValidateFrameForNode frame local sender config = Ok path ↔
  frame_authorised frame local sender config path.
Proof. apply validate_frame_iff. Qed.

Lemma ValidateFrameForNode_no_panic frame local sender config :
  ValidateFrameForNode frame local sender config ≠ Panic.
Proof.
  unfold ValidateFrameForNode. apply bind_no_panic; [apply ValidateBasic_no_panic|].
  intros [] W%ValidateBasic_iff. pose proof (fw_index _ W).
  destruct (index_ok (Frame_Hops frame) (Frame_HopIndex frame)) as (h & -> & _); [lia|].
  cbn [mbind result_bind]. apply check_bind_no_panic. intros _.
  destruct (index_ok (Frame_Hops frame) (Frame_HopIndex frame - 1)) as (b & -> & _); [lia|].
  cbn [mbind result_bind]. apply check_bind_no_panic. intros _.
  destruct (TransitPath config _); [|done]. do 2 (apply check_bind_no_panic; intros _).
  apply bind_no_panic; [apply ParseIPv4Endpoints_no_panic|]. intros [s d] _.
  destruct (Frame_Return frame); repeat (apply check_bind_no_panic; intros _); done.
Qed.

(** The next hop of an authorised frame accepts it, under the same
    configuration, when the local Node advances the hop index. *)
Definition advance (frame : Frame) : Frame :=
  mkFrame (Frame_PathID frame) (Frame_OwnerNodeID frame) (Frame_Hops frame)
    (Frame_HopIndex frame + 1) (Frame_Return frame) (Frame_Payload frame).

Lemma authorised_advance frame local sender config path next :
  frame_authorised frame local sender config path →
  Frame_Hops frame !! Z.to_nat (Frame_HopIndex frame + 1) = Some next →
  frame_authorised (advance frame) next local config path.
Proof.
  intros [W T Ho Hq Hh Hb P] Hn. pose proof (fw_index _ W).
  pose proof (lookup_lt_Some _ _ _ Hn). constructor; try done.
  - destruct W as [? ? ? ? ? ? ? ?]. constructor; try done. cbn. unfold zlen in *. lia.
  - cbn. by replace (Frame_HopIndex frame + 1 - 1) with (Frame_HopIndex frame) by lia.
Qed.
End authorise.
