(* ===== verification/RoutedRouter.v ===== *)
(** * The Node router ([internal/routed/router.go])

    Path selection with hysteresis, the table of learned reverse paths, and the
    handlers of packets from the TUN device and from the mesh.  The router is
    written against the interfaces [MeshTransport] and [PacketWriter] of the
    code, which are classes here: its theorems hold for every transport. *)

From Stdlib Require Import Strings.Byte.
From S2P Require Import Prelude GoLib GoStrings GoEncoding Float64 Netip RoutedConfig RoutedFrame.

Definition pathMinimumImprovement : float64 := f_of_Z 15.
Definition pathStableInterval : Z := 5 * second.
Definition pathRecoveryCooldown : Z := 10 * second.
Definition reversePathTTL : Z := 10 * minute.

Record LinkStatus := mkLinkStatus {
  LS_ID : string;
  LS_From : string;
  LS_To : string;
  LS_PeerName : string;
  LS_Health : string;
  LS_RTTMS : float64;
  LS_LossPercent : float64;
  LS_Cost : float64;
  LS_LastSeen : Z;
  LS_Endpoint : string;
}.

(** [MeshTransport]: [Send] may change the state of the transport even when it
    fails; the other two methods only read it. *)
Class MeshTransport (M : Type) := {
  Send : M → string → bytes → M * result unit;
  CanSend : M → string → bool;
  LinkStatusOf : M → string → option LinkStatus;
}.

Class PacketWriter (W : Type) := { WritePacket : W → bytes → W * result unit }.

Record pathAvailability := mkAvail { Viable : bool; RecoveredAt : Z }.

Record routeSelection := mkSelection {
  Availability : gmap string pathAvailability;
  CurrentID : string;
  LastSwitch : Z;
  CandidateID : string;
  CandidateSince : Z;
}.

Record reversePath := mkReverse { Reverse_Path : Path; Reverse_LastSeen : Z }.

Record SelectedPathStatus := mkSelected {
  Sel_CIDR : string;
  Sel_OwnerNodeID : string;
  Sel_PathID : string;
  Sel_Hops : list string;
  Sel_HopNames : list string;
  Sel_Health : string;
  Sel_RTTMS : float64;
  Sel_LossPercent : float64;
  Sel_Cost : float64;
  Sel_StandbyPathIDs : list string;
}.

Definition empty_selection : routeSelection := mkSelection ∅ "" zero_time "" zero_time.

(** The reverse table is keyed by the Device address itself; the code uses its
    textual form, which determines the address. *)
Record Router (M W : Type) := mkRouter {
  localNodeID : string;
  config : RoutingConfig;
  selections : gmap string routeSelection;
  reverse_paths : gmap Z reversePath;
  mesh : M;
  writer : W;
}.
Arguments mkRouter {M W}.
Arguments localNodeID {M W}.
Arguments config {M W}.
Arguments selections {M W}.
Arguments reverse_paths {M W}.
Arguments mesh {M W}.
Arguments writer {M W}.

Definition routeKey (route : Route) : string :=
  Route_OwnerNodeID route +:+ "|" +:+ Route_CIDR route.

Definition degraded_or_unknown (health : string) : bool :=
  String.eqb health "degraded" || String.eqb health "unknown".

Definition pathScore (path : Path) (status : option LinkStatus) : float64 :=
  let score :=
    if feq (Path_Score path) f0 then
      let score := fadd (fadd (Path_Cost path) (Path_RTTMS path))
                     (fmul (Path_LossPercent path) (f_of_Z 10)) in
      if degraded_or_unknown (Path_Health path) then fadd score (f_of_Z 1000) else score
    else Path_Score path in
  match status with
  | Some st =>
      let score := fadd score (fadd (LS_RTTMS st) (fmul (LS_LossPercent st) (f_of_Z 10))) in
      if degraded_or_unknown (LS_Health st) then fadd score (f_of_Z 100) else score
  | None => score
  end.

Section router.
Context {M W : Type} `{MT : MeshTransport M} `{PW : PacketWriter W} `{GS : GoSort}.
Implicit Types r : Router M W.

Definition NewRouter (local : string) (cfg : RoutingConfig) (m : option M) (w : option W)
    : result (Router M W) :=
  match m, w with
  | Some m, Some w =>
      check (String.eqb local "")
        "routed Router requires local Node, mesh and packet writer" ;;
      RoutingConfig_Validate cfg local ;;
      Ok (mkRouter local cfg ∅ ∅ m w)
  | _, _ => Err "routed Router requires local Node, mesh and packet writer"
  end.

Definition set_selections r s : Router M W :=
  mkRouter (localNodeID r) (config r) s (reverse_paths r) (mesh r) (writer r).
Definition set_reverse r t : Router M W :=
  mkRouter (localNodeID r) (config r) (selections r) t (mesh r) (writer r).
Definition set_mesh r m : Router M W :=
  mkRouter (localNodeID r) (config r) (selections r) (reverse_paths r) m (writer r).
Definition set_writer r w : Router M W :=
  mkRouter (localNodeID r) (config r) (selections r) (reverse_paths r) (mesh r) w.

(** The effect of a new configuration on one selection: forget paths that are
    gone, and the whole selection when its current path is gone. *)
Definition prune_selection (valid : gset string) (state : routeSelection)
    : option routeSelection :=
  let avail := filter (λ '(id, _), id ∈ valid) (Availability state) in
  let state' := mkSelection avail (CurrentID state) (LastSwitch state)
                  (CandidateID state) (CandidateSince state) in
  if String.eqb (CurrentID state) "" then Some state'
  else if bool_decide (CurrentID state ∈ valid) then Some state' else None.

Definition UpdateConfig r (cfg : RoutingConfig) : Router M W * result unit :=
  match RoutingConfig_Validate cfg (localNodeID r) with
  | Ok _ =>
      let valid : gset string := list_to_set (Path_ID <$> (Paths cfg ++ TransitPaths cfg)) in
      (mkRouter (localNodeID r) cfg (omap (prune_selection valid) (selections r))
         (reverse_paths r) (mesh r) (writer r), Ok tt)
  | Err e => (r, Err e)
  | Panic => (r, Panic)
  end.

Definition viablePath r (path : Path) : option float64 :=
  match Path_Hops path with
  | h :: first :: _ =>
      if negb (String.eqb h (localNodeID r)) || String.eqb (Path_Health path) "failed"
      then None
      else if negb (CanSend (mesh r) first) then None
      else
        let status := LinkStatusOf (mesh r) first in
        if match status with Some st => String.eqb (LS_Health st) "failed" | None => false end
        then None
        else Some (pathScore path status)
  | _ => None
  end.

(** One iteration of the first loop of [choosePath]. *)
Definition observe_path r (now : Z)
    (acc : gmap string pathAvailability * list (Path * float64)) (path : Path) :=
  let '(avail, candidates) := acc in
  let score := viablePath r path in
  let ok := bool_decide (is_Some score) in
  let prior := avail !! Path_ID path in
  let recovered :=
    match prior with
    | Some p => if ok && negb (Viable p) then now else RecoveredAt p
    | None => zero_time
    end in
  (<[Path_ID path := mkAvail ok recovered]> avail,
   match score with
   | Some s => candidates ++ [(path, s)]
   | None => candidates
   end).

Definition observe_paths r (now : Z) (paths : list Path) (avail : gmap string pathAvailability)
    : gmap string pathAvailability * list (Path * float64) :=
  let '(avail, candidates) := fold_left (observe_path r now) paths (avail, []) in
  (map_imap (λ id prior,
     Some (if bool_decide (id ∈ Path_ID <$> paths) then prior
           else mkAvail false (RecoveredAt prior))) avail,
   candidates).

(** The decision of [choosePath] on the sorted candidates: the new selection
    state and the chosen path. *)
Definition decide_path (now : Z) (state : routeSelection) (best : Path * float64)
    (current : option (Path * float64)) : routeSelection * Path :=
  let avail := Availability state in
  let keep := mkSelection avail (CurrentID state) (LastSwitch state) "" zero_time in
  let switch := mkSelection avail (Path_ID best.1) now "" zero_time in
  match current with
  | None => (switch, best.1)
  | Some cur =>
      if String.eqb (Path_ID best.1) (Path_ID cur.1) then (keep, cur.1)
      else if time_sub now (LastSwitch state) <? pathRecoveryCooldown then (state, cur.1)
      else if flt (fsub cur.2 best.2) pathMinimumImprovement then (keep, cur.1)
      else if negb (String.eqb (CandidateID state) (Path_ID best.1)) then
        (mkSelection avail (CurrentID state) (LastSwitch state) (Path_ID best.1) now, cur.1)
      else
        let recoveredAt :=
          match avail !! Path_ID best.1 with Some p => RecoveredAt p | None => zero_time end in
        if (negb (time_is_zero recoveredAt)
            && (time_sub now recoveredAt <? pathRecoveryCooldown))
           || (time_sub now (CandidateSince state) <? pathStableInterval)
        then (state, cur.1)
        else (switch, best.1)
  end.

Definition choosePath r (route : Route) (paths : list Path) (now : Z)
    : Router M W * result Path :=
  let key := routeKey route in
  let state := default empty_selection (selections r !! key) in
  let '(avail, candidates) := observe_paths r now paths (Availability state) in
  let state := mkSelection avail (CurrentID state) (LastSwitch state)
                 (CandidateID state) (CandidateSince state) in
  match sort_slice (score_less snd (Path_ID ∘ fst)) candidates with
  | [] =>
      (set_selections r (<[key := mkSelection avail (CurrentID state) (LastSwitch state)
                                    "" zero_time]> (selections r)),
       Err "no healthy end-to-end path to owner %s")
  | best :: rest =>
      let current := List.find (λ c, String.eqb (Path_ID c.1) (CurrentID state)) (best :: rest) in
      let '(state', path) := decide_path now state best current in
      (set_selections r (<[key := state']> (selections r)), Ok path)
  end.

(** ** Learned reverse paths *)

Definition rememberReverse r (device : Z) (path : Path) (now : Z) : Router M W :=
  let live := filter (λ '(_, entry), ¬ reversePathTTL < time_sub now (Reverse_LastSeen entry))
                (reverse_paths r) in
  set_reverse r (<[device := mkReverse path now]> live).

Definition reverseFor r (device : Z) (now : Z) : Router M W * option Path :=
  match reverse_paths r !! device with
  | Some entry =>
      if reversePathTTL <? time_sub now (Reverse_LastSeen entry)
      then (set_reverse r (delete device (reverse_paths r)), None)
      else (set_reverse r (<[device := mkReverse (Reverse_Path entry) now]> (reverse_paths r)),
            Some (Reverse_Path entry))
  | None => (set_reverse r (delete device (reverse_paths r)), None)
  end.

(** ** Packet handlers *)

Definition sendFrame r (frame : Frame) : Router M W * result unit :=
  if (Frame_HopIndex frame <=? 0) || (zlen (Frame_Hops frame) <=? Frame_HopIndex frame)
  then (r, Err "cannot send frame with invalid next hop index")
  else match index (Frame_Hops frame) (Frame_HopIndex frame) with
  | Ok next =>
      if negb (CanSend (mesh r) next) then (r, Err "next hop %s is unhealthy")
      else match MarshalFrame frame with
      | Ok raw => let '(m, res) := Send (mesh r) next raw in (set_mesh r m, res)
      | Err e => (r, Err e)
      | Panic => (r, Panic)
      end
  | Err e => (r, Err e)
  | Panic => (r, Panic)
  end.

Definition HandleTunPacket r (packet : bytes) (now : Z) : Router M W * result unit :=
  match ParseIPv4Endpoints packet with
  | Err e => (r, Err e)
  | Panic => (r, Panic)
  | Ok (_, destination) =>
      let cfg := config r in
      if negb (PolicyValid cfg now)
      then (r, Err "routed Controller policy expired; traffic denied")
      else
        let to_device :=
          IsSiteRouter cfg (localNodeID r) &&
          match parse_prefix4 (OverlaySubnet cfg) with
          | Some overlay => prefix_contains overlay destination
          | None => false
          end in
        if to_device then
          let '(r, forward) := reverseFor r destination now in
          match forward with
          | None => (r, Err "no reverse path learned for Device %s")
          | Some forward =>
              let hops := reverseStrings (Path_Hops forward) in
              if (zlen hops <? 2)
                 || negb (bool_decide (head hops = Some (localNodeID r)))
              then (r, Err "invalid learned reverse path")
              else sendFrame r (mkFrame (Path_ID forward) (localNodeID r) hops 1 true packet)
          end
        else match RouteFor cfg destination with
        | None => (r, Err "destination %s is not a BPC-owned site route")
        | Some route =>
            let '(r, chosen) :=
              choosePath r route (SourcePaths cfg (localNodeID r) route) now in
            match chosen with
            | Ok path =>
                sendFrame r (mkFrame (Path_ID path) (Route_OwnerNodeID route)
                               (Path_Hops path) 1 false packet)
            | Err e => (r, Err e)
            | Panic => (r, Panic)
            end
        end
  end.

(** [HandleMeshData] reads the clock twice, for the policy and for the reverse
    entry; both readings are [now]. *)
Definition HandleMeshData r (peerID : string) (raw : bytes) (now : Z)
    : Router M W * result unit :=
  match UnmarshalFrame raw with
  | Err e => (r, Err e)
  | Panic => (r, Panic)
  | Ok frame =>
      if negb (PolicyValid (config r) now)
      then (r, Err "routed Controller policy expired; traffic denied")
      else match ValidateFrameForNode frame (localNodeID r) peerID (config r) with
      | Err e => (r, Err e)
      | Panic => (r, Panic)
      | Ok path =>
          if Frame_HopIndex frame =? zlen (Frame_Hops frame) - 1 then
            if Frame_Return frame then
              let '(w, res) := WritePacket (writer r) (Frame_Payload frame) in
              (set_writer r w, res)
            else match ParseIPv4Endpoints (Frame_Payload frame) with
            | Ok (source, _) =>
                let r := rememberReverse r source path now in
                let '(w, res) := WritePacket (writer r) (Frame_Payload frame) in
                (set_writer r w, res)
            | Err e => (r, Err e)
            | Panic => (r, Panic)
            end
          else sendFrame r (advance frame)
      end
  end.

(** ** Status *)

Definition displayHopNames (hops : list string) (names : gmap string string) : list string :=
  (λ hop, let name := default "" (names !! hop) in
          if String.eqb name "" then hop else name) <$> hops.

Definition selected_path r (route : Route) (now : Z)
    : Router M W * option SelectedPathStatus :=
  let paths := SourcePaths (config r) (localNodeID r) route in
  match paths with
  | [] => (r, None)
  | _ =>
      let '(r', chosen) := choosePath r route paths now in
      match chosen with
      | Ok selected =>
          let standby := List.filter (λ c, negb (String.eqb (Path_ID c) (Path_ID selected))
            && bool_decide (is_Some (viablePath r' c))) paths in
          (r', Some (mkSelected (Route_CIDR route) (Route_OwnerNodeID route) (Path_ID selected)
             (Path_Hops selected) (displayHopNames (Path_Hops selected) (NodeNames (config r)))
             (Path_Health selected) (Path_RTTMS selected) (Path_LossPercent selected)
             (Path_Cost selected) (Path_ID <$> standby)))
      | _ => (r', None)
      end
  end.

Fixpoint selected_paths r (routes : list Route) (now : Z)
    : Router M W * list SelectedPathStatus :=
  match routes with
  | [] => (r, [])
  | route :: rest =>
      let '(r, item) := selected_path r route now in
      let '(r, items) := selected_paths r rest now in
      (r, match item with Some i => i :: items | None => items end)
  end.

Definition SelectedPaths r (now : Z) : Router M W * list SelectedPathStatus :=
  if negb (IsPublicNode (config r) (localNodeID r)) || negb (PolicyValid (config r) now)
  then (r, [])
  else selected_paths r (Routes (config r)) now.
End router.

(** ** Facts about path selection *)

Section selection_facts.
Context {M W : Type} `{MT : MeshTransport M} `{PW : PacketWriter W} `{GS : GoSort}.
Implicit Types r : Router M W.

(** The paths the router may use now, with their scores. *)
Definition viable_candidates r (paths : list Path) : list (Path * float64) :=
  omap (λ p, pair p <$> viablePath r p) paths.

Lemma viable_candidates_elem r paths p s :
  (p, s) ∈ viable_candidates r paths ↔ p ∈ paths ∧ viablePath r p = Some s.
Proof.
  unfold viable_candidates. rewrite list_elem_of_omap. split.
  - intros (q & Hq & E). destruct (viablePath r q) eqn:V; cbn in E; naive_solver.
  - intros [Hp V]. exists p. by rewrite V.
Qed.

Lemma observe_fold_candidates r now paths acc :
  (fold_left (observe_path r now) paths acc).2 = acc.2 ++ viable_candidates r paths.
Proof.
  revert acc. induction paths as [|p paths IH]; intros [av cs]; cbn.
  { by rewrite app_nil_r. }
  rewrite IH. cbn. unfold viable_candidates. cbn.
  destruct (viablePath r p); cbn; [by rewrite <- app_assoc|done].
Qed.

Lemma observe_candidates r now paths av :
  (observe_paths r now paths av).2 = viable_candidates r paths.
Proof.
  unfold observe_paths. pose proof (observe_fold_candidates r now paths (av, [])) as E.
  destruct (fold_left _ _ _). done.
Qed.

(** The selection the decision starts from, and the sorted candidates. *)
Definition route_state r (route : Route) : routeSelection :=
  default empty_selection (selections r !! routeKey route).
Definition observed_state r (route : Route) (paths : list Path) (now : Z) : routeSelection :=
  let st := route_state r route in
  mkSelection (observe_paths r now paths (Availability st)).1 (CurrentID st)
    (LastSwitch st) (CandidateID st) (CandidateSince st).
Definition sorted_candidates r (paths : list Path) : list (Path * float64) :=
  sort_slice (score_less snd (Path_ID ∘ fst)) (viable_candidates r paths).
Definition current_candidate r (route : Route) (paths : list Path) : option (Path * float64) :=
  List.find (λ c, String.eqb (Path_ID c.1) (CurrentID (route_state r route)))
    (sorted_candidates r paths).

Lemma choosePath_unfold r route paths now :
  choosePath r route paths now =
  match sorted_candidates r paths with
  | [] =>
      let st := observed_state r route paths now in
      (set_selections r (<[routeKey route := mkSelection (Availability st) (CurrentID st)
           (LastSwitch st) "" zero_time]> (selections r)),
       Err "no healthy end-to-end path to owner %s")
  | best :: _ =>
      let '(st', p) := decide_path now (observed_state r route paths now) best
                         (current_candidate r route paths) in
      (set_selections r (<[routeKey route := st']> (selections r)), Ok p)
  end.
Proof.
  unfold choosePath, sorted_candidates, current_candidate, observed_state, route_state.
  pose proof (observe_candidates r now paths
    (Availability (default empty_selection (selections r !! routeKey route)))) as E.
  destruct (observe_paths _ _ _ _) as [av cs]. cbn in *. subst cs.
  unfold sorted_candidates. by destruct (sort_slice _ _).
Qed.

Lemma current_candidate_Some r route paths c :
  current_candidate r route paths = Some c →
  c ∈ viable_candidates r paths ∧ Path_ID c.1 = CurrentID (route_state r route).
Proof.
  intros [Hin E]%find_some. apply String.eqb_eq in E. split; [|done].
  by apply list_elem_of_In, sort_slice_elem in Hin.
Qed.

Lemma current_candidate_None r route paths p s :
  current_candidate r route paths = None → p ∈ paths → viablePath r p = Some s →
  Path_ID p ≠ CurrentID (route_state r route).
Proof.
  intros N Hp V. eapply find_none in N; [|apply list_elem_of_In, sort_slice_elem,
    viable_candidates_elem; eauto]. by apply String.eqb_neq in N.
Qed.

Lemma sorted_candidates_head r paths b rest :
  sorted_candidates r paths = b :: rest → b.1 ∈ paths ∧ viablePath r b.1 = Some b.2.
Proof. intros [H _]%sort_slice_head. destruct b. by apply viable_candidates_elem in H. Qed.

Lemma sorted_candidates_nil r paths p :
  sorted_candidates r paths = [] → p ∈ paths → viablePath r p = None.
Proof.
  intros E%sort_slice_nil Hp. destruct (viablePath r p) as [s|] eqn:V; [|done].
  assert ((p, s) ∈ viable_candidates r paths) as C by by apply viable_candidates_elem.
  rewrite E in C. by apply elem_of_nil in C.
Qed.

(** What one decision may do. *)
Lemma decide_path_cases now st best current st' p :
  decide_path now st best current = (st', p) →
  (CurrentID st' = Path_ID p ∨ ∃ c, current = Some c ∧ p = c.1 ∧ CurrentID st' = CurrentID st) ∧
  (p = best.1 ∨ ∃ c, current = Some c ∧ p = c.1).
Proof. unfold decide_path. intros E. repeat case_match; simplify_eq; cbn; eauto 10. Qed.

Lemma cooldown_le t u : pathRecoveryCooldown <= time_sub t u ↔ pathRecoveryCooldown <= t - u.
Proof. by apply time_sub_le. Qed.
Lemma stable_le t u : pathStableInterval <= time_sub t u ↔ pathStableInterval <= t - u.
Proof. by apply time_sub_le. Qed.

Lemma decide_path_switch now st best cur st' p :
  decide_path now st best (Some cur) = (st', p) → Path_ID p ≠ Path_ID cur.1 →
  p = best.1 ∧ LastSwitch st' = now ∧
  pathRecoveryCooldown <= now - LastSwitch st ∧
  pathStableInterval <= now - CandidateSince st ∧ CandidateID st = Path_ID p ∧
  (∀ a, Availability st !! Path_ID p = Some a →
     RecoveredAt a = zero_time ∨ pathRecoveryCooldown <= now - RecoveredAt a) ∧
  flt (fsub cur.2 best.2) pathMinimumImprovement = false.
Proof.
  unfold decide_path. intros E Hne.
  destruct (String.eqb_spec (Path_ID best.1) (Path_ID cur.1)); [by simplify_eq|].
  destruct (Z.ltb_spec (time_sub now (LastSwitch st)) pathRecoveryCooldown); [by simplify_eq|].
  destruct (flt _ _) eqn:F; [by simplify_eq|].
  destruct (String.eqb_spec (CandidateID st) (Path_ID best.1));
    cbn [negb] in E; [|by simplify_eq].
  case_match eqn:G; [by simplify_eq|]. injection E as <- <-.
  apply orb_false_iff in G as [G1 G2]. apply Z.ltb_ge, stable_le in G2.
  rewrite cooldown_le in *. split_and!; try done.
  intros a Ha. rewrite Ha in G1. unfold time_is_zero in G1. guards.
  rewrite cooldown_le in G1. done.
Qed.

Lemma choosePath_result r route paths now :
  match choosePath r route paths now with
  | (r', Ok p) =>
      p ∈ paths ∧ is_Some (viablePath r p) ∧ CurrentID (route_state r' route) = Path_ID p
  | (_, Err _) => ∀ p, p ∈ paths → viablePath r p = None
  | (_, Panic) => False
  end.
Proof.
  rewrite choosePath_unfold. destruct (sorted_candidates r paths) as [|b rest] eqn:S.
  { intros p Hp. eapply sorted_candidates_nil; eauto. }
  apply sorted_candidates_head in S as [Hb Vb].
  destruct (decide_path _ _ _ _) as [st' p] eqn:D.
  unfold route_state at 1. cbn [selections set_selections]. rewrite lookup_insert_eq. cbn.
  apply decide_path_cases in D as [HC [->|(c & Hc & ->)]].
  - destruct HC as [?|(c & Hc & E & ->)]; [by eauto|].
    apply current_candidate_Some in Hc as [Hc Ec]. rewrite E. split_and!; [by rewrite <- E|..|done].
    rewrite <- E. eauto.
  - pose proof (current_candidate_Some _ _ _ _ Hc) as [Hin Ec].
    destruct c as [q sq]. apply viable_candidates_elem in Hin as [Hq Vq].
    split_and!; [done|eauto|]. destruct HC as [?|(c' & ? & ? & ->)]; [done|]. done.
Qed.

(** [choosePath] never panics.  It returns an offered path that is viable
    now, which is then the recorded current path of the route, and it fails
    only when no offered path is viable. *)
Lemma choosePath_viable r route paths now :
  match choosePath r route paths now with
  | (r', Ok p) =>
      p ∈ paths ∧ is_Some (viablePath r p) ∧ CurrentID (route_state r' route) = Path_ID p
  | (_, Err _) => ∀ p, p ∈ paths → viablePath r p = None
  | (_, Panic) => False
  end.
Proof. apply choosePath_result. Qed.

(** The scores of the offered paths are numbers. *)
Definition scores_numeric r (paths : list Path) : Prop :=
  ∀ p s, p ∈ paths → viablePath r p = Some s → is_nan s = false.

Lemma sorted_candidates_best r paths b rest :
  scores_numeric r paths → sorted_candidates r paths = b :: rest →
  ∀ p s, p ∈ paths → viablePath r p = Some s → flt s b.2 = false.
Proof.
  intros N S p s Hp V. apply sort_slice_head in S as [Hb Hmin].
  assert ((p, s) ∈ viable_candidates r paths) as C by by apply viable_candidates_elem.
  assert (strict_weak_on (score_less snd (Path_ID ∘ fst)) (viable_candidates r paths)) as Wk.
  { apply score_less_strict_weak. intros [q sq] Hq. apply viable_candidates_elem in Hq as [? ?].
    by eapply N. }
  specialize (Hmin Wk _ C). unfold score_less in Hmin. cbn in Hmin.
  destruct b as [bp bs]. apply viable_candidates_elem in Hb as [Hb Vb]. cbn in *.
  destruct (feq s bs) eqn:F; [|done].
  rewrite feq_not_flt in F by eauto.
  guards. naive_solver.
Qed.

(** Immediate failover: when the route's current path is absent or no longer
    viable, [choosePath] switches at once, whatever the hysteresis timers say,
    to a viable path no other viable path scores below. *)
Lemma choosePath_failover r route paths now q :
  scores_numeric r paths →
  (∀ p, p ∈ paths → Path_ID p = CurrentID (route_state r route) → viablePath r p = None) →
  q ∈ paths → is_Some (viablePath r q) →
  ∃ r' p s, choosePath r route paths now = (r', Ok p) ∧ viablePath r p = Some s ∧
    (∀ p' s', p' ∈ paths → viablePath r p' = Some s' → flt s' s = false) ∧
    CurrentID (route_state r' route) = Path_ID p ∧ LastSwitch (route_state r' route) = now.
Proof.
  intros N Hcur Hq [sq Vq]. rewrite choosePath_unfold.
  destruct (sorted_candidates r paths) as [|b rest] eqn:S.
  { eapply sorted_candidates_nil in S; eauto. congruence. }
  destruct (current_candidate r route paths) as [[c sc]|] eqn:C.
  { apply current_candidate_Some in C as [Hin E].
    apply viable_candidates_elem in Hin as [Hin V]. rewrite (Hcur c) in V; done. }
  cbn. eexists _, _, _. split; [done|].
  pose proof (sorted_candidates_head _ _ _ _ S) as [Hb Vb].
  split; [exact Vb|]. split; [by eapply sorted_candidates_best|].
  unfold route_state. cbn. by rewrite lookup_insert_eq.
Qed.

(** No ping-pong: [choosePath] leaves a current path that is still viable
    only for a path that beats it by the minimum improvement, at least ten
    seconds after the last switch, after the new path was the stable candidate
    for five seconds and not within ten seconds of its recovery; and the
    switch restarts the ten-second clock. *)
Lemma choosePath_hysteresis r route paths now r' p c :
  choosePath r route paths now = (r', Ok p) →
  c ∈ paths → Path_ID c = CurrentID (route_state r route) → is_Some (viablePath r c) →
  Path_ID p ≠ Path_ID c →
  let st := observed_state r route paths now in
  pathRecoveryCooldown <= now - LastSwitch st ∧
  pathStableInterval <= now - CandidateSince st ∧ CandidateID st = Path_ID p ∧
  (∀ a, Availability st !! Path_ID p = Some a →
     RecoveredAt a = zero_time ∨ pathRecoveryCooldown <= now - RecoveredAt a) ∧
  (∃ c' sc sp, Path_ID c' = Path_ID c ∧ c' ∈ paths ∧ viablePath r c' = Some sc ∧
     viablePath r p = Some sp ∧ flt (fsub sc sp) pathMinimumImprovement = false) ∧
  LastSwitch (route_state r' route) = now.
Proof.
  intros E Hc Ec [sc Vc] Hne st. rewrite choosePath_unfold in E.
  destruct (sorted_candidates r paths) as [|b rest] eqn:S; [done|].
  apply sorted_candidates_head in S as [Hb Vb].
  destruct (current_candidate r route paths) as [cur|] eqn:C; cycle 1.
  { by destruct (current_candidate_None _ _ _ _ _ C Hc Vc). }
  apply current_candidate_Some in C as [Hcur Ecur]. destruct cur as [cp cs].
  apply viable_candidates_elem in Hcur as [Hcp Vcp]. cbn in Ecur.
  destruct (decide_path _ _ _ _) as [st' p'] eqn:D. injection E as <- <-.
  apply decide_path_switch in D as (-> & HL & H1 & H2 & H3 & H4 & H5); [|cbn; congruence].
  split_and!; try done.
  - exists cp, cs, b.2. split_and!; try done. congruence.
  - unfold route_state. cbn. by rewrite lookup_insert_eq.
Qed.

(** ** The availability table *)

Definition observed_avail r (now : Z) (p : Path) (prior : option pathAvailability)
    : pathAvailability :=
  let ok := bool_decide (is_Some (viablePath r p)) in
  mkAvail ok (match prior with
              | Some a => if ok && negb (Viable a) then now else RecoveredAt a
              | None => zero_time
              end).

Lemma observe_fold_other r now paths acc id :
  id ∉ Path_ID <$> paths → (fold_left (observe_path r now) paths acc).1 !! id = acc.1 !! id.
Proof.
  revert acc. induction paths as [|p paths IH]; intros [av cs] Hid; cbn; [done|].
  rewrite fmap_cons, not_elem_of_cons in Hid. destruct Hid as [Hne Hid].
  rewrite IH by done. cbn. by rewrite lookup_insert_ne.
Qed.

Lemma observe_fold_here r now paths acc p :
  NoDup (Path_ID <$> paths) → p ∈ paths →
  (fold_left (observe_path r now) paths acc).1 !! Path_ID p
  = Some (observed_avail r now p (acc.1 !! Path_ID p)).
Proof.
  revert acc. induction paths as [|q paths IH]; intros [av cs] N Hp; [by apply elem_of_nil in Hp|].
  rewrite fmap_cons, NoDup_cons in N. destruct N as [Nq N]. cbn.
  destruct (decide (p = q)) as [->|Hne].
  - rewrite observe_fold_other by done. cbn. by rewrite lookup_insert_eq.
  - apply elem_of_cons in Hp as [?|Hp]; [done|]. rewrite IH by done. cbn.
    rewrite lookup_insert_ne; [done|]. intros E. apply Nq. rewrite E.
    by apply list_elem_of_fmap_2.
Qed.

Lemma observe_paths_here r now paths av p :
  NoDup (Path_ID <$> paths) → p ∈ paths →
  (observe_paths r now paths av).1 !! Path_ID p
  = Some (observed_avail r now p (av !! Path_ID p)).
Proof.
  intros N Hp. unfold observe_paths.
  pose proof (observe_fold_here r now paths (av, []) p N Hp) as E.
  destruct (fold_left _ _ _) as [av' cs]. cbn in *. rewrite map_lookup_imap, E. cbn.
  by rewrite bool_decide_eq_true_2 by by apply list_elem_of_fmap_2.
Qed.

(** Every clock reading a selection recorded lies at or before [now]. *)
Record past_selection (now : Z) (st : routeSelection) : Prop := {
  ps_switch : LastSwitch st <= now;
  ps_candidate : CandidateSince st <= now;
  ps_recovered : ∀ id a, Availability st !! id = Some a → RecoveredAt a <= now;
}.

(** [b] is the candidate every other one loses to. *)
Definition best_candidate r (paths : list Path) (b : Path) (sb : float64) : Prop :=
  b ∈ paths ∧ viablePath r b = Some sb ∧
  ∀ p s, p ∈ paths → viablePath r p = Some s → p ≠ b →
    score_less snd (Path_ID ∘ fst) (b, sb) (p, s) = true.

Lemma best_candidate_head r paths b sb :
  scores_numeric r paths → best_candidate r paths b sb →
  ∃ rest, sorted_candidates r paths = (b, sb) :: rest.
Proof.
  intros N (Hb & Vb & Hbest). unfold sorted_candidates.
  destruct (sort_slice _ _) as [|[q sq] rest] eqn:S.
  { eapply sorted_candidates_nil in S; eauto. congruence. }
  apply sort_slice_head in S as [Hin Hmin]. apply viable_candidates_elem in Hin as [Hq Vq].
  destruct (decide (q = b)) as [->|Hne].
  { rewrite Vq in Vb. injection Vb as ->. eauto. }
  specialize (Hbest q sq Hq Vq Hne).
  rewrite Hmin in Hbest; [done| |by apply viable_candidates_elem].
  apply score_less_strict_weak. intros [p s] Hp%viable_candidates_elem. naive_solver.
Qed.

(** A decision in favour of a clearly better path either switches to it or
    leaves it as the candidate. *)
Lemma decide_path_progress now st best current st' p :
  decide_path now st best current = (st', p) →
  (∀ c, current = Some c → CurrentID st = Path_ID c.1 ∧
     (Path_ID c.1 ≠ Path_ID best.1 → flt (fsub c.2 best.2) pathMinimumImprovement = false)) →
  pathRecoveryCooldown <= now - LastSwitch st → CandidateSince st <= now →
  Availability st' = Availability st ∧
  (CurrentID st' = Path_ID best.1 ∨
   CurrentID st' = CurrentID st ∧ LastSwitch st' = LastSwitch st ∧
   CandidateID st' = Path_ID best.1 ∧ CandidateSince st' <= now).
Proof.
  intros E Hcur Hls%cooldown_le Hcs. unfold decide_path in E.
  destruct current as [c|]; [|simplify_eq; auto].
  destruct (Hcur c eq_refl) as [Hid Himp].
  destruct (String.eqb_spec (Path_ID best.1) (Path_ID c.1)) as [Eb|Hne].
  { simplify_eq. cbn. split; [done|]. left. congruence. }
  apply Z.ltb_ge in Hls. rewrite Hls, Himp in E by congruence.
  destruct (String.eqb_spec (CandidateID st) (Path_ID best.1)) as [Ec|];
    cbn [negb] in E; [case_match; simplify_eq; cbn; auto 10|].
  simplify_eq. cbn. split; [done|]. right. split_and!; [done..|lia].
Qed.

(** A stable candidate that recovered long enough ago takes over. *)
Lemma decide_path_takes_over now st best c a :
  flt (fsub c.2 best.2) pathMinimumImprovement = false →
  pathRecoveryCooldown <= now - LastSwitch st → CandidateID st = Path_ID best.1 →
  pathStableInterval <= now - CandidateSince st →
  Availability st !! Path_ID best.1 = Some a →
  RecoveredAt a = zero_time ∨ pathRecoveryCooldown <= now - RecoveredAt a →
  Path_ID c.1 ≠ Path_ID best.1 →
  (decide_path now st best (Some c)).2 = best.1.
Proof.
  intros F Hls%cooldown_le%Z.ltb_ge Hc Hst%stable_le%Z.ltb_ge Ha Hr Hne. unfold decide_path.
  destruct (String.eqb_spec (Path_ID best.1) (Path_ID c.1)); [congruence|].
  rewrite Hls, F, Hc, String.eqb_refl, Ha, Hst, orb_false_r. cbn [negb].
  destruct Hr as [->|Hr%cooldown_le%Z.ltb_ge]; [done|]. by rewrite Hr, andb_false_r.
Qed.

Lemma choosePath_keeps_world r route paths now :
  let r' := (choosePath r route paths now).1 in
  mesh r' = mesh r ∧ localNodeID r' = localNodeID r ∧ config r' = config r ∧
  writer r' = writer r ∧ reverse_paths r' = reverse_paths r.
Proof.
  rewrite choosePath_unfold. destruct (sorted_candidates r paths); [done|].
  by destruct (decide_path _ _ _ _).
Qed.

Lemma choosePath_viablePath r route paths now p :
  viablePath (choosePath r route paths now).1 p = viablePath r p.
Proof.
  destruct (choosePath_keeps_world r route paths now) as (E1 & E2 & _).
  unfold viablePath. by rewrite E1, E2.
Qed.

Lemma choosePath_sorted r route paths now l :
  sorted_candidates (choosePath r route paths now).1 l = sorted_candidates r l.
Proof.
  unfold sorted_candidates, viable_candidates. f_equal.
  apply list_omap_ext, Forall_Forall2_diag, Forall_forall. intros p _.
  by rewrite choosePath_viablePath.
Qed.

Lemma observed_avail_past r now p prior :
  (∀ a, prior = Some a → RecoveredAt a <= now) → zero_time <= now →
  RecoveredAt (observed_avail r now p prior) <= now.
Proof. intros Hp Hz. unfold observed_avail. cbn. repeat case_match; naive_solver lia. Qed.

Lemma observed_avail_stays r now p a :
  Viable a = true → RecoveredAt (observed_avail r now p (Some a)) = RecoveredAt a.
Proof. intros V. unfold observed_avail. cbn. by rewrite V, andb_false_r. Qed.

(** The state a call leaves for its route. *)
Lemma choosePath_next_state r route paths now best rest st' p :
  sorted_candidates r paths = best :: rest →
  decide_path now (observed_state r route paths now) best (current_candidate r route paths)
    = (st', p) →
  route_state (choosePath r route paths now).1 route = st'.
Proof.
  intros S D. rewrite choosePath_unfold, S, D. unfold route_state. cbn.
  by rewrite lookup_insert_eq.
Qed.

Lemma current_is_best r route paths best rest c :
  sorted_candidates r paths = best :: rest → NoDup (Path_ID <$> paths) →
  current_candidate r route paths = Some c → Path_ID c.1 = Path_ID best.1 → c.1 = best.1.
Proof.
  intros S N [Hc _]%current_candidate_Some E. apply sorted_candidates_head in S as [Hb _].
  destruct c as [c sc]. apply viable_candidates_elem in Hc as [Hc _].
  by eapply (NoDup_fmap_eq Path_ID).
Qed.

(** Convergence: when one viable path beats every other, beats a viable
    current path by the minimum improvement, and the last switch is ten seconds
    old, then two calls ten seconds apart are enough for [choosePath] to return
    it, whatever candidate and recovery history the route has. *)
Lemma choosePath_converges r route paths b sb t1 t2 :
  NoDup (Path_ID <$> paths) → scores_numeric r paths → best_candidate r paths b sb →
  past_selection t1 (route_state r route) → zero_time <= t1 →
  pathRecoveryCooldown <= t1 - LastSwitch (route_state r route) →
  (∀ c sc, c ∈ paths → Path_ID c = CurrentID (route_state r route) →
     viablePath r c = Some sc → c ≠ b → flt (fsub sc sb) pathMinimumImprovement = false) →
  pathRecoveryCooldown <= t2 - t1 →
  (choosePath (choosePath r route paths t1).1 route paths t2).2 = Ok b.
Proof.
  intros N Num B [Psw Pcs Prec] Hz Hls Himp Ht.
  destruct (best_candidate_head r paths b sb Num B) as [rest S].
  pose proof (choosePath_sorted r route paths t1 paths) as S1.
  set (r1 := (choosePath r route paths t1).1) in *. rewrite S in S1.
  destruct (decide_path t1 (observed_state r route paths t1) (b, sb)
              (current_candidate r route paths)) as [st' p] eqn:D.
  pose proof (choosePath_next_state _ _ _ _ _ _ _ _ S D) as Hst. fold r1 in Hst.
  apply decide_path_progress in D as [Hav Hcase]; [| |done|done]; cycle 1.
  { intros [c sc] [Hin E]%current_candidate_Some. split; [done|]. intros Hne.
    apply viable_candidates_elem in Hin as [? ?]. eapply Himp; naive_solver. }
  rewrite choosePath_unfold, S1.
  destruct (decide_path t2 _ _ _) as [st2 p2] eqn:D2. cbn. f_equal.
  destruct (current_candidate r1 route paths) as [c|] eqn:C1; [|by injection D2 as _ <-].
  destruct (decide (Path_ID c.1 = Path_ID b)) as [Ec|Nc].
  { apply decide_path_cases in D2 as [_ [->|(c' & [= <-] & ->)]]; [done|].
    eapply (current_is_best r1 route paths (b, sb)); eauto. }
  pose proof (current_candidate_Some _ _ _ _ C1) as [Hc1 Hid1]. rewrite Hst in Hid1.
  destruct Hcase as [E|(E1 & E2 & E3 & E4)]; [cbn [fst] in *; congruence|].
  destruct c as [c sc]. apply viable_candidates_elem in Hc1 as [Hc1 Vc].
  unfold r1 in Vc. rewrite choosePath_viablePath in Vc.
  cbn [fst snd observed_state CurrentID LastSwitch Availability] in *.
  assert (RecoveredAt (observed_avail r t1 b (Availability (route_state r route) !! Path_ID b))
          <= t1) as Hrec by (apply observed_avail_past; naive_solver).
  destruct B as (Hb & Vb & _).
  change p2 with (st2, p2).2. rewrite <- D2. change b with (b, sb).1 at 2.
  eapply decide_path_takes_over; cbn [fst snd observed_state Availability LastSwitch
    CandidateID CandidateSince].
  - apply (Himp c sc); [done|congruence|done|naive_solver].
  - rewrite Hst, E2. unfold pathRecoveryCooldown, second, millisecond in *. lia.
  - by rewrite Hst.
  - rewrite Hst. unfold pathRecoveryCooldown, pathStableInterval, second, millisecond in *. lia.
  - by apply observe_paths_here.
  - right. rewrite Hst, Hav, observe_paths_here by done.
    rewrite (observed_avail_stays r1) by (cbn; by rewrite Vb). lia.
  - done.
Qed.
End selection_facts.

(** ** Facts about the reverse table and the handlers *)

Section handler_facts.
Context {M W : Type} `{MT : MeshTransport M} `{PW : PacketWriter W} `{GS : GoSort}.
Implicit Types r : Router M W.

Lemma ttl_lt t u : (reversePathTTL <? time_sub t u) = (reversePathTTL <? t - u).
Proof.
  unfold time_sub, reversePathTTL, minute, second, millisecond.
  destruct (Z.ltb_spec (10 * (60 * (1000 * 1000000))) (t - u));
    [apply Z.ltb_lt|apply Z.ltb_ge]; lia.
Qed.

(** A learned reverse path answers for its Device for ten minutes after the
    last use and not longer: a lookup at [t2] finds the path learned at [t1]
    exactly when the entry is at most [reversePathTTL] old, a successful lookup
    restarts the clock, and learning a path for one Device does not change what
    is found for another one whose entry is live. *)
Lemma reverseFor_remembered r device path t1 t2 :
  let r1 := rememberReverse r device path t1 in
  (reverseFor r1 device t2).2 = (if t2 - t1 <=? reversePathTTL then Some path else None) ∧
  (t2 - t1 <= reversePathTTL →
     ∀ t3, (reverseFor (reverseFor r1 device t2).1 device t3).2
           = if t3 - t2 <=? reversePathTTL then Some path else None) ∧
  (∀ other, other ≠ device → t1 <= t2 →
     (reverseFor r1 other t2).2 = (reverseFor r other t2).2).
Proof.
  cbn zeta. unfold reverseFor, rememberReverse. cbn. rewrite lookup_insert_eq. cbn.
  rewrite !ttl_lt, Z.ltb_antisym. split_and!.
  - by destruct (t2 - t1 <=? reversePathTTL).
  - intros H%Z.leb_le t3. rewrite H. cbn. rewrite lookup_insert_eq. cbn.
    rewrite ttl_lt, Z.ltb_antisym. by destruct (t3 - t2 <=? reversePathTTL).
  - intros other Hne Ht. rewrite lookup_insert_ne by done.
    rewrite map_lookup_filter. destruct (reverse_paths r !! other) as [e|]; [|done]. cbn.
    destruct (reversePathTTL <? time_sub t2 (Reverse_LastSeen e)) eqn:L.
    + case_guard; cbn; [by rewrite L|done].
    + rewrite ttl_lt in L. guards.
      assert (¬ reversePathTTL < time_sub t1 (Reverse_LastSeen e)) as Hl.
      { intros Hl%Z.ltb_lt. rewrite ttl_lt in Hl. guards. lia. }
      case_guard; [|done]. cbn. by rewrite ttl_lt, (proj2 (Z.ltb_ge _ _) L).
Qed.

(** ** Sending *)

Lemma sendFrame_ok r frame next :
  frame_wf frame → Frame_Hops frame !! Z.to_nat (Frame_HopIndex frame) = Some next →
  sendFrame r frame =
  if CanSend (mesh r) next
  then let '(m, res) := Send (mesh r) next (frame_bytes frame) in (set_mesh r m, res)
  else (r, Err "next hop %s is unhealthy").
Proof.
  intros Wf Hn. unfold sendFrame. pose proof (fw_index _ Wf) as Hi.
  destruct (Z.leb_spec (Frame_HopIndex frame) 0); [lia|].
  destruct (Z.leb_spec (zlen (Frame_Hops frame)) (Frame_HopIndex frame)); [lia|]. cbn.
  rewrite (proj2 (index_lookup _ _ next)) by (split; [lia|done]).
  unfold MarshalFrame. rewrite (proj2 (ValidateBasic_iff frame) Wf).
  by destruct (CanSend (mesh r) next).
Qed.

(** A frame that is not well formed never reaches the transport. *)
Lemma sendFrame_inv r frame :
  sendFrame r frame = (r, Err "cannot send frame with invalid next hop index") ∨
  (∃ next, Frame_Hops frame !! Z.to_nat (Frame_HopIndex frame) = Some next ∧
     (sendFrame r frame = (r, Err "next hop %s is unhealthy") ∧ CanSend (mesh r) next = false ∨
      CanSend (mesh r) next = true ∧
      ((∃ e, sendFrame r frame = (r, Err e) ∧ ValidateBasic frame = Err e) ∨
       frame_wf frame ∧ sendFrame r frame =
         let '(m, res) := Send (mesh r) next (frame_bytes frame) in (set_mesh r m, res)))).
Proof.
  unfold sendFrame. destruct (_ || _) eqn:B; [by left|]. guards. right.
  destruct (index_ok (Frame_Hops frame) (Frame_HopIndex frame)) as (next & -> & Hn); [lia|].
  exists next. split; [done|]. destruct (CanSend (mesh r) next) eqn:C; cbn [negb]; [right|auto].
  split; [done|]. unfold MarshalFrame.
  destruct (ValidateBasic frame) as [[]|e|] eqn:V; cbn.
  - right. split; [by apply ValidateBasic_iff|done].
  - left. eauto.
  - by apply ValidateBasic_no_panic in V.
Qed.

(** ** Frames from the mesh *)

(** What the router does with a frame it accepted. *)
Definition accepted_frame r (frame : Frame) (path : Path) (now : Z) : Router M W * result unit :=
  if Frame_HopIndex frame =? zlen (Frame_Hops frame) - 1 then
    let r := match ParseIPv4Endpoints (Frame_Payload frame) with
             | Ok (source, _) =>
                 if Frame_Return frame then r else rememberReverse r source path now
             | _ => r
             end in
    let '(w, res) := WritePacket (writer r) (Frame_Payload frame) in (set_writer r w, res)
  else sendFrame r (advance frame).

Lemma HandleMeshData_accepted r peerID frame path now :
  PolicyValid (config r) now = true →
  frame_authorised frame (localNodeID r) peerID (config r) path →
  HandleMeshData r peerID (frame_bytes frame) now = accepted_frame r frame path now.
Proof.
  intros V A. unfold HandleMeshData, accepted_frame. rewrite unmarshal_marshal by apply A.
  rewrite V. cbn [negb]. rewrite (proj2 (validate_frame_iff _ _ _ _ _) A).
  destruct A as [_ _ _ _ _ _ (s & d & P & _)].
  destruct (_ =? _); [|done]. rewrite P. by destruct (Frame_Return frame).
Qed.

(** [HandleMeshData] fails closed: a frame from a mesh peer changes nothing
    (no packet is sent or written and no table changes) and is reported as an
    error unless the Controller policy is current and the frame is authorised
    for this Node, that sender and this configuration; an authorised frame is
    delivered to the TUN device at the last hop, and forwarded with the next hop
    index otherwise. *)
Lemma HandleMeshData_gate r peerID raw now :
  (∃ e, HandleMeshData r peerID raw now = (r, Err e)) ∨
  (∃ frame path, raw = frame_bytes frame ∧ PolicyValid (config r) now = true ∧
     frame_authorised frame (localNodeID r) peerID (config r) path ∧
     HandleMeshData r peerID raw now = accepted_frame r frame path now).
Proof.
  destruct (UnmarshalFrame raw) as [frame|e|] eqn:U.
  - pose proof U as [_ ->]%unmarshal_inv.
    destruct (PolicyValid (config r) now) eqn:V; cycle 1.
    { left. eexists. unfold HandleMeshData. by rewrite U, V. }
    destruct (ValidateFrameForNode frame (localNodeID r) peerID (config r)) as [path|e|] eqn:A.
    + right. apply validate_frame_iff in A. exists frame, path. split_and!; try done.
      by apply HandleMeshData_accepted.
    + left. exists e. unfold HandleMeshData. rewrite U, V. cbn [negb]. by rewrite A.
    + by apply ValidateFrameForNode_no_panic in A.
  - left. exists e. unfold HandleMeshData. by rewrite U.
  - by destruct (unmarshal_total raw).
Qed.

(** ** Packets from the TUN device *)

(** The frames [HandleTunPacket] may hand to the mesh: the packet on a path from
    this Node to the owner of the route that matches its destination, or on the
    reverse of a path learned for the Device it is addressed to. *)
Definition tun_frame r (packet : bytes) (now : Z) (frame : Frame) : Prop :=
  Frame_HopIndex frame = 1 ∧ Frame_Payload frame = packet ∧
  head (Frame_Hops frame) = Some (localNodeID r) ∧
  ∃ s d, ParseIPv4Endpoints packet = Ok (s, d) ∧
    if Frame_Return frame then
      ∃ path, (reverseFor r d now).2 = Some path ∧ Frame_PathID frame = Path_ID path ∧
        Frame_Hops frame = reverse (Path_Hops path) ∧
        Frame_OwnerNodeID frame = localNodeID r ∧
        IsSiteRouter (config r) (localNodeID r) = true
    else
      ∃ route path, RouteFor (config r) d = Some route ∧
        path ∈ Paths (config r) ∧ Frame_PathID frame = Path_ID path ∧
        Frame_Hops frame = Path_Hops path ∧ Path_CIDR path = Route_CIDR route ∧
        Path_OwnerNodeID path = Route_OwnerNodeID route ∧
        Frame_OwnerNodeID frame = Route_OwnerNodeID route ∧ is_Some (viablePath r path).

Lemma sendFrame_mesh r frame :
  (∃ e, (sendFrame r frame).2 = Err e ∧ mesh (sendFrame r frame).1 = mesh r) ∨
  ∃ next, frame_wf frame ∧ Frame_Hops frame !! Z.to_nat (Frame_HopIndex frame) = Some next ∧
    CanSend (mesh r) next = true ∧
    (mesh (sendFrame r frame).1, (sendFrame r frame).2) = Send (mesh r) next (frame_bytes frame).
Proof.
  destruct (sendFrame_inv r frame) as [->|(next & Hn & [[-> _]|[C [(e & -> & _)|[Wf ->]]]])];
    [by left; eauto..|].
  right. exists next. split_and!; try done. by destruct (Send _ _ _).
Qed.

Lemma reverseFor_world r d now :
  mesh (reverseFor r d now).1 = mesh r ∧ localNodeID (reverseFor r d now).1 = localNodeID r.
Proof. unfold reverseFor. by repeat case_match. Qed.

(** The frame built from a chosen source path. *)
Lemma source_frame_ok r packet now s d route r1 path :
  ParseIPv4Endpoints packet = Ok (s, d) → RouteFor (config r) d = Some route →
  choosePath r route (SourcePaths (config r) (localNodeID r) route) now = (r1, Ok path) →
  tun_frame r packet now
    (mkFrame (Path_ID path) (Route_OwnerNodeID route) (Path_Hops path) 1 false packet).
Proof.
  intros P R C. pose proof (choosePath_result r route
    (SourcePaths (config r) (localNodeID r) route) now) as H. rewrite C in H.
  destruct H as (Hin & Hv & _). apply SourcePaths_elem in Hin as [Hp Hs].
  apply source_path_ok_spec in Hs as (Hh & _ & Ho & Hcd).
  repeat split; try done. exists s, d. split; [done|]. cbn. exists route, path. by split_and!.
Qed.

Lemma HandleTunPacket_cases r packet now :
  (∃ e, (HandleTunPacket r packet now).2 = Err e ∧
        mesh (HandleTunPacket r packet now).1 = mesh r) ∨
  ∃ frame next, PolicyValid (config r) now = true ∧ tun_frame r packet now frame ∧
    frame_wf frame ∧ Frame_Hops frame !! 1%nat = Some next ∧ CanSend (mesh r) next = true ∧
    (mesh (HandleTunPacket r packet now).1, (HandleTunPacket r packet now).2)
    = Send (mesh r) next (frame_bytes frame).
Proof.
  unfold HandleTunPacket. destruct (ParseIPv4Endpoints packet) as [[s d]|e|] eqn:P;
    [|by left; eauto|by apply ParseIPv4Endpoints_no_panic in P].
  destruct (PolicyValid (config r) now) eqn:V; [|by left; eauto]. cbn [negb].
  destruct (IsSiteRouter (config r) (localNodeID r) && _) eqn:TD.
  - apply andb_true_iff in TD as [Hsite _].
    pose proof (reverseFor_world r d now) as [Hm Hl].
    destruct (reverseFor r d now) as [r1 [path|]] eqn:RF; cbn in Hm, Hl; [|left; eauto].
    rewrite Hl.
    destruct ((_ <? 2) || _) eqn:G; [left; eauto|]. guards. destruct G as [_ G].
    destruct (sendFrame_mesh r1 (mkFrame (Path_ID path) (localNodeID r)
      (reverseStrings (Path_Hops path)) 1 true packet)) as [(e & ? & ?)|(next & Wf & Hn & C & ->)];
      [left; exists e; by rewrite <- Hm|].
    right. rewrite Hm in *. eexists _, next. split_and!; try done.
    repeat split; try done. exists s, d. split; [done|]. cbn. exists path. by rewrite RF.
  - destruct (RouteFor (config r) d) as [route|] eqn:R; [|left; eauto].
    pose proof (choosePath_keeps_world r route
      (SourcePaths (config r) (localNodeID r) route) now) as (Hm & _).
    pose proof (choosePath_result r route
      (SourcePaths (config r) (localNodeID r) route) now) as NP.
    destruct (choosePath _ _ _ _) as [r1 [path|e|]] eqn:C; cbn in Hm; [|left; eauto|done].
    pose proof (source_frame_ok _ _ _ _ _ _ _ _ P R C) as TF.
    destruct (sendFrame_mesh r1 (mkFrame (Path_ID path) (Route_OwnerNodeID route)
      (Path_Hops path) 1 false packet)) as [(e & ? & ?)|(next & Wf & Hn & Cs & ->)];
      [left; exists e; by rewrite <- Hm|].
    right. rewrite Hm in *. by eexists _, next.
Qed.

(** A packet read from the TUN device is either refused with an error and
    nothing is sent, or it leaves the Node exactly once: while the Controller
    policy is current, as a well-formed frame for the first hop behind this
    Node, which is reachable, on an approved and viable path for the
    longest-prefix route of its destination, or on the reverse of the path its
    Device was last seen on.  The packet is unchanged and the result is that of
    the transport. *)
Lemma HandleTunPacket_sends r packet now :
  let '(r', res) := HandleTunPacket r packet now in
  (∃ e, res = Err e ∧ mesh r' = mesh r) ∨
  ∃ frame next, PolicyValid (config r) now = true ∧ tun_frame r packet now frame ∧
    frame_wf frame ∧ Frame_Hops frame !! 1%nat = Some next ∧ CanSend (mesh r) next = true ∧
    (mesh r', res) = Send (mesh r) next (frame_bytes frame).
Proof.
  pose proof (HandleTunPacket_cases r packet now). by destruct (HandleTunPacket r packet now).
Qed.

(** ** Configuration updates *)

Definition config_path_ids (cfg : RoutingConfig) : list string :=
  Path_ID <$> (Paths cfg ++ TransitPaths cfg).

(** [UpdateConfig] rejects an invalid configuration and then changes
    nothing.  A valid one takes effect at once: afterwards every remembered
    current path and every availability record names a path of the new
    configuration, and a route whose current path survived keeps its path, its
    switch time and its candidate, so an update does not reset the hysteresis. *)
Lemma UpdateConfig_spec r cfg :
  match UpdateConfig r cfg with
  | (r', Ok _) =>
      config r' = cfg ∧ mesh r' = mesh r ∧ reverse_paths r' = reverse_paths r ∧
      (∀ key st, selections r' !! key = Some st →
         (CurrentID st = "" ∨ CurrentID st ∈ config_path_ids cfg) ∧
         ∀ id, is_Some (Availability st !! id) → id ∈ config_path_ids cfg) ∧
      (∀ key st, selections r !! key = Some st → CurrentID st ∈ config_path_ids cfg →
         ∃ st', selections r' !! key = Some st' ∧ CurrentID st' = CurrentID st ∧
           LastSwitch st' = LastSwitch st ∧ CandidateID st' = CandidateID st ∧
           CandidateSince st' = CandidateSince st ∧
           ∀ id, id ∈ config_path_ids cfg → Availability st' !! id = Availability st !! id)
  | (r', _) => r' = r ∧ RoutingConfig_Validate cfg (localNodeID r) ≠ Ok tt
  end.
Proof.
  unfold UpdateConfig. destruct (RoutingConfig_Validate _ _); [|done..]. cbn.
  split_and!; try done.
  - intros key st. rewrite lookup_omap. destruct (selections r !! key) as [st0|]; [|done]. cbn.
    unfold prune_selection. intros E. split.
    + destruct (String.eqb_spec (CurrentID st0) ""); [|case_bool_decide]; simplify_eq; cbn; auto.
      right. by eapply (elem_of_list_to_set (C := gset string)).
    + assert (Availability st = filter (λ '(id, _),
        id ∈ (list_to_set (config_path_ids cfg) : gset string)) (Availability st0)) as ->
        by (by repeat case_match; simplify_eq).
      intros id [av [_ Ha]%map_lookup_filter_Some]. by rewrite elem_of_list_to_set in Ha.
  - intros key st Hst Hin. rewrite lookup_omap, Hst. cbn. unfold prune_selection.
    rewrite bool_decide_eq_true_2 by by rewrite elem_of_list_to_set.
    eexists. split; [by destruct (String.eqb (CurrentID st) "")|]. split_and!; try done.
    intros id Hid. cbn. rewrite map_lookup_filter. destruct (Availability st !! id); [|done].
    cbn. case_guard; [done|]. rewrite elem_of_list_to_set in *. done.
Qed.
End handler_facts.
