(* ===== verification/RoutedNetwork.v ===== *)
(** * A path of Nodes

    The routers of [RoutedRouter] connected hop by hop: what one Node sends to
    its neighbour is what the neighbour's [HandleMeshData] receives.  The
    transport and the TUN device are the recording doubles that the tests of
    [internal/routed] use: every link is up, [Send] appends to an outbox and
    [WritePacket] to a list of packets. *)

From S2P Require Import Prelude GoLib GoStrings Netip RoutedConfig RoutedFrame RoutedRouter.

Definition outbox : Type := list (string * bytes).

#[export] Instance recording_mesh : MeshTransport outbox := {|
  Send m peer raw := (m ++ [(peer, raw)], Ok tt);
  CanSend _ _ := true;
  LinkStatusOf _ _ := None;
|}.

#[export] Instance recording_writer : PacketWriter (list bytes) := {|
  WritePacket w packet := (w ++ [packet], Ok tt);
|}.

Abbreviation Node := (Router outbox (list bytes)).

Section network.
Context `{GS : GoSort}.

(** Carry a message to the first Node, and what that Node sends to the next one,
    until a Node keeps the packet or reports an error. *)
Fixpoint carry (nodes : list Node) (sender : string) (raw : bytes) (now : Z)
    : list Node * result unit :=
  match nodes with
  | [] => ([], Err "no such neighbour")
  | r :: rest =>
      let '(r', res) := HandleMeshData r sender raw now in
      match res, drop (length (mesh r)) (mesh r') with
      | Ok _, [(next, raw')] =>
          if bool_decide (localNodeID <$> head rest = Some next) then
            let '(rest', res') := carry rest (localNodeID r) raw' now in (r' :: rest', res')
          else (r' :: rest, Err "no such neighbour")
      | _, _ => (r' :: rest, res)
      end
  end.

(** The part of a configuration that authorisation reads, which the Controller
    gives to every Node of a path. *)
Definition same_policy (c c' : RoutingConfig) : Prop :=
  TransitPaths c = TransitPaths c' ∧ Routes c = Routes c' ∧
  OverlaySubnet c = OverlaySubnet c'.

Lemma same_policy_authorised c c' frame local sender path :
  same_policy c c' → frame_authorised frame local sender c path →
  frame_authorised frame local sender c' path.
Proof.
  intros (ET & ER & EO) [Wf T Ho Hq Hh Hb (s & d & P & A)]. constructor; try done.
  - unfold TransitPath in *. by rewrite <- ET.
  - exists s, d. split; [done|]. unfold packet_approved, RouteFor in *.
    by rewrite <- ER, <- EO.
Qed.

(** The packets the Nodes delivered: nothing new before the last one. *)
Fixpoint delivered (packet : bytes) (nodes nodes' : list Node) : Prop :=
  match nodes, nodes' with
  | [r], [r'] => writer r' = writer r ++ [packet]
  | r :: rest, r' :: rest' => writer r' = writer r ∧ delivered packet rest rest'
  | _, _ => False
  end.

Definition on_path (cfg : RoutingConfig) (now : Z) (r : Node) : Prop :=
  same_policy cfg (config r) ∧ PolicyValid (config r) now = true.

Lemma forward_step r sender frame path cfg now next :
  on_path cfg now r → frame_authorised frame (localNodeID r) sender cfg path →
  Frame_Hops frame !! Z.to_nat (Frame_HopIndex frame + 1) = Some next →
  HandleMeshData r sender (frame_bytes frame) now =
    (set_mesh r (mesh r ++ [(next, frame_bytes (advance frame))]), Ok tt).
Proof.
  intros [SP V] A Hn. pose proof (authorised_advance _ _ _ _ _ _ A Hn) as A'.
  rewrite (HandleMeshData_accepted r sender frame path now V)
    by (by eapply same_policy_authorised).
  unfold accepted_frame. pose proof (lookup_lt_Some _ _ _ Hn) as L.
  pose proof (fw_index _ (fa_wf _ _ _ _ _ A)).
  destruct (Z.eqb_spec (Frame_HopIndex frame) (zlen (Frame_Hops frame) - 1));
    [unfold zlen in *; lia|].
  by rewrite (sendFrame_ok _ _ next) by (try done; apply A').
Qed.

Lemma deliver_step r sender frame path cfg now :
  on_path cfg now r → frame_authorised frame (localNodeID r) sender cfg path →
  Frame_HopIndex frame = zlen (Frame_Hops frame) - 1 →
  ∃ r', HandleMeshData r sender (frame_bytes frame) now = (r', Ok tt) ∧
    mesh r' = mesh r ∧ writer r' = writer r ++ [Frame_Payload frame] ∧
    config r' = config r ∧ localNodeID r' = localNodeID r ∧
    ∀ s d, ParseIPv4Endpoints (Frame_Payload frame) = Ok (s, d) → Frame_Return frame = false →
      reverse_paths r' = reverse_paths (rememberReverse r s path now).
Proof.
  intros [SP V] A Hi.
  rewrite (HandleMeshData_accepted r sender frame path now V)
    by (by eapply same_policy_authorised).
  unfold accepted_frame. rewrite (proj2 (Z.eqb_eq _ _) Hi).
  destruct A as [_ _ _ _ _ _ (s & d & P & _)]. rewrite P.
  eexists. split; [done|]. cbn.
  destruct (Frame_Return frame); split_and!; try done. by intros ? ? [= <- <-].
Qed.

Lemma carry_path nodes sender frame path cfg now :
  Forall (on_path cfg now) nodes →
  localNodeID <$> nodes = drop (Z.to_nat (Frame_HopIndex frame)) (Frame_Hops frame) →
  (∀ local, localNodeID <$> head nodes = Some local →
     frame_authorised frame local sender cfg path) →
  nodes ≠ [] → 
  ∃ nodes', carry nodes sender (frame_bytes frame) now = (nodes', Ok tt) ∧
    delivered (Frame_Payload frame) nodes nodes'.
Proof.
  revert sender frame. induction nodes as [|r rest IH]; intros sender frame F Hids A Hne; [done|].
  apply Forall_cons in F as [Fr F]. specialize (A (localNodeID r) eq_refl).
  pose proof (fw_index _ (fa_wf _ _ _ _ _ A)) as Hi. cbn [carry].
  assert (length (r :: rest) = length (Frame_Hops frame) - Z.to_nat (Frame_HopIndex frame))%nat
    as Hlen by (rewrite <- length_drop, <- Hids; by rewrite length_fmap).
  destruct rest as [|r2 rest].
  - destruct (deliver_step r sender frame path cfg now Fr A) as (r' & -> & -> & Hw & _).
    { cbn in Hlen. unfold zlen in *. lia. }
    rewrite drop_all. by exists [r'].
  - assert (Frame_Hops frame !! Z.to_nat (Frame_HopIndex frame + 1) = Some (localNodeID r2)) as Hn.
    { replace (Z.to_nat (Frame_HopIndex frame + 1)) with (Z.to_nat (Frame_HopIndex frame) + 1)%nat
        by lia. by rewrite <- lookup_drop, <- Hids. }
    rewrite (forward_step r sender frame path cfg now (localNodeID r2)) by done.
    cbn [mesh set_mesh]. rewrite drop_app_length.
    rewrite bool_decide_eq_true_2 by done.
    destruct (IH (localNodeID r) (advance frame)) as (rest' & -> & D); try done.
    { cbn [advance Frame_Hops Frame_HopIndex].
      replace (Z.to_nat (Frame_HopIndex frame + 1)) with (Z.to_nat (Frame_HopIndex frame) + 1)%nat
        by lia. by rewrite <- drop_drop, <- Hids. }
    { intros local [= <-]. by eapply authorised_advance. }
    eexists. split; [done|]. cbn [delivered writer set_mesh]. by destruct rest'.
Qed.

(** The whole way of a frame its source sent to the first hop. *)
Lemma carry_from_source nodes sender frame path cfg now next :
  Frame_HopIndex frame = 1 → frame_authorised frame next sender cfg path →
  Forall (on_path cfg now) nodes → localNodeID <$> nodes = tail (Frame_Hops frame) →
  ∃ nodes', carry nodes sender (frame_bytes frame) now = (nodes', Ok tt) ∧
    delivered (Frame_Payload frame) nodes nodes'.
Proof.
  intros Hi A F Hids. pose proof (fa_here _ _ _ _ _ A) as Hh. rewrite Hi in Hh. change (Z.to_nat 1) with 1%nat in Hh.
  apply carry_path with path cfg; try done; rewrite ?Hi, ?Hids.
  - by destruct (Frame_Hops frame).
  - intros local Hl. destruct (Frame_Hops frame) as [|h [|k t]]; try done.
    destruct nodes; [done|]. cbn in *. by simplify_eq.
  - intros ->. by destruct (Frame_Hops frame) as [|h [|k t]].
Qed.

(** A forward frame built by [HandleTunPacket] is authorised at its first hop. *)
Lemma tun_frame_authorised (r : Node) packet now frame s d next :
  tun_frame r packet now frame → frame_wf frame → Frame_Return frame = false →
  Frame_Hops frame !! 1%nat = Some next →
  ParseIPv4Endpoints packet = Ok (s, d) →
  (∃ overlay, parse_prefix4 (OverlaySubnet (config r)) = Some overlay ∧
     prefix_contains overlay s = true) →
  (∀ p, p ∈ Paths (config r) → TransitPath (config r) (Path_ID p) = Some p) →
  ∃ path, frame_authorised frame next (localNodeID r) (config r) path.
Proof.
  intros (Hi & Hp & Hh & s' & d' & P' & TF) Wf Hret Hn P Ov T. rewrite Hret in TF.
  rewrite P in P'. injection P' as <- <-.
  destruct TF as (route & path & R & Hin & Eid & Ehops & Ecidr & Eown & Eo & _).
  exists path. constructor; try done.
  - rewrite Eid. by apply T.
  - congruence.
  - by rewrite Hret.
  - by rewrite Hi.
  - rewrite Hi. cbn. destruct (Frame_Hops frame); [done|]. done.
  - exists s, d. rewrite Hp. split; [done|]. unfold packet_approved. rewrite Hret.
    split_and!; try done; [|by exists route].
    intros _. pose proof (RouteFor_contains (config r) d) as L. rewrite R in L.
    rewrite Ecidr. by apply Route_Prefix_contains.
Qed.


(** The frame that answers an accepted frame along the reversed path. *)
Definition return_frame (frame : Frame) (owner : string) (reply : bytes) : Frame :=
  mkFrame (Frame_PathID frame) owner (reverse (Frame_Hops frame)) 1 true reply.

Lemma return_frame_wf frame owner reply :
  frame_wf frame → last (Frame_Hops frame) = Some owner → Frame_OwnerNodeID frame = owner →
  1 <= zlen reply <= 65535 → frame_wf (return_frame frame owner reply).
Proof.
  intros [? ? ? ? ? ? ? ?] Hl <- ?. constructor; cbn; try done.
  - unfold zlen in *. by rewrite length_reverse.
  - unfold zlen in *. rewrite length_reverse. lia.
  - by apply Forall_reverse.
  - by rewrite reverse_Permutation.
  - by rewrite head_reverse.
Qed.

Lemma reverse_lookup_1 {A} (l : list A) i x :
  0 < i → i = zlen l - 1 → l !! Z.to_nat (i - 1) = Some x → reverse l !! 1%nat = Some x.
Proof.
  intros Hi -> Hx. unfold zlen in *. rewrite reverse_lookup by lia.
  by replace (length l - 2)%nat with (Z.to_nat (Z.of_nat (length l) - 1 - 1)) by lia.
Qed.

Lemma return_frame_authorised r sender frame path s d reply d' :
  frame_authorised frame (localNodeID r) sender (config r) path → Frame_Return frame = false →
  Frame_HopIndex frame = zlen (Frame_Hops frame) - 1 →
  ParseIPv4Endpoints (Frame_Payload frame) = Ok (s, d) →
  ParseIPv4Endpoints reply = Ok (d', s) → zlen reply <= 65535 →
  blank (OverlaySubnet (config r)) = false →
  (∃ route, RouteFor (config r) d' = Some route ∧ Route_OwnerNodeID route = localNodeID r ∧
     Route_CIDR route = Path_CIDR path) →
  frame_authorised (return_frame frame (localNodeID r) reply) sender (localNodeID (r : Node))
    (config r) path.
Proof.
  intros A Hret Hi P P' Hlen Hov Hroute.
  destruct A as [Wf T Ho Hq Hh Hb (s0 & d0 & P0 & Ap)]. rewrite Hret in Hq.
  rewrite P in P0. injection P0 as <- <-. pose proof (fw_index _ Wf) as Hidx.
  assert (last (Frame_Hops frame) = Some (localNodeID r)) as Hl.
  { rewrite last_lookup, <- Hh. f_equal. unfold zlen in *. lia. }
  assert (Frame_OwnerNodeID frame = localNodeID r) as Eo.
  { pose proof (fw_end _ Wf) as E. rewrite Hret, Hl in E. congruence. }
  apply ParseIPv4Endpoints_valid in P' as V. constructor; cbn; try done.
  - apply return_frame_wf; try done. lia.
  - by rewrite <- Eo.
  - by rewrite Hq.
  - eapply reverse_lookup_1; eauto. lia.
  - by rewrite <- head_lookup, head_reverse.
  - exists d', s. split; [done|]. unfold packet_approved in *. rewrite Hret in Ap. cbn.
    by destruct Ap as (? & _).
Qed.

(** A packet for a Device whose path was learned at [t1] leaves on its reverse. *)
Lemma HandleTunPacket_return (r : Node) reply s d' overlay path t1 t2 next :
  ParseIPv4Endpoints reply = Ok (d', s) → PolicyValid (config r) t2 = true →
  IsSiteRouter (config r) (localNodeID r) = true →
  parse_prefix4 (OverlaySubnet (config r)) = Some overlay → prefix_contains overlay s = true →
  reverse_paths r !! s = Some (mkReverse path t1) → t2 - t1 <= reversePathTTL →
  let frame := mkFrame (Path_ID path) (localNodeID r) (reverse (Path_Hops path)) 1 true reply in
  frame_wf frame → Frame_Hops frame !! 1%nat = Some next →
  ∃ r', HandleTunPacket r reply t2 = (r', Ok tt) ∧
    mesh r' = mesh r ++ [(next, frame_bytes frame)].
Proof.
  intros P V Hsite Ho Hc Hr Ht frame Wf Hn. unfold HandleTunPacket.
  rewrite P, V, Hsite, Ho, Hc. cbn [negb andb]. unfold reverseFor. rewrite Hr. cbn [Reverse_LastSeen].
  rewrite ttl_lt, (proj2 (Z.ltb_ge _ _) Ht). cbn [localNodeID set_reverse Reverse_Path].
  pose proof (fw_count _ Wf). pose proof (fw_end _ Wf) as He. cbn in He.
  unfold reverseStrings. rewrite bool_decide_eq_true_2 by done.
  destruct (Z.ltb_spec (zlen (reverse (Path_Hops path))) 2); [cbn in *; lia|]. cbn [orb negb].
  rewrite (sendFrame_ok _ frame next) by done. eexists. split; [done|]. done.
Qed.

End network.
