(* ===== verification/RoutedSession.v ===== *)
(** * Routed sessions ([internal/routed/session.go], sequence numbers of [mesh.go])

    The part of a [meshPeer] guarded by [recvMu] together with the atomic send
    counter: the two session epochs, the sequence numbers of sent data and the
    sliding window over received ones.  Counters and the window are 64-bit
    unsigned integers. *)

From Stdlib Require Import Strings.Byte.
From S2P Require Import Prelude.

Definition u64 (z : Z) : Z := z mod 2 ^ 64.

Record peerSession := mkSession {
  sendSeq : Z;
  recvHigh : Z;
  recvMask : Z;
  localEpoch : bytes;
  remoteEpoch : bytes;
}.

(** [[16]byte{}] *)
Definition zero_epoch : bytes := replicate 16 x00.

Definition set_window (p : peerSession) (high mask : Z) : peerSession :=
  mkSession (sendSeq p) high mask (localEpoch p) (remoteEpoch p).

Definition nextSequence (p : peerSession) : peerSession * Z :=
  let sequence := u64 (sendSeq p + 1) in
  (mkSession sequence (recvHigh p) (recvMask p) (localEpoch p) (remoteEpoch p), sequence).

Definition acceptSequenceLocked (p : peerSession) (sequence : Z) : peerSession * bool :=
  if sequence =? 0 then (p, false)
  else if recvHigh p =? 0 then (set_window p sequence 1, true)
  else if recvHigh p <? sequence then
    let shift := u64 (sequence - recvHigh p) in
    let mask := if 64 <=? shift then 1 else Z.lor (u64 (Z.shiftl (recvMask p) shift)) 1 in
    (set_window p sequence mask, true)
  else
    let delta := u64 (recvHigh p - sequence) in
    if 64 <=? delta then (p, false)
    else
      let bit := u64 (Z.shiftl 1 delta) in
      if negb (Z.land (recvMask p) bit =? 0) then (p, false)
      else (set_window p (recvHigh p) (Z.lor (recvMask p) bit), true).

Definition acceptSequence (p : peerSession) (sequence : Z) : peerSession * bool :=
  if sequence =? 0 then (p, false) else acceptSequenceLocked p sequence.

Definition sessionReady (p : peerSession) : bool := bool_decide (remoteEpoch p ≠ zero_epoch).

Definition matchesRemoteEpoch (p : peerSession) (epoch : bytes) : bool :=
  bool_decide (remoteEpoch p = epoch).

Definition confirmRemoteEpoch (p : peerSession) (epoch : bytes) : peerSession :=
  if negb (zlen epoch =? 16) then p
  else if bool_decide (remoteEpoch p = epoch) then p
  else mkSession (sendSeq p) 0 0 (localEpoch p) epoch.

Definition dataEnvelope (p : peerSession) (payload : bytes) : peerSession * result bytes :=
  if bool_decide (remoteEpoch p = zero_epoch)
  then (p, Err "routed session is not authenticated yet")
  else
    let '(p, sequence) := nextSequence p in
    if sequence =? 0 then (p, Err "routed sequence exhausted")
    else (p, Ok (localEpoch p ++ remoteEpoch p ++ be_encode 8 sequence ++ payload)).

Definition acceptDataEnvelope (p : peerSession) (raw : bytes)
    : result (peerSession * option bytes) :=
  if zlen raw <=? 40 then Ok (p, None)
  else
    from ← slice raw 0 16;
    to ← slice raw 16 32;
    if bool_decide (remoteEpoch p = zero_epoch) || negb (bool_decide (from = remoteEpoch p))
       || negb (bool_decide (to = localEpoch p))
    then Ok (p, None)
    else
      sequence ← slice raw 32 40;
      let '(p, ok) := acceptSequenceLocked p (be_decode sequence) in
      if negb ok then Ok (p, None)
      else payload ← slice raw 40 (zlen raw); Ok (p, Some payload).

(** ** The sliding window as a set of sequence numbers *)

Section window.
Implicit Types (p : peerSession) (S : gset Z).

(** [window S p]: the receiver has accepted exactly the numbers of [S] in this
    epoch, of which it still distinguishes the last 64. *)
Record window S p : Prop := {
  wi_range : ∀ n, n ∈ S → 0 < n <= recvHigh p;
  wi_high : recvHigh p = 0 ∧ S = ∅ ∨ recvHigh p ∈ S;
  wi_u64 : 0 <= recvHigh p < 2 ^ 64;
  wi_mask : ∀ d, 0 <= d < 64 →
    Z.testbit (recvMask p) d = true ↔ recvHigh p - d ∈ S;
  wi_mask_u64 : 0 <= recvMask p < 2 ^ 64;
}.

(** What a replay filter promises: a number is accepted exactly when it is
    non-zero, new, and not more than 63 behind the highest one. *)
Definition fresh S (high n : Z) : Prop := 0 < n ∧ n ∉ S ∧ high - 64 < n.
#[local] Instance fresh_dec S high n : Decision (fresh S high n).
Proof. unfold fresh. apply _. Defined.

Lemma testbit_u64_high z d : 0 <= z < 2 ^ 64 → 64 <= d → Z.testbit z d = false.
Proof.
  intros Hz Hd. destruct (decide (z = 0)) as [->|]; [apply Z.bits_0|].
  apply Z.bits_above_log2; [lia|]. apply Z.log2_lt_pow2; [lia|].
  eapply Z.lt_le_trans; [apply Hz|]. apply Z.pow_le_mono_r; lia.
Qed.

Lemma u64_testbit z d : 0 <= d < 64 → Z.testbit (u64 z) d = Z.testbit z d.
Proof. intros. unfold u64. by rewrite Z.mod_pow2_bits_low by lia. Qed.

Lemma lor_u64 a b : 0 <= a < 2 ^ 64 → 0 <= b < 2 ^ 64 → 0 <= Z.lor a b < 2 ^ 64.
Proof.
  intros Ha Hb. assert (0 <= Z.lor a b) as H by (apply Z.lor_nonneg; lia).
  split; [done|]. destruct (decide (Z.lor a b = 0)) as [->|]; [lia|].
  apply Z.log2_lt_pow2; [lia|]. rewrite Z.log2_lor by lia.
  apply Z.max_lub_lt; [destruct (decide (a = 0)) as [->|]|destruct (decide (b = 0)) as [->|]];
    try (cbn; lia); apply Z.log2_lt_pow2; lia.
Qed.

Lemma u64_range z : 0 <= u64 z < 2 ^ 64.
Proof. apply Z.mod_pos_bound. lia. Qed.

Lemma u64_small z : 0 <= z < 2 ^ 64 → u64 z = z.
Proof. apply Z.mod_small. Qed.

Lemma bit_testbit delta d : 0 <= delta < 64 → 0 <= d →
  Z.testbit (u64 (Z.shiftl 1 delta)) d = bool_decide (d = delta).
Proof.
  intros Hd Hd'. rewrite u64_small.
  - rewrite Z.shiftl_1_l, Z.pow2_bits_eqb by lia.
    case_bool_decide; [apply Z.eqb_eq|apply Z.eqb_neq]; lia.
  - rewrite Z.shiftl_1_l. split; [apply Z.pow_nonneg; lia|]. apply Z.pow_lt_mono_r; lia.
Qed.

Lemma land_bit_zero m delta : 0 <= delta < 64 →
  (Z.land m (u64 (Z.shiftl 1 delta)) =? 0) = negb (Z.testbit m delta).
Proof.
  intros Hd. destruct (Z.testbit m delta) eqn:E; cbn.
  - apply Z.eqb_neq. intros H. apply (f_equal (λ z, Z.testbit z delta)) in H.
    rewrite Z.land_spec, E, bit_testbit, bool_decide_eq_true_2, Z.bits_0 in H by (done || lia). done.
  - apply Z.eqb_eq. apply Z.bits_inj'. intros n Hn.
    rewrite Z.land_spec, bit_testbit, Z.bits_0 by lia. case_bool_decide as H; [|by rewrite andb_false_r].
    by rewrite H, E.
Qed.

Lemma testbit_one d : 0 <= d → Z.testbit 1 d = true ↔ d = 0.
Proof.
  intros Hd. destruct (decide (d = 0)) as [->|]; [done|].
  change 1 with (2 ^ 0). rewrite Z.pow2_bits_eqb, Z.eqb_eq by lia. lia.
Qed.

Lemma window_init p : recvHigh p = 0 → recvMask p = 0 → window ∅ p.
Proof.
  intros Hh Hm. constructor; rewrite ?Hh, ?Hm; [set_solver|by left|lia| |lia].
  intros d _. rewrite Z.bits_0. set_solver.
Qed.

Lemma window_first p n : 0 < n < 2 ^ 64 → window ({[n]} ∪ ∅) (set_window p n 1).
Proof.
  intros Hn. rewrite union_empty_r_L.
  constructor; cbn; [intros m ->%elem_of_singleton; lia|set_solver|lia| |lia].
  intros d Hd. rewrite testbit_one, elem_of_singleton by lia. lia.
Qed.

(** The window after the highest number grew to [n]. *)
Lemma window_advance S p n :
  window S p → recvHigh p < n < 2 ^ 64 → recvHigh p ≠ 0 →
  window ({[n]} ∪ S) (acceptSequenceLocked p n).1.
Proof.
  intros [Hr Hh Hu Hm Hmu] Hn Hnz. unfold acceptSequenceLocked.
  destruct (Z.eqb_spec n 0); [lia|]. destruct (Z.eqb_spec (recvHigh p) 0); [lia|].
  destruct (Z.ltb_spec (recvHigh p) n); [|lia]. rewrite (u64_small (n - _)) by lia.
  constructor; cbn; [intros m [->%elem_of_singleton|?%Hr]%elem_of_union; lia|set_solver|lia| |].
  - intros d Hd. destruct (Z.leb_spec 64 (n - recvHigh p)) as [Hs|Hs].
    + rewrite testbit_one, elem_of_union, elem_of_singleton by lia.
      split; [intros ->; left; lia|]. intros [?|?%Hr]; lia.
    + rewrite Z.lor_spec, u64_testbit, Z.shiftl_spec, orb_true_iff by lia.
      rewrite testbit_one by lia.
      rewrite elem_of_union, elem_of_singleton.
      destruct (Z.ltb_spec (d - (n - recvHigh p)) 0) as [Hlt|Hge].
      * rewrite Z.testbit_neg_r by lia. split; [intros [?|?]; [done|left; lia]|].
        intros [?|E]; [right; lia|]. apply Hr in E. lia.
      * rewrite Hm by lia. replace (recvHigh p - (d - (n - recvHigh p))) with (n - d) by lia.
        split; [intros [?|?]; [by right|left; lia]|intros [?|?]; [right; lia|by left]].
  - destruct (64 <=? _); [lia|]. apply lor_u64; [apply u64_range|lia].
Qed.

(** The window after a late number was filled in. *)
Lemma window_fill S p n :
  window S p → 0 < n <= recvHigh p → recvHigh p - n < 64 → n ∉ S →
  acceptSequenceLocked p n =
    (set_window p (recvHigh p) (Z.lor (recvMask p) (u64 (Z.shiftl 1 (recvHigh p - n)))), true) ∧
  window ({[n]} ∪ S) (acceptSequenceLocked p n).1.
Proof.
  intros [Hr Hh Hu Hm Hmu] Hn Hd Hnew. unfold acceptSequenceLocked.
  destruct (Z.eqb_spec n 0); [lia|]. destruct (Z.eqb_spec (recvHigh p) 0); [lia|].
  destruct (Z.ltb_spec (recvHigh p) n); [lia|]. rewrite (u64_small (recvHigh p - n)) by lia.
  destruct (Z.leb_spec 64 (recvHigh p - n)); [lia|]. rewrite land_bit_zero by lia.
  assert (Z.testbit (recvMask p) (recvHigh p - n) = false) as Ht.
  { apply not_true_is_false. rewrite Hm by lia.
    by replace (recvHigh p - (recvHigh p - n)) with n by lia. }
  rewrite Ht. cbn [negb]. split; [done|]. constructor; cbn;
    [intros m [->%elem_of_singleton|?%Hr]%elem_of_union; lia| |lia| |].
  - destruct Hh as [[? _]|?]; [lia|set_solver].
  - intros d Hd'. rewrite Z.lor_spec, bit_testbit, orb_true_iff, bool_decide_eq_true, Hm by lia.
    rewrite elem_of_union, elem_of_singleton. split; intros [?|?]; auto; [left; lia|right; lia].
  - apply lor_u64; [done|apply u64_range].
Qed.

Lemma reject_old S p n :
  window S p → 0 < n <= recvHigh p → ¬ fresh S (recvHigh p) n →
  acceptSequenceLocked p n = (p, false).
Proof.
  intros [Hr Hh Hu Hm Hmu] Hn Hold. unfold acceptSequenceLocked.
  destruct (Z.eqb_spec n 0); [lia|]. destruct (Z.eqb_spec (recvHigh p) 0); [lia|].
  destruct (Z.ltb_spec (recvHigh p) n); [lia|]. rewrite (u64_small (recvHigh p - n)) by lia.
  destruct (Z.leb_spec 64 (recvHigh p - n)); [done|]. rewrite land_bit_zero by lia.
  replace (Z.testbit (recvMask p) (recvHigh p - n)) with true; [done|]. symmetry.
  rewrite Hm by lia. replace (recvHigh p - (recvHigh p - n)) with n by lia.
  destruct (decide (n ∈ S)); [done|]. destruct Hold. unfold fresh. split_and!; [lia|done|lia].
Qed.

(** One step of the window against its specification. *)
Lemma accept_spec S p n :
  window S p → 0 <= n < 2 ^ 64 →
  (acceptSequenceLocked p n).2 = bool_decide (fresh S (recvHigh p) n) ∧
  window (if (acceptSequenceLocked p n).2 then {[n]} ∪ S else S) (acceptSequenceLocked p n).1.
Proof.
  intros Wn Hn. pose proof Wn as [Hr Hh Hu Hm Hmu].
  destruct (decide (n = 0)) as [->|Hn0]; [by split; [rewrite bool_decide_eq_false_2 by
    (unfold fresh; lia)|]|].
  destruct (decide (recvHigh p = 0)) as [Hz|Hz].
  { assert (S = ∅) as -> by (destruct Hh as [[_ ?]|?%Hr]; [done|lia]).
    unfold acceptSequenceLocked. rewrite (proj2 (Z.eqb_neq _ _) Hn0), Hz. cbn.
    split; [by rewrite bool_decide_eq_true_2 by (unfold fresh; set_solver by lia)|].
    apply window_first. lia. }
  destruct (decide (recvHigh p < n)) as [Hlt|Hge].
  { pose proof (window_advance S p n Wn ltac:(lia) Hz) as Wa.
    assert ((acceptSequenceLocked p n).2 = true) as ->.
    { unfold acceptSequenceLocked. rewrite (proj2 (Z.eqb_neq _ _) Hn0), (proj2 (Z.eqb_neq _ _) Hz).
      by rewrite (proj2 (Z.ltb_lt _ _) Hlt). }
    split; [|done]. rewrite bool_decide_eq_true_2; [done|]. split_and!; [lia| |lia].
    intros ?%Hr. lia. }
  destruct (decide (fresh S (recvHigh p) n)) as [(? & Hnew & ?)|Hold].
  - destruct (window_fill S p n Wn ltac:(lia) ltac:(lia) Hnew) as [E Wf].
    rewrite E in *. by rewrite bool_decide_eq_true_2 by done.
  - rewrite (reject_old S p n) by (done || lia). cbn. by rewrite bool_decide_eq_false_2.
Qed.


(** The numbers a run of the filter accepts, in order. *)
Fixpoint accept_all p (ns : list Z) : peerSession * list Z :=
  match ns with
  | [] => (p, [])
  | n :: ns =>
      let '(p, ok) := acceptSequenceLocked p n in
      let '(p, acc) := accept_all p ns in (p, if ok then n :: acc else acc)
  end.

Lemma accept_all_window S p ns :
  window S p → Forall (λ n, 0 <= n < 2 ^ 64) ns →
  let '(p', acc) := accept_all p ns in
  window (list_to_set acc ∪ S) p' ∧ NoDup acc ∧ ∀ n, n ∈ acc → n ∉ S ∧ n ∈ ns.
Proof.
  revert S p. induction ns as [|n ns IH]; intros S p Wn F; cbn.
  { split_and!; [by rewrite union_empty_l_L|constructor|set_solver]. }
  apply Forall_cons in F as [Hn F]. destruct (accept_spec S p n Wn Hn) as [Hok Wn'].
  destruct (acceptSequenceLocked p n) as [p1 ok]. cbn in *. specialize (IH _ _ Wn' F).
  destruct (accept_all p1 ns) as [p2 acc]. destruct IH as (W2 & N & D). destruct ok.
  - symmetry in Hok. apply bool_decide_eq_true in Hok as (_ & Hnew & _). cbn. split_and!.
    + by replace ({[n]} ∪ list_to_set acc ∪ S) with (list_to_set acc ∪ ({[n]} ∪ S)) by set_solver.
    + constructor; [|done]. intros [? _]%D. set_solver.
    + intros m [->|Hm]%elem_of_cons; [split; [done|left]|]. apply D in Hm as [? ?]. set_solver.
  - split_and!; [done..|]. intros m [? ?]%D. set_solver.
Qed.

(** C4. The sliding window is a replay filter: from a fresh session it accepts
    no sequence number twice, whatever numbers arrive in whatever order, and
    the state it reaches represents exactly the set of accepted numbers, so
    that the next number is accepted if and only if it is non-zero, was not
    accepted before and is at most 63 behind the highest accepted one. *)
Theorem replay_window_exact p ns :
  recvHigh p = 0 → recvMask p = 0 → Forall (λ n, 0 <= n < 2 ^ 64) ns →
  let '(p', acc) := accept_all p ns in
  NoDup acc ∧ (∀ n, n ∈ acc → n <= recvHigh p') ∧ (recvHigh p' = 0 ∨ recvHigh p' ∈ acc) ∧
  ∀ n, 0 <= n < 2 ^ 64 →
    ((acceptSequenceLocked p' n).2 = true ↔ 0 < n ∧ n ∉ acc ∧ recvHigh p' - 64 < n).
Proof.
  intros Hh Hm F. pose proof (accept_all_window ∅ p ns (window_init p Hh Hm) F) as A.
  destruct (accept_all p ns) as [p' acc]. destruct A as (Wn & N & _).
  rewrite union_empty_r_L in Wn. pose proof Wn as [Hr Hhi _ _ _].
  setoid_rewrite elem_of_list_to_set in Hr. rewrite elem_of_list_to_set in Hhi.
  split_and!; [done|naive_solver lia|naive_solver|].
  intros n Hn. destruct (accept_spec _ p' n Wn Hn) as [-> _].
  rewrite bool_decide_eq_true. unfold fresh. by rewrite elem_of_list_to_set.
Qed.
End window.

(** ** Envelopes *)

Section envelope.
Implicit Types p : peerSession.

(** The epochs are 16-byte arrays and the counter a [uint64]. *)
Record session_wf p : Prop := {
  sw_local : length (localEpoch p) = 16%nat;
  sw_remote : length (remoteEpoch p) = 16%nat;
  sw_send : 0 <= sendSeq p < 2 ^ 64;
}.

Lemma envelope_parts (a b c d : bytes) :
  length a = 16%nat → length b = 16%nat → length c = 8%nat →
  let raw := a ++ b ++ c ++ d in
  slice raw 0 16 = Ok a ∧ slice raw 16 32 = Ok b ∧ slice raw 32 40 = Ok c ∧
  slice raw 40 (zlen raw) = Ok d ∧ zlen raw = 40 + zlen d.
Proof.
  intros Ha Hb Hc raw. subst raw.
  assert (zlen a = 16 ∧ zlen b = 16 ∧ zlen c = 8) as (Za & Zb & Zc) by (unfold zlen; lia).
  assert (zlen (a ++ b ++ c ++ d) = 40 + zlen d) as Zr by (rewrite !zlen_app; lia).
  split_and!; [|..|done].
  - by apply (slice_mid []); [|rewrite Za].
  - by rewrite (slice_mid a b (c ++ d) 16 32) by lia.
  - rewrite app_assoc. by rewrite (slice_mid (a ++ b) c d 32 40) by (rewrite ?zlen_app; lia).
  - rewrite Zr. rewrite <- (app_nil_r d) at 1. rewrite !app_assoc, <- (app_assoc _ d []).
    by rewrite (slice_mid ((a ++ b) ++ c) d [] 40 (40 + zlen d)) by (rewrite ?zlen_app; lia).
Qed.

(** Every sufficiently long message splits into the four fields. *)
Lemma envelope_split (raw : bytes) : 40 < zlen raw →
  ∃ a b c d, raw = a ++ b ++ c ++ d ∧ length a = 16%nat ∧ length b = 16%nat ∧ length c = 8%nat.
Proof.
  intros L. exists (take 16 raw), (take 16 (drop 16 raw)), (take 8 (drop 32 raw)), (drop 40 raw).
  rewrite !length_take, !length_drop. unfold zlen in L. split_and!; [|lia..].
  rewrite <- (take_drop 16 raw) at 1. f_equal.
  rewrite <- (take_drop 16 (drop 16 raw)) at 1. f_equal. rewrite drop_drop.
  rewrite <- (take_drop 8 (drop (16 + 16) raw)) at 1. by rewrite drop_drop.
Qed.

Lemma acceptDataEnvelope_unfold p a b c d :
  length a = 16%nat → length b = 16%nat → length c = 8%nat →
  acceptDataEnvelope p (a ++ b ++ c ++ d) =
  if bool_decide (d = []) || bool_decide (remoteEpoch p = zero_epoch)
     || negb (bool_decide (a = remoteEpoch p)) || negb (bool_decide (b = localEpoch p))
  then Ok (p, None)
  else let '(p', ok) := acceptSequenceLocked p (be_decode c) in
       Ok (p', if ok then Some d else None).
Proof.
  intros Ha Hb Hc. destruct (envelope_parts a b c d Ha Hb Hc) as (E1 & E2 & E3 & E4 & E5).
  unfold acceptDataEnvelope. rewrite E4, E5, E1, E2, E3.
  destruct d as [|x d]; [done|]. rewrite (bool_decide_eq_false_2 (x :: d = [])) by done.
  destruct (Z.leb_spec (40 + zlen (x :: d)) 40) as [L|_].
  { rewrite zlen_cons in L. pose proof (zlen_nonneg d). lia. }
  cbn [mbind result_bind orb]. destruct (_ || _); [done|].
  destruct (acceptSequenceLocked _ _) as [p' []]; done.
Qed.

(** Epoch binding: a message is accepted as data exactly when it carries
    the confirmed epoch of the peer, the local epoch, a sequence number the
    window accepts and a non-empty payload, which is what is delivered.  In
    particular nothing captured before either end restarted is accepted, and no
    message makes the parser panic. *)
Lemma acceptDataEnvelope_exact p raw :
  session_wf p →
  acceptDataEnvelope p raw ≠ Panic ∧
  ∀ p' payload, acceptDataEnvelope p raw = Ok (p', Some payload) ↔
    remoteEpoch p ≠ zero_epoch ∧ payload ≠ [] ∧
    ∃ sequence, 0 <= sequence < 2 ^ 64 ∧
      raw = remoteEpoch p ++ localEpoch p ++ be_encode 8 sequence ++ payload ∧
      acceptSequenceLocked p sequence = (p', true).
Proof.
  intros Wf. destruct (Z.leb_spec (zlen raw) 40) as [Hs|L].
  { unfold acceptDataEnvelope. rewrite (proj2 (Z.leb_le _ _) Hs). split; [done|].
    intros p' payload. split; [done|]. intros (_ & Hne & s & _ & -> & _).
    rewrite !zlen_app, zlen_be_encode in Hs. destruct Wf. unfold zlen in Hs.
    destruct payload; [done|]. cbn [length] in Hs. lia. }
  apply envelope_split in L as (a & b & c & d & -> & Ha & Hb & Hc).
  rewrite acceptDataEnvelope_unfold by done. split.
  { destruct (_ || _); [done|]. by destruct (acceptSequenceLocked _ _). }
  intros p' payload. split.
  - destruct (_ || _) eqn:G; [done|]. guards. destruct G as [[[? ?] ->] ->].
    destruct (acceptSequenceLocked p (be_decode c)) as [p1 []] eqn:A; [|done].
    intros [= <- <-]. split_and!; [done..|]. exists (be_decode c).
    pose proof (be_decode_range c) as R. unfold zlen in R. rewrite Hc in R.
    split_and!; [lia|cbn in R; lia| |done]. by rewrite <- Hc, be_encode_decode.
  - intros (He & Hne & s & Hs & E & A). destruct Wf as [Wl Wr _].
    apply app_inj_1 in E as [-> E]; [|lia]. apply app_inj_1 in E as [-> E]; [|lia].
    apply app_inj_1 in E as [-> ->]; [|by rewrite be_encode_length].
    rewrite (bool_decide_eq_false_2 (payload = [])),
      (bool_decide_eq_false_2 (remoteEpoch p = zero_epoch)), !bool_decide_eq_true_2 by done.
    cbn [orb negb].
    by rewrite be_decode_encode_small, A by (cbn; lia).
Qed.

(** Send [payloads] from one end and deliver each message to the other. *)
Fixpoint transfer (a b : peerSession) (payloads : list bytes) : result (list bytes) :=
  match payloads with
  | [] => Ok []
  | payload :: rest =>
      let '(a', sent) := dataEnvelope a payload in
      raw ← sent;
      '(b', got) ← acceptDataEnvelope b raw;
      out ← transfer a' b' rest;
      Ok (match got with Some x => x :: out | None => out end)
  end.

Lemma accept_next p n : recvHigh p < n < 2 ^ 64 → 0 <= recvHigh p →
  ∃ p', acceptSequenceLocked p n = (p', true) ∧ recvHigh p' = n ∧
    localEpoch p' = localEpoch p ∧ remoteEpoch p' = remoteEpoch p ∧ sendSeq p' = sendSeq p.
Proof.
  intros Hn Hh. unfold acceptSequenceLocked. destruct (Z.eqb_spec n 0); [lia|].
  destruct (Z.eqb_spec (recvHigh p) 0); [by eexists|].
  destruct (Z.ltb_spec (recvHigh p) n); [by eexists|lia].
Qed.

(** In-order delivery: between two ends that confirmed each other's epochs,
    every non-empty payload sent is accepted by the receiver, in order and
    unchanged, as long as the 64-bit counter is not exhausted. *)
Lemma transfer_in_order a b payloads :
  session_wf a → session_wf b →
  remoteEpoch a = localEpoch b → remoteEpoch b = localEpoch a →
  remoteEpoch a ≠ zero_epoch → remoteEpoch b ≠ zero_epoch →
  0 <= recvHigh b <= sendSeq a → sendSeq a + zlen payloads < 2 ^ 64 →
  Forall (λ x, x ≠ []) payloads →
  transfer a b payloads = Ok payloads.
Proof.
  revert a b. induction payloads as [|x rest IH];
    intros a b Wa Wb Eab Eba Na Nb Hh Hseq F; [done|].
  apply Forall_cons in F as [Hx F]. rewrite zlen_cons in Hseq. pose proof (zlen_nonneg rest).
  cbn [transfer]. unfold dataEnvelope. rewrite bool_decide_eq_false_2 by done.
  unfold nextSequence. rewrite u64_small by lia.
  destruct (Z.eqb_spec (sendSeq a + 1) 0); [lia|]. cbn [localEpoch remoteEpoch mbind result_bind].
  rewrite acceptDataEnvelope_unfold; [|apply Wa|apply Wa|apply be_encode_length].
  rewrite (bool_decide_eq_false_2 (x = [])), (bool_decide_eq_false_2 (remoteEpoch b = _)),
    !bool_decide_eq_true_2 by done. cbn [orb negb].
  rewrite be_decode_encode_small by (cbn; lia).
  destruct (accept_next b (sendSeq a + 1)) as (b' & -> & Hh' & El & Er & Es); [lia..|].
  cbn [mbind result_bind]. rewrite IH; try done; cbn [recvHigh sendSeq localEpoch remoteEpoch].
  - destruct Wa. constructor; cbn; [done..|lia].
  - destruct Wb. constructor; rewrite ?El, ?Er, ?Es; done.
  - congruence.
  - congruence.
  - congruence.
  - lia.
  - lia.
Qed.
End envelope.
