(* ===== verification/RoutedMesh.v ===== *)
(** * The authenticated mesh ([internal/routed/mesh.go])

    Peers with their codecs, learned addresses, probe metrics and sessions; the
    table of outstanding probe challenges; and the operations of [Mesh]:
    reconciliation with the configured links, sending, status, the handling of one
    received datagram and one tick of the prober.

    The UDP socket is a class.  [time.Now] reads the [clock] of the state and
    [crypto/rand] its [random] bytes.  The mesh listens on an IPv4 socket, so an
    address is an IPv4 address with a port. *)

From Stdlib Require Import Strings.Byte.
From stdpp Require Import pretty.
From S2P Require Import Prelude GoLib GoStrings GoEncoding Float64 Netip Crypto WgshimCodec.
From S2P Require Import RoutedConfig RoutedRouter RoutedSession.

Definition probeInterval : Z := 250 * millisecond.
Definition probeTimeout : Z := 400 * millisecond.
Definition linkFailAfter : Z := second.

Record UDPAddr := mkUDPAddr { udp_ip : Z; udp_port : Z }.
#[export] Instance UDPAddr_eq_decision : EqDecision UDPAddr.
Proof. solve_decision. Defined.

(** [UDPAddr.String] of an IPv4 address. *)
Definition udp_string (a : UDPAddr) : string :=
  let byte i := pretty (Z.shiftr (udp_ip a) (8 * i) mod 256) in
  byte 3 +:+ "." +:+ byte 2 +:+ "." +:+ byte 1 +:+ "." +:+ byte 0 +:+ ":" +:+ pretty (udp_port a).

Definition sameUDPAddress (a b : option UDPAddr) : bool :=
  match a, b with
  | Some a, Some b => String.eqb (udp_string a) (udp_string b)
  | _, _ => false
  end.

(** The socket: [WriteToUDP] reports whether the datagram was sent. *)
Class UDPConn (C : Type) := { WriteToUDP : C → bytes → UDPAddr → C * bool }.

(** What [addrMu] and [metricMu] guard. *)
Record peerAddress := mkPeerAddress { addr : option UDPAddr; addressSince : Z }.
Record peerMetrics := mkMetrics {
  lastAuth : Z;
  lastReply : Z;
  lastRTT : Z;
  samples : list bool;
}.

Section mesh.
Context `{GCM : AesGcm} `{HS : Hashes} `{GS : GoSort} {C : Type} `{UC : UDPConn C}.

Record meshPeer := mkPeer {
  peer_config : LinkConfig;
  fingerprint : bytes;
  tx : Codec;
  rx : Codec;
  peer_address : peerAddress;
  metrics : peerMetrics;
  session : peerSession;
}.

Definition with_config (p : meshPeer) c : meshPeer :=
  mkPeer c (fingerprint p) (tx p) (rx p) (peer_address p) (metrics p) (session p).
Definition with_address (p : meshPeer) a : meshPeer :=
  mkPeer (peer_config p) (fingerprint p) (tx p) (rx p) a (metrics p) (session p).
Definition with_metrics (p : meshPeer) m : meshPeer :=
  mkPeer (peer_config p) (fingerprint p) (tx p) (rx p) (peer_address p) m (session p).
Definition with_session (p : meshPeer) s : meshPeer :=
  mkPeer (peer_config p) (fingerprint p) (tx p) (rx p) (peer_address p) (metrics p) s.

Definition address (p : meshPeer) : option UDPAddr := addr (peer_address p).

Definition setAddress (p : meshPeer) (a : option UDPAddr) (now : Z) : meshPeer :=
  match a with
  | None => p
  | Some a =>
      let changed := negb (bool_decide (address p = Some a)) in
      let p := with_address p (mkPeerAddress (Some a)
                 (if changed then now else addressSince (peer_address p))) in
      if changed
      then with_metrics p (mkMetrics (lastAuth (metrics p)) zero_time (lastRTT (metrics p)) [])
      else p
  end.

Definition markAuth (p : meshPeer) (now : Z) : meshPeer :=
  with_metrics p (mkMetrics now (lastReply (metrics p)) (lastRTT (metrics p))
                    (samples (metrics p))).

Definition recordProbe (p : meshPeer) (ok : bool) (rtt now : Z) : meshPeer :=
  let m := metrics p in
  let m := if ok then mkMetrics now now rtt (samples m) else m in
  let s := samples m ++ [ok] in
  let s := if 20 <? zlen s then drop (length s - 20) s else s in
  with_metrics p (mkMetrics (lastAuth m) (lastReply m) (lastRTT m) s).

Definition peer_health (p : meshPeer) (now : Z) : string :=
  match address p with
  | None => "unknown"
  | Some _ =>
      if negb (time_is_zero (lastReply (metrics p)))
         && (time_sub now (lastReply (metrics p)) <=? linkFailAfter) then "healthy"
      else if negb (time_is_zero (addressSince (peer_address p)))
         && (time_sub now (addressSince (peer_address p)) <=? linkFailAfter) then "degraded"
      else "failed"
  end.

Definition peer_loss (s : list bool) : float64 :=
  if 0 <? zlen s then
    let failed := zlen (List.filter negb s) in
    fdiv (fmul (f_of_Z failed) (f_of_Z 100)) (f_of_Z (zlen s))
  else f0.

Definition status (p : meshPeer) (localNodeID : string) (now : Z) : LinkStatus :=
  let m := metrics p in
  let lastSeen :=
    if negb (time_is_zero (lastReply m)) then time_unix (lastReply m)
    else if negb (time_is_zero (lastAuth m)) then time_unix (lastAuth m) else 0 in
  mkLinkStatus (Link_ID (peer_config p)) localNodeID (Link_PeerNodeID (peer_config p))
    (Link_PeerName (peer_config p)) (peer_health p now)
    (fdiv (f_of_Z (Z.quot (lastRTT m) 1000)) (f_of_Z 1000))
    (peer_loss (samples m)) (Link_Cost (peer_config p)) lastSeen
    (match address p with Some a => udp_string a | None => "" end).

Record pendingProbe := mkPending { pending_peer : string; pending_sent : Z;
                                   pending_endpoint : string }.

Record Mesh := mkMesh {
  mesh_local : string;
  peers : gmap string meshPeer;
  pending : gmap string pendingProbe;
  conn : C;
  clock : Z;
  random : bytes;
}.

Definition set_peers (m : Mesh) ps : Mesh :=
  mkMesh (mesh_local m) ps (pending m) (conn m) (clock m) (random m).
Definition set_pending (m : Mesh) q : Mesh :=
  mkMesh (mesh_local m) (peers m) q (conn m) (clock m) (random m).
Definition set_conn (m : Mesh) c : Mesh :=
  mkMesh (mesh_local m) (peers m) (pending m) c (clock m) (random m).
Definition set_random (m : Mesh) r : Mesh :=
  mkMesh (mesh_local m) (peers m) (pending m) (conn m) (clock m) r.

(** [listen] is the socket [net.ListenUDP] opens on the port, if it can. *)
Definition NewMesh (listen : Z → option C) (local : string) (listenPort now : Z)
    (rnd : bytes) : result Mesh :=
  check (String.eqb local "") "local Node id is required" ;;
  match listen (if listenPort =? 0 then DefaultMeshPort else listenPort) with
  | None => Err "listen routed mesh UDP: %w"
  | Some c => Ok (mkMesh local ∅ ∅ c now rnd)
  end.

(** [net.ResolveUDPAddr] *)
Variable resolve : string → option UDPAddr.

Definition makePeer (localNodeID : string) (config : LinkConfig) (now : Z) (rnd : bytes)
    : result (meshPeer * bytes) :=
  psk ← LinkConfig_PSKBytes config;
  let '(txDirection, rxDirection) :=
    if String.ltb (Link_PeerNodeID config) localNodeID
    then (ServerToClient, ClientToServer) else (ClientToServer, ServerToClient) in
  txKey ← DeriveKey psk txDirection;
  rxKey ← DeriveKey psk rxDirection;
  tx ← NewCodec txKey 0 31;
  rx ← NewCodec rxKey 0 31;
  match read_full rnd 16 with
  | None => Err "create routed session epoch: %w"
  | Some (epoch, rnd) =>
      let peer := mkPeer config (sha256 psk) tx rx (mkPeerAddress None zero_time)
                    (mkMetrics zero_time zero_time 0 [])
                    (mkSession 0 0 0 epoch zero_epoch) in
      Ok (if negb (String.eqb (Link_PeerEndpoint config) "")
          then setAddress peer (resolve (Link_PeerEndpoint config)) now else peer, rnd)
  end.

(** The loop of [Reconcile].  [current] holds the peer objects of the mesh, which
    the loop updates in place; an entry [None] of [next] refers to the object of
    [current] under the same key, [Some p] is a new object. *)
Fixpoint reconcile_links (local : string) (now : Z) (links : list LinkConfig)
    (current : gmap string meshPeer) (next : gmap string (option meshPeer)) (rnd : bytes)
    : gmap string meshPeer * bytes * result (gmap string (option meshPeer)) :=
  match links with
  | [] => (current, rnd, Ok next)
  | config :: rest =>
      match LinkConfig_Validate config local with
      | Err e => (current, rnd, Err e)
      | Panic => (current, rnd, Panic)
      | Ok _ =>
          match makePeer local config now rnd with
          | Err e => (current, rnd, Err e)
          | Panic => (current, rnd, Panic)
          | Ok (candidate, rnd) =>
              let id := Link_PeerNodeID config in
              match current !! id with
              | Some previous =>
                  if String.eqb (Link_ID (peer_config previous)) (Link_ID config)
                     && bool_decide (fingerprint previous = fingerprint candidate)
                  then
                    let previous := setAddress (with_config previous config)
                                      (address candidate) now in
                    reconcile_links local now rest (<[id := previous]> current)
                      (<[id := None]> next) rnd
                  else reconcile_links local now rest current (<[id := Some candidate]> next) rnd
              | None => reconcile_links local now rest current (<[id := Some candidate]> next) rnd
              end
          end
      end
  end.

Definition resolve_entries (current : gmap string meshPeer)
    (next : gmap string (option meshPeer)) : gmap string meshPeer :=
  map_imap (λ id e, match e with Some p => Some p | None => current !! id end) next.

Definition Reconcile (m : Mesh) (links : list LinkConfig) : Mesh * result unit :=
  let '(current, rnd, res) :=
    reconcile_links (mesh_local m) (clock m) links (peers m) ∅ (random m) in
  match res with
  | Ok next => (set_random (set_peers m (resolve_entries current next)) rnd, Ok tt)
  | Err e => (set_random (set_peers m current) rnd, Err e)
  | Panic => (set_random (set_peers m current) rnd, Panic)
  end.

Definition update_peer (m : Mesh) (id : string) (f : meshPeer → meshPeer) : Mesh :=
  set_peers m (alter f id (peers m)).

(** The peers in the order of their Node ids, each with the key it is stored under. *)
Definition peerSnapshot (m : Mesh) : list (string * meshPeer) :=
  sort_slice (λ a b, String.ltb (Link_PeerNodeID (peer_config a.2))
                       (Link_PeerNodeID (peer_config b.2))) (map_to_list (peers m)).

Definition Mesh_Send (m : Mesh) (peerID : string) (payload : bytes) : Mesh * result unit :=
  match peers m !! peerID with
  | None => (m, Err "routed peer %s is not configured")
  | Some peer =>
      match address peer with
      | None => (m, Err "routed peer %s has no learned endpoint")
      | Some a =>
          let '(s, envelope) := dataEnvelope (session peer) payload in
          let m := update_peer m peerID (λ p, with_session p s) in
          match envelope with
          | Err e => (m, Err e)
          | Panic => (m, Panic)
          | Ok plaintext =>
              match Seal (tx peer) plaintext (random m) with
              | Ok (packet, rnd) =>
                  let '(c, ok) := WriteToUDP (conn m) packet a in
                  (set_random (set_conn m c) rnd,
                   if ok then Ok tt else Err "send routed packet to %s: %w")
              | _ => (m, Err "seal routed packet: %w")
              end
          end
      end
  end.

Definition Mesh_CanSend (m : Mesh) (peerID : string) : bool :=
  match peers m !! peerID with
  | None => false
  | Some peer =>
      match address peer with
      | None => false
      | Some _ =>
          sessionReady (session peer)
          && negb (String.eqb (LS_Health (status peer (mesh_local m) (clock m))) "failed")
      end
  end.

Definition Mesh_Status (m : Mesh) : list LinkStatus :=
  (λ '(_, peer), status peer (mesh_local m) (clock m)) <$> peerSnapshot m.

Definition Mesh_LinkStatus (m : Mesh) (peerID : string) : option LinkStatus :=
  (λ peer, status peer (mesh_local m) (clock m)) <$> peers m !! peerID.

(** ** Probes *)

Definition expired_probe (now : Z) (p : pendingProbe) : bool :=
  probeTimeout <=? time_sub now (pending_sent p).

Definition expireProbes (m : Mesh) (now : Z) : Mesh :=
  let expired := snd <$> map_to_list (filter (λ '(_, p), expired_probe now p = true) (pending m)) in
  let m := set_pending m (filter (λ '(_, p), expired_probe now p = false) (pending m)) in
  fold_left (λ m p, update_peer m (pending_peer p) (λ peer, recordProbe peer false 0 now))
    expired m.

Definition sendProbeTo (m : Mesh) (id : string) (a : option UDPAddr) (now : Z) : Mesh :=
  match a, peers m !! id with
  | Some a, Some peer =>
      let peerID := Link_PeerNodeID (peer_config peer) in
      match read_full (random m) 16 with
      | None => m
      | Some (nonce, rnd) =>
          let tokenRaw := localEpoch (session peer) ++ nonce in
          match SealProbe (tx peer) tokenRaw rnd with
          | Ok (packet, rnd) =>
              let m := set_random m rnd in
              let token := hex_encode tokenRaw in
              if List.existsb (λ q, String.eqb (pending_peer q.2) peerID) (map_to_list (pending m))
              then m
              else
                let m := set_pending m
                  (<[token := mkPending peerID now (udp_string a)]> (pending m)) in
                let '(c, ok) := WriteToUDP (conn m) packet a in
                let m := set_conn m c in
                if ok then m
                else update_peer (set_pending m (delete token (pending m))) id
                       (λ peer, recordProbe peer false 0 now)
          | _ => set_random m rnd
          end
      end
  | _, _ => m
  end.

Definition sendProbe (m : Mesh) (id : string) (now : Z) : Mesh :=
  sendProbeTo m id (peers m !! id ≫= address) now.

(** One tick of [runProbes]. *)
Definition probe_tick (m : Mesh) (now : Z) : Mesh :=
  let m := expireProbes m now in
  fold_left (λ m id, sendProbe m id now) (fst <$> peerSnapshot m) m.

(** ** Receiving *)

(** The first peer, in the order of the snapshot, whose key opens the packet. *)
Fixpoint match_peer (snapshot : list (string * meshPeer)) (packet : bytes)
    : option (string * meshPeer * byte * bytes) :=
  match snapshot with
  | [] => None
  | (id, peer) :: rest =>
      match OpenTyped (rx peer) packet with
      | Ok (kind, opened) => Some (id, peer, kind, opened)
      | _ => match_peer rest packet
      end
  end.

Definition handle_probe (m : Mesh) (id : string) (peer : meshPeer) (plaintext : bytes)
    (from : UDPAddr) (now : Z) : Mesh :=
  if negb (zlen plaintext =? 32) then m
  else
    match SealProbeReply (tx peer) (plaintext ++ localEpoch (session peer)) (random m) with
    | Ok (reply, rnd) =>
        let m := set_random m rnd in
        let m := set_conn m (WriteToUDP (conn m) reply from).1 in
        if negb (matchesRemoteEpoch (session peer) (take 16 plaintext))
           || negb (sameUDPAddress (address peer) (Some from))
        then sendProbeTo m id (Some from) now else m
    | _ => m
    end.

Definition handle_probe_reply (m : Mesh) (id : string) (peer : meshPeer) (plaintext : bytes)
    (from : UDPAddr) (now : Z) : Mesh :=
  if negb (zlen plaintext =? 48) then m
  else
    let token := hex_encode (take 32 plaintext) in
    match pending m !! token with
    | Some probe =>
        if String.eqb (pending_peer probe) (Link_PeerNodeID (peer_config peer))
           && String.eqb (pending_endpoint probe) (udp_string from)
        then
          let m := set_pending m (delete token (pending m)) in
          update_peer m id (λ peer,
            let peer := with_session peer (confirmRemoteEpoch (session peer) (drop 32 plaintext)) in
            let peer := setAddress peer (Some from) now in
            recordProbe peer true (time_sub now (pending_sent probe)) now)
        else m
    | None => m
    end.

Definition handle_data (m : Mesh) (id : string) (peer : meshPeer) (plaintext : bytes)
    (from : UDPAddr) (now : Z) : Mesh * option (string * bytes) :=
  match acceptDataEnvelope (session peer) plaintext with
  | Ok (s, Some payload) =>
      (update_peer m id (λ peer, markAuth (setAddress (with_session peer s) (Some from) now) now),
       Some (Link_PeerNodeID (peer_config peer), payload))
  | Ok (s, None) => (update_peer m id (λ peer, with_session peer s), None)
  | _ => (m, None)
  end.

(** One iteration of [runReceive]: the new state and what is handed to the data
    handler, if anything. *)
Definition receive (m : Mesh) (packet : bytes) (from : UDPAddr)
    : Mesh * option (string * bytes) :=
  let now := clock m in
  match match_peer (peerSnapshot m) packet with
  | None => (m, None)
  | Some (id, peer, kind, plaintext) =>
      if IsProbe kind then (handle_probe m id peer plaintext from now, None)
      else if IsProbeReply kind then (handle_probe_reply m id peer plaintext from now, None)
      else if IsData kind then handle_data m id peer plaintext from now
      else (m, None)
  end.

(** The mesh is a transport of the router. *)
#[export] Instance mesh_transport : MeshTransport Mesh := {|
  Send := Mesh_Send; CanSend := Mesh_CanSend; LinkStatusOf := Mesh_LinkStatus;
|}.
End mesh.

Arguments Mesh {GCM} C.

(** ** Facts *)

Section mesh_facts.
Context `{GCM : AesGcm} `{HS : Hashes} `{GS : GoSort} {C : Type} `{UC : UDPConn C}.
Implicit Types (m : Mesh C) (p : meshPeer).

Lemma setAddress_fields p a now :
  peer_config (setAddress p a now) = peer_config p ∧
  session (setAddress p a now) = session p ∧
  tx (setAddress p a now) = tx p ∧ rx (setAddress p a now) = rx p ∧
  fingerprint (setAddress p a now) = fingerprint p ∧
  zlen (samples (metrics (setAddress p a now))) <= zlen (samples (metrics p)).
Proof.
  unfold setAddress. destruct a as [a|]; [|done]. destruct (negb _); cbn; [|done].
  split_and!; try done. apply zlen_nonneg.
Qed.

Lemma recordProbe_fields p ok rtt now :
  peer_config (recordProbe p ok rtt now) = peer_config p ∧
  session (recordProbe p ok rtt now) = session p ∧
  zlen (samples (metrics (recordProbe p ok rtt now))) <= 20.
Proof.
  unfold recordProbe. cbn. split_and!; try done.
  set (s := samples _ ++ [ok]). destruct (Z.ltb_spec 20 (zlen s)); [|lia].
  unfold zlen in *. rewrite length_drop. lia.
Qed.

(** What every peer object satisfies under the key it is stored with. *)
Record peer_inv (id : string) p : Prop := {
  pi_key : Link_PeerNodeID (peer_config p) = id;
  pi_samples : zlen (samples (metrics p)) <= 20;
  pi_local : length (localEpoch (session p)) = 16%nat;
  pi_remote : length (remoteEpoch (session p)) = 16%nat;
}.

Record mesh_inv m : Prop := {
  mi_peers : map_Forall peer_inv (peers m);
  mi_pending : ∀ t t' q q', pending m !! t = Some q → pending m !! t' = Some q' →
    pending_peer q = pending_peer q' → t = t';
}.

Lemma peer_inv_setAddress id p a now : peer_inv id p → peer_inv id (setAddress p a now).
Proof.
  intros [? ? ? ?]. destruct (setAddress_fields p a now) as (Ec & Es & _ & _ & _ & Hs).
  constructor; rewrite ?Ec, ?Es; (done || lia).
Qed.

Lemma peer_inv_recordProbe id p ok rtt now : peer_inv id p → peer_inv id (recordProbe p ok rtt now).
Proof.
  intros [? ? ? ?]. destruct (recordProbe_fields p ok rtt now) as (Ec & Es & Hs).
  constructor; rewrite ?Ec, ?Es; done.
Qed.

Lemma peer_inv_markAuth id p now : peer_inv id p → peer_inv id (markAuth p now).
Proof. by intros [? ? ? ?]. Qed.

Lemma peer_inv_session id p s :
  peer_inv id p → length (localEpoch s) = 16%nat → length (remoteEpoch s) = 16%nat →
  peer_inv id (with_session p s).
Proof. by intros [? ? ? ?]. Qed.

Lemma inv_update m id f :
  mesh_inv m → (∀ p, peers m !! id = Some p → peer_inv id p → peer_inv id (f p)) →
  mesh_inv (update_peer m id f).
Proof.
  intros [Hp Hq] Hf. constructor; [|done]. intros k p. cbn.
  destruct (decide (k = id)) as [->|]; [rewrite lookup_alter_eq|rewrite lookup_alter_ne by done].
  - destruct (peers m !! id) eqn:E; [|done]. cbn. intros [= <-]. by apply Hf, Hp.
  - apply Hp.
Qed.

Lemma inv_same m m' : peers m' = peers m → pending m' = pending m → mesh_inv m → mesh_inv m'.
Proof. intros E1 E2 [? ?]. constructor; by rewrite ?E1, ?E2. Qed.

(** Epochs keep their length. *)
Lemma acceptSequenceLocked_epochs s n :
  localEpoch (acceptSequenceLocked s n).1 = localEpoch s ∧
  remoteEpoch (acceptSequenceLocked s n).1 = remoteEpoch s ∧
  sendSeq (acceptSequenceLocked s n).1 = sendSeq s.
Proof. unfold acceptSequenceLocked. by repeat case_match. Qed.

Lemma acceptDataEnvelope_epochs s raw s' out :
  acceptDataEnvelope s raw = Ok (s', out) →
  localEpoch s' = localEpoch s ∧ remoteEpoch s' = remoteEpoch s ∧ sendSeq s' = sendSeq s.
Proof.
  unfold acceptDataEnvelope. destruct (zlen raw <=? 40); [by intros [= <- <-]|].
  intros E. ok_step E. ok_step E. destruct (_ || _); [by injection E as <- <-|]. ok_step E.
  match type of E with context [acceptSequenceLocked s ?n] =>
    pose proof (acceptSequenceLocked_epochs s n) end.
  destruct (acceptSequenceLocked _ _) as [s1 []]; cbn in *; [ok_step E|]; by injection E as <- <-.
Qed.

Lemma dataEnvelope_epochs s payload :
  localEpoch (dataEnvelope s payload).1 = localEpoch s ∧
  remoteEpoch (dataEnvelope s payload).1 = remoteEpoch s ∧
  recvHigh (dataEnvelope s payload).1 = recvHigh s ∧
  recvMask (dataEnvelope s payload).1 = recvMask s.
Proof. unfold dataEnvelope. cbn. by repeat case_match. Qed.

Lemma confirmRemoteEpoch_epochs s e :
  localEpoch (confirmRemoteEpoch s e) = localEpoch s ∧
  (length (remoteEpoch s) = 16%nat → length (remoteEpoch (confirmRemoteEpoch s e)) = 16%nat).
Proof.
  unfold confirmRemoteEpoch. destruct (Z.eqb_spec (zlen e) 16); cbn; [|done].
  case_bool_decide; cbn; [done|]. split; [done|]. unfold zlen in *. lia.
Qed.

Lemma inv_pending_sub m q : mesh_inv m → q ⊆ pending m → mesh_inv (set_pending m q).
Proof.
  intros [? Hq] Hs. constructor; [done|]. cbn. intros t t' p p' Hp Hp'.
  apply Hq; by eapply lookup_weaken.
Qed.

Lemma inv_pending_add m token q :
  mesh_inv m → List.existsb (λ e, String.eqb (pending_peer e.2) (pending_peer q))
                 (map_to_list (pending m)) = false →
  mesh_inv (set_pending m (<[token := q]> (pending m))).
Proof.
  intros [? Hq] Hnone. constructor; [done|]. cbn.
  assert (∀ t e, pending m !! t = Some e → pending_peer e ≠ pending_peer q) as Hn.
  { intros t e He%elem_of_map_to_list Epeer. apply not_true_iff_false in Hnone.
    apply Hnone, existsb_exists. exists (t, e). split; [by apply list_elem_of_In|].
    by apply String.eqb_eq. }
  intros t t' p p'. destruct (decide (t = token)) as [->|], (decide (t' = token)) as [->|];
    rewrite ?lookup_insert_eq, ?lookup_insert_ne by done; naive_solver.
Qed.

Lemma sendProbeTo_inv m id a now : mesh_inv m → mesh_inv (sendProbeTo m id a now).
Proof.
  intros I. unfold sendProbeTo. destruct a as [a|]; [|done].
  destruct (peers m !! id) as [peer|] eqn:Hp; [|done].
  destruct (read_full _ _) as [[nonce rnd]|]; [|done].
  destruct (SealProbe _ _ _) as [[packet rnd']|e|]; [|by apply (inv_same m)..].
  destruct (List.existsb _ _) eqn:Ex; [by apply (inv_same m)|].
  set (m1 := set_pending (set_random m rnd') _).
  assert (mesh_inv m1) as I1.
  { apply (inv_pending_add (set_random m rnd') _ (mkPending _ now (udp_string a))); [|done].
    by apply (inv_same m). }
  destruct (WriteToUDP _ _ _) as [c []]; [by apply (inv_same m1)|].
  apply inv_update; [|intros; by apply peer_inv_recordProbe].
  apply (inv_same (set_pending m1 (delete (hex_encode (localEpoch (session peer) ++ nonce)) (pending m1))));
    [done..|]. apply inv_pending_sub; [done|]. apply delete_subseteq.
Qed.

Lemma expire_fold_inv ps m now :
  mesh_inv m →
  mesh_inv (fold_left (λ m (q : pendingProbe), update_peer m (pending_peer q)
                                 (λ peer, recordProbe peer false 0 now)) ps m).
Proof.
  revert m. induction ps as [|p ps IH]; intros m I; cbn; [done|].
  apply IH, inv_update; [done|]. intros; by apply peer_inv_recordProbe.
Qed.

Lemma probe_tick_inv m now : mesh_inv m → mesh_inv (probe_tick m now).
Proof.
  intros I. unfold probe_tick.
  assert (mesh_inv (expireProbes m now)) as I'.
  { apply expire_fold_inv, inv_pending_sub; [done|]. apply map_filter_subseteq. }
  revert I'. generalize (expireProbes m now) as m'. intros m'.
  generalize (fst <$> peerSnapshot m') as ids. intros ids. revert m'.
  induction ids as [|id ids IH]; intros m' I'; cbn; [done|]. apply IH. by apply sendProbeTo_inv.
Qed.

Lemma Mesh_Send_inv m id payload : mesh_inv m → mesh_inv (Mesh_Send m id payload).1.
Proof.
  intros I. unfold Mesh_Send. destruct (peers m !! id) as [p|] eqn:Hp; [|done].
  destruct (address p); [|done].
  pose proof (dataEnvelope_epochs (session p) payload) as (E1 & E2 & _).
  destruct (dataEnvelope _ _) as [s env]. cbn in E1, E2.
  assert (mesh_inv (update_peer m id (λ p, with_session p s))) as I'.
  { apply inv_update; [done|]. intros q Hq Iq. rewrite Hp in Hq. injection Hq as <-.
    apply peer_inv_session; rewrite ?E1, ?E2; [done|apply Iq..]. }
  destruct env; [|done..]. destruct (Seal _ _ _) as [[packet rnd]| |]; [|done..].
  destruct (WriteToUDP _ _ _) as [c ok]. by eapply inv_same; [..|exact I'].
Qed.

Lemma match_peer_Some m packet id p kind plaintext :
  match_peer (peerSnapshot m) packet = Some (id, p, kind, plaintext) →
  peers m !! id = Some p ∧ OpenTyped (rx p) packet = Ok (kind, plaintext).
Proof.
  assert (∀ l, (∀ e, e ∈ l → peers m !! e.1 = Some e.2) →
            match_peer l packet = Some (id, p, kind, plaintext) →
            peers m !! id = Some p ∧ OpenTyped (rx p) packet = Ok (kind, plaintext)) as H.
  { induction l as [|[id' p'] l IH]; intros Hl; cbn; [done|].
    destruct (OpenTyped (rx p') packet) as [[k o]| |] eqn:O.
    1: { intros [= <- <- <- <-]. split; [|done]. apply (Hl (id', p')). left. }
    all: apply IH; intros ent He; apply Hl; by right. }
  apply H. intros [k q] Hq. apply sort_slice_elem, elem_of_map_to_list in Hq. done.
Qed.

Lemma receive_inv m packet from : mesh_inv m → mesh_inv (receive m packet from).1.
Proof.
  intros I. unfold receive.
  destruct (match_peer _ _) as [[[[id p] kind] plaintext]|] eqn:Mp; [|done].
  apply match_peer_Some in Mp as [Hp _]. pose proof (mi_peers _ I _ _ Hp) as Ip.
  destruct (IsProbe kind); [|destruct (IsProbeReply kind); [|destruct (IsData kind); [|done]]].
  - unfold handle_probe. cbn [fst]. destruct (negb _); [done|].
    destruct (SealProbeReply _ _ _) as [[reply rnd]| |]; [|done..].
    destruct (_ || _); [apply sendProbeTo_inv|]; by apply (inv_same m).
  - unfold handle_probe_reply. cbn [fst]. destruct (negb _); [done|].
    destruct (pending m !! _) as [probe|]; [|done]. destruct (_ && _); [|done].
    apply inv_update; [apply inv_pending_sub; [done|apply delete_subseteq]|].
    intros q Hq Iq. apply peer_inv_recordProbe, peer_inv_setAddress.
    destruct (confirmRemoteEpoch_epochs (session q) (drop 32 plaintext)) as [El Er].
    apply peer_inv_session; [done|rewrite El; apply Iq|apply Er, Iq].
  - unfold handle_data. destruct (acceptDataEnvelope _ _) as [[s [payload|]]| |] eqn:A; [| |done..];
      apply acceptDataEnvelope_epochs in A as (E1 & E2 & _); cbn [fst];
      apply inv_update; try done;
      intros q Hq Iq; rewrite Hp in Hq; injection Hq as <-.
    + apply peer_inv_markAuth, peer_inv_setAddress, peer_inv_session;
        rewrite ?E1, ?E2; [done|apply Iq..].
    + apply peer_inv_session; rewrite ?E1, ?E2; [done|apply Iq..].
Qed.

(** ** Reconciliation *)

Context (resolve : string → option UDPAddr).

Lemma makePeer_Ok local config now rnd p rnd' :
  makePeer resolve local config now rnd = Ok (p, rnd') →
  peer_config p = config ∧ samples (metrics p) = [] ∧
  ∃ psk epoch, LinkConfig_PSKBytes config = Ok psk ∧ fingerprint p = sha256 psk ∧
    length epoch = 16%nat ∧ session p = mkSession 0 0 0 epoch zero_epoch.
Proof.
  unfold makePeer. intros E. apply bind_Ok in E as (psk & Hpsk & E).
  destruct (String.ltb _ _); do 4 (apply bind_Ok in E as (? & ? & E));
    (destruct (read_full rnd 16) as [[epoch rest]|] eqn:R; [|done]);
    injection E as <- <-; apply read_full_Some in R as [_ R];
    destruct (negb _); unfold setAddress; try destruct (resolve _); cbn; eauto 20.
Qed.

(** Two states of one peer object: the keys and the session did not change. *)
Definition same_peer p p' : Prop :=
  session p' = session p ∧ tx p' = tx p ∧ rx p' = rx p ∧ fingerprint p' = fingerprint p.

(** A new peer object: nothing sent, nothing received, no confirmed peer epoch. *)
Definition new_peer p : Prop :=
  ∃ epoch, length epoch = 16%nat ∧ session p = mkSession 0 0 0 epoch zero_epoch.

Definition same_peers (ps ps' : gmap string meshPeer) : Prop :=
  ∀ id, option_Forall2 same_peer (ps !! id) (ps' !! id).

Lemma same_peers_refl ps : same_peers ps ps.
Proof. intros id. destruct (ps !! id); by constructor. Qed.

Lemma same_peers_Some ps ps' id p :
  same_peers ps ps' → ps !! id = Some p → ∃ p', ps' !! id = Some p' ∧ same_peer p p'.
Proof. intros H Hp. specialize (H id). rewrite Hp in H. inversion H; eauto. Qed.

Lemma same_peers_update ps id p p' ps' :
  ps !! id = Some p → same_peer p p' → same_peers (<[id := p']> ps) ps' → same_peers ps ps'.
Proof.
  intros Hp Hs H k. specialize (H k). destruct (decide (k = id)) as [->|].
  - rewrite lookup_insert_eq in H. rewrite Hp. inversion H as [? q Hq|]; subst. constructor.
    destruct Hs as (? & ? & ? & ?), Hq as (? & ? & ? & ?). split_and!; congruence.
  - by rewrite lookup_insert_ne in H.
Qed.

Lemma update_same p config a now : same_peer p (setAddress (with_config p config) a now).
Proof.
  destruct (setAddress_fields (with_config p config) a now) as (_ & ? & ? & ? & ? & _).
  by split_and!.
Qed.

(** The links the code keeps the peer object of. *)
Definition keeps (config : LinkConfig) (previous candidate : meshPeer) : bool :=
  String.eqb (Link_ID (peer_config previous)) (Link_ID config)
  && bool_decide (fingerprint previous = fingerprint candidate).

Lemma makePeer_no_panic local config now rnd : makePeer resolve local config now rnd ≠ Panic.
Proof.
  unfold makePeer. apply bind_no_panic.
  { unfold LinkConfig_PSKBytes. by repeat case_match. }
  intros psk _. destruct (String.ltb _ _);
    repeat (apply bind_no_panic;
      [unfold DeriveKey, NewCodec; apply check_bind_no_panic; intros _; by try destruct (new_gcm _)
      |intros ? _]); by destruct (read_full rnd 16) as [[]|].
Qed.

(** One iteration of the loop: an error that leaves the rest undone, the update of
    a kept object, or a new object. *)
Lemma reconcile_links_step local now config rest current next rnd :
  (∃ e, reconcile_links resolve local now (config :: rest) current next rnd
        = (current, rnd, Err e)) ∨
  ∃ candidate rnd', makePeer resolve local config now rnd = Ok (candidate, rnd') ∧
    let id := Link_PeerNodeID config in
    reconcile_links resolve local now (config :: rest) current next rnd =
    match current !! id with
    | Some previous =>
        if keeps config previous candidate
        then reconcile_links resolve local now rest
               (<[id := setAddress (with_config previous config) (address candidate) now]> current)
               (<[id := None]> next) rnd'
        else reconcile_links resolve local now rest current (<[id := Some candidate]> next) rnd'
    | None => reconcile_links resolve local now rest current (<[id := Some candidate]> next) rnd'
    end.
Proof.
  cbn [reconcile_links]. destruct (LinkConfig_Validate config local) as [u|e|] eqn:V;
    [|left; eauto|by apply LinkConfig_Validate_no_panic in V].
  destruct (makePeer resolve local config now rnd) as [[candidate rnd']|e|] eqn:P;
    [|left; eauto|by apply makePeer_no_panic in P].
  right. exists candidate, rnd'. split; [done|]. unfold keeps.
  by destruct (current !! Link_PeerNodeID config).
Qed.

Lemma reconcile_links_spec local now links current next rnd :
  let '(current', rnd', res) := reconcile_links resolve local now links current next rnd in
  same_peers current current' ∧ res ≠ Panic ∧
  ∀ next', res = Ok next' →
    (∀ id, is_Some (next' !! id) ↔ is_Some (next !! id) ∨ id ∈ Link_PeerNodeID <$> links) ∧
    (∀ id, next' !! id = Some None → next !! id = Some None ∨ is_Some (current !! id)) ∧
    (∀ id p, next' !! id = Some (Some p) → next !! id = Some (Some p) ∨ new_peer p).
Proof.
  revert current next rnd. induction links as [|config links IH]; intros current next rnd.
  { cbn. split_and!; [apply same_peers_refl|done|]. intros next' [= <-]. set_solver. }
  destruct (reconcile_links_step local now config links current next rnd)
    as [[e ->]|(candidate & rnd' & P & E)].
  { split_and!; [apply same_peers_refl|done|done]. }
  apply makePeer_Ok in P as (_ & _ & psk & epoch & _ & _ & Hl & Hs). cbn zeta in E.
  set (id := Link_PeerNodeID config) in *. rewrite fmap_cons. fold id.
  assert (∃ current1 x,
    reconcile_links resolve local now (config :: links) current next rnd =
      reconcile_links resolve local now links current1 (<[id := x]> next) rnd' ∧
    (∀ ps, same_peers current1 ps → same_peers current ps) ∧
    (∀ k, is_Some (current1 !! k) → is_Some (current !! k)) ∧
    match x with None => is_Some (current !! id) | Some p => new_peer p end)
    as (current1 & x & -> & Hsub & Hdom & Hx).
  { destruct (current !! id) as [previous|] eqn:Hprev; [destruct (keeps config previous candidate)|].
    - eexists _, None. split_and!; [exact E| | |done].
      + intros ps. eapply same_peers_update; [done|apply update_same].
      + intros k. destruct (decide (k = id)) as [->|]; [by rewrite Hprev|].
        by rewrite lookup_insert_ne by done.
    - eexists _, (Some candidate). split_and!; [exact E|done|done|by exists epoch].
    - eexists _, (Some candidate). split_and!; [exact E|done|done|by exists epoch]. }
  specialize (IH current1 (<[id := x]> next) rnd').
  destruct (reconcile_links _ _ _ _ _ _ _) as [[current' rnd''] res].
  destruct IH as (Hsame & Hnp & Hn). split_and!; [by apply Hsub|done|].
  intros next' Hok. destruct (Hn next' Hok) as (D & N & F). split_and!.
  - intros k. rewrite D, elem_of_cons. destruct (decide (k = id)) as [->|].
    + rewrite lookup_insert_eq. split; eauto.
    + rewrite lookup_insert_ne by done. naive_solver.
  - intros k [Hk|Hk]%N; [|eauto]. destruct (decide (k = id)) as [->|];
      rewrite ?lookup_insert_eq, ?lookup_insert_ne in Hk by done; [simplify_eq|]; eauto.
  - intros k p [Hk|Hk]%F; [|eauto]. destruct (decide (k = id)) as [->|];
      rewrite ?lookup_insert_eq, ?lookup_insert_ne in Hk by done; [simplify_eq|]; eauto.
Qed.

Lemma reconcile_links_other local now links current next rnd current' rnd' next' id :
  reconcile_links resolve local now links current next rnd = (current', rnd', Ok next') →
  id ∉ Link_PeerNodeID <$> links → next' !! id = next !! id.
Proof.
  revert current next rnd. induction links as [|config links IH]; intros current next rnd E Hid.
  { by injection E as _ _ <-. }
  rewrite fmap_cons, not_elem_of_cons in Hid. destruct Hid as [Hne Hid].
  destruct (reconcile_links_step local now config links current next rnd)
    as [[e E']|(candidate & rnd1 & _ & E')]; rewrite E' in E; [done|].
  repeat case_match; apply IH in E; try done; rewrite E; by rewrite lookup_insert_ne.
Qed.

Lemma reconcile_links_kept local now links current next rnd current' rnd' next' config p psk :
  reconcile_links resolve local now links current next rnd = (current', rnd', Ok next') →
  NoDup (Link_PeerNodeID <$> links) → config ∈ links →
  current !! Link_PeerNodeID config = Some p →
  Link_ID (peer_config p) = Link_ID config →
  LinkConfig_PSKBytes config = Ok psk → fingerprint p = sha256 psk →
  next' !! Link_PeerNodeID config = Some None.
Proof.
  intros E N Hin Hp Hid Hpsk Hf. revert current next rnd E Hp.
  induction links as [|c links IH]; intros current next rnd E Hp; [by apply elem_of_nil in Hin|].
  rewrite fmap_cons, NoDup_cons in N. destruct N as [Nc N].
  destruct (reconcile_links_step local now c links current next rnd)
    as [[e E']|(candidate & rnd1 & P & E')]; rewrite E' in E; [done|]. clear E'.
  apply elem_of_cons in Hin as [->|Hin].
  - rewrite Hp in E. apply makePeer_Ok in P as (_ & _ & psk' & _ & Hpsk' & Hf' & _).
    assert (keeps c p candidate = true) as Hk.
    { unfold keeps. rewrite Hid, String.eqb_refl. apply bool_decide_eq_true. congruence. }
    rewrite Hk in E. erewrite reconcile_links_other; [|exact E|done]. by rewrite lookup_insert_eq.
  - assert (Link_PeerNodeID config ≠ Link_PeerNodeID c) as Hk.
    { intros Ek. apply Nc. rewrite <- Ek. by apply list_elem_of_fmap_2. }
    repeat case_match; (eapply IH; [done|done|exact E|]); by rewrite ?lookup_insert_ne.
Qed.

(** Reconciliation keeps sessions: it never panics; after a success the
    configured peers are exactly those of the links, each of them either the
    object it was, with its keys, epochs, sequence numbers and replay window
    untouched, or a new object with no session; a link whose id and key did not
    change keeps its object; and a failed reconciliation removes no peer and
    disturbs no session. *)
Lemma Reconcile_sessions m links :
  let '(m', res) := Reconcile resolve m links in
  match res with
  | Panic => False
  | Err _ => same_peers (peers m) (peers m')
  | Ok _ =>
      (∀ id, is_Some (peers m' !! id) ↔ id ∈ Link_PeerNodeID <$> links) ∧
      (∀ id p', peers m' !! id = Some p' →
         (∃ p, peers m !! id = Some p ∧ same_peer p p') ∨ new_peer p') ∧
      (NoDup (Link_PeerNodeID <$> links) → ∀ config p psk, config ∈ links →
         peers m !! Link_PeerNodeID config = Some p → Link_ID (peer_config p) = Link_ID config →
         LinkConfig_PSKBytes config = Ok psk → fingerprint p = sha256 psk →
         ∃ p', peers m' !! Link_PeerNodeID config = Some p' ∧ same_peer p p')
  end.
Proof.
  unfold Reconcile.
  pose proof (reconcile_links_spec (mesh_local m) (clock m) links (peers m) ∅ (random m)) as H.
  destruct (reconcile_links _ _ _ _ _ _ _) as [[current rnd] [next|e|]] eqn:E;
    destruct H as (Hsame & Hnp & Hok); [|done|done].
  destruct (Hok next eq_refl) as (D & N & F). cbn.
  assert (∀ id, resolve_entries current next !! id =
                next !! id ≫= λ e, match e with Some p => Some p | None => current !! id end) as Hl.
  { intros id. unfold resolve_entries. by rewrite map_lookup_imap. }
  assert (∀ id, next !! id = Some None → ∃ p p', peers m !! id = Some p ∧
            current !! id = Some p' ∧ same_peer p p') as Hnone.
  { intros id [Hn|[p Hp]]%N; [by rewrite lookup_empty in Hn|]. 
    destruct (same_peers_Some _ _ _ _ Hsame Hp) as (p' & ? & ?). eauto. }
  split_and!.
  - intros id. rewrite Hl. transitivity (is_Some (next !! id)).
    + destruct (next !! id) as [[p|]|] eqn:En; cbn; [by split; eauto| |done].
      apply Hnone in En as (? & p' & _ & -> & _). by split; eauto.
    + rewrite D, lookup_empty. split; [|by auto]. intros [[? ?]|?]; done.
  - intros id p'. rewrite Hl. destruct (next !! id) as [[p|]|] eqn:En; cbn; [|..|done].
    + intros [= <-]. apply F in En as [En|?]; [by rewrite lookup_empty in En|by right].
    + apply Hnone in En as (p & p1 & ? & -> & ?). intros [= <-]. eauto.
  - intros ND config p psk Hin Hp Hid Hpsk Hf. rewrite Hl.
    erewrite reconcile_links_kept; [|done..]. by eapply same_peers_Some.
Qed.

Lemma makePeer_inv local config now rnd p rnd' :
  makePeer resolve local config now rnd = Ok (p, rnd') → peer_inv (Link_PeerNodeID config) p.
Proof.
  intros (Ec & Hs & psk & epoch & _ & _ & Hl & Es)%makePeer_Ok.
  constructor; rewrite ?Ec, ?Hs, ?Es; done.
Qed.

Definition entry_inv (id : string) (e : option meshPeer) : Prop :=
  match e with Some p => peer_inv id p | None => True end.

Lemma reconcile_links_inv local now links current next rnd :
  map_Forall peer_inv current → map_Forall entry_inv next →
  let '(current', _, res) := reconcile_links resolve local now links current next rnd in
  map_Forall peer_inv current' ∧ ∀ next', res = Ok next' → map_Forall entry_inv next'.
Proof.
  revert current next rnd. induction links as [|config links IH]; intros current next rnd Hc Hn.
  { split; [done|]. by intros ? [= <-]. }
  destruct (reconcile_links_step local now config links current next rnd)
    as [[e ->]|(candidate & rnd1 & P & ->)]; [done|]. apply makePeer_inv in P.
  destruct (current !! Link_PeerNodeID config) as [previous|] eqn:Hp; [destruct (keeps _ _ _)|];
    apply IH; try done; apply map_Forall_insert_2; try done.
  apply peer_inv_setAddress. apply Hc in Hp. by destruct Hp.
Qed.

Lemma Reconcile_inv m links : mesh_inv m → mesh_inv (Reconcile resolve m links).1.
Proof.
  intros [Hp Hq]. unfold Reconcile.
  pose proof (reconcile_links_inv (mesh_local m) (clock m) links (peers m) ∅ (random m) Hp
    (map_Forall_empty _)) as H.
  destruct (reconcile_links _ _ _ _ _ _ _) as [[current rnd] [next|e|]]; destruct H as [Hc Hn];
    constructor; try done. cbn. specialize (Hn next eq_refl).
  intros id p Hid. unfold resolve_entries in Hid. rewrite map_lookup_imap in Hid.
  destruct (next !! id) as [[q|]|] eqn:E; [|cbn in Hid; by apply Hc|done].
  cbn in Hid. injection Hid as <-. apply (Hn id _ E).
Qed.

(** The mesh as a state machine: an operation of the router or the agent, a
    received datagram, a tick of the prober, or the passing of time (a new clock
    reading and new random bytes). *)
Inductive mesh_step : Mesh C → Mesh C → Prop :=
| step_reconcile m links : mesh_step m (Reconcile resolve m links).1
| step_send m id payload : mesh_step m (Mesh_Send m id payload).1
| step_receive m packet from : mesh_step m (receive m packet from).1
| step_tick m now : mesh_step m (probe_tick m now)
| step_time m now rnd :
    mesh_step m (mkMesh (mesh_local m) (peers m) (pending m) (conn m) now rnd).

Lemma NewMesh_inv listen local port now rnd m :
  NewMesh listen local port now rnd = Ok m → mesh_inv m.
Proof.
  intros E. unfold NewMesh in E. apply check_then in E as [_ E]. destruct (listen _); [|done].
  injection E as <-. constructor; [apply map_Forall_empty|]. cbn. by setoid_rewrite lookup_empty.
Qed.

(** C26. Invariant of every reachable mesh: a peer is stored under the Node id of
    its own link, keeps at most twenty probe samples and two 16-byte epochs, and
    has at most one outstanding challenge, however many datagrams are received
    or replayed. *)
Theorem mesh_reachable_inv listen local port now rnd m0 m :
  NewMesh listen local port now rnd = Ok m0 → rtc mesh_step m0 m → mesh_inv m.
Proof.
  intros I%NewMesh_inv R.
  induction R as [|? ? ? Hs ? IH]; [done|]. apply IH. destruct Hs.
  - by apply Reconcile_inv.
  - by apply Mesh_Send_inv.
  - by apply receive_inv.
  - by apply probe_tick_inv.
  - by eapply inv_same; [| |eassumption].
Qed.

(** ** Freshness of confirmed epochs *)

Lemma update_lookup m id f k p' :
  peers (update_peer m id f) !! k = Some p' →
  ∃ p, peers m !! k = Some p ∧ p' = (if decide (k = id) then f p else p).
Proof.
  cbn. destruct (decide (k = id)) as [->|]; [rewrite lookup_alter_eq|rewrite lookup_alter_ne by done].
  - destruct (peers m !! id) as [p|]; [|done]. intros [= <-]. eauto.
  - eauto.
Qed.

Lemma sendProbeTo_sessions m id a now k p' :
  peers (sendProbeTo m id a now) !! k = Some p' →
  ∃ p, peers m !! k = Some p ∧ session p' = session p.
Proof.
  unfold sendProbeTo. destruct a as [a|]; [|eauto].
  destruct (peers m !! id); [|eauto]. destruct (read_full _ _) as [[nonce rnd]|]; [|eauto].
  destruct (SealProbe _ _ _) as [[packet rnd']|e|]; [|cbn; eauto..].
  destruct (List.existsb _ _); [cbn; eauto|].
  destruct (WriteToUDP _ _ _) as [c []]; [cbn; eauto|].
  intros (p & Hp & ->)%update_lookup. exists p. split; [exact Hp|].
  case_decide; [|done]. by apply recordProbe_fields.
Qed.

Lemma handle_probe_sessions m id peer plaintext from now k p' :
  peers (handle_probe m id peer plaintext from now) !! k = Some p' →
  ∃ p, peers m !! k = Some p ∧ session p' = session p.
Proof.
  unfold handle_probe. destruct (negb _); [eauto|].
  destruct (SealProbeReply _ _ _) as [[reply rnd]| |]; [|eauto..].
  destruct (_ || _); [|cbn; eauto]. intros H. by apply sendProbeTo_sessions in H.
Qed.

Lemma handle_data_epochs m id peer plaintext from now k p' :
  peers m !! id = Some peer →
  peers (handle_data m id peer plaintext from now).1 !! k = Some p' →
  ∃ p, peers m !! k = Some p ∧ remoteEpoch (session p') = remoteEpoch (session p).
Proof.
  intros Hid. unfold handle_data.
  destruct (acceptDataEnvelope _ _) as [[s [payload|]]| |] eqn:A; [| |cbn; eauto..];
    apply acceptDataEnvelope_epochs in A as (_ & E2 & _); cbn [fst];
    intros (p & Hp & ->)%update_lookup; exists p; (split; [done|]); case_decide; try done;
    subst k; rewrite Hid in Hp; injection Hp as <-; [|done].
  cbn [markAuth with_metrics session].
  by destruct (setAddress_fields (with_session peer s) (Some from) now) as (_ & -> & _).
Qed.

Lemma confirm_changed s e :
  remoteEpoch (confirmRemoteEpoch s e) ≠ remoteEpoch s → remoteEpoch (confirmRemoteEpoch s e) = e.
Proof. unfold confirmRemoteEpoch. by repeat case_match. Qed.

(** A peer's session epoch is learned only from a fresh answer: when a
    received datagram changes the confirmed remote epoch of a peer, the datagram
    is a probe reply sealed with that peer's key, it repeats a token this Node
    has outstanding for that peer at the sender's address, the new epoch is the
    one in the reply, and the token is consumed.  Data and unsolicited probes
    never change it. *)
Lemma receive_epoch_fresh m packet from m' out id p p' :
  mesh_inv m → receive m packet from = (m', out) →
  peers m !! id = Some p → peers m' !! id = Some p' →
  remoteEpoch (session p') ≠ remoteEpoch (session p) →
  ∃ token probe, OpenTyped (rx p) packet
                   = Ok (packetProbeReply, token ++ remoteEpoch (session p')) ∧
    length token = 32%nat ∧ pending m !! hex_encode token = Some probe ∧
    pending_peer probe = id ∧ pending_endpoint probe = udp_string from ∧
    pending m' !! hex_encode token = None.
Proof.
  intros I E Hp Hp' Hne. unfold receive in E.
  destruct (match_peer _ _) as [[[[k q] kind] plaintext]|] eqn:Mp; [|congruence].
  apply match_peer_Some in Mp as [Hk Ho].
  destruct (IsProbe kind) eqn:K1; [|destruct (IsProbeReply kind) eqn:K2; [|destruct (IsData kind)]];
    [| | |congruence].
  - injection E as <- <-. apply handle_probe_sessions in Hp' as (p1 & Hp1 & Es). congruence.
  - injection E as <- <-. unfold handle_probe_reply in *.
    destruct (Z.eqb_spec (zlen plaintext) 48) as [L|]; cbn [negb] in *; [|congruence].
    destruct (pending m !! _) as [probe|] eqn:Hq; [|congruence].
    destruct (_ && _) eqn:G; [|congruence]. guards. destruct G as [G1 G2].
    apply update_lookup in Hp' as (p1 & Hp1 & ->). cbn [peers set_pending] in Hp1.
    case_decide as Ek; [subst k|congruence]. rewrite Hp in Hp1, Hk. injection Hp1 as <-.
    injection Hk as <-. cbn zeta in *.
    destruct (recordProbe_fields (setAddress (with_session p
      (confirmRemoteEpoch (session p) (drop 32 plaintext))) (Some from) (clock m)) true
      (time_sub (clock m) (pending_sent probe)) (clock m)) as (_ & Es & _).
    destruct (setAddress_fields (with_session p (confirmRemoteEpoch (session p)
      (drop 32 plaintext))) (Some from) (clock m)) as (_ & Es' & _).
    rewrite Es, Es' in *. cbn [with_session session] in *.
    exists (take 32 plaintext), probe. rewrite (confirm_changed _ _ Hne), take_drop.
    apply bool_decide_eq_true in K2. subst kind. split_and!; try done.
    + rewrite length_take. unfold zlen in L. lia.
    + rewrite G1. apply (mi_peers _ I _ _ Hp).
    + cbn. apply lookup_delete_eq.
  - pose proof (handle_data_epochs m k q plaintext from (clock m) id p' Hk) as H.
    rewrite E in H. destruct (H Hp') as (p1 & Hp1 & Es). congruence.
Qed.

(** ** Delivery between two Nodes *)

(** What one end seals the other end opens. *)
Definition linked (a b : meshPeer) : Prop :=
  codec_wf (tx a) ∧ codec_wf (tx b) ∧
  codec_aead (rx b) = codec_aead (tx a) ∧ codec_aead (rx a) = codec_aead (tx b).

Lemma DeriveKey_codec psk dir :
  length psk = 32%nat → ∃ key c, DeriveKey psk dir = Ok key ∧ NewCodec key 0 31 = Ok c ∧
    new_gcm (hmac_sha256 psk (str_bytes match dir with
      ServerToClient => "bpc-wgshim-v1-s2c" | ClientToServer => "bpc-wgshim-v1-c2s" end))
    = Some (codec_aead c).
Proof.
  intros Hl. unfold DeriveKey. assert (zlen psk = 32) as -> by (unfold zlen; lia).
  cbn [negb Z.eqb check mbind result_bind Pos.eqb].
  set (key := hmac_sha256 _ _). exists key.
  assert (is_Some (new_gcm key)) as [g Hg].
  { apply new_gcm_key. right. right. apply hmac_sha256_length. }
  exists (mkCodec g 0 31). unfold NewCodec. by rewrite Hg.
Qed.

Lemma makePeer_codecs local config now rnd psk epoch rnd' :
  LinkConfig_PSKBytes config = Ok psk → length psk = 32%nat →
  read_full rnd 16 = Some (epoch, rnd') →
  ∃ p, makePeer resolve local config now rnd = Ok (p, rnd') ∧ codec_wf (tx p) ∧
    new_gcm (hmac_sha256 psk (str_bytes (if String.ltb (Link_PeerNodeID config) local
      then "bpc-wgshim-v1-s2c" else "bpc-wgshim-v1-c2s"))) = Some (codec_aead (tx p)) ∧
    new_gcm (hmac_sha256 psk (str_bytes (if String.ltb (Link_PeerNodeID config) local
      then "bpc-wgshim-v1-c2s" else "bpc-wgshim-v1-s2c"))) = Some (codec_aead (rx p)).
Proof.
  intros Hpsk Hl R. unfold makePeer. rewrite Hpsk. cbn [mbind result_bind].
  destruct (DeriveKey_codec psk ClientToServer Hl) as (k1 & c1 & E1 & N1 & G1).
  destruct (DeriveKey_codec psk ServerToClient Hl) as (k2 & c2 & E2 & N2 & G2).
  pose proof (NewCodec_wf _ _ _ _ N1). pose proof (NewCodec_wf _ _ _ _ N2).
  destruct (String.ltb _ _); rewrite E1, E2; cbn [mbind result_bind];
    rewrite N1, N2; cbn [mbind result_bind]; rewrite R; eexists; (split; [done|]);
    destruct (negb _); rewrite ?(proj1 (proj2 (proj2 (setAddress_fields _ _ _)))),
      ?(proj1 (proj2 (proj2 (proj2 (setAddress_fields _ _ _))))); by split_and!.
Qed.

(** Key agreement: two Nodes that configure a link to each other with the
    same 32-byte key build peers that open each other's packets in both
    directions, whichever Node id is the smaller one; no such link fails to be
    built. *)
Lemma makePeer_linked la lb psk now rnda rndb ea ra eb rb :
  Link_PeerNodeID la ≠ Link_PeerNodeID lb →
  LinkConfig_PSKBytes la = Ok psk → LinkConfig_PSKBytes lb = Ok psk →
  read_full rnda 16 = Some (ea, ra) → read_full rndb 16 = Some (eb, rb) →
  ∃ pa pb, makePeer resolve (Link_PeerNodeID lb) la now rnda = Ok (pa, ra) ∧
    makePeer resolve (Link_PeerNodeID la) lb now rndb = Ok (pb, rb) ∧ linked pa pb.
Proof.
  intros Hne Ha Hb Ra Rb. assert (length psk = 32%nat) as Hl.
  { unfold LinkConfig_PSKBytes in Ha. destruct (base64_decode _) as [raw|]; [|done].
    destruct (Z.eqb_spec (zlen raw) 32); cbn in Ha; [|done]. injection Ha as <-.
    unfold zlen in *. lia. }
  destruct (makePeer_codecs (Link_PeerNodeID lb) la now rnda psk ea ra Ha Hl Ra)
    as (pa & -> & Wa & Ta & Rxa).
  destruct (makePeer_codecs (Link_PeerNodeID la) lb now rndb psk eb rb Hb Hl Rb)
    as (pb & -> & Wb & Tb & Rxb).
  exists pa, pb. split_and!; [done..|]. split; [done|]. split; [done|].
  destruct (String.ltb (Link_PeerNodeID la) (Link_PeerNodeID lb)) eqn:L.
  - rewrite (string_ltb_asym _ _ L) in Tb, Rxb. split; congruence.
  - destruct (String.ltb (Link_PeerNodeID lb) (Link_PeerNodeID la)) eqn:L'; [split; congruence|].
    by destruct (Hne (string_ltb_total _ _ L L')).
Qed.

(** No key of the mesh but that of [id] opens a packet that key opens. *)
Definition distinct_keys m (id : string) p : Prop :=
  ∀ k q packet x y, peers m !! k = Some q → k ≠ id → OpenTyped (rx p) packet = Ok x →
    OpenTyped (rx q) packet ≠ Ok y.

Lemma match_peer_unique m id p packet kind plaintext :
  peers m !! id = Some p → distinct_keys m id p →
  OpenTyped (rx p) packet = Ok (kind, plaintext) →
  match_peer (peerSnapshot m) packet = Some (id, p, kind, plaintext).
Proof.
  intros Hp Hd Ho.
  assert (∀ l, (∀ e, e ∈ l → peers m !! e.1 = Some e.2) → (id, p) ∈ l →
            match_peer l packet = Some (id, p, kind, plaintext)) as H.
  { induction l as [|[k q] l IH]; intros Hl Hin; [by apply elem_of_nil in Hin|]. cbn.
    pose proof (Hl (k, q) (list_elem_of_here _ _)) as Hq. cbn in Hq.
    destruct (decide (k = id)) as [->|Hk].
    { rewrite Hp in Hq. injection Hq as <-. by rewrite Ho. }
    destruct (OpenTyped (rx q) packet) as [y| |] eqn:Oq; [by destruct (Hd _ _ _ _ y Hq Hk Ho)|..];
      (apply elem_of_cons in Hin as [[= ? ?]|Hin]; [done|]); apply IH; auto;
      intros ent He; apply Hl; by right. }
  apply H.
  - intros [k q] Hq. by apply sort_slice_elem, elem_of_map_to_list in Hq.
  - by apply sort_slice_elem, elem_of_map_to_list.
Qed.

(** Both ends confirmed each other's epoch and the receiver is not ahead. *)
Definition in_session (a b : peerSession) : Prop :=
  session_wf a ∧ session_wf b ∧ remoteEpoch a = localEpoch b ∧ remoteEpoch b = localEpoch a ∧
  remoteEpoch a ≠ zero_epoch ∧ remoteEpoch b ≠ zero_epoch ∧
  0 <= recvHigh b <= sendSeq a ∧ sendSeq a + 1 < 2 ^ 64.


Definition at_time m (now : Z) : Mesh C :=
  mkMesh (mesh_local m) (peers m) (pending m) (conn m) now (random m).

Lemma fail_after_le t u : (time_sub t u <=? linkFailAfter) = (t - u <=? linkFailAfter).
Proof.
  unfold time_sub, linkFailAfter, second, millisecond.
  destruct (Z.leb_spec (t - u) (1000 * 1000000)); [apply Z.leb_le|apply Z.leb_gt]; lia.
Qed.

(** The health of a peer that answered at [t0] and whose address is no newer. *)
Lemma CanSend_after_reply m id p a t0 now :
  peers m !! id = Some p → address p = Some a → lastReply (metrics p) = t0 →
  addressSince (peer_address p) <= t0 → zero_time < t0 →
  Mesh_CanSend (at_time m now) id =
  bool_decide (remoteEpoch (session p) ≠ zero_epoch) && (now - t0 <=? linkFailAfter).
Proof.
  intros Hp Ha Hr Hs Hz. unfold Mesh_CanSend. cbn [peers at_time]. rewrite Hp, Ha.
  unfold sessionReady. f_equal. unfold status, peer_health.
  cbn [LS_Health clock at_time mesh_local]. rewrite Ha, Hr, !fail_after_le.
  unfold time_is_zero. rewrite (proj2 (Z.eqb_neq t0 zero_time)) by lia. cbn [negb andb].
  destruct (Z.leb_spec (now - t0) linkFailAfter); [done|].
  destruct (Z.leb_spec (now - addressSince (peer_address p)) linkFailAfter); [lia|].
  by rewrite andb_false_r.
Qed.

(** Liveness of a link: a reply to an outstanding challenge, from the
    challenged address and sealed with the peer's key, installs the peer's epoch
    and its address, and from then on the mesh offers the peer for sending for
    exactly one second without a further reply, so that a dead neighbour is
    dropped within [linkFailAfter]. *)
Lemma probe_reply_liveness m id p packet from token epoch probe :
  peers m !! id = Some p → peer_inv id p → distinct_keys m id p →
  OpenTyped (rx p) packet = Ok (packetProbeReply, token ++ epoch) →
  length token = 32%nat → length epoch = 16%nat → epoch ≠ zero_epoch →
  pending m !! hex_encode token = Some probe → pending_peer probe = id →
  pending_endpoint probe = udp_string from →
  addressSince (peer_address p) <= clock m → zero_time < clock m →
  ∃ m' p', receive m packet from = (m', None) ∧ peers m' !! id = Some p' ∧
    remoteEpoch (session p') = epoch ∧ address p' = Some from ∧
    ∀ now, Mesh_CanSend (at_time m' now) id = (now - clock m <=? linkFailAfter).
Proof.
  intros Hp Ip Hd Ho Ht He Hnz Hq Hqp Hqe Hs Hz. unfold receive.
  rewrite (match_peer_unique m id p packet _ _ Hp Hd Ho).
  change (IsProbe packetProbeReply) with false. change (IsProbeReply packetProbeReply) with true.
  cbn iota. eexists.
  set (p' := recordProbe (setAddress (with_session p (confirmRemoteEpoch (session p) epoch))
    (Some from) (clock m)) true (time_sub (clock m) (pending_sent probe)) (clock m)).
  assert (peers (handle_probe_reply m id p (token ++ epoch) from (clock m)) !! id = Some p') as Hl.
  { unfold handle_probe_reply. rewrite zlen_app. assert (zlen token + zlen epoch = 48) as ->
      by (unfold zlen; lia). cbn [negb Z.eqb Pos.eqb].
    rewrite <- Ht, take_app_length, drop_app_length, Hq, Hqp, Hqe.
    rewrite (pi_key _ _ Ip), !String.eqb_refl. cbn [andb peers update_peer set_peers set_pending].
    by rewrite lookup_alter_eq, Hp. }
  assert (session p' = confirmRemoteEpoch (session p) epoch) as Es.
  { destruct (recordProbe_fields (setAddress (with_session p (confirmRemoteEpoch (session p) epoch))
      (Some from) (clock m)) true (time_sub (clock m) (pending_sent probe)) (clock m)) as (_ & E & _).
    unfold p'. rewrite E. by destruct (setAddress_fields (with_session p
      (confirmRemoteEpoch (session p) epoch)) (Some from) (clock m)) as (_ & -> & _). }
  assert (remoteEpoch (session p') = epoch) as Er.
  { rewrite Es. unfold confirmRemoteEpoch. assert (zlen epoch = 16) as -> by (unfold zlen; lia).
    cbn. by case_bool_decide. }
  assert (address p' = Some from ∧ addressSince (peer_address p') <= clock m) as [Haddr Hsince].
  { unfold p', recordProbe, setAddress, address. cbn. destruct (negb _); cbn; split; (done || lia). }
  exists p'. split_and!; try done. intros now.
  rewrite (CanSend_after_reply _ id p' from (clock m) now); try done.
  by rewrite Er, bool_decide_eq_true_2.
Qed.
End mesh_facts.
