(* ===== verification/RoutedNode.v ===== *)
(** * The routed Node process ([cmd/bpc-routed-node])

    The Node keeps the routes, the policy rule and the firewall rules of its configuration
    in the Linux kernel with the commands [ip] and [iptables].  A command can fail, and the
    process can die, between any two of them: a reconciliation is a program of commands,
    and what it does to the kernel is followed command by command. *)

From Stdlib Require Import Strings.Byte Strings.Ascii.
From stdpp Require Import pretty.
From S2P Require Import Prelude GoLib GoStrings Netip Crypto GoEncoding Float64 WgshimCodec.
From S2P Require Import RoutedConfig RoutedFrame RoutedRouter RoutedSession RoutedMesh.

(** ** Programs of commands *)

Inductive prog (A : Type) :=
| Ret (a : A)
| Cmd (argv : list string) (next : bool → prog A).
Arguments Ret {A}.
Arguments Cmd {A}.

Fixpoint prog_bind {A B} (p : prog A) (f : A → prog B) : prog B :=
  match p with
  | Ret a => f a
  | Cmd argv next => Cmd argv (λ ok, prog_bind (next ok) f)
  end.

(** A firewall rule by the arguments of [iptables]: its table, chain and specification. *)
Record fw_rule := mkFw { fw_table : option string; fw_chain : string; fw_spec : list string }.
#[export] Instance fw_rule_eq_dec : EqDecision fw_rule.
Proof. solve_decision. Defined.

Definition fw_argv (action : string) (position : list string) (r : fw_rule) : list string :=
  "iptables" :: match fw_table r with Some t => ["-t"; t] | None => [] end ++ action :: fw_chain r :: position ++ fw_spec r.

(** What the Node relies on of [ip] and [iptables].  Routes and rules are told apart by the
    arguments that describe them.  [ip] adds only what is not there; a command that fails
    changes nothing. *)
Class NetTools (K : Type) := {
  runs : K → list string → K → bool → Prop;
  objects : K → gset (list string);
  firewall : K → fw_rule → nat;
  ip_add : ∀ k kind spec k' ok, kind ∈ ["route"; "rule"] → runs k ("ip" :: kind :: "add" :: spec) k' ok →
    (∀ r, firewall k' r = firewall k r) ∧
    if ok then (kind :: spec) ∉ objects k ∧ objects k' = {[ kind :: spec ]} ∪ objects k else objects k' = objects k;
  ip_del : ∀ k kind spec k' ok, kind ∈ ["route"; "rule"] → runs k ("ip" :: kind :: "del" :: spec) k' ok →
    (∀ r, firewall k' r = firewall k r) ∧
    objects k' = if ok then objects k ∖ {[ kind :: spec ]} else objects k;
  ip_up : ∀ k iface k' ok, runs k ["ip"; "link"; "set"; "dev"; iface; "up"] k' ok →
    objects k' = objects k ∧ ∀ r, firewall k' r = firewall k r;
  fw_check : ∀ k r k' ok, runs k (fw_argv "-C" [] r) k' ok →
    objects k' = objects k ∧ (∀ s, firewall k' s = firewall k s) ∧ (ok = true → (0 < firewall k r)%nat);
  fw_insert : ∀ k r k' ok, runs k (fw_argv "-I" ["1"] r) k' ok →
    objects k' = objects k ∧ ∀ s, firewall k' s = (if ok && bool_decide (s = r) then S (firewall k s) else firewall k s);
  fw_append : ∀ k r k' ok, runs k (fw_argv "-A" [] r) k' ok →
    objects k' = objects k ∧ ∀ s, firewall k' s = (if ok && bool_decide (s = r) then S (firewall k s) else firewall k s);
  fw_delete : ∀ k r k' ok, runs k (fw_argv "-D" [] r) k' ok →
    objects k' = objects k ∧
    ∀ s, firewall k' s = (if ok && bool_decide (s = r) then pred (firewall k s) else firewall k s);
}.

(** ** The policy of a public Node ([policy.go]) *)

Definition meshRouteTable : string := "12530".
Definition meshRouteMark : string := "0x425043".
Definition meshRulePriority : string := "120".

Definition route_spec (cidr device table : string) : list string :=
  [cidr; "dev"; device; "proto"; "99"] ++ (if String.eqb table "" then [] else ["table"; table]).

Definition kernelRouteArgs (action cidr device table : string) : list string :=
  "ip" :: "route" :: action :: route_spec cidr device table.

Definition default_spec : list string := ["unreachable"; "default"; "table"; meshRouteTable; "proto"; "99"].
Definition rule_spec : list string :=
  ["priority"; meshRulePriority; "fwmark"; meshRouteMark; "lookup"; meshRouteTable].

Record kernelState := mkKernel {
  ks_localNodeID : string;
  ks_interfaceID : string;
  ks_overlaySubnet : string;
  ks_routes : gset string;
  ks_routeTables : gmap string string;
  ks_policyDefault : bool;
  ks_policyRule : bool;
  ks_natNoSNAT : gset string;
  ks_siteNAT : gset string;
  ks_forward : gset string;
}.
Implicit Types k : kernelState.

Definition with_default k b : kernelState :=
  mkKernel (ks_localNodeID k) (ks_interfaceID k) (ks_overlaySubnet k) (ks_routes k) (ks_routeTables k) b
    (ks_policyRule k) (ks_natNoSNAT k) (ks_siteNAT k) (ks_forward k).
Definition with_rule k b : kernelState :=
  mkKernel (ks_localNodeID k) (ks_interfaceID k) (ks_overlaySubnet k) (ks_routes k) (ks_routeTables k)
    (ks_policyDefault k) b (ks_natNoSNAT k) (ks_siteNAT k) (ks_forward k).
Definition with_routes k (rs : gset string) (ts : gmap string string) : kernelState :=
  mkKernel (ks_localNodeID k) (ks_interfaceID k) (ks_overlaySubnet k) rs ts
    (ks_policyDefault k) (ks_policyRule k) (ks_natNoSNAT k) (ks_siteNAT k) (ks_forward k).
Definition with_noSNAT k s : kernelState :=
  mkKernel (ks_localNodeID k) (ks_interfaceID k) (ks_overlaySubnet k) (ks_routes k) (ks_routeTables k)
    (ks_policyDefault k) (ks_policyRule k) s (ks_siteNAT k) (ks_forward k).
Definition with_site k (nat fwd : gset string) (overlay : string) : kernelState :=
  mkKernel (ks_localNodeID k) (ks_interfaceID k) overlay (ks_routes k) (ks_routeTables k)
    (ks_policyDefault k) (ks_policyRule k) (ks_natNoSNAT k) nat fwd.

(** A method of [kernelState]: the state it leaves, and its error. *)
Definition method : Type := prog (kernelState * result unit).

(** [if err := p(); err != nil { return err }; f()]. *)
Definition andthen (p : method) (f : kernelState → method) : method :=
  prog_bind p (λ '(k, r), match r with Ok _ => f k | Err e => Ret (k, Err e) | Panic => Ret (k, Panic) end).
Notation "p >>> f" := (andthen p f) (at level 62, right associativity).

Definition done k : method := Ret (k, Ok tt).
Definition failed k : method := Ret (k, Err "%s failed: %w: %s").

Definition enablePublicPolicy k : method :=
  (if negb (ks_policyDefault k) then
     Cmd ("ip" :: "route" :: "add" :: default_spec) (λ ok, if ok then done (with_default k true) else failed k)
   else done k) >>> λ k,
  if negb (ks_policyRule k) then
    Cmd ("ip" :: "rule" :: "add" :: rule_spec) (λ ok, if ok then done (with_rule k true) else failed k)
  else done k.

Definition disablePublicPolicy k : method :=
  (if ks_policyRule k then
     Cmd ("ip" :: "rule" :: "del" :: rule_spec) (λ ok, if ok then done (with_rule k false) else failed k)
   else done k) >>> λ k,
  if ks_policyDefault k then
    Cmd ("ip" :: "route" :: "del" :: default_spec) (λ ok, if ok then done (with_default k false) else failed k)
  else done k.

(** *** Numbers as [ip] prints them *)

Definition lower_char (c : ascii) : ascii :=
  let n := N_of_ascii c in if (65 <=? n)%N && (n <=? 90)%N then ascii_of_N (n + 32)%N else c.

Definition digit_value (c : ascii) : option Z :=
  let n := Z.of_N (N_of_ascii c) in
  let l := Z.of_N (N_of_ascii (lower_char c)) in
  if (48 <=? n) && (n <=? 57) then Some (n - 48)
  else if (97 <=? l) && (l <=? 122) then Some (l - 97 + 10) else None.

(** The digits of a number in a base; underscores are skipped. *)
Fixpoint uint_digits (base : Z) (s : string) (acc : Z) : option Z :=
  match s with
  | EmptyString => Some acc
  | String c rest =>
      if Ascii.eqb c "_" then uint_digits base rest acc
      else match digit_value c with
      | Some d => if base <=? d then None else uint_digits base rest (acc * base + d)
      | None => None
      end
  end.

(** [underscoreOK]: an underscore stands between digits, or after the prefix. *)
Inductive seen := SeenStart | SeenDigit | SeenUnderscore | SeenOther.
Fixpoint underscores_ok (hex : bool) (last : seen) (s : string) : bool :=
  match s with
  | EmptyString => match last with SeenUnderscore => false | _ => true end
  | String c rest =>
      let n := Z.of_N (N_of_ascii c) in
      let l := Z.of_N (N_of_ascii (lower_char c)) in
      if ((48 <=? n) && (n <=? 57)) || (hex && (97 <=? l) && (l <=? 102)) then underscores_ok hex SeenDigit rest
      else if Ascii.eqb c "_" then
        match last with SeenDigit => underscores_ok hex SeenUnderscore rest | _ => false end
      else match last with SeenUnderscore => false | _ => underscores_ok hex SeenOther rest end
  end.

(** [strconv.ParseUint(s, 0, 32)]: the base is that of the prefix. *)
Definition parse_uint32 (s : string) : option Z :=
  match s with
  | EmptyString => None
  | String c rest =>
      let '(base, digits, prefixed) :=
        if Ascii.eqb c "0" then
          match rest with
          | String b (String _ _ as tail) =>
              let b := lower_char b in
              if Ascii.eqb b "b" then (2, tail, true) else if Ascii.eqb b "o" then (8, tail, true)
              else if Ascii.eqb b "x" then (16, tail, true) else (8, rest, false)
          | _ => (8, rest, false)
          end
        else (10, s, false) in
      n ← uint_digits base digits 0;
      let spelled := underscores_ok (prefixed && (base =? 16)) (if prefixed : bool then SeenDigit else SeenStart)
                       (if prefixed then digits else s) in
      if negb spelled then None else if 2 ^ 32 <=? n then None else Some n
  end.

(** *** Rules that are there already *)

(** A value of a decoded JSON object and how [fmt.Sprint] prints it: strings, integers, and
    other values by their text. *)
Inductive jany := JString (s : string) | JInt (z : Z) | JOther (printed : string).
Definition Sprint (v : option jany) : string :=
  match v with
  | None => "<nil>"
  | Some (JString s) => s
  | Some (JInt z) => pretty z
  | Some (JOther s) => s
  end.

Definition mesh_mark : Z := default 0 (parse_uint32 meshRouteMark).

(** The mark of a rule and its mask: after a slash, in a field of its own, or all ones. *)
Definition rule_mark (value : jany) : option Z := parse_uint32 (default "" (head (split_slash (Sprint (Some value))))).
Definition rule_mask (rule : gmap string jany) (value : jany) : option Z :=
  match split_slash (Sprint (Some value)) with
  | [_; m] => parse_uint32 m
  | _ => match rule !! "fwmask" with Some mask => parse_uint32 (Sprint (Some mask)) | None => Some 0xffffffff end
  end.

Definition check_rule (rule : gmap string jany) : result unit :=
  check (String.eqb (Sprint (rule !! "priority")) meshRulePriority || String.eqb (Sprint (rule !! "table")) meshRouteTable)
    "mesh policy priority/table already occupied; refusing adoption" ;;
  match rule !! "fwmark" with
  | None => Ok tt
  | Some value =>
      match rule_mark value with
      | None => Err "cannot inspect existing fwmark: %w"
      | Some other =>
          match rule_mask rule value with
          | None => Err "cannot inspect existing fwmask: %w"
          | Some mask =>
              check (Z.land mesh_mark mask =? Z.land other mask) "mesh mark overlaps an existing policy rule"
          end
      end
  end.

Section tools.
Context (json_objects : bytes → option (list (gmap string jany))).

Definition publicPolicyConflicts (rulesJSON routesJSON : bytes) : result unit :=
  match json_objects rulesJSON with
  | None => Err "inspect policy rules: %w"
  | Some rules =>
      match json_objects routesJSON with
      | None => Err "inspect policy table: %w"
      | Some routes =>
          check (negb (zlen routes =? 0)) "mesh table %s is already occupied; refusing adoption" ;;
          for_each check_rule rules
      end
  end.

(** The outputs of the two commands; a failed listing of the table with what it printed. *)
Record inspection := mkInspection { in_rules : option bytes; in_routes : bytes + option string }.

Fixpoint str_contains (s sub : string) : bool :=
  has_prefix s sub || match s with EmptyString => false | String _ rest => str_contains rest sub end.

Definition requireFreshPublicPolicy (i : inspection) : result unit :=
  match in_rules i with
  | None => Err "inspect rules before mesh startup: %w"
  | Some rules =>
      match in_routes i with
      | inl routes => publicPolicyConflicts rules routes
      | inr (Some stderr) =>
          if str_contains stderr "FIB table does not exist" then publicPolicyConflicts rules (str_bytes "[]")
          else Err "inspect mesh table: %w"
      | inr None => Err "inspect mesh table: %w"
      end
  end.

(** ** Reconciliation ([main.go]) *)

Definition desired_routes (c : RoutingConfig) : gmap string string :=
  let routes := if LocalPublic c then list_to_map ((λ r, (Route_CIDR r, meshRouteTable)) <$> Routes c) else ∅ in
  if LocalSiteRouter c && negb (String.eqb (OverlaySubnet c) "") then <[OverlaySubnet c := ""]> routes else routes.

Definition desired_noSNAT (c : RoutingConfig) : gset string :=
  if LocalPublic c && negb (String.eqb (OverlaySubnet c) "") then list_to_set (Route_CIDR <$> Routes c) else ∅.

Definition desired_site (local : string) (c : RoutingConfig) : gset string :=
  if LocalSiteRouter c && negb (String.eqb (OverlaySubnet c) "")
  then list_to_set (Route_CIDR <$> List.filter (λ r, String.eqb (Route_OwnerNodeID r) local) (Routes c)) else ∅.

Definition comment (kind iface cidr : string) : string := kind +:+ iface +:+ ":" +:+ cidr.

Definition nonat_rule (iface overlay cidr : string) : fw_rule :=
  mkFw (Some "nat") "POSTROUTING"
    ["-s"; overlay; "-d"; cidr; "-o"; iface; "-m"; "comment"; "--comment"; comment "bpc-routed-nonat:" iface cidr;
     "-j"; "ACCEPT"].
Definition site_nat_rule (iface overlay cidr : string) : fw_rule :=
  mkFw (Some "nat") "POSTROUTING"
    ["-s"; overlay; "-d"; cidr; "-m"; "comment"; "--comment"; comment "bpc-routed-site-nat:" iface cidr; "-j"; "MASQUERADE"].
Definition forward_in_rule (iface cidr : string) : fw_rule :=
  mkFw None "FORWARD"
    ["-i"; iface; "-d"; cidr; "-m"; "comment"; "--comment"; comment "bpc-routed-forward-in:" iface cidr; "-j"; "ACCEPT"].
Definition forward_out_rule (iface overlay cidr : string) : fw_rule :=
  mkFw None "FORWARD"
    ["-o"; iface; "-s"; cidr; "-d"; overlay; "-m"; "conntrack"; "--ctstate"; "ESTABLISHED,RELATED";
     "-m"; "comment"; "--comment"; comment "bpc-routed-forward-out:" iface cidr; "-j"; "ACCEPT"].

Fixpoint add_routes (desired : gmap string string) (cidrs : list string) k : method :=
  match cidrs with
  | [] => done k
  | cidr :: rest =>
      if bool_decide (cidr ∈ ks_routes k) then add_routes desired rest k
      else
        let table := default "" (desired !! cidr) in
        Cmd (kernelRouteArgs "add" cidr (ks_interfaceID k) table) (λ ok,
          if ok then add_routes desired rest (with_routes k ({[ cidr ]} ∪ ks_routes k) (<[cidr := table]> (ks_routeTables k)))
          else failed k)
  end.

Fixpoint remove_routes (desired : gmap string string) (cidrs : list string) k : method :=
  match cidrs with
  | [] => done k
  | cidr :: rest =>
      if bool_decide (cidr ∈ dom desired) then remove_routes desired rest k
      else
        Cmd (kernelRouteArgs "del" cidr (ks_interfaceID k) (default "" (ks_routeTables k !! cidr))) (λ ok,
          if ok then remove_routes desired rest (with_routes k (ks_routes k ∖ {[ cidr ]}) (delete cidr (ks_routeTables k)))
          else failed k)
  end.

(** A rule is looked for first, and added when it is not found. *)
Definition ensure (add : fw_rule → list string) (r : fw_rule) k (next : method) : method :=
  Cmd (fw_argv "-C" [] r) (λ found,
    if found then next else Cmd (add r) (λ ok, if ok then next else failed k)).
Definition insert_first : fw_rule → list string := fw_argv "-I" ["1"].
Definition append_last : fw_rule → list string := fw_argv "-A" [].

(** [_ = command(...)]. *)
Definition forget (r : fw_rule) (next : method) : method := Cmd (fw_argv "-D" [] r) (λ _, next).

Fixpoint add_noSNAT (overlay : string) (cidrs : list string) k : method :=
  match cidrs with
  | [] => done k
  | cidr :: rest =>
      if bool_decide (cidr ∈ ks_natNoSNAT k) then add_noSNAT overlay rest k
      else ensure insert_first (nonat_rule (ks_interfaceID k) overlay cidr) k (add_noSNAT overlay rest k)
  end.

Fixpoint remove_noSNAT (desired : gset string) (previous : string) (cidrs : list string) k : method :=
  match cidrs with
  | [] => done k
  | cidr :: rest =>
      if bool_decide (cidr ∈ desired) then remove_noSNAT desired previous rest k
      else forget (nonat_rule (ks_interfaceID k) previous cidr) (remove_noSNAT desired previous rest k)
  end.

Fixpoint add_site (overlay : string) (cidrs : list string) k : method :=
  match cidrs with
  | [] => done k
  | cidr :: rest =>
      let iface := ks_interfaceID k in
      (if bool_decide (cidr ∈ ks_siteNAT k) then done k
       else ensure append_last (site_nat_rule iface overlay cidr) k (done k)) >>> λ k,
      (if bool_decide (cidr ∈ ks_forward k) then done k
       else ensure insert_first (forward_in_rule iface cidr) k
              (ensure insert_first (forward_out_rule iface overlay cidr) k (done k))) >>> λ k,
      add_site overlay rest k
  end.

Fixpoint remove_site (desired : gset string) (previous : string) (cidrs : list string) k : method :=
  match cidrs with
  | [] => done k
  | cidr :: rest =>
      if bool_decide (cidr ∈ desired) then remove_site desired previous rest k
      else forget (site_nat_rule (ks_interfaceID k) previous cidr) (remove_site desired previous rest k)
  end.

Fixpoint remove_forward (desired : gset string) (previous : string) (cidrs : list string) k : method :=
  match cidrs with
  | [] => done k
  | cidr :: rest =>
      if bool_decide (cidr ∈ desired) then remove_forward desired previous rest k
      else forget (forward_in_rule (ks_interfaceID k) cidr)
             (forget (forward_out_rule (ks_interfaceID k) previous cidr) (remove_forward desired previous rest k))
  end.

(** [order]: the order in which Go visits the keys of a map. *)
Definition reconcile k (order : gset string → list string) (i : inspection) (c : RoutingConfig) : method :=
  let previous := if String.eqb (ks_overlaySubnet k) "" then OverlaySubnet c else ks_overlaySubnet k in
  let routes := desired_routes c in
  (if LocalPublic c then
     if negb (ks_policyDefault k) then
       match requireFreshPublicPolicy i with Ok _ => enablePublicPolicy k | Err e => Ret (k, Err e) | Panic => Ret (k, Panic) end
     else enablePublicPolicy k
   else done k) >>> λ k,
  add_routes routes (order (dom routes)) k >>> λ k,
  remove_routes routes (order (ks_routes k)) k >>> λ k,
  (if negb (LocalPublic c) then disablePublicPolicy k else done k) >>> λ k,
  let nonat := desired_noSNAT c in
  (add_noSNAT (OverlaySubnet c) (order nonat) k >>> λ k,
   remove_noSNAT nonat previous (order (ks_natNoSNAT k)) k) >>> λ k,
  let k := with_noSNAT k nonat in
  let site := desired_site (ks_localNodeID k) c in
  add_site (OverlaySubnet c) (order site) k >>> λ k,
  remove_site site previous (order (ks_siteNAT k)) k >>> λ k,
  remove_forward site previous (order (ks_forward k)) k >>> λ k,
  done (with_site k site site (OverlaySubnet c)).

Definition no_config (overlay : string) : RoutingConfig := mkRoutingConfig 0 0 0 overlay false false ∅ [] [] [] [].

Definition cleanup k (order : gset string → list string) (i : inspection) : method :=
  reconcile k order i (no_config (ks_overlaySubnet k)).

Definition requireFreshInterface (name : string) (interfaces : list string) : result unit :=
  check (String.eqb name "") "routed interface name is required" ;;
  for_each (λ iface, check (String.eqb iface name) "refusing existing interface %s: BPC ownership is not proven") interfaces.
End tools.

(** ** The process *)

(** The TUN device: it writes what follows an offset of each buffer. *)
Class TunDevice (T : Type) := { tun_write : T → list bytes → Z → T * bool }.

Definition headroom : Z := 16.
Definition tun_buffer (packet : bytes) : bytes := replicate (Z.to_nat headroom) x00 ++ packet.

Definition tunWriter_WritePacket `{TD : TunDevice T} (w : T) (packet : bytes) : T * result unit :=
  let '(w, ok) := tun_write w [tun_buffer packet] headroom in (w, if ok then Ok tt else Err "write").
#[export] Instance tun_writer `{TD : TunDevice T} : PacketWriter T := {| WritePacket := tunWriter_WritePacket |}.

Section process.
Context `{GCM : AesGcm} `{HS : Hashes} `{GS : GoSort} {C : Type} `{UC : UDPConn C} {W : Type} `{PW : PacketWriter W}.
Context (resolve : string → option UDPAddr) (json_objects : bytes → option (list (gmap string jany))).
Context (ReadFile : string → result bytes) (Unmarshal : bytes → result Enrollment).

Record process := mkProcess { pr_router : Router (Mesh C) W; pr_kernel : kernelState }.

(** What [main] finds when it starts; [None]: the operation failed. *)
Record start_env := mkStartEnv {
  se_path : string; se_now : Z; se_inspection : inspection;
  se_name : string; se_interfaces : option (list string); se_created : option string;
  se_listen : Z → option C; se_random : bytes; se_writer : W; se_order : gset string → list string;
}.

(** From the kernel on: [logger.Fatal] does not run the deferred calls. *)
Definition start_kernel (e : start_env) (id iface : string) (c : RoutingConfig) (r : Router (Mesh C) W)
    : prog (option process) :=
  prog_bind (reconcile json_objects (mkKernel id iface "" ∅ ∅ false false ∅ ∅ ∅) (se_order e) (se_inspection e) c)
    (λ '(k, res), match res with
       | Ok _ => Ret (Some (mkProcess r k))
       | _ => prog_bind (cleanup json_objects k (se_order e) (se_inspection e)) (λ _, Ret None)
       end).

Definition start_mesh (e : start_env) (id iface : string) (c : RoutingConfig) : prog (option process) :=
  match NewMesh (se_listen e) id (ListenPort c) (se_now e) (se_random e) with
  | Ok m =>
      let '(m, res) := Reconcile resolve m (Links c) in
      match res, NewRouter id c (Some m) (Some (se_writer e)) with
      | Ok _, Ok r => start_kernel e id iface c r
      | _, _ => Ret None
      end
  | _ => Ret None
  end.

Definition main_start (e : start_env) : prog (option process) :=
  match LoadEnrollment ReadFile Unmarshal (se_path e) with
  | Ok enrollment =>
      let c := Enrollment_Routing enrollment in
      if negb (PolicyValid c (se_now e)) then Ret None
      else match (if LocalPublic c then requireFreshPublicPolicy json_objects (se_inspection e) else Ok tt),
                 se_interfaces e with
      | Ok _, Some interfaces =>
          match requireFreshInterface (se_name e) interfaces, se_created e with
          | Ok _, Some iface =>
              Cmd ["ip"; "link"; "set"; "dev"; iface; "up"] (λ ok,
                if ok then start_mesh e (Enrollment_NodeID enrollment) iface c else Ret None)
          | _, _ => Ret None
          end
      | _, _ => Ret None
      end
  | _ => Ret None
  end.

(** The clock and the random source move on before each event. *)
Definition at_clock (r : Router (Mesh C) W) (now : Z) (rnd : bytes) : Router (Mesh C) W :=
  set_mesh r (mkMesh (mesh_local (mesh r)) (peers (mesh r)) (pending (mesh r)) (conn (mesh r)) now rnd).

(** A tick of the reloading goroutine. *)
Definition reload (p : process) (path : string) (now : Z) (rnd : bytes) (order : gset string → list string) (i : inspection)
    : prog process :=
  match LoadEnrollment ReadFile Unmarshal path with
  | Ok next =>
      let c := Enrollment_Routing next in
      if negb (PolicyValid c now) then Ret p
      else
        let r := at_clock (pr_router p) now rnd in
        let '(m, res) := Reconcile resolve (mesh r) (Links c) in
        let r := set_mesh r m in
        match res with
        | Ok _ =>
            let '(r, res) := UpdateConfig r c in
            match res with
            | Ok _ => prog_bind (reconcile json_objects (pr_kernel p) order i c) (λ '(k, _), Ret (mkProcess r k))
            | _ => Ret (mkProcess r (pr_kernel p))
            end
        | _ => Ret (mkProcess r (pr_kernel p))
        end
  | _ => Ret p
  end.

(** The packets of one read of [readTunLoop], each with its size and the time it is
    handled at. *)
Fixpoint tun_batch (r : Router (Mesh C) W) (reads : list (bytes * Z * (Z * bytes))) : Router (Mesh C) W :=
  match reads with
  | [] => r
  | (buf, size, (now, rnd)) :: rest =>
      if (size <=? 0) || (zlen buf <? size) then tun_batch r rest
      else tun_batch (HandleTunPacket (at_clock r now rnd) (take (Z.to_nat size) buf) now).1 rest
  end.

(** The data handler of the mesh. *)
Definition mesh_datagram (r : Router (Mesh C) W) (packet : bytes) (from : UDPAddr) (now : Z) (rnd : bytes)
    : Router (Mesh C) W :=
  let r := at_clock r now rnd in
  let '(m, out) := receive (mesh r) packet from in
  let r := set_mesh r m in
  match out with
  | Some (peerID, payload) => (HandleMeshData r peerID payload now).1
  | None => r
  end.
End process.
Arguments process {GCM} C W.
Arguments start_env : clear implicits.

(** ** Executions *)

Section facts.
Context `{NT : NetTools K}.
Implicit Types s : K.

(** A program runs to its end, or the process dies at a point it visits. *)
Inductive exec {A} : prog A → K → A → K → Prop :=
| exec_ret a s : exec (Ret a) s a s
| exec_cmd argv next s ok s' a s'' : runs s argv s' ok → exec (next ok) s' a s'' → exec (Cmd argv next) s a s''.
Inductive visits {A} : prog A → K → K → Prop :=
| visits_here p s : visits p s s
| visits_cmd argv next s ok s' s'' : runs s argv s' ok → visits (next ok) s' s'' → visits (Cmd argv next) s s''.

(** [I] holds at every point, [Q] of the outcome. *)
Fixpoint wp {A} (p : prog A) (I : K → Prop) (Q : A → K → Prop) s : Prop :=
  match p with
  | Ret a => I s ∧ Q a s
  | Cmd argv next => I s ∧ ∀ s' ok, runs s argv s' ok → wp (next ok) I Q s'
  end.

Lemma wp_exec {A} (p : prog A) I Q s a s' : wp p I Q s → exec p s a s' → Q a s'.
Proof. intros H E. induction E; cbn in H; [apply H|]. apply IHE, H. done. Qed.
Lemma wp_visits {A} (p : prog A) I Q s s' : wp p I Q s → visits p s s' → I s'.
Proof. intros H E. induction E as [p s|]; cbn in H; [by destruct p; apply H|]. apply IHE, H. done. Qed.

Lemma wp_bind {A B} (p : prog A) (f : A → prog B) I Q s :
  wp p I (λ a s', wp (f a) I Q s') s → wp (prog_bind p f) I Q s.
Proof. revert s. induction p as [a|argv next IH]; cbn; intros s [Hi H]; [done|]. split; [done|]. eauto. Qed.

Lemma wp_mono {A} (p : prog A) I (Q Q' : A → K → Prop) s : wp p I Q s → (∀ a s', Q a s' → Q' a s') → wp p I Q' s.
Proof. intros H HQ. revert s H. induction p as [a|argv next IH]; cbn; intros s [Hi H]; split; eauto. Qed.

Lemma wp_andthen (p : method) (f : kernelState → method) I Q s :
  wp p I (λ '(k, r) s', match r with Ok _ => wp (f k) I Q s' | Err e => Q (k, Err e) s' | Panic => Q (k, Panic) s' end) s →
  (∀ k r s', Q (k, r) s' → I s') → wp (p >>> f) I Q s.
Proof.
  intros H Hq. apply wp_bind. eapply wp_mono; [exact H|]. intros [k [[]| |]] s' HQ; cbn; eauto.
Qed.

(** *** What the Node owns *)

Definition route_object (iface cidr table : string) : list string := "route" :: route_spec cidr iface table.
Definition default_object : list string := "route" :: default_spec.
Definition rule_object : list string := "rule" :: rule_spec.

Definition owned k (o : list string) : Prop :=
  (∃ cidr table, ks_routeTables k !! cidr = Some table ∧ o = route_object (ks_interfaceID k) cidr table) ∨
  (ks_policyDefault k = true ∧ o = default_object) ∨ (ks_policyRule k = true ∧ o = rule_object).

Lemma route_object_inj iface c t c' t' : route_object iface c t = route_object iface c' t' → c = c' ∧ t = t'.
Proof.
  unfold route_object, route_spec. destruct (String.eqb_spec t ""), (String.eqb_spec t' ""); cbn; intros [=]; by subst.
Qed.
Lemma route_not_default iface c t : route_object iface c t ≠ default_object.
Proof. done. Qed.
Lemma route_not_rule iface c t : route_object iface c t ≠ rule_object.
Proof. done. Qed.
Lemma default_not_rule : default_object ≠ rule_object.
Proof. done. Qed.

(** [base]: what was in the kernel before the Node started; [Site]: overlays it is a site
    router of. *)
Record owns (base : gset (list string)) (Site : string → Prop) k s : Prop := {
  ow_exact : ∀ o, o ∈ objects s ↔ o ∈ base ∨ owned k o;
  ow_foreign : ∀ o, o ∈ base → ¬ owned k o;
  ow_tables : dom (ks_routeTables k) = ks_routes k;
  ow_rule : ks_policyRule k = true → ks_policyDefault k = true;
  ow_main : ∀ cidr, ks_routeTables k !! cidr = Some "" → Site cidr;
}.

(** What holds whenever the process dies. *)
Record undisturbed (base : gset (list string)) (Site : string → Prop) (iface : string) s : Prop := {
  un_base : base ⊆ objects s;
  un_rule : rule_object ∈ objects s → rule_object ∈ base ∨ default_object ∈ objects s;
  un_main : ∀ cidr, route_object iface cidr "" ∈ objects s → route_object iface cidr "" ∈ base ∨ Site cidr;
}.

Lemma owns_undisturbed base Site k s : owns base Site k s → undisturbed base Site (ks_interfaceID k) s.
Proof.
  intros [E F T R M]. constructor.
  - intros o Ho. apply E. by left.
  - intros [H|[(c & t & _ & H)|[[_ H]|[H _]]]]%E; 
      [by left|by symmetry in H; apply route_not_rule in H|by symmetry in H; apply default_not_rule in H|].
    right. apply E. right. right. left. auto.
  - intros c [H|[(c' & t & L & H)|[[_ H]|[_ H]]]]%E; [by left| | |].
    + apply route_object_inj in H as [<- <-]. right. by apply M.
    + by apply route_not_default in H.
    + by apply route_not_rule in H.
Qed.

(** Adding or removing an object, with the field that records it. *)
Lemma owns_added base Site k k' s s' o :
  owns base Site k s → o ∉ objects s → objects s' = {[ o ]} ∪ objects s → (∀ x, owned k' x ↔ x = o ∨ owned k x) →
  dom (ks_routeTables k') = ks_routes k' → (ks_policyRule k' = true → ks_policyDefault k' = true) →
  (∀ cidr, ks_routeTables k' !! cidr = Some "" → Site cidr) → owns base Site k' s'.
Proof.
  intros [E F T R M] Hn Ho Hw D Ru Ma. constructor; [| |done..].
  - intros x. rewrite Ho, elem_of_union, elem_of_singleton, E, Hw. tauto.
  - intros x Hx [->|H]%Hw; [|by eapply F]. apply Hn, E. by left.
Qed.

Lemma owns_removed base Site k k' s s' o :
  owns base Site k s → owned k o → objects s' = objects s ∖ {[ o ]} → (∀ x, owned k' x ↔ x ≠ o ∧ owned k x) →
  dom (ks_routeTables k') = ks_routes k' → (ks_policyRule k' = true → ks_policyDefault k' = true) →
  (∀ cidr, ks_routeTables k' !! cidr = Some "" → Site cidr) → owns base Site k' s'.
Proof.
  intros [E F T R M] Hn Ho Hw D Ru Ma. constructor; [| |done..].
  - intros x. rewrite Ho, elem_of_difference, not_elem_of_singleton, E, Hw. split; [tauto|].
    intros [H|[? ?]]; [|tauto]. split; [by left|]. intros ->. by eapply F.
  - intros x Hx [_ H]%Hw. by eapply F.
Qed.

Lemma owns_same base Site k s s' : owns base Site k s → objects s' = objects s → owns base Site k s'.
Proof. intros [E F T R M] Ho. constructor; try done. intros o. by rewrite Ho. Qed.

(** *** Routes and the policy *)

Section routes.
Context (base : gset (list string)) (Site : string → Prop).

(** Methods that work on routes leave the rest of the state and the firewall. *)
Record kept k k' : Prop := {
  kp_local : ks_localNodeID k' = ks_localNodeID k;
  kp_iface : ks_interfaceID k' = ks_interfaceID k;
  kp_overlay : ks_overlaySubnet k' = ks_overlaySubnet k;
  kp_noSNAT : ks_natNoSNAT k' = ks_natNoSNAT k;
  kp_siteNAT : ks_siteNAT k' = ks_siteNAT k;
  kp_forward : ks_forward k' = ks_forward k;
}.
Record routed k s k' s' : Prop := {
  rt_owns : owns base Site k' s';
  rt_kept : kept k k';
  rt_firewall : ∀ r, firewall s' r = firewall s r;
}.

Lemma kept_refl k : kept k k.
Proof. by constructor. Qed.
Lemma kept_trans k k' k'' : kept k k' → kept k' k'' → kept k k''.
Proof. intros [] []. constructor; congruence. Qed.
Lemma routed_refl k s : owns base Site k s → routed k s k s.
Proof. intros. by constructor; [|apply kept_refl|]. Qed.
Lemma routed_trans k s k' s' k'' s'' : routed k s k' s' → routed k' s' k'' s'' → routed k s k'' s''.
Proof. intros [_ A1 A2] [B0 B1 B2]. constructor; [done|by eapply kept_trans|]. intros r. by rewrite B2, A2. Qed.
Lemma routed_same k s k' s' s'' : routed k s k' s' → objects s'' = objects s' →
  (∀ r, firewall s'' r = firewall s' r) → routed k s k' s''.
Proof. intros [A B C] H1 H2. constructor; [by eapply owns_same|done|]. intros r. by rewrite H2, C. Qed.

Lemma undisturbed_at iface k s : owns base Site k s → ks_interfaceID k = iface → undisturbed base Site iface s.
Proof. intros H <-. by apply owns_undisturbed. Qed.

Lemma elem_route : "route" ∈ ["route"; "rule"].
Proof. left. Qed.
Lemma elem_rule : "rule" ∈ ["route"; "rule"].
Proof. right. left. Qed.

(** One command on routes or rules: what follows it, and its failure. *)
Lemma ip_add_wp iface k k' s kind spec next (Q : _ → K → Prop) :
  owns base Site k s → ks_interfaceID k = iface → kind ∈ ["route"; "rule"] →
  (∀ x, owned k' x ↔ x = kind :: spec ∨ owned k x) → kept k k' → dom (ks_routeTables k') = ks_routes k' →
  (ks_policyRule k' = true → ks_policyDefault k' = true) → (∀ cidr, ks_routeTables k' !! cidr = Some "" → Site cidr) →
  (∀ s', routed k s k' s' → wp next (undisturbed base Site iface) Q s') →
  (∀ s', routed k s k s' → Q (k, Err "%s failed: %w: %s") s') →
  wp (Cmd ("ip" :: kind :: "add" :: spec) (λ ok, if ok then next else failed k)) (undisturbed base Site iface) Q s.
Proof.
  intros Hs Hi Hk Hw Kp D Ru Ma Hn Hf. cbn [wp]. split; [by eapply undisturbed_at|].
  intros s' ok [Fw R]%ip_add; [|done]. destruct ok.
  - destruct R as [Hno Ho]. apply Hn. constructor; [|done|done]. by eapply owns_added.
  - assert (owns base Site k s') as Hs' by by eapply owns_same. split; [by eapply undisturbed_at|].
    apply Hf. by constructor; [|apply kept_refl|].
Qed.

Lemma ip_del_wp iface k k' s kind spec next (Q : _ → K → Prop) :
  owns base Site k s → ks_interfaceID k = iface → kind ∈ ["route"; "rule"] → owned k (kind :: spec) →
  (∀ x, owned k' x ↔ x ≠ kind :: spec ∧ owned k x) → kept k k' → dom (ks_routeTables k') = ks_routes k' →
  (ks_policyRule k' = true → ks_policyDefault k' = true) → (∀ cidr, ks_routeTables k' !! cidr = Some "" → Site cidr) →
  (∀ s', routed k s k' s' → wp next (undisturbed base Site iface) Q s') →
  (∀ s', routed k s k s' → Q (k, Err "%s failed: %w: %s") s') →
  wp (Cmd ("ip" :: kind :: "del" :: spec) (λ ok, if ok then next else failed k)) (undisturbed base Site iface) Q s.
Proof.
  intros Hs Hi Hk Ow Hw Kp D Ru Ma Hn Hf. cbn [wp]. split; [by eapply undisturbed_at|].
  intros s' ok [Fw R]%ip_del; [|done]. destruct ok.
  - apply Hn. constructor; [|done|done]. by eapply owns_removed.
  - assert (owns base Site k s') as Hs' by by eapply owns_same. split; [by eapply undisturbed_at|].
    apply Hf. by constructor; [|apply kept_refl|].
Qed.

Lemma done_wp iface k s (Q : _ → K → Prop) : owns base Site k s → ks_interfaceID k = iface → Q (k, Ok tt) s →
  wp (done k) (undisturbed base Site iface) Q s.
Proof. intros. split; [by eapply undisturbed_at|done]. Qed.

Lemma routed_at iface k s k' s' : routed k s k' s' → ks_interfaceID k = iface → undisturbed base Site iface s'.
Proof. intros [Ho Hk _] Hi. eapply undisturbed_at; [exact Ho|]. by rewrite (kp_iface _ _ Hk). Qed.

Definition same_routes k k' : Prop := ks_routes k' = ks_routes k ∧ ks_routeTables k' = ks_routeTables k.

Lemma enable_wp iface k s : owns base Site k s → ks_interfaceID k = iface →
  wp (enablePublicPolicy k) (undisturbed base Site iface) (λ '(k', r) s',
    routed k s k' s' ∧ same_routes k k' ∧ (r = Ok tt → ks_policyDefault k' = true ∧ ks_policyRule k' = true)) s.
Proof.
  intros Hs Hi. unfold enablePublicPolicy. apply wp_andthen; [|intros k' r s' [H _]; by eapply routed_at].
  apply (wp_mono _ _ (λ '(k', r) s', routed k s k' s' ∧ same_routes k k' ∧ (r = Ok tt → ks_policyDefault k' = true))).
  - destruct (ks_policyDefault k) eqn:D; cbn [negb].
    { apply done_wp; [done..|]. split_and!; [by apply routed_refl|done|done]. }
    eapply (ip_add_wp _ _ (with_default k true)); [done|done|exact elem_route| |by constructor|
      apply (ow_tables _ _ _ _ Hs)|done|apply (ow_main _ _ _ _ Hs)| |intros s' H; by split_and!].
    + intros x. unfold owned. cbn. rewrite D. change ("route" :: default_spec) with default_object. naive_solver.
    + intros s' H. apply done_wp; [by destruct H|done|]. by split_and!.
  - intros [k1 [[]| |]] s1 (H1 & P1 & D1); [|split_and!; naive_solver..].
    specialize (D1 eq_refl). pose proof H1 as [O1 K1 F1].
    assert (ks_interfaceID k1 = iface) as I1 by (by rewrite (kp_iface _ _ K1)).
    destruct (ks_policyRule k1) eqn:D; cbn [negb].
    { apply done_wp; [done..|]. by split_and!. }
    eapply (ip_add_wp _ _ (with_rule k1 true)); [done|done|exact elem_rule| |by constructor|
      apply (ow_tables _ _ _ _ O1)|done|apply (ow_main _ _ _ _ O1)| |].
    + intros x. unfold owned. cbn. rewrite D. change ("rule" :: rule_spec) with rule_object. naive_solver.
    + intros s' H. apply done_wp; [by destruct H|done|]. split_and!; [by eapply routed_trans|done|done].
    + intros s' H. split_and!; [by eapply routed_trans|done|done].
Qed.

Lemma disable_wp iface k s : owns base Site k s → ks_interfaceID k = iface →
  wp (disablePublicPolicy k) (undisturbed base Site iface) (λ '(k', r) s',
    routed k s k' s' ∧ same_routes k k' ∧ (r = Ok tt → ks_policyDefault k' = false ∧ ks_policyRule k' = false)) s.
Proof.
  intros Hs Hi. unfold disablePublicPolicy. apply wp_andthen; [|intros k' r s' [H _]; by eapply routed_at].
  apply (wp_mono _ _ (λ '(k', r) s', routed k s k' s' ∧ same_routes k k' ∧ (r = Ok tt → ks_policyRule k' = false))).
  - destruct (ks_policyRule k) eqn:D.
    2: { apply done_wp; [done..|]. split_and!; [by apply routed_refl|done|done]. }
    eapply (ip_del_wp _ _ (with_rule k false)); [done|done|exact elem_rule|by right; right| |by constructor|
      apply (ow_tables _ _ _ _ Hs)|done|apply (ow_main _ _ _ _ Hs)| |intros s' H; by split_and!].
    + intros x. unfold owned. cbn. rewrite D. change ("rule" :: rule_spec) with rule_object.
      pose proof (route_not_rule (ks_interfaceID k)). pose proof default_not_rule. naive_solver.
    + intros s' H. apply done_wp; [by destruct H|done|]. by split_and!.
  - intros [k1 [[]| |]] s1 (H1 & P1 & D1); [|split_and!; naive_solver..].
    specialize (D1 eq_refl). pose proof H1 as [O1 K1 F1].
    assert (ks_interfaceID k1 = iface) as I1 by (by rewrite (kp_iface _ _ K1)).
    destruct (ks_policyDefault k1) eqn:D.
    2: { apply done_wp; [done..|]. by split_and!. }
    eapply (ip_del_wp _ _ (with_default k1 false)); [done|done|exact elem_route|by right; left| |by constructor|
      apply (ow_tables _ _ _ _ O1)|cbn; congruence|apply (ow_main _ _ _ _ O1)| |].
    + intros x. unfold owned. cbn. rewrite D, D1. change ("route" :: default_spec) with default_object.
      pose proof (route_not_default (ks_interfaceID k1)). naive_solver.
    + intros s' H. apply done_wp; [by destruct H|done|]. split_and!; [by eapply routed_trans|done|done].
    + intros s' H. split_and!; [by eapply routed_trans|done|done].
Qed.

Definition same_policy_flags k k' : Prop :=
  ks_policyDefault k' = ks_policyDefault k ∧ ks_policyRule k' = ks_policyRule k.

Lemma add_routes_wp iface desired cidrs k s : owns base Site k s → ks_interfaceID k = iface →
  (∀ cidr, cidr ∈ cidrs → is_Some (desired !! cidr)) → (∀ cidr, desired !! cidr = Some "" → Site cidr) →
  wp (add_routes desired cidrs k) (undisturbed base Site iface) (λ '(k', r) s',
    routed k s k' s' ∧ same_policy_flags k k' ∧
    (∀ cidr table, ks_routeTables k' !! cidr = Some table → ks_routeTables k !! cidr = Some table ∨ desired !! cidr = Some table) ∧
    (r = Ok tt → ∀ cidr, cidr ∈ ks_routes k' ↔ cidr ∈ ks_routes k ∨ cidr ∈ cidrs)) s.
Proof.
  intros Hs Hi Hd Hm. revert k s Hs Hi. induction cidrs as [|cidr rest IH]; intros k s Hs Hi; cbn [add_routes].
  { apply done_wp; [done..|]. split_and!; [by apply routed_refl|done|auto|set_solver]. }
  assert (∀ c, c ∈ rest → is_Some (desired !! c)) as Hd' by (intros; apply Hd; by right).
  case_bool_decide as Hin.
  { eapply wp_mono; [by apply IH|]. intros [k' r] s' (H1 & H2 & H3 & H4). split_and!; try done.
    intros Hr c. rewrite H4 by done. set_solver. }
  destruct (Hd cidr) as [table Ht]; [left|]. rewrite Ht. cbn [default from_option id].
  set (k1 := with_routes k ({[cidr]} ∪ ks_routes k) (<[cidr:=table]> (ks_routeTables k))).
  assert (ks_routeTables k !! cidr = None) as Hno.
  { apply not_elem_of_dom. by rewrite (ow_tables _ _ _ _ Hs). }
  eapply (ip_add_wp _ _ k1); [done|done|exact elem_route| |by constructor| |apply (ow_rule _ _ _ _ Hs)| | |].
  - intros x. unfold owned. cbn. change ("route" :: route_spec ?c ?i ?t) with (route_object i c t).
    setoid_rewrite lookup_insert_Some. split.
    + intros [(c & t & [[<- <-]|[_ L]] & ->)|H]; [by left|right; left; eauto|auto].
    + intros [->|[(c & t & L & ->)|H]]; [left; eauto 10| |auto]. left. exists c, t. split; [right|done].
      split; [intros <-; congruence|done].
  - cbn. by rewrite dom_insert_L, (ow_tables _ _ _ _ Hs).
  - cbn. intros c [[<- ->]|[_ H]]%lookup_insert_Some; [by apply Hm|by apply (ow_main _ _ _ _ Hs)].
  - intros s' H. eapply wp_mono; [apply IH; [done|by destruct H|done]|].
    intros [k' r] s'' (H1 & H2 & H3 & H4). split_and!; [by eapply routed_trans|done| |].
    + intros c t [L|L]%H3; [|auto]. cbn in L. apply lookup_insert_Some in L as [[<- <-]|[_ L]]; auto.
    + intros Hr c. rewrite H4 by done. cbn. set_solver.
  - intros s' H. split_and!; [done|done|auto|done].
Qed.

Lemma remove_routes_wp iface desired cidrs k s : owns base Site k s → ks_interfaceID k = iface →
  NoDup cidrs → (∀ cidr, cidr ∈ cidrs → cidr ∈ ks_routes k) →
  wp (remove_routes desired cidrs k) (undisturbed base Site iface) (λ '(k', r) s',
    routed k s k' s' ∧ same_policy_flags k k' ∧ (ks_routeTables k' ⊆ ks_routeTables k) ∧
    (r = Ok tt → ∀ cidr, cidr ∈ ks_routes k' ↔ cidr ∈ ks_routes k ∧ (cidr ∈ cidrs → cidr ∈ dom desired))) s.
Proof.
  intros Hs Hi Hn Hd. revert k s Hs Hi Hd. induction cidrs as [|cidr rest IH]; intros k s Hs Hi Hd; cbn [remove_routes].
  { apply done_wp; [done..|]. split_and!; [by apply routed_refl|done|done|set_solver]. }
  apply NoDup_cons in Hn as [Hc Hn]. specialize (IH Hn). case_bool_decide as Hin.
  { eapply wp_mono; [apply IH; [done..|set_solver]|]. intros [k' r] s' (H1 & H2 & H3 & H4). split_and!; try done.
    intros Hr c. rewrite H4 by done. set_solver. }
  destruct (ks_routeTables k !! cidr) as [table|] eqn:Ht; cbn [default from_option id].
  2: { exfalso. apply not_elem_of_dom in Ht. rewrite (ow_tables _ _ _ _ Hs) in Ht. apply Ht, Hd. left. }
  set (k1 := with_routes k (ks_routes k ∖ {[cidr]}) (delete cidr (ks_routeTables k))).
  eapply (ip_del_wp _ _ k1); [done|done|exact elem_route| | |by constructor| |apply (ow_rule _ _ _ _ Hs)| | |].
  - left. by exists cidr, table.
  - intros x. unfold owned. cbn. change ("route" :: route_spec ?c ?i ?t) with (route_object i c t).
    setoid_rewrite lookup_delete_Some. split.
    + intros [(c & t & [Hne L] & ->)|[[? ->]|[? ->]]].
      * split; [|left; eauto]. intros E. by apply route_object_inj in E as [<- _].
      * split; [by apply not_eq_sym, route_not_default|auto].
      * split; [by apply not_eq_sym, route_not_rule|auto].
    + intros [Hne [(c & t & L & ->)|H]]; [|auto]. left. exists c, t. split_and!; [|done|done]. intros <-. rewrite Ht in L. injection L as <-. done.
  - cbn. by rewrite dom_delete_L, (ow_tables _ _ _ _ Hs).
  - cbn. intros c [_ H]%lookup_delete_Some. by apply (ow_main _ _ _ _ Hs).
  - intros s' H. eapply wp_mono; [apply IH; [by destruct H|done|]|].
    { cbn. intros c Hr. apply elem_of_difference. split; [apply Hd; by right|]. set_solver. }
    intros [k' r] s'' (H1 & H2 & H3 & H4). split_and!; [by eapply routed_trans|done| |].
    + etrans; [exact H3|]. apply delete_subseteq.
    + intros Hr c. rewrite H4 by done. cbn. set_solver.
  - intros s' H. split_and!; [done|done|done|done].
Qed.

(** *** The firewall *)

Lemma ensure_wp iface add r k s next (Q : _ → K → Prop) : add ∈ [insert_first; append_last] →
  owns base Site k s → ks_interfaceID k = iface →
  (∀ s', objects s' = objects s → (∀ x, (firewall s x <= firewall s' x)%nat) → (0 < firewall s' r)%nat →
     wp next (undisturbed base Site iface) Q s') →
  (∀ s', objects s' = objects s → (∀ x, (firewall s x <= firewall s' x)%nat) → Q (k, Err "%s failed: %w: %s") s') →
  wp (ensure add r k next) (undisturbed base Site iface) Q s.
Proof.
  intros Ha Hs Hi Hn Hf. unfold ensure. cbn [wp]. split; [by eapply undisturbed_at|].
  intros s1 found (O1 & F1 & C1)%fw_check. destruct found.
  { apply Hn; [done| |rewrite F1; auto]. intros x. by rewrite F1. }
  assert (owns base Site k s1) as Hs1 by by eapply owns_same. cbn [wp]. split; [by eapply undisturbed_at|].
  intros s2 ok H2. assert (objects s2 = objects s1 ∧ ∀ x,
    firewall s2 x = (if ok && bool_decide (x = r) then S (firewall s1 x) else firewall s1 x)) as [O2 F2].
  { apply elem_of_cons in Ha as [->|[->|[]%elem_of_nil]%elem_of_cons]; [by apply fw_insert|by apply fw_append]. }
  assert (∀ x, (firewall s x <= firewall s2 x)%nat) as Le by (intros x; rewrite F2, F1; case_match; lia).
  destruct ok.
  - apply Hn; [congruence|done|]. rewrite F2, bool_decide_eq_true_2 by done. cbn. lia.
  - assert (owns base Site k s2) as Hs2 by by eapply owns_same. split; [by eapply undisturbed_at|].
    apply Hf; [congruence|done].
Qed.

Lemma forget_wp iface k r s next (Q : _ → K → Prop) : owns base Site k s → ks_interfaceID k = iface →
  (∀ s', objects s' = objects s → (∀ x, x ≠ r → firewall s' x = firewall s x) →
     wp next (undisturbed base Site iface) Q s') →
  wp (forget r next) (undisturbed base Site iface) Q s.
Proof.
  intros Hs Hi Hn. unfold forget. cbn [wp]. split; [by eapply undisturbed_at|]. intros s' ok [O F]%fw_delete.
  apply Hn; [done|]. intros x Hx. rewrite F, bool_decide_eq_false_2 by done. by rewrite andb_false_r.
Qed.

(** Rules are only added: the state of the Node does not change, and on success the rules
    [R] are there. *)
Definition strengthened k s (R : fw_rule → Prop) : kernelState * result unit → K → Prop := λ '(k', r) s',
  k' = k ∧ objects s' = objects s ∧ (∀ x, (firewall s x <= firewall s' x)%nat) ∧
  (r = Ok tt → ∀ x, R x → (0 < firewall s' x)%nat).
(** Only rules of [R] are removed. *)
Definition weakened k s (R : fw_rule → Prop) : kernelState * result unit → K → Prop := λ '(k', r) s',
  k' = k ∧ objects s' = objects s ∧ r = Ok tt ∧ ∀ x, ¬ R x → firewall s' x = firewall s x.

Lemma strengthened_trans k s s1 (R1 R : fw_rule → Prop) out s' :
  objects s1 = objects s → (∀ x, (firewall s x <= firewall s1 x)%nat) → (∀ x, R x → R1 x ∨ (0 < firewall s1 x)%nat) →
  strengthened k s1 R1 out s' → strengthened k s R out s'.
Proof.
  destruct out as [k' r]. intros O F HR (E & O1 & F1 & Ok). split_and!; [done|congruence| |].
  - intros x. etrans; [apply F|apply F1].
  - intros Hr x [?|?]%HR; [by apply Ok|]. specialize (F1 x). lia.
Qed.

Lemma weakened_trans k s s1 (R1 R : fw_rule → Prop) out s' :
  objects s1 = objects s → (∀ x, ¬ R x → firewall s1 x = firewall s x) → (∀ x, R1 x → R x) →
  weakened k s1 R1 out s' → weakened k s R out s'.
Proof.
  destruct out as [k' r]. intros O F HR (E & O1 & -> & F1). split_and!; [done|congruence|done|].
  intros x Hx. rewrite F1, F; [done|done|]. intros ?%HR. done.
Qed.

Lemma add_noSNAT_wp iface overlay cidrs k s : owns base Site k s → ks_interfaceID k = iface →
  wp (add_noSNAT overlay cidrs k) (undisturbed base Site iface)
    (strengthened k s (λ x, ∃ c, c ∈ cidrs ∧ c ∉ ks_natNoSNAT k ∧ x = nonat_rule iface overlay c)) s.
Proof.
  intros Hs Hi. revert s Hs. induction cidrs as [|c rest IH]; intros s Hs; cbn [add_noSNAT].
  { apply done_wp; [done..|]. split_and!; [done|done|done|]. intros _ x (? & []%elem_of_nil & _). }
  case_bool_decide as Hin.
  { eapply wp_mono; [by apply IH|]. intros out s'. apply strengthened_trans; [done|done|].
    intros x (c' & [->|Hc]%elem_of_cons & Hn & ->); [done|]. left. eauto. }
  rewrite Hi. apply (ensure_wp _ _ _ k); [left|done|done| |].
  - intros s1 O1 F1 P1. assert (owns base Site k s1) as Hs1 by by eapply owns_same. eapply wp_mono; [by apply IH|].
    intros out s'. apply strengthened_trans; [done|done|].
    intros x (c' & [->|Hc]%elem_of_cons & Hn & ->); [by right|]. left. eauto.
  - intros s1 O1 F1. by split_and!.
Qed.

Lemma remove_noSNAT_wp iface desired previous cidrs k s : owns base Site k s → ks_interfaceID k = iface →
  wp (remove_noSNAT desired previous cidrs k) (undisturbed base Site iface)
    (weakened k s (λ x, ∃ c, c ∉ desired ∧ x = nonat_rule iface previous c)) s.
Proof.
  intros Hs Hi. revert s Hs. induction cidrs as [|c rest IH]; intros s Hs; cbn [remove_noSNAT].
  { by apply done_wp. }
  case_bool_decide as Hin; [by apply IH|].
  rewrite Hi. eapply forget_wp; [exact Hs|done|]. intros s1 O1 F1.
  assert (owns base Site k s1) as Hs1 by by eapply owns_same. eapply wp_mono; [by apply IH|].
  intros out s'. apply weakened_trans; [done| |auto]. intros x Hx. apply F1. intros ->. apply Hx. eauto.
Qed.

Lemma remove_site_wp iface desired previous cidrs k s : owns base Site k s → ks_interfaceID k = iface →
  wp (remove_site desired previous cidrs k) (undisturbed base Site iface)
    (weakened k s (λ x, ∃ c, c ∉ desired ∧ x = site_nat_rule iface previous c)) s.
Proof.
  intros Hs Hi. revert s Hs. induction cidrs as [|c rest IH]; intros s Hs; cbn [remove_site].
  { by apply done_wp. }
  case_bool_decide as Hin; [by apply IH|].
  rewrite Hi. eapply forget_wp; [exact Hs|done|]. intros s1 O1 F1.
  assert (owns base Site k s1) as Hs1 by by eapply owns_same. eapply wp_mono; [by apply IH|].
  intros out s'. apply weakened_trans; [done| |auto]. intros x Hx. apply F1. intros ->. apply Hx. eauto.
Qed.

Lemma remove_forward_wp iface desired previous cidrs k s : owns base Site k s → ks_interfaceID k = iface →
  wp (remove_forward desired previous cidrs k) (undisturbed base Site iface)
    (weakened k s (λ x, ∃ c, c ∉ desired ∧ (x = forward_in_rule iface c ∨ x = forward_out_rule iface previous c))) s.
Proof.
  intros Hs Hi. revert s Hs. induction cidrs as [|c rest IH]; intros s Hs; cbn [remove_forward].
  { by apply done_wp. }
  case_bool_decide as Hin; [by apply IH|].
  rewrite Hi. eapply forget_wp; [exact Hs|done|]. intros s1 O1 F1.
  assert (owns base Site k s1) as Hs1 by by eapply owns_same.
  eapply forget_wp; [exact Hs1|done|]. intros s2 O2 F2.
  assert (owns base Site k s2) as Hs2 by by eapply owns_same. eapply wp_mono; [by apply IH|].
  intros out s'. apply weakened_trans; [congruence| |auto]. intros x Hx.
  rewrite F2, F1; [done| |]; intros ->; apply Hx; eauto.
Qed.

Definition site_rules k (iface overlay : string) (cidrs : list string) (x : fw_rule) : Prop := ∃ c, c ∈ cidrs ∧
  ((c ∉ ks_siteNAT k ∧ x = site_nat_rule iface overlay c) ∨
   (c ∉ ks_forward k ∧ (x = forward_in_rule iface c ∨ x = forward_out_rule iface overlay c))).

Lemma add_site_wp iface overlay cidrs k s : owns base Site k s → ks_interfaceID k = iface →
  wp (add_site overlay cidrs k) (undisturbed base Site iface) (strengthened k s (site_rules k iface overlay cidrs)) s.
Proof.
  intros Hs Hi. revert s Hs. induction cidrs as [|c rest IH]; intros s Hs; cbn [add_site].
  { apply done_wp; [done..|]. split_and!; [done|done|done|]. intros _ x (? & []%elem_of_nil & _). }
  rewrite Hi. assert (∀ (R : fw_rule → Prop) s0, owns base Site k s0 → ∀ k' r s',
    strengthened k s0 R (k', r) s' → undisturbed base Site iface s') as Un.
  { intros R s0 Hs0 k' r s' (-> & O & _). eapply undisturbed_at; [by eapply owns_same|done]. }
  apply wp_andthen; [|intros k' r s'; by eapply Un].
  apply (wp_mono _ _ (strengthened k s (λ x, c ∉ ks_siteNAT k ∧ x = site_nat_rule iface overlay c))).
  { case_bool_decide as Hin; [by apply done_wp; [| |split_and!; [| | |intros _ x [? _]]]|].
    apply (ensure_wp _ _ _ k); [right; left|done|done| |intros s1 O1 F1; by split_and!].
    intros s1 O1 F1 P1. apply done_wp; [by eapply owns_same|done|]. split_and!; [done|done|done|]. by intros _ x [_ ->]. }
  intros [k1 r1] s1 (-> & O1 & F1 & P1). assert (owns base Site k s1) as Hs1 by by eapply owns_same.
  destruct r1 as [[]| |]; [specialize (P1 eq_refl)|by split_and!..].
  apply wp_andthen; [|intros k' r s'; by eapply Un].
  apply (wp_mono _ _ (strengthened k s1 (λ x, c ∉ ks_forward k ∧
    (x = forward_in_rule iface c ∨ x = forward_out_rule iface overlay c)))).
  { case_bool_decide as Hin; [by apply done_wp; [| |split_and!; [| | |intros _ x [? _]]]|].
    apply (ensure_wp _ _ _ k); [left|done|done| |intros s2 O2 F2; by split_and!]. intros s2 O2 F2 P2.
    assert (owns base Site k s2) as Hs2 by by eapply owns_same.
    apply (ensure_wp _ _ _ k); [left|done|done| |].
    - intros s3 O3 F3 P3. apply done_wp; [by eapply owns_same|done|].
      split_and!; [done|congruence|intros x; specialize (F2 x); specialize (F3 x); lia|].
      intros _ x [_ [->| ->]]; [specialize (F3 (forward_in_rule iface c)); lia|done].
    - intros s3 O3 F3. split_and!; [done|congruence| |done]. intros x. specialize (F2 x). specialize (F3 x). lia. }
  intros [k2 r2] s2 (-> & O2 & F2 & P2). assert (owns base Site k s2) as Hs2 by by eapply owns_same.
  assert (∀ x, (firewall s x <= firewall s2 x)%nat) as F12 by (intros x; specialize (F1 x); specialize (F2 x); lia).
  destruct r2 as [[]| |]; [specialize (P2 eq_refl)|by split_and!; [|congruence|..]..].
  eapply wp_mono; [by apply IH|]. intros out s'. apply strengthened_trans; [congruence|done|].
  intros x (c' & [->|Hc]%elem_of_cons & H); [|left; by exists c'].
  right. destruct H as [H|H]; [apply P1 in H; specialize (F2 x); lia|by apply P2].
Qed.

(** *** A reconciliation *)

(** The firewall rules the Node remembers are there, for the overlay [O]. *)
Record firewalled (O : string) k s : Prop := {
  fd_noSNAT : ∀ c, c ∈ ks_natNoSNAT k → (0 < firewall s (nonat_rule (ks_interfaceID k) O c))%nat;
  fd_site : ∀ c, c ∈ ks_siteNAT k → (0 < firewall s (site_nat_rule (ks_interfaceID k) O c))%nat;
  fd_in : ∀ c, c ∈ ks_forward k → (0 < firewall s (forward_in_rule (ks_interfaceID k) c))%nat;
  fd_out : ∀ c, c ∈ ks_forward k → (0 < firewall s (forward_out_rule (ks_interfaceID k) O c))%nat;
  fd_overlay : ks_overlaySubnet k = "" ∨ ks_overlaySubnet k = O;
}.

(** The state of the Node is that of a configuration. *)
Record converged (c : RoutingConfig) k : Prop := {
  cv_routes : ks_routes k = dom (desired_routes c);
  cv_default : ks_policyDefault k = LocalPublic c;
  cv_rule : ks_policyRule k = LocalPublic c;
  cv_noSNAT : ks_natNoSNAT k = desired_noSNAT c;
  cv_site : ks_siteNAT k = desired_site (ks_localNodeID k) c;
  cv_forward : ks_forward k = desired_site (ks_localNodeID k) c;
  cv_overlay : ks_overlaySubnet k = OverlaySubnet c;
}.

(** Go visits every key of a map once. *)
Definition visits_all (order : gset string → list string) : Prop := ∀ m, order m ≡ₚ elements m.
Lemma order_elem order m x : visits_all order → x ∈ order m ↔ x ∈ m.
Proof. intros H. by rewrite (H m), elem_of_elements. Qed.
Lemma order_NoDup order m : visits_all order → NoDup (order m).
Proof. intros H. rewrite (H m). apply NoDup_elements. Qed.

Definition site_ok (c : RoutingConfig) : Prop :=
  LocalSiteRouter c = true → OverlaySubnet c ≠ "" → Site (OverlaySubnet c).

Lemma desired_main c cidr : site_ok c → desired_routes c !! cidr = Some "" → Site cidr.
Proof.
  intros Hc. unfold desired_routes.
  assert (∀ x, (if LocalPublic c then list_to_map ((λ r, (Route_CIDR r, meshRouteTable)) <$> Routes c) else ∅ : gmap string string)
    !! x = Some "" → False) as No.
  { intros x. destruct (LocalPublic c); [|done]. intros L%elem_of_list_to_map_2.
    apply list_elem_of_fmap in L as (r & [=] & _). }
  destruct (LocalSiteRouter c) eqn:Sr; cbn [andb]; [|by intros ?%No].
  destruct (String.eqb_spec (OverlaySubnet c) ""); cbn [negb]; [by intros ?%No|].
  intros [[<- _]|[_ L]]%lookup_insert_Some; [by apply Hc|]. by apply No in L.
Qed.

Definition reconciled (P : Prop) (O : string) (c : RoutingConfig) k : kernelState * result unit → K → Prop :=
  λ '(k', r) s', owns base Site k' s' ∧ ks_interfaceID k' = ks_interfaceID k ∧ ks_localNodeID k' = ks_localNodeID k ∧
  (P → firewalled O k' s') ∧ (r = Ok tt → converged c k').

Lemma firewalled_same O k s k' s' : firewalled O k s → kept k k' → (∀ x, (firewall s x <= firewall s' x)%nat) →
  firewalled O k' s'.
Proof.
  intros [A B C D E] [_ K1 K2 K3 K4 K5] Le. constructor; rewrite ?K1, ?K2, ?K3, ?K4, ?K5; try done;
    intros x Hx; (eapply Nat.lt_le_trans; [|apply Le]); auto.
Qed.

Lemma owns_fields k k' s : owns base Site k s → ks_interfaceID k' = ks_interfaceID k → ks_routes k' = ks_routes k →
  ks_routeTables k' = ks_routeTables k → same_policy_flags k k' → owns base Site k' s.
Proof.
  intros [A B C D E] K1 K2 K3 [K4 K5]. constructor; unfold owned in *; rewrite ?K1, ?K2, ?K3, ?K4, ?K5; done.
Qed.

(** The address translation of a public Node. *)
Lemma noSNAT_wp (P : Prop) O c order k s previous :
  owns base Site k s → visits_all order → (P → OverlaySubnet c = O ∧ previous = O ∧ firewalled O k s) →
  wp (add_noSNAT (OverlaySubnet c) (order (desired_noSNAT c)) k >>> λ k,
      remove_noSNAT (desired_noSNAT c) previous (order (ks_natNoSNAT k)) k)
    (undisturbed base Site (ks_interfaceID k)) (λ '(k', r) s', k' = k ∧ owns base Site k s' ∧
      (P → firewalled O (if r is Ok _ then with_noSNAT k (desired_noSNAT c) else k) s')) s.
Proof.
  intros Hs Ho HP. apply wp_andthen; [|intros ? ? ? (-> & H & _); by eapply undisturbed_at].
  eapply wp_mono; [by apply add_noSNAT_wp|]. intros [k1 r1] s1 (-> & O1 & F1 & P1).
  assert (owns base Site k s1) as Hs1 by by eapply owns_same.
  assert (P → firewalled O k s1) as Fd1.
  { intros p. destruct (HP p) as (_ & _ & Fd). by eapply firewalled_same; [|apply kept_refl|]. }
  destruct r1 as [[]| |]; [specialize (P1 eq_refl)|by split_and!..].
  eapply wp_mono; [by apply remove_noSNAT_wp|]. intros [k2 r2] s2 (-> & O2 & -> & F2).
  split_and!; [done|by eapply owns_same|]. intros p. destruct (HP p) as (Eo & Ep & Fd). specialize (Fd1 p). subst O previous.
  assert (∀ x, (∀ d, x ≠ nonat_rule (ks_interfaceID k) (OverlaySubnet c) d) → firewall s2 x = firewall s1 x) as Keep.
  { intros x Hx. apply F2. intros (d & _ & E). by apply (Hx d). }
  destruct Fd1 as [A B C D E]. constructor; cbn; [| | | |done].
  - intros d Hd. rewrite F2.
    + destruct (decide (d ∈ ks_natNoSNAT k)) as [Hin|Hin]; [by apply A|]. apply P1. exists d. by rewrite order_elem.
    + intros (e & He & Ee). unfold nonat_rule in Ee. injection Ee as <- _. done.
  - intros d Hd. rewrite Keep by done. by apply B.
  - intros d Hd. rewrite Keep by done. by apply C.
  - intros d Hd. rewrite Keep by done. by apply D.
Qed.

(** The address translation and the forwarding of a site router. *)
Lemma site_wp (P : Prop) O c order k s previous :
  owns base Site k s → visits_all order → (P → OverlaySubnet c = O ∧ previous = O ∧ firewalled O k s) →
  let site := desired_site (ks_localNodeID k) c in
  wp (add_site (OverlaySubnet c) (order site) k >>> λ k,
      remove_site site previous (order (ks_siteNAT k)) k >>> λ k,
      remove_forward site previous (order (ks_forward k)) k >>> λ k,
      done (with_site k site site (OverlaySubnet c)))
    (undisturbed base Site (ks_interfaceID k)) (λ '(k', r) s',
      k' = (if r is Ok _ then with_site k site site (OverlaySubnet c) else k) ∧ owns base Site k' s' ∧
      (P → firewalled O k' s')) s.
Proof.
  intros Hs Ho HP site. assert (∀ s', owns base Site k s' → owns base Site (with_site k site site (OverlaySubnet c)) s') as Hw.
  { intros s' H. by eapply owns_fields. }
  assert (∀ k' (r : result unit) s', k' = (if r is Ok _ then with_site k site site (OverlaySubnet c) else k) ∧ owns base Site k' s' ∧
      (P → firewalled O k' s') → undisturbed base Site (ks_interfaceID k) s') as Un.
  { intros k' r s' (E & H & _). eapply undisturbed_at; [exact H|]. rewrite E. by destruct r. }
  apply wp_andthen; [|done]. eapply wp_mono; [by apply add_site_wp|]. intros [k1 r1] s1 (-> & O1 & F1 & P1).
  assert (owns base Site k s1) as Hs1 by by eapply owns_same.
  assert (P → firewalled O k s1) as Fd1.
  { intros p. destruct (HP p) as (_ & _ & Fd). by eapply firewalled_same; [|apply kept_refl|]. }
  destruct r1 as [[]| |]; [specialize (P1 eq_refl)|by split_and!..].
  apply wp_andthen; [|done]. eapply wp_mono; [by apply remove_site_wp|]. intros [k2 r2] s2 (-> & O2 & -> & F2).
  assert (owns base Site k s2) as Hs2 by by eapply owns_same.
  apply wp_andthen; [|done]. eapply wp_mono; [by apply remove_forward_wp|]. intros [k3 r3] s3 (-> & O3 & -> & F3).
  assert (owns base Site k s3) as Hs3 by by eapply owns_same.
  apply done_wp; [by apply Hw|done|]. split_and!; [done|by apply Hw|]. intros p. destruct (HP p) as (Eo & Ep & _).
  specialize (Fd1 p). subst O previous. destruct Fd1 as [A B C D E].
  constructor; cbn; [| | | |by right].
  - intros d Hd. rewrite F3, F2; [by apply A|by intros (? & _ & ?)|by intros (? & _ & [?|?])].
  - intros d Hd. rewrite F3, F2; [|intros (e & He & Ee); unfold site_nat_rule in Ee; by injection Ee as <- _|by intros (? & _ & [?|?])].
    destruct (decide (d ∈ ks_siteNAT k)) as [Hin|Hin]; [by apply B|]. apply P1. exists d. rewrite order_elem by done. auto.
  - intros d Hd. rewrite F3, F2; [|by intros (? & _ & ?)|].
    2: { intros (e & He & [Ee|Ee]); [|done]. unfold forward_in_rule in Ee. by injection Ee as <- _. }
    destruct (decide (d ∈ ks_forward k)) as [Hin|Hin]; [by apply C|]. apply P1. exists d. rewrite order_elem by done. auto.
  - intros d Hd. rewrite F3, F2; [|by intros (? & _ & ?)|].
    2: { intros (e & He & [Ee|Ee]); [done|]. unfold forward_out_rule in Ee. by injection Ee as <- _. }
    destruct (decide (d ∈ ks_forward k)) as [Hin|Hin]; [by apply D|]. apply P1. exists d. rewrite order_elem by done. auto.
Qed.

Lemma routed_reconciled (P : Prop) O c k s k' s' (r : result unit) :
  routed k s k' s' → (P → firewalled O k s) → r ≠ Ok tt → reconciled P O c k (k', r) s'.
Proof.
  intros [A [] C] HP Hr. split_and!; [done|done|done| |done].
  intros p. eapply firewalled_same; [by apply HP|by constructor|]. intros x. by rewrite C.
Qed.

Section reconcile.
Context (json_objects : bytes → option (list (gmap string jany))).

Lemma reconcile_wp (P : Prop) O c order i k s :
  owns base Site k s → visits_all order → site_ok c → (P → OverlaySubnet c = O ∧ firewalled O k s) →
  wp (reconcile json_objects k order i c) (undisturbed base Site (ks_interfaceID k)) (reconciled P O c k) s.
Proof.
  intros Hs Ho Hc HP. unfold reconcile. set (previous := if String.eqb _ _ then _ else _).
  assert (P → OverlaySubnet c = O ∧ previous = O ∧ firewalled O k s) as HP'.
  { intros p. destruct (HP p) as [E Fd]. split_and!; [done| |done]. subst previous.
    destruct (String.eqb_spec (ks_overlaySubnet k) ""); [done|]. by destruct (fd_overlay _ _ _ Fd). }
  assert (P → firewalled O k s) as Fd by (intros p; by apply HP).
  assert (∀ k' r s', reconciled P O c k (k', r) s' → undisturbed base Site (ks_interfaceID k) s') as Un.
  { intros k' r s' (H & E & _). by eapply undisturbed_at. }
  apply wp_andthen; [|exact Un].
  apply (wp_mono _ _ (λ '(k', r) s', routed k s k' s' ∧ same_routes k k' ∧
    (r = Ok tt → LocalPublic c = true → ks_policyDefault k' = true ∧ ks_policyRule k' = true))).
  { destruct (LocalPublic c); [|apply done_wp; [done..|]; split_and!; [by apply routed_refl|done|done]].
    assert (wp (enablePublicPolicy k) (undisturbed base Site (ks_interfaceID k)) (λ '(k', r) s', routed k s k' s' ∧
      same_routes k k' ∧ (r = Ok tt → true = true → ks_policyDefault k' = true ∧ ks_policyRule k' = true)) s) as En.
    { eapply wp_mono; [by apply enable_wp|]. intros [k' r] s' (? & ? & ?). by split_and!; auto. }
    destruct (ks_policyDefault k); [done|]. cbn [negb].
    destruct (requireFreshPublicPolicy _ _) as [[]| |]; [done| |];
      (split; [by eapply undisturbed_at|split_and!; [by apply routed_refl|done|done]]). }
  intros [k1 [[]| |]] s1 (R1 & S1 & E1); [|by apply (routed_reconciled P O c k s)..].
  specialize (E1 eq_refl). pose proof R1 as [O1 K1 F1]. pose proof (kp_iface _ _ K1) as I1.
  apply wp_andthen; [|exact Un].
  eapply wp_mono; [apply add_routes_wp; [exact O1|exact I1| |intros cidr; by apply desired_main]|].
  { intros cidr. rewrite order_elem by done. apply elem_of_dom. }
  intros [k2 [[]| |]] s2 (R2' & G2 & _ & E2);
    (assert (routed k s k2 s2) as R2 by (by eapply routed_trans)); [|by apply (routed_reconciled P O c k s)..].
  specialize (E2 eq_refl). pose proof R2 as [O2 K2 F2]. pose proof (kp_iface _ _ K2) as I2.
  apply wp_andthen; [|exact Un].
  eapply wp_mono; [apply remove_routes_wp; [exact O2|exact I2|by apply order_NoDup|]|].
  { intros cidr. by rewrite order_elem. }
  intros [k3 [[]| |]] s3 (R3' & G3 & _ & E3);
    (assert (routed k s k3 s3) as R3 by (by eapply routed_trans)); [|by apply (routed_reconciled P O c k s)..].
  specialize (E3 eq_refl). pose proof R3 as [O3 K3 F3]. pose proof (kp_iface _ _ K3) as I3.
  assert (ks_routes k3 = dom (desired_routes c)) as D3.
  { apply set_eq. intros x. rewrite E3, order_elem, E2, order_elem by done. tauto. }
  apply wp_andthen; [|exact Un].
  apply (wp_mono _ _ (λ '(k', r) s', routed k s k' s' ∧ same_routes k3 k' ∧
    (r = Ok tt → ks_policyDefault k' = LocalPublic c ∧ ks_policyRule k' = LocalPublic c))).
  { destruct (LocalPublic c) eqn:Pub; cbn [negb].
    - apply done_wp; [done..|]. split_and!; [done|done|]. intros _. destruct (E1 eq_refl), G2, G3. split; congruence.
    - eapply wp_mono; [by apply disable_wp|]. intros [k' r] s' (? & ? & ?). split_and!; [by eapply routed_trans|done|done]. }
  intros [k4 [[]| |]] s4 (R4 & S4 & E4); [|by apply (routed_reconciled P O c k s)..].
  specialize (E4 eq_refl) as [D4 L4]. pose proof R4 as [O4 K4 F4]. rewrite <- (kp_iface _ _ K4) in Un |- *.
  assert (P → OverlaySubnet c = O ∧ previous = O ∧ firewalled O k4 s4) as HP4.
  { intros p. destruct (HP' p) as (? & ? & ?). split_and!; [done..|]. eapply firewalled_same; [done|done|].
    intros x. by rewrite F4. }
  cbv zeta. apply wp_andthen; [|exact Un].
  eapply wp_mono; [by apply noSNAT_wp|]. intros [k5 r5] s5 (-> & O5 & Fd5).
  pose proof (kp_iface _ _ K4). pose proof (kp_local _ _ K4).
  destruct r5 as [[]| |]; [|by split_and!..].
  set (k5 := with_noSNAT k4 (desired_noSNAT c)) in *.
  assert (owns base Site k5 s5) as O5' by by eapply owns_fields.
  eapply wp_mono; [apply (site_wp P O c order k5 s5 previous); [done|done|]|].
  { intros p. destruct (HP4 p) as (? & ? & _). auto. }
  intros [k6 r6] s6 (-> & O6 & Fd6). destruct r6 as [[]| |]; [|by split_and!..].
  split_and!; [done|done|done|done|]. intros _. destruct S4 as [S4 _]. constructor; cbn; congruence.
Qed.
End reconcile.
End routes.

(** *** Runs of the Node *)

Section runs.
Context (json_objects : bytes → option (list (gmap string jany))).

(** The state [main] starts with. *)
Definition new_kernel (local iface : string) : kernelState := mkKernel local iface "" ∅ ∅ false false ∅ ∅ ∅.

(** Reconciliations with allowed configurations, whatever they return. *)
Inductive kernel_run (allowed : RoutingConfig → Prop) k0 s0 : kernelState → K → Prop :=
| kr_start : kernel_run allowed k0 s0 k0 s0
| kr_reconcile k s order i c k' r s' : kernel_run allowed k0 s0 k s → allowed c → visits_all order →
    exec (reconcile json_objects k order i c) s (k', r) s' → kernel_run allowed k0 s0 k' s'.

Lemma new_kernel_owns Site local iface s : owns (objects s) Site (new_kernel local iface) s.
Proof.
  constructor; [| |done|done|done].
  - intros o. split; [by left|]. intros [?|[(? & ? & ? & _)|[[? _]|[? _]]]]; done.
  - intros o _ [(? & ? & ? & _)|[[? _]|[? _]]]; done.
Qed.

Lemma kernel_run_owns (P : Prop) O Site (allowed : RoutingConfig → Prop) local iface s0 k s :
  kernel_run allowed (new_kernel local iface) s0 k s →
  (∀ c, allowed c → site_ok Site c ∧ (P → OverlaySubnet c = O)) →
  owns (objects s0) Site k s ∧ ks_interfaceID k = iface ∧ ks_localNodeID k = local ∧ (P → firewalled O k s).
Proof.
  intros R Hc. induction R as [|k s order i c k' r s' R (Ho & Hi & Hl & Hf) Ha Hv E].
  - split_and!; [apply new_kernel_owns|done|done|]. intros _. constructor; cbn; [done..|by left].
  - destruct (Hc c Ha) as [Hs HP].
    pose proof (reconcile_wp (objects s0) Site json_objects P O c order i k s Ho Hv Hs (λ p, conj (HP p) (Hf p))) as W.
    eapply wp_exec in W; [|exact E]. destruct W as (? & ? & ? & ? & _). split_and!; [done|congruence|congruence|done].
Qed.


(** The firewall follows the configuration: as long as the overlay is the same, every
    successful reconciliation leaves the kernel with the address translation and the
    forwarding rules the configuration asks for, and what is remembered after a failed one
    is still there. *)
Lemma kernel_firewall_follows O local iface s0 k s order i c k' r s' :
  kernel_run (λ c, OverlaySubnet c = O) (new_kernel local iface) s0 k s → OverlaySubnet c = O → visits_all order →
  exec (reconcile json_objects k order i c) s (k', r) s' →
  firewalled O k' s' ∧
  (r = Ok tt →
     (∀ cidr, cidr ∈ desired_noSNAT c → (0 < firewall s' (nonat_rule iface O cidr))%nat) ∧
     (∀ cidr, cidr ∈ desired_site local c → (0 < firewall s' (site_nat_rule iface O cidr))%nat ∧
        (0 < firewall s' (forward_in_rule iface cidr))%nat ∧ (0 < firewall s' (forward_out_rule iface O cidr))%nat)).
Proof.
  intros R Eo Hv E. destruct (kernel_run_owns True O (λ _, True) _ _ _ _ _ _ R) as (Ho & <- & <- & Hf); [done|].
  pose proof (reconcile_wp (objects s0) (λ _, True) json_objects True O c order i k s Ho Hv ltac:(done)
    (λ p, conj Eo (Hf p))) as W.
  eapply wp_exec in W; [|exact E]. destruct W as (_ & Ei & El & Fd & Cv). specialize (Fd I). split; [done|].
  intros Hr. destruct (Cv Hr) as [_ _ _ C1 C2 C3 _]. destruct Fd as [A B C D _]. rewrite Ei, El, C1, C2, C3 in *.
  split; [done|]. intros cidr Hd. auto.
Qed.
End runs.
End facts.

(** *** Rules that are there already *)

(** The kernel compares the bits of the mask. *)
Definition mark_selects (mark mask packet : Z) : bool := Z.land (Z.lxor packet mark) mask =? 0.

(** A rule that leaves the priority, the table and the mark of the mesh alone. *)
Definition rule_free (rule : gmap string jany) : Prop :=
  Sprint (rule !! "priority") ≠ meshRulePriority ∧ Sprint (rule !! "table") ≠ meshRouteTable ∧
  ∀ value, rule !! "fwmark" = Some value → ∃ mark mask,
    rule_mark value = Some mark ∧ rule_mask rule value = Some mask ∧ mark_selects mark mask mesh_mark = false.

Lemma mark_selects_land mark mask packet : mark_selects mark mask packet = (Z.land packet mask =? Z.land mark mask).
Proof.
  unfold mark_selects. assert (Z.land (Z.lxor packet mark) mask = Z.lxor (Z.land packet mask) (Z.land mark mask)) as ->.
  { apply Z.bits_inj'. intros n Hn. rewrite Z.land_spec, !Z.lxor_spec, !Z.land_spec.
    by destruct (Z.testbit packet n), (Z.testbit mark n), (Z.testbit mask n). }
  destruct (Z.eqb_spec (Z.lxor (Z.land packet mask) (Z.land mark mask)) 0) as [E|E];
    destruct (Z.eqb_spec (Z.land packet mask) (Z.land mark mask)) as [F|F]; try done.
  - by apply Z.lxor_eq in E.
  - by rewrite F, Z.lxor_nilpotent in E.
Qed.

Lemma check_rule_free rule : check_rule rule = Ok tt ↔ rule_free rule.
Proof.
  unfold check_rule, rule_free. rewrite check_then, orb_false_iff, !String.eqb_neq.
  setoid_rewrite mark_selects_land. destruct (rule !! "fwmark") as [value|]; [|naive_solver].
  rewrite <- (assoc (∧)). apply and_iff_compat_l, and_iff_compat_l. split.
  - intros E v [= <-]. destruct (rule_mark value) as [mark|]; [|done]. destruct (rule_mask rule value) as [mask|]; [|done].
    apply check_Ok in E. eauto.
  - intros E. destruct (E value eq_refl) as (mark & mask & -> & -> & F). by apply check_Ok.
Qed.

(** C34. The Node adopts no policy of others: it goes on exactly when the table of the mesh is
    empty and no existing rule has its priority, looks up its table, or selects packets by a
    mark and mask that the mesh mark matches, as the kernel compares them. *)
Theorem publicPolicyConflicts_iff json_objects rulesJSON routesJSON :
  publicPolicyConflicts json_objects rulesJSON routesJSON = Ok tt ↔
  ∃ rules, json_objects rulesJSON = Some rules ∧ json_objects routesJSON = Some [] ∧ ∀ rule, rule ∈ rules → rule_free rule.
Proof.
  unfold publicPolicyConflicts. destruct (json_objects rulesJSON) as [rules|]; [|naive_solver].
  destruct (json_objects routesJSON) as [routes|]; [|naive_solver].
  rewrite check_then, for_each_Ok, Forall_forall. setoid_rewrite check_rule_free.
  rewrite negb_false_iff, Z.eqb_eq. destruct routes as [|x routes]; [naive_solver|].
  rewrite zlen_cons. pose proof (zlen_nonneg routes). split; [lia|naive_solver].
Qed.

(** *** The process *)

(** What handling a packet leaves: the configuration, and the mesh but for one message. *)
Section world.
Context {M W : Type} `{MT : MeshTransport M} `{PW : PacketWriter W} `{GS : GoSort}.
Implicit Types r : Router M W.

Definition same_world r r' : Prop := config r' = config r ∧ localNodeID r' = localNodeID r ∧
  (mesh r' = mesh r ∨ ∃ id payload, mesh r' = (Send (mesh r) id payload).1).

Lemma same_world_refl r : same_world r r.
Proof. split_and!; auto. Qed.

Lemma sendFrame_world r frame : same_world r (sendFrame r frame).1.
Proof.
  unfold sendFrame. destruct (_ || _); [apply same_world_refl|]. destruct (index _ _) as [next| |]; [|apply same_world_refl..].
  destruct (negb _); [apply same_world_refl|]. destruct (MarshalFrame frame) as [raw| |]; [|apply same_world_refl..].
  destruct (Send _ _ _) as [m res] eqn:E. split_and!; [done|done|]. right. exists next, raw. by rewrite E.
Qed.

Lemma same_world_from r r1 r' : config r1 = config r → localNodeID r1 = localNodeID r → mesh r1 = mesh r →
  same_world r1 r' → same_world r r'.
Proof. intros E1 E2 E3 (F1 & F2 & F3). unfold same_world. by rewrite <- E1, <- E2, <- E3. Qed.

Lemma HandleTunPacket_world r packet now : same_world r (HandleTunPacket r packet now).1.
Proof.
  unfold HandleTunPacket. destruct (ParseIPv4Endpoints packet) as [[s d]| |]; [|apply same_world_refl..].
  destruct (negb _); [apply same_world_refl|]. cbv zeta. destruct (_ && _).
  - assert (config (reverseFor r d now).1 = config r ∧ localNodeID (reverseFor r d now).1 = localNodeID r ∧
      mesh (reverseFor r d now).1 = mesh r) as (E1 & E2 & E3).
    { unfold reverseFor. by repeat case_match. }
    destruct (reverseFor r d now) as [r1 [f|]]; cbn [fst] in *;
      [|eapply same_world_from; [exact E1|exact E2|exact E3|apply same_world_refl]].
    destruct (_ || _); (eapply same_world_from; [exact E1|exact E2|exact E3|]); [apply same_world_refl|apply sendFrame_world].
  - destruct (RouteFor (config r) d) as [route|]; [|apply same_world_refl].
    destruct (choosePath_keeps_world r route (SourcePaths (config r) (localNodeID r) route) now) as (E3 & E2 & E1 & _).
    destruct (choosePath _ _ _ _) as [r1 [path| |]]; cbn [fst] in *;
      (eapply same_world_from; [exact E1|exact E2|exact E3|]); [apply sendFrame_world|apply same_world_refl..].
Qed.

Lemma HandleMeshData_world r peer raw now : same_world r (HandleMeshData r peer raw now).1.
Proof.
  unfold HandleMeshData. destruct (UnmarshalFrame raw) as [frame| |]; [|apply same_world_refl..].
  destruct (negb _); [apply same_world_refl|]. destruct (ValidateFrameForNode _ _ _ _) as [path| |]; [|apply same_world_refl..].
  destruct (_ =? _); [|apply sendFrame_world]. destruct (Frame_Return frame).
  - destruct (WritePacket _ _) as [w res]. split_and!; [done|done|by left].
  - destruct (ParseIPv4Endpoints _) as [[s d]| |]; [|apply same_world_refl..].
    cbv zeta. destruct (WritePacket _ _) as [w res]. split_and!; [done|done|by left].
Qed.

Lemma HandleTunPacket_expired r packet now : PolicyValid (config r) now = false →
  (HandleTunPacket r packet now).1 = r ∧ (HandleTunPacket r packet now).2 ≠ Ok tt.
Proof. intros E. unfold HandleTunPacket. rewrite E. by destruct (ParseIPv4Endpoints packet) as [[s d]| |]. Qed.

Lemma HandleMeshData_expired r peer raw now : PolicyValid (config r) now = false →
  (HandleMeshData r peer raw now).1 = r ∧ (HandleMeshData r peer raw now).2 ≠ Ok tt.
Proof. intros E. unfold HandleMeshData. rewrite E. by destruct (UnmarshalFrame raw). Qed.
End world.

Lemma tun_buffer_packet packet : drop (Z.to_nat headroom) (tun_buffer packet) = packet.
Proof. unfold tun_buffer. by rewrite drop_app_length' by by rewrite length_replicate. Qed.

Section process_facts.
Context `{GCM : AesGcm} `{HS : Hashes} `{GS : GoSort} {C : Type} `{UC : UDPConn C} {W : Type} `{PW : PacketWriter W}.
Context `{NT : NetTools K} (resolve : string → option UDPAddr) (json_objects : bytes → option (list (gmap string jany))).
Context (ReadFile : string → result bytes) (Unmarshal : bytes → result Enrollment).

(** A started process, its reloads and the packets it handles.  The file can be another
    at each reload. *)
Inductive process_run (e : start_env C W) (s0 : K) : process C W → K → Prop :=
| pr_start p s : exec (main_start resolve json_objects ReadFile Unmarshal e) s0 (Some p) s → process_run e s0 p s
| pr_reload p s ReadFile' path now rnd order i p' s' : process_run e s0 p s → visits_all order →
    exec (reload resolve json_objects ReadFile' Unmarshal p path now rnd order i) s p' s' → process_run e s0 p' s'
| pr_tun p s reads : process_run e s0 p s → process_run e s0 (mkProcess (tun_batch (pr_router p) reads) (pr_kernel p)) s
| pr_mesh p s packet from now rnd : process_run e s0 p s →
    process_run e s0 (mkProcess (mesh_datagram (pr_router p) packet from now rnd) (pr_kernel p)) s.

(** The router of a process. *)
Record router_inv (r : Router (Mesh C) W) : Prop := {
  ri_config : config_wf (config r) (localNodeID r);
  ri_lease : 0 < PolicyExpiresAt (config r);
  ri_mesh : mesh_inv (mesh r);
}.

Lemma router_inv_mesh r m : router_inv r → mesh_inv m → router_inv (set_mesh r m).
Proof. intros [A B _] I. by constructor. Qed.
Lemma at_clock_inv r now rnd : router_inv r → router_inv (at_clock r now rnd).
Proof. intros [A B I]. constructor; [done|done|]. by eapply inv_same; [| |exact I]. Qed.

Lemma same_world_inv r r' : same_world r r' → router_inv r → router_inv r'.
Proof.
  intros (E1 & E2 & E3) [A B I]. constructor; [by rewrite E1, E2|by rewrite E1|].
  destruct E3 as [->|(id & payload & ->)]; [done|]. by apply Mesh_Send_inv.
Qed.

Lemma tun_batch_inv reads r : router_inv r → router_inv (tun_batch r reads).
Proof.
  revert r. induction reads as [|[[buf size] [now rnd]] rest IH]; intros r I; cbn [tun_batch]; [done|].
  destruct (_ || _); [by apply IH|]. apply IH. eapply same_world_inv; [apply HandleTunPacket_world|]. by apply at_clock_inv.
Qed.

Lemma mesh_datagram_inv r packet from now rnd : router_inv r → router_inv (mesh_datagram r packet from now rnd).
Proof.
  intros I%(at_clock_inv _ now rnd). unfold mesh_datagram. set (r1 := at_clock r now rnd) in *.
  pose proof (receive_inv (mesh r1) packet from (ri_mesh _ I)) as Im.
  destruct (receive _ _ _) as [m [[peer payload]|]]; cbn [fst] in Im; [|by apply router_inv_mesh].
  eapply same_world_inv; [apply HandleMeshData_world|]. by apply router_inv_mesh.
Qed.

Lemma exec_bind {A B} (q : prog A) (f : A → prog B) s b s' : exec (prog_bind q f) s b s' →
  ∃ a s1, exec q s a s1 ∧ exec (f a) s1 b s'.
Proof.
  revert s. induction q as [a|argv next IH]; cbn; intros s E; [exists a, s; by split; [constructor|]|].
  inversion E as [|? ? ? ok s1 ? ? R E' ]; subst. destruct (IH ok s1 E') as (a & s2 & E1 & E2).
  exists a, s2. split; [by econstructor|done].
Qed.

Lemma exec_Ret {A} (a b : A) (s s' : K) : exec (Ret a) s b s' → b = a ∧ s' = s.
Proof. by inversion 1. Qed.

Lemma LoadEnrollment_Ok read path next : LoadEnrollment read Unmarshal path = Ok next →
  config_wf (Enrollment_Routing next) (Enrollment_NodeID next) ∧ 0 < PolicyExpiresAt (Enrollment_Routing next).
Proof.
  unfold LoadEnrollment. destruct (read path) as [raw| |]; [|done..]. destruct (Unmarshal raw) as [value| |]; [|done..].
  destruct (Enrollment_Validate value) as [[]| |] eqn:V; [|done..]. intros [= <-]. unfold Enrollment_Validate in V.
  apply check_then in V as [_ V]. apply check_then in V as [L V]. guards. apply RoutingConfig_Validate_iff in V. split; [done|lia].
Qed.

(** The Node owns what it added, and its tables are in order. *)
Definition kernel_inv (s0 : K) (k : kernelState) (s : K) : Prop := owns (objects s0) (λ _, True) k s.

Lemma reconcile_inv s0 k s order i c k' res s' : kernel_inv s0 k s → visits_all order →
  exec (reconcile json_objects k order i c) s (k', res) s' → kernel_inv s0 k' s' ∧ (res = Ok tt → converged c k').
Proof.
  intros Ho Hv E.
  pose proof (reconcile_wp (objects s0) (λ _, True) json_objects False "" c order i k s Ho Hv ltac:(done) (False_ind _)) as Wp.
  eapply wp_exec in Wp; [|exact E]. by destruct Wp as (? & _ & _ & _ & ?).
Qed.

Lemma start_kernel_inv (e : start_env C W) id iface c (r : Router (Mesh C) W) s0 s1 (p : process C W) s : exec (start_kernel json_objects e id iface c r) s1 (Some p) s →
  visits_all (se_order e) → objects s1 = objects s0 →
  pr_router p = r ∧ kernel_inv s0 (pr_kernel p) s ∧ converged c (pr_kernel p).
Proof.
  intros E Hv Ho. apply exec_bind in E as ([k res] & s2 & E1 & E2).
  change (mkKernel id iface "" ∅ ∅ false false ∅ ∅ ∅) with (new_kernel id iface) in E1.
  assert (kernel_inv s0 (new_kernel id iface) s1) as I1.
  { unfold kernel_inv. rewrite <- Ho. apply new_kernel_owns. }
  apply (reconcile_inv s0) in E1 as [I2 Cv]; [|done|done]. destruct res as [[]| |].
  - apply exec_Ret in E2 as [[= ->] ->]. by split_and!; auto.
  - apply exec_bind in E2 as (? & ? & _ & [[=] _]%exec_Ret).
  - apply exec_bind in E2 as (? & ? & _ & [[=] _]%exec_Ret).
Qed.

Lemma start_inv e s0 (p : process C W) s : exec (main_start resolve json_objects ReadFile Unmarshal e) s0 (Some p) s →
  visits_all (se_order e) → router_inv (pr_router p) ∧ kernel_inv s0 (pr_kernel p) s.
Proof.
  intros E Hv. unfold main_start in E. destruct (LoadEnrollment _ _ _) as [en| |] eqn:L; [|by apply exec_Ret in E as [[=] _]..].
  apply LoadEnrollment_Ok in L as [Wf Le]. set (c := Enrollment_Routing en) in *.
  destruct (negb _); [by apply exec_Ret in E as [[=] _]|].
  destruct (if LocalPublic c then _ else _) as [[]| |]; [|by apply exec_Ret in E as [[=] _]..].
  destruct (se_interfaces e) as [ifs|]; [|by apply exec_Ret in E as [[=] _]].
  destruct (requireFreshInterface _ _) as [[]| |]; [|by apply exec_Ret in E as [[=] _]..].
  destruct (se_created e) as [iface|]; [|by apply exec_Ret in E as [[=] _]].
  inversion E as [|? ? ? ok s1 ? ? R E' ]; subst. apply ip_up in R as [Ho _].
  destruct ok; [|by apply exec_Ret in E' as [[=] _]]. unfold start_mesh in E'.
  destruct (NewMesh _ _ _ _ _) as [m| |] eqn:Nm; [|by apply exec_Ret in E' as [[=] _]..]. apply NewMesh_inv in Nm.
  pose proof (Reconcile_inv resolve m (Links c) Nm) as Im.
  destruct (Reconcile _ _ _) as [m1 [[]| |]]; cbn [fst] in Im; [|by apply exec_Ret in E' as [[=] _]..].
  destruct (NewRouter _ _ _ _) as [r| |] eqn:Nr; [|by apply exec_Ret in E' as [[=] _]..].
  apply (start_kernel_inv _ _ _ _ _ s0) in E' as (<- & Ik & _); [|done|done]. split; [|done].
  unfold NewRouter in Nr. apply check_then in Nr as [_ Nr]. destruct (RoutingConfig_Validate _ _); [|done..].
  injection Nr as <-. by constructor.
Qed.

Lemma reload_inv s0 (p : process C W) s read path now rnd order i p' s' : router_inv (pr_router p) → kernel_inv s0 (pr_kernel p) s →
  visits_all order → exec (reload resolve json_objects read Unmarshal p path now rnd order i) s p' s' →
  router_inv (pr_router p') ∧ kernel_inv s0 (pr_kernel p') s'.
Proof.
  intros Ir Ik Hv E. unfold reload in E. destruct (LoadEnrollment _ _ _) as [en| |] eqn:L; [|by apply exec_Ret in E as [-> ->]..].
  apply LoadEnrollment_Ok in L as [Wf Le]. set (c := Enrollment_Routing en) in *.
  destruct (negb _); [by apply exec_Ret in E as [-> ->]|]. cbv zeta in E.
  pose proof (at_clock_inv _ now rnd Ir) as Ir1. set (r1 := at_clock (pr_router p) now rnd) in *.
  pose proof (Reconcile_inv resolve (mesh r1) (Links c) (ri_mesh _ Ir1)) as Im.
  destruct (Reconcile _ _ _) as [m [[]| |]]; cbn [fst] in Im;
    [|apply exec_Ret in E as [-> ->]; split; [by apply router_inv_mesh|done]..].
  pose proof (router_inv_mesh _ _ Ir1 Im) as Ir2.
  unfold UpdateConfig in E. destruct (RoutingConfig_Validate _ _) as [[]| |] eqn:V;
    [|by apply exec_Ret in E as [-> ->]..].
  apply RoutingConfig_Validate_iff in V. apply exec_bind in E as ([k res] & s2 & E1 & [-> ->]%exec_Ret).
  apply (reconcile_inv s0) in E1 as [I2 _]; [|done|done]. split; [|done]. by constructor.
Qed.

(** C35. A Node carries traffic only under a lease: whatever it loads, receives and is asked
    to send, the configuration it works with is well-formed and expires, and from its
    expiry on every packet, of its own network or of the mesh, is refused without any
    effect; and through all of it the kernel holds what it had before the Node started and
    what the Node remembers as its own, and the mesh keeps its invariant. *)
Theorem node_lease_enforced e s0 (p : process C W) s : process_run e s0 p s → visits_all (se_order e) →
  let r := pr_router p in
  config_wf (config r) (localNodeID r) ∧ 0 < PolicyExpiresAt (config r) ∧ mesh_inv (mesh r) ∧
  (∀ now, PolicyExpiresAt (config r) <= time_unix now →
     (∀ packet, (HandleTunPacket r packet now).1 = r ∧ (HandleTunPacket r packet now).2 ≠ Ok tt) ∧
     (∀ peer raw, (HandleMeshData r peer raw now).1 = r ∧ (HandleMeshData r peer raw now).2 ≠ Ok tt)) ∧
  (∀ o, o ∈ objects s ↔ o ∈ objects s0 ∨ owned (pr_kernel p) o) ∧ (∀ o, o ∈ objects s0 → ¬ owned (pr_kernel p) o).
Proof.
  intros R Hv r. assert (router_inv r ∧ kernel_inv s0 (pr_kernel p) s) as [[A B I] [E F _ _ _]].
  { subst r. induction R as [p s E|p s read path now rnd order i p' s' R IH Ho E|p s reads R IH|p s packet from now rnd R IH].
    - by eapply start_inv.
    - destruct IH as [I1 I2]. eapply reload_inv; [exact I1|exact I2|exact Ho|exact E].
    - destruct IH as [I1 I2]. split; [by apply tun_batch_inv|done].
    - destruct IH as [I1 I2]. split; [by apply mesh_datagram_inv|done]. }
  split_and!; [done|done|done| |done|done].
  intros now Hn. assert (PolicyValid (config r) now = false) as Pv.
  { unfold PolicyValid. apply orb_false_iff. split; [apply Z.eqb_neq; lia|]. apply Z.ltb_ge. done. }
  split; intros; [by apply HandleTunPacket_expired|by apply HandleMeshData_expired].
Qed.
End process_facts.
