(* ===== verification/ControlStore.v ===== *)
(** * The durable store ([internal/controlplane/store.go])

    The bbolt database of a Controller: the Raft log, Raft's stable store and the
    canonical state with its metadata.  bbolt is not part of the repository; a
    bucket is a class with the documented behaviour of [Get], [Put], [Delete] and
    of a cursor, which visits the keys in byte order.  Keys are Go strings. *)

From Stdlib Require Import Strings.Byte Sorting.Sorted.
From S2P Require Import Prelude GoLib GoStrings Float64.

Definition key_lt (a b : string * bytes) : Prop := String.ltb a.1 b.1 = true.

(** [bolt_put] and [bolt_delete] fail with [None], as [Put] and [Delete] may. *)
Class BoltBucket (B : Type) := {
  bolt_empty : B;
  bolt_list : B → list (string * bytes);
  bolt_put : B → string → bytes → option B;
  bolt_delete : B → string → option B;
  bolt_sorted : ∀ b, StronglySorted key_lt (bolt_list b);
  bolt_empty_list : bolt_list bolt_empty = [];
  bolt_put_list : ∀ b k v b', bolt_put b k v = Some b' →
    ∀ k' v', (k', v') ∈ bolt_list b' ↔
      (if decide (k' = k) then v' = v else (k', v') ∈ bolt_list b);
  bolt_delete_list : ∀ b k b', bolt_delete b k = Some b' →
    ∀ k' v', (k', v') ∈ bolt_list b' ↔ k' ≠ k ∧ (k', v') ∈ bolt_list b;
}.

(** [Get]: the value of a key, [None] for nil. *)
Definition bolt_view {B} `{BoltBucket B} (b : B) : gmap string bytes := list_to_map (bolt_list b).
Definition bolt_get {B} `{BoltBucket B} (b : B) (k : string) : option bytes := bolt_view b !! k.

(** ** Integers as keys and values *)

Definition u64key (v : Z) : bytes := be_encode 8 v.

Definition decodeU64 (b : bytes) : Z := if negb (zlen b =? 8) then 0 else be_decode b.
Definition decode_opt (b : option bytes) : Z := match b with Some b => decodeU64 b | None => 0 end.

Definition keyRevision : string := "revision".
Definition keySchema : string := "schema_version".
Definition keyAppliedIndex : string := "applied_index".
Definition keyRevisionFloor : string := "revision_floor".

(** ** Raft log entries *)

Record Log := mkLog {
  Log_Index : Z;
  Log_Term : Z;
  Log_Type : byte;
  Log_Data : bytes;
  Log_Extensions : bytes;
  Log_AppendedAt : Z;
}.

(** [uint64(t.UnixNano())] and [int64] of a 64-bit word. *)
Definition unix_nano_u64 (t : Z) : Z := t mod 2 ^ 64.
Definition int64_of (u : Z) : Z := if u <? 2 ^ 63 then u else u - 2 ^ 64.

Definition encodeRaftLog (log : Log) : bytes :=
  [x01] ++ be_encode 8 (Log_Index log) ++ be_encode 8 (Log_Term log) ++ [Log_Type log]
  ++ be_encode 8 (unix_nano_u64 (Log_AppendedAt log))
  ++ be_encode 8 (zlen (Log_Data log)) ++ be_encode 8 (zlen (Log_Extensions log))
  ++ Log_Data log ++ Log_Extensions log.

Definition read_u64 (raw : bytes) (off : Z) : result Z :=
  w ← slice raw off (off + 8); Ok (be_decode w).

(** [out] is the entry the caller passes in; its time is kept when the persisted
    one is zero. *)
Definition decodeRaftLog (raw : bytes) (out : Log) : result Log :=
  header_ok ← (if zlen raw <? 42 then Ok false
               else v ← index raw 0; Ok (bool_decide (v = x01)));
  check (negb header_ok) "invalid persisted raft log" ;;
  idx ← read_u64 raw 1;
  term ← read_u64 raw 9;
  type ← index raw 17;
  ns ← read_u64 raw 18;
  let ns := int64_of ns in
  let appended := if negb (ns =? 0) then ns else Log_AppendedAt out in
  dataLen ← read_u64 raw 26;
  extLen ← read_u64 raw 34;
  check (zlen raw - 42 <? dataLen) "invalid raft log data length" ;;
  data ← slice raw 42 (42 + dataLen);
  let off := 42 + dataLen in
  check (zlen raw - off <? extLen) "invalid raft log extension length" ;;
  extensions ← slice raw off (off + extLen);
  Ok (mkLog idx term type data extensions appended).

(** ** The store *)

Record Store (B : Type) := mkStore {
  raft_logs : B;
  raft_stable : B;
  canonical : B;
  canonical_meta : B;
}.
Arguments mkStore {B}.
Arguments raft_logs {B}.
Arguments raft_stable {B}.
Arguments canonical {B}.
Arguments canonical_meta {B}.

Section store.
Context {B : Type} `{BB : BoltBucket B}.
Implicit Types (s : Store B) (b : B).

Definition log_key (index : Z) : string := bytes_str (u64key index).

Definition FirstIndex s : Z :=
  match head (bolt_list (raft_logs s)) with
  | Some (k, _) => decodeU64 (str_bytes k)
  | None => 0
  end.

Definition LastIndex s : Z :=
  match last (bolt_list (raft_logs s)) with
  | Some (k, _) => decodeU64 (str_bytes k)
  | None => 0
  end.

Definition GetLog s (index : Z) (out : Log) : result Log :=
  match bolt_get (raft_logs s) (log_key index) with
  | None => Err "log not found"
  | Some raw => decodeRaftLog raw out
  end.

Fixpoint put_logs b (logs : list Log) : option B :=
  match logs with
  | [] => Some b
  | log :: rest =>
      b ← bolt_put b (log_key (Log_Index log)) (encodeRaftLog log); put_logs b rest
  end.

Definition set_logs s b : Store B := mkStore b (raft_stable s) (canonical s) (canonical_meta s).

(** A transaction: an error of the body leaves the store as it was. *)
Definition StoreLogs s (logs : list Log) : Store B * result unit :=
  match put_logs (raft_logs s) logs with
  | Some b => (set_logs s b, Ok tt)
  | None => (s, Err "bolt")
  end.

Definition StoreLog s (log : Log) : Store B * result unit := StoreLogs s [log].

(** The cursor loop of [DeleteRange] over the keys from [Seek(min)] on. *)
Fixpoint delete_until b (max : Z) (keys : list string) : option B :=
  match keys with
  | [] => Some b
  | k :: rest =>
      if max <? decodeU64 (str_bytes k) then Some b
      else b ← bolt_delete b k; delete_until b max rest
  end.

Definition seek b (from : string) : list string :=
  List.filter (λ k, negb (String.ltb k from)) (fst <$> bolt_list b).

Definition DeleteRange s (min max : Z) : Store B * result unit :=
  if max <? min then (s, Ok tt)
  else match delete_until (raft_logs s) max (seek (raft_logs s) (log_key min)) with
       | Some b => (set_logs s b, Ok tt)
       | None => (s, Err "bolt")
       end.

Definition Store_Set s (key : string) (value : bytes) : Store B * result unit :=
  match bolt_put (raft_stable s) key value with
  | Some b => (mkStore (raft_logs s) b (canonical s) (canonical_meta s), Ok tt)
  | None => (s, Err "bolt")
  end.

Definition Store_Get s (key : string) : bytes := default [] (bolt_get (raft_stable s) key).

Definition SetUint64 s (key : string) (value : Z) : Store B * result unit :=
  Store_Set s key (u64key value).

Definition GetUint64 s (key : string) : result Z :=
  let value := Store_Get s key in
  if zlen value =? 0 then Ok 0
  else check (negb (zlen value =? 8)) "stable uint64 %q has invalid length %d" ;;
       Ok (decodeU64 value).

Definition canonicalGet s (path : string) : option bytes := bolt_get (canonical s) path.
Definition canonicalEntries s : gmap string bytes := bolt_view (canonical s).
Definition revision s : Z := decode_opt (bolt_get (canonical_meta s) keyRevision).
Definition revisionFloor s : Z := decode_opt (bolt_get (canonical_meta s) keyRevisionFloor).
Definition schemaVersion s : Z := decode_opt (bolt_get (canonical_meta s) keySchema).
Definition appliedIndex s : Z := decode_opt (bolt_get (canonical_meta s) keyAppliedIndex).

Definition bad_metadata s (key : string) : bool :=
  match bolt_get (canonical_meta s) key with
  | Some raw => negb (zlen raw =? 8)
  | None => false
  end.

Definition prepareReplay s (hasSnapshots : bool) : Store B * result Z :=
  if List.existsb (bad_metadata s) [keyRevision; keyAppliedIndex; keyRevisionFloor]
  then (s, Err "invalid canonical metadata %q")
  else
    let rev := revision s in
    let first := head (bolt_list (canonical s)) in
    if (appliedIndex s =? 0) && (negb (rev =? 0) || bool_decide (is_Some first))
       && negb hasSnapshots
    then (s, Err "legacy canonical state has no applied index and no Raft snapshot; automatic replay is unsafe; preserve the DB and use a verified migration checkpoint")
    else
      let floor := if revisionFloor s <? rev then rev else revisionFloor s in
      match bolt_put (canonical_meta s) keyRevisionFloor (u64key floor) with
      | Some b => (mkStore (raft_logs s) (raft_stable s) (canonical s) b, Ok floor)
      | None => (s, Err "bolt")
      end.
End store.

(** ** Facts about buckets *)

Section bucket_facts.
Context {B : Type} `{BB : BoltBucket B}.
Implicit Types b : B.

Lemma key_lt_irrefl e : ¬ key_lt e e.
Proof. unfold key_lt. by rewrite string_ltb_irrefl. Qed.

Lemma bolt_keys_nodup b : NoDup (fst <$> bolt_list b).
Proof.
  pose proof (bolt_sorted b) as S. induction S as [|e l S IH F]; [constructor|].
  rewrite fmap_cons. constructor; [|done]. intros (e' & E & Hin)%list_elem_of_fmap.
  rewrite Forall_forall in F. apply F in Hin. unfold key_lt in Hin.
  by rewrite E, string_ltb_irrefl in Hin.
Qed.

Lemma bolt_view_elem b k v : bolt_view b !! k = Some v ↔ (k, v) ∈ bolt_list b.
Proof. unfold bolt_view. symmetry. apply elem_of_list_to_map, bolt_keys_nodup. Qed.

Lemma bolt_put_view b k v b' :
  bolt_put b k v = Some b' → bolt_view b' = <[k := v]> (bolt_view b).
Proof.
  intros E. apply map_eq. intros k'. apply option_eq. intros v'.
  rewrite bolt_view_elem, (bolt_put_list _ _ _ _ E). case_decide as Hk.
  - subst. rewrite lookup_insert_eq. naive_solver.
  - by rewrite lookup_insert_ne, bolt_view_elem by done.
Qed.

Lemma bolt_delete_view b k b' :
  bolt_delete b k = Some b' → bolt_view b' = delete k (bolt_view b).
Proof.
  intros E. apply map_eq. intros k'. apply option_eq. intros v'.
  rewrite bolt_view_elem, (bolt_delete_list _ _ _ E), lookup_delete_Some, bolt_view_elem.
  naive_solver.
Qed.

Lemma bolt_empty_view : bolt_view (bolt_empty : B) = ∅.
Proof. unfold bolt_view. by rewrite bolt_empty_list. Qed.
End bucket_facts.

(** ** A bucket for evaluation *)

Definition sorted_entries (m : gmap string bytes) : list (string * bytes) :=
  insertion_sort (λ a b, String.ltb a.1 b.1) (map_to_list m).

Lemma key_less_strict_weak (l : list (string * bytes)) :
  strict_weak_on (λ a b, String.ltb a.1 b.1) l.
Proof.
  split.
  - intros x y _ _. apply string_ltb_asym.
  - intros x y z _ _ _. apply string_ltb_neg_trans.
Qed.

Lemma sorted_entries_elem m k v : (k, v) ∈ sorted_entries m ↔ m !! k = Some v.
Proof. unfold sorted_entries. by rewrite insertion_sort_perm, elem_of_map_to_list. Qed.

Lemma sorted_entries_sorted m : StronglySorted key_lt (sorted_entries m).
Proof.
  pose proof (insertion_sort_sorted (λ a b : string * bytes, String.ltb a.1 b.1)
    (map_to_list m) (key_less_strict_weak _)) as S.
  fold (sorted_entries m) in S.
  assert (NoDup (fst <$> sorted_entries m)) as N.
  { unfold sorted_entries. rewrite insertion_sort_perm. apply NoDup_fst_map_to_list. }
  induction S as [|e l S IH F]; [constructor|]. rewrite fmap_cons in N. apply NoDup_cons in N as [Ne N].
  constructor; [by apply IH|]. apply Forall_forall. intros e' He'. rewrite Forall_forall in F.
  specialize (F _ He'). unfold key_lt. destruct (String.ltb e.1 e'.1) eqn:L; [done|].
  destruct Ne. rewrite <- (string_ltb_total _ _ F L). by apply list_elem_of_fmap_2.
Qed.

#[export] Program Instance gmap_bucket : BoltBucket (gmap string bytes) := {|
  bolt_empty := ∅;
  bolt_list := sorted_entries;
  bolt_put b k v := Some (<[k := v]> b);
  bolt_delete b k := Some (delete k b);
|}.
Next Obligation. apply sorted_entries_sorted. Qed.
Next Obligation. done. Qed.
Next Obligation.
  cbn. intros b k v b' [= <-] k' v'. rewrite !sorted_entries_elem. case_decide as Hk.
  - subst. rewrite lookup_insert_eq. naive_solver.
  - by rewrite lookup_insert_ne, sorted_entries_elem.
Qed.
Next Obligation.
  cbn. intros b k b' [= <-] k' v'. rewrite !sorted_entries_elem, lookup_delete_Some. naive_solver.
Qed.

(** ** The Raft log *)

Lemma ascii_byte_val c : Z.of_N (Ascii.N_of_ascii (Ascii.ascii_of_byte c)) = byte_val c.
Proof. unfold byte_val. f_equal. by destruct c. Qed.

(** Keys of equal length are ordered as the numbers they encode. *)
Lemma bytes_str_compare (a b : bytes) :
  length a = length b →
  String.compare (bytes_str a) (bytes_str b) = (be_decode a ?= be_decode b).
Proof.
  revert b. induction a as [|x a IH]; intros [|y b] L; try done. injection L as L.
  rewrite !be_decode_cons. unfold bytes_str, String.string_of_list_byte in *. cbn.
  rewrite IH by done. unfold Ascii.compare. rewrite <- N2Z.inj_compare, !ascii_byte_val.
  pose proof (be_decode_range a). pose proof (be_decode_range b).
  unfold zlen in *. rewrite L in *. set (P := 256 ^ _) in *.
  destruct (Z.compare_spec (byte_val x) (byte_val y)) as [E|E|E].
  - rewrite E. by destruct (Z.compare_spec (be_decode a) (be_decode b));
      [subst; symmetry; apply Z.compare_eq_iff; lia
      |symmetry; apply Z.compare_lt_iff; lia|symmetry; apply Z.compare_gt_iff; lia].
  - symmetry. apply Z.compare_lt_iff. nia.
  - symmetry. apply Z.compare_gt_iff. nia.
Qed.

Definition is_u64 (z : Z) : Prop := 0 <= z < 2 ^ 64.

Lemma log_key_ltb i j : is_u64 i → is_u64 j → String.ltb (log_key i) (log_key j) = (i <? j).
Proof.
  intros Hi Hj. unfold String.ltb, log_key, u64key.
  rewrite bytes_str_compare by (by rewrite !be_encode_length).
  by rewrite !be_decode_encode_small by done.
Qed.

Lemma log_key_decode i : is_u64 i → decodeU64 (str_bytes (log_key i)) = i.
Proof.
  intros Hi. unfold log_key, decodeU64, u64key. rewrite str_bytes_str, zlen_be_encode. cbn [negb].
  change (Z.of_nat 8 =? 8) with true. cbn [negb]. by apply be_decode_encode_small.
Qed.

Lemma decodeU64_u64key i : is_u64 i → decodeU64 (u64key i) = i.
Proof. intros Hi. rewrite <- (log_key_decode i Hi) at 2. unfold log_key. by rewrite str_bytes_str. Qed.

Lemma decode_opt_u64 (v : option bytes) : is_u64 (decode_opt v).
Proof.
  destruct v as [b|]; [|done]. unfold decode_opt, decodeU64.
  destruct (Z.eqb_spec (zlen b) 8) as [E|]; cbn [negb]; [|done].
  pose proof (be_decode_range b) as R. by rewrite E in R.
Qed.

Record log_wf (l : Log) : Prop := {
  lg_index : is_u64 (Log_Index l);
  lg_term : is_u64 (Log_Term l);
  lg_data : is_u64 (zlen (Log_Data l));
  lg_ext : is_u64 (zlen (Log_Extensions l));
}.

Lemma read_u64_at pre z rest off :
  off = zlen pre → is_u64 z → read_u64 (pre ++ be_encode 8 z ++ rest) off = Ok z.
Proof.
  intros -> Hz. unfold read_u64.
  rewrite slice_mid by (done || by rewrite zlen_be_encode). cbn [mbind result_bind].
  by rewrite be_decode_encode_small.
Qed.

(** Where the fields of an encoded entry are. *)
Lemma encode_fields l :
  log_wf l →
  let raw := encodeRaftLog l in
  zlen raw = 42 + zlen (Log_Data l) + zlen (Log_Extensions l) ∧
  index raw 0 = Ok x01 ∧ read_u64 raw 1 = Ok (Log_Index l) ∧ read_u64 raw 9 = Ok (Log_Term l) ∧
  index raw 17 = Ok (Log_Type l) ∧ read_u64 raw 18 = Ok (unix_nano_u64 (Log_AppendedAt l)) ∧
  read_u64 raw 26 = Ok (zlen (Log_Data l)) ∧ read_u64 raw 34 = Ok (zlen (Log_Extensions l)) ∧
  slice raw 42 (42 + zlen (Log_Data l)) = Ok (Log_Data l) ∧
  slice raw (42 + zlen (Log_Data l)) (42 + zlen (Log_Data l) + zlen (Log_Extensions l))
    = Ok (Log_Extensions l).
Proof.
  intros [Hi Ht Hd He] raw. unfold raw, encodeRaftLog. clear raw.
  assert (is_u64 (unix_nano_u64 (Log_AppendedAt l))) as Hn by (apply Z.mod_pos_bound; lia).
  set (n := unix_nano_u64 _) in *.
  assert (∀ z, zlen (be_encode 8 z) = 8) as L8 by (intros; apply zlen_be_encode).
  split_and!.
  - rewrite !zlen_app, !L8. change (zlen [_]) with 1. lia.
  - apply index_cons_0.
  - by apply (read_u64_at [x01]).
  - rewrite app_assoc. apply read_u64_at; [by rewrite zlen_app, L8|done].
  - rewrite !app_assoc. rewrite <- !(app_assoc (([x01] ++ _) ++ _)).
    replace 17 with (zlen (([x01] ++ be_encode 8 (Log_Index l)) ++ be_encode 8 (Log_Term l)))
      by (by rewrite !zlen_app, !L8). by rewrite index_at.
  - rewrite 3!app_assoc. apply read_u64_at; [by rewrite !zlen_app, !L8|done].
  - rewrite 4!app_assoc. apply read_u64_at; [by rewrite !zlen_app, !L8|done].
  - rewrite 5!app_assoc. apply read_u64_at; [by rewrite !zlen_app, !L8|done].
  - rewrite 6!app_assoc. apply slice_mid; by rewrite !zlen_app, !L8.
  - rewrite <- (app_nil_r (Log_Extensions l)) at 2. rewrite 7!app_assoc.
    apply slice_mid; rewrite !zlen_app, !L8; change (zlen [_]) with 1; lia.
Qed.

Lemma decode_encode_log l out :
  log_wf l →
  decodeRaftLog (encodeRaftLog l) out =
  Ok (mkLog (Log_Index l) (Log_Term l) (Log_Type l) (Log_Data l) (Log_Extensions l)
        (let ns := int64_of (unix_nano_u64 (Log_AppendedAt l)) in
         if ns =? 0 then Log_AppendedAt out else ns)).
Proof.
  intros Wf. pose proof (encode_fields l Wf) as (E0 & E1 & E2 & E3 & E4 & E5 & E6 & E7 & E8 & E9).
  pose proof (zlen_nonneg (Log_Data l)). pose proof (zlen_nonneg (Log_Extensions l)).
  unfold decodeRaftLog. destruct (Z.ltb_spec (zlen (encodeRaftLog l)) 42); [lia|].
  rewrite E1. cbn [mbind result_bind]. rewrite bool_decide_eq_true_2 by done.
  cbn [negb check mbind result_bind].
  rewrite E2, E3, E4, E5, E6, E7. cbn [mbind result_bind].
  rewrite (proj2 (Z.ltb_ge _ _)) by lia. cbn [check mbind result_bind].
  rewrite E8. cbn [mbind result_bind].
  rewrite (proj2 (Z.ltb_ge _ _)) by lia. cbn [check mbind result_bind].
  rewrite E9. cbn [mbind result_bind]. cbn zeta. by destruct (int64_of _ =? 0).
Qed.

(** An entry whose time survives: it fits 64-bit nanoseconds and is not the epoch. *)
Definition stamp_ok (l : Log) : Prop :=
  - 2 ^ 63 <= Log_AppendedAt l < 2 ^ 63 ∧ Log_AppendedAt l ≠ 0.

Lemma int64_nano t : - 2 ^ 63 <= t < 2 ^ 63 → int64_of (unix_nano_u64 t) = t.
Proof.
  intros H. unfold int64_of, unix_nano_u64. destruct (Z.leb_spec 0 t).
  - rewrite Z.mod_small by lia. by rewrite (proj2 (Z.ltb_lt _ _)) by lia.
  - replace (t mod 2 ^ 64) with (t + 2 ^ 64) by (apply (Z.mod_unique_pos _ _ (-1)); lia).
    rewrite (proj2 (Z.ltb_ge _ _)) by lia. lia.
Qed.

Lemma decode_stamped l out : log_wf l → stamp_ok l → decodeRaftLog (encodeRaftLog l) out = Ok l.
Proof.
  intros Wf [Hr Hne]. rewrite decode_encode_log by done. cbn zeta. rewrite int64_nano by done.
  rewrite (proj2 (Z.eqb_neq _ _) Hne). by destruct l.
Qed.

Section log_facts.
Context {B : Type} `{BB : BoltBucket B}.
Implicit Types (s : Store B) (b : B).

Definition logs_wf b : Prop :=
  ∀ k v, bolt_view b !! k = Some v → ∃ i, is_u64 i ∧ k = log_key i.

Lemma log_key_inj i j : is_u64 i → is_u64 j → log_key i = log_key j → i = j.
Proof. intros Hi Hj E. by rewrite <- (log_key_decode i), <- (log_key_decode j), E. Qed.

(** The entry a batch leaves for an index: the last one written. *)
Fixpoint last_for (i : Z) (logs : list Log) : option Log :=
  match logs with
  | [] => None
  | l :: rest =>
      match last_for i rest with
      | Some l' => Some l'
      | None => if Log_Index l =? i then Some l else None
      end
  end.

Lemma put_logs_view b logs b' :
  put_logs b logs = Some b' → Forall log_wf logs → logs_wf b →
  logs_wf b' ∧ ∀ i, is_u64 i → bolt_view b' !! log_key i =
    match last_for i logs with
    | Some l => Some (encodeRaftLog l)
    | None => bolt_view b !! log_key i
    end.
Proof.
  revert b. induction logs as [|l rest IH]; intros b E F Wf; cbn in E; [by simplify_eq|].
  apply bind_Some in E as (b1 & P & E). apply Forall_cons in F as [Wl F].
  pose proof (lg_index _ Wl) as Hli. apply bolt_put_view in P.
  destruct (IH b1 E F) as [Wf' Hv].
  { intros k v Hk. rewrite P in Hk. apply lookup_insert_Some in Hk as [[<- _]|[_ Hk]]; eauto. }
  split; [done|]. intros i Hi. rewrite Hv by done. cbn. destruct (last_for i rest); [done|].
  rewrite P. destruct (Z.eqb_spec (Log_Index l) i) as [->|Hne].
  - by rewrite lookup_insert_eq.
  - rewrite lookup_insert_ne; [done|]. intros Ek. by apply Hne, log_key_inj.
Qed.

Lemma last_for_elem i logs l : last_for i logs = Some l → l ∈ logs ∧ Log_Index l = i.
Proof.
  induction logs as [|x rest IH]; cbn; [done|]. destruct (last_for i rest) as [l'|].
  - intros [= ->]. destruct IH as [? ?]; [done|]. split; [by right|done].
  - destruct (Z.eqb_spec (Log_Index x) i); [|done]. intros [= ->]. split; [left|done].
Qed.

(** The Raft log store reads back what was written: after a successful
    [StoreLogs] the entry of an index is the last one of the batch with that
    index, unchanged in every field, and otherwise what it was before. *)
Lemma StoreLogs_GetLog s logs s' :
  StoreLogs s logs = (s', Ok tt) → logs_wf (raft_logs s) →
  Forall log_wf logs → Forall stamp_ok logs →
  logs_wf (raft_logs s') ∧
  ∀ i out, is_u64 i → GetLog s' i out =
    match last_for i logs with Some l => Ok l | None => GetLog s i out end.
Proof.
  unfold StoreLogs. destruct (put_logs _ _) as [b'|] eqn:E; [|done]. intros [= <-] Wf F1 F2.
  destruct (put_logs_view _ _ _ E F1 Wf) as [Wf' Hv]. split; [done|].
  intros i out Hi. unfold GetLog, bolt_get. cbn [raft_logs set_logs]. rewrite Hv by done.
  destruct (last_for i logs) as [l|] eqn:L; [|done]. apply last_for_elem in L as [Hin _].
  apply decode_stamped; [by eapply Forall_forall in F1|by eapply Forall_forall in F2].
Qed.

Lemma sorted_snoc {A} (R : A → A → Prop) l x y :
  StronglySorted R (l ++ [x]) → y ∈ l → R y x.
Proof.
  intros S Hy. induction l as [|z l IH]; [by apply elem_of_nil in Hy|]. cbn in S.
  apply StronglySorted_cons in S as [F S]. rewrite Forall_forall in F.
  apply elem_of_cons in Hy as [->|Hy]; [apply F; set_solver|auto].
Qed.

Lemma StronglySorted_filter {A} (R : A → A → Prop) (f : A → bool) l :
  StronglySorted R l → StronglySorted R (List.filter f l).
Proof.
  induction 1 as [|x l S IH F]; cbn; [constructor|]. destruct (f x); [|done].
  constructor; [done|]. apply Forall_forall. intros y. rewrite list_elem_of_In, filter_In.
  intros [Hy _]. rewrite Forall_forall in F. by apply F, list_elem_of_In.
Qed.

Lemma sorted_keys b : StronglySorted (λ k k', String.ltb k k' = true) (fst <$> bolt_list b).
Proof.
  pose proof (bolt_sorted b) as S. induction S as [|e l S IH F]; [constructor|].
  rewrite fmap_cons. constructor; [done|]. apply Forall_fmap. exact F.
Qed.

Lemma bolt_keys_elem b k : k ∈ fst <$> bolt_list b ↔ is_Some (bolt_view b !! k).
Proof.
  rewrite list_elem_of_fmap. split.
  - intros ([k' v] & -> & H%bolt_view_elem). eauto.
  - intros [v H%bolt_view_elem]. by exists (k, v).
Qed.

(** [FirstIndex] and [LastIndex] are the least and the greatest stored
    index: byte order of the big-endian keys is numeric order. *)
Lemma log_bounds s i :
  logs_wf (raft_logs s) → is_u64 i → is_Some (bolt_get (raft_logs s) (log_key i)) →
  FirstIndex s <= i <= LastIndex s ∧
  is_Some (bolt_get (raft_logs s) (log_key (FirstIndex s))) ∧
  is_Some (bolt_get (raft_logs s) (log_key (LastIndex s))).
Proof.
  intros Wf Hi Hin. unfold bolt_get in *. pose proof (sorted_keys (raft_logs s)) as S.
  apply bolt_keys_elem in Hin. setoid_rewrite <- bolt_keys_elem.
  assert (∀ k, k ∈ fst <$> bolt_list (raft_logs s) → ∃ j, is_u64 j ∧ k = log_key j) as Hk.
  { intros k [v Hv]%bolt_keys_elem. eauto. }
  unfold FirstIndex, LastIndex.
  set (l := bolt_list (raft_logs s)) in *. clearbody l. split_and!.
  - destruct l as [|[k v] l]; [by apply elem_of_nil in Hin|]. cbn [head]. rewrite fmap_cons in *.
    destruct (Hk k) as (j & Hj & ->); [left|]. rewrite log_key_decode by done. cbn [fst] in *.
    apply elem_of_cons in Hin as [E|Hin]; [rewrite (log_key_inj i j Hi Hj E); lia|].
    apply StronglySorted_cons in S as [F _]. rewrite Forall_forall in F. apply F in Hin.
    rewrite log_key_ltb in Hin by done. lia.
  - destruct l as [|[k v] l _] using rev_ind; [by apply elem_of_nil in Hin|].
    rewrite last_snoc, fmap_app in *. change (fst <$> [(k, v)]) with [k] in *.
    destruct (Hk k) as (j & Hj & Ej); [set_solver|]. rewrite Ej, log_key_decode by done.
    apply elem_of_app in Hin as [Hin|Hin].
    2: { apply list_elem_of_singleton in Hin. rewrite Ej in Hin.
         rewrite (log_key_inj i j Hi Hj Hin). lia. }
    apply (sorted_snoc _ _ _ _ S) in Hin. rewrite Ej, log_key_ltb in Hin by done. lia.
  - destruct l as [|[k v] l]; [by apply elem_of_nil in Hin|]. cbn [head]. rewrite fmap_cons in *.
    destruct (Hk k) as (j & Hj & ->); [left|]. rewrite log_key_decode by done. left.
  - destruct l as [|[k v] l _] using rev_ind; [by apply elem_of_nil in Hin|].
    rewrite last_snoc, fmap_app in *. change (fst <$> [(k, v)]) with [k] in *.
    destruct (Hk k) as (j & Hj & Ej); [set_solver|]. rewrite Ej, log_key_decode, <- Ej by done.
    set_solver.
Qed.

(** A key the loop passes over is beyond [max], and so are all later ones. *)
Lemma delete_until_view b max ks b' :
  delete_until b max ks = Some b' → is_u64 max →
  StronglySorted (λ k k', String.ltb k k' = true) ks →
  (∀ k, k ∈ ks → ∃ j, is_u64 j ∧ k = log_key j) →
  ∀ i, is_u64 i → bolt_view b' !! log_key i =
    if bool_decide (log_key i ∈ ks ∧ i <= max) then None else bolt_view b !! log_key i.
Proof.
  revert b. induction ks as [|k ks IH]; intros b E Hmax S Hk i Hi; cbn in E.
  { injection E as <-. rewrite bool_decide_eq_false_2; [done|]. intros [H _]. set_solver. }
  apply StronglySorted_cons in S as [F S]. rewrite Forall_forall in F.
  destruct (Hk k) as (j & Hj & ->); [left|]. rewrite log_key_decode in E by done.
  destruct (Z.ltb_spec max j) as [Hlt|Hle].
  - injection E as <-. rewrite bool_decide_eq_false_2; [done|].
    intros [[Ek|Hin]%elem_of_cons Hle]; [rewrite (log_key_inj i j Hi Hj Ek) in Hle; lia|].
    apply F in Hin. rewrite log_key_ltb in Hin by done. lia.
  - apply bind_Some in E as (b1 & D & E). apply bolt_delete_view in D.
    rewrite (IH b1 E Hmax S) by (done || (intros; apply Hk; by right)). rewrite D.
    destruct (decide (log_key i = log_key j)) as [Ek|Hne].
    + rewrite Ek, lookup_delete_eq. apply log_key_inj in Ek as ->; [|done..].
      rewrite (bool_decide_eq_true_2 (log_key j ∈ log_key j :: ks ∧ j <= max)) by (split; [left|lia]).
      by case_bool_decide.
    + rewrite lookup_delete_ne by done. erewrite bool_decide_ext; [done|].
      rewrite elem_of_cons. naive_solver.
Qed.

Lemma delete_until_sub b max ks b' : delete_until b max ks = Some b' → bolt_view b' ⊆ bolt_view b.
Proof.
  revert b. induction ks as [|k ks IH]; intros b E; cbn in E; [by injection E as <-|].
  destruct (max <? _); [by injection E as <-|]. apply bind_Some in E as (b1 & D & E).
  apply bolt_delete_view in D. transitivity (bolt_view b1); [by apply IH|]. rewrite D.
  apply delete_subseteq.
Qed.

Lemma DeleteRange_view s min max s' :
  DeleteRange s min max = (s', Ok tt) → logs_wf (raft_logs s) → is_u64 min → is_u64 max →
  logs_wf (raft_logs s') ∧
  ∀ i, is_u64 i → bolt_view (raft_logs s') !! log_key i =
    if (min <=? i) && (i <=? max) then None else bolt_view (raft_logs s) !! log_key i.
Proof.
  intros E Wf Hmin Hmax. unfold DeleteRange in E.
  destruct (Z.ltb_spec max min).
  { injection E as <-. split; [done|]. intros i Hi.
    destruct (Z.leb_spec min i), (Z.leb_spec i max); try done. lia. }
  destruct (delete_until _ _ _) as [b|] eqn:D; [|done]. injection E as <-.
  cbn [raft_logs set_logs]. split.
  { intros k v Hk. apply (Wf k v). by apply (lookup_weaken _ _ _ _ Hk), (delete_until_sub _ _ _ _ D). }
  intros i Hi.
  assert (∀ k, k ∈ seek (raft_logs s) (log_key min) ↔
            is_Some (bolt_view (raft_logs s) !! k) ∧ String.ltb k (log_key min) = false) as Hseek.
  { intros k. unfold seek. rewrite list_elem_of_In, filter_In, <- list_elem_of_In, bolt_keys_elem.
    by rewrite negb_true_iff. }
  rewrite (delete_until_view _ _ _ _ D Hmax) by
    (done || (unfold seek; apply StronglySorted_filter, sorted_keys)
     || (intros k [[v Hv] _]%Hseek; eauto)).
  rewrite (bool_decide_ext _ (is_Some (bolt_view (raft_logs s) !! log_key i) ∧ min <= i <= max))
    by (rewrite Hseek, log_key_ltb, Z.ltb_ge by done; tauto).
  destruct (Z.leb_spec min i), (Z.leb_spec i max); cbn [andb];
    [|rewrite bool_decide_eq_false_2 by lia; done..].
  case_bool_decide as Hb; [done|]. destruct (bolt_view (raft_logs s) !! log_key i) eqn:Hv; [|done].
  destruct Hb. split; [eauto|lia].
Qed.

(** [DeleteRange] removes exactly the entries with an index from [min] to
    [max] and keeps every other entry. *)
Lemma DeleteRange_exact s min max s' :
  DeleteRange s min max = (s', Ok tt) → logs_wf (raft_logs s) → is_u64 min → is_u64 max →
  ∀ i out, is_u64 i → GetLog s' i out =
    if (min <=? i) && (i <=? max) then Err "log not found" else GetLog s i out.
Proof.
  intros E Wf Hmin Hmax i out Hi. destruct (DeleteRange_view _ _ _ _ E Wf Hmin Hmax) as [_ V].
  unfold GetLog, bolt_get. rewrite V by done. by destruct (_ && _).
Qed.

(** The revision floor protects a restart: [prepareReplay] fails without
    writing when a canonical counter is malformed or when state without a
    watermark has no snapshot to replay from; otherwise it changes only the
    floor, to the greater of the stored floor and the current revision. *)
Lemma prepareReplay_floor s hasSnapshots :
  match prepareReplay s hasSnapshots with
  | (s', Ok floor) =>
      floor = Z.max (revisionFloor s) (revision s) ∧ revisionFloor s' = floor ∧
      canonical s' = canonical s ∧ revision s' = revision s ∧ appliedIndex s' = appliedIndex s ∧
      (appliedIndex s = 0 → hasSnapshots = false → revision s = 0 ∧ bolt_view (canonical s) = ∅)
  | (s', _) => s' = s
  end.
Proof.
  unfold prepareReplay. destruct (List.existsb _ _); [done|].
  destruct (_ && _ && _) eqn:G; [done|].
  set (floor := if _ <? _ then _ else _).
  destruct (bolt_put _ _ _) as [b|] eqn:P; [|done]. apply bolt_put_view in P.
  assert (floor = Z.max (revisionFloor s) (revision s)) as Hf
    by (unfold floor; destruct (Z.ltb_spec (revisionFloor s) (revision s)); lia).
  assert (is_u64 floor) as Hu.
  { unfold floor. destruct (_ <? _); apply decode_opt_u64. }
  unfold revisionFloor, revision, appliedIndex in *. cbn [canonical canonical_meta].
  unfold bolt_get in *. rewrite P. split_and!; try done.
  - rewrite lookup_insert_eq. cbn [decode_opt]. by apply decodeU64_u64key.
  - by rewrite lookup_insert_ne.
  - by rewrite lookup_insert_ne.
  - intros Ha Hs. rewrite Ha, Hs in G. cbn [negb andb Z.eqb] in G. rewrite andb_true_r in G.
    guards. destruct G as [Hr Hh].
    split; [done|]. unfold bolt_view. destruct (bolt_list (canonical s)); [done|].
    destruct Hh. eauto.
Qed.

Lemma prepareReplay_raft s hasSnapshots :
  raft_logs (prepareReplay s hasSnapshots).1 = raft_logs s ∧
  raft_stable (prepareReplay s hasSnapshots).1 = raft_stable s.
Proof. unfold prepareReplay. repeat case_match; done. Qed.
End log_facts.

(** A zero [AppendedAt] does not survive persistence: the decoder means zero
    nanoseconds to be "not set", but the encoder writes the nanoseconds of the
    year-1 zero time, which wrap to a value that is not zero, so the entry comes
    back with a time in the year 1754. *)
Lemma zero_time_not_preserved l out :
  log_wf l → Log_AppendedAt l = zero_time →
  ∃ l', decodeRaftLog (encodeRaftLog l) out = Ok l' ∧
    Log_AppendedAt l' = -6795364578871345152 ∧ time_is_zero (Log_AppendedAt l') = false.
Proof.
  intros Wf Hz. rewrite decode_encode_log by done. rewrite Hz. eexists. split; [done|]. done.
Qed.
