(* ===== verification/ControlLog.v ===== *)
(** * The Raft log as a refinement

    Raft asks its log store for a partial map from indices to entries, with the least
    and the greatest index.  The store of [ControlStore] keeps encoded entries under
    big-endian keys of a bucket; here it is shown to implement that map. *)

From Stdlib Require Import Strings.Byte Sorting.Sorted.
From S2P Require Import Prelude GoLib GoStrings Float64 ControlStore.

(** ** The abstract log *)

Inductive log_op :=
| OpStore (logs : list Log)
| OpDelete (min max : Z).

(** A batch is written in order; a range is removed with both ends. *)
Definition spec_op (m : gmap Z Log) (op : log_op) : gmap Z Log :=
  match op with
  | OpStore logs => foldl (λ m l, <[Log_Index l := l]> m) m logs
  | OpDelete min max => filter (λ e, ¬ (min <= e.1 <= max)) m
  end.

(** Operations that reported an error have no effect. *)
Fixpoint spec_ops (m : gmap Z Log) (ops : list log_op) (oks : list bool) : gmap Z Log :=
  match ops, oks with
  | op :: ops, ok :: oks => spec_ops (if ok then spec_op m op else m) ops oks
  | _, _ => m
  end.

Definition least (m : gmap Z Log) (i : Z) : Prop :=
  (m = ∅ ∧ i = 0) ∨ (is_Some (m !! i) ∧ ∀ j, is_Some (m !! j) → i <= j).
Definition greatest (m : gmap Z Log) (i : Z) : Prop :=
  (m = ∅ ∧ i = 0) ∨ (is_Some (m !! i) ∧ ∀ j, is_Some (m !! j) → j <= i).

(** What Raft hands to the store: 64-bit fields and a time of [time.Now]. *)
Definition op_ok (op : log_op) : Prop :=
  match op with
  | OpStore logs => Forall log_wf logs ∧ Forall stamp_ok logs
  | OpDelete min max => is_u64 min ∧ is_u64 max
  end.

Section refinement.
Context {B : Type} `{BB : BoltBucket B}.
Implicit Types (s : Store B) (m : gmap Z Log).

Definition exec_op s (op : log_op) : Store B * result unit :=
  match op with
  | OpStore logs => StoreLogs s logs
  | OpDelete min max => DeleteRange s min max
  end.

Fixpoint exec_ops s (ops : list log_op) : Store B * list bool :=
  match ops with
  | [] => (s, [])
  | op :: ops =>
      let '(s, r) := exec_op s op in
      let '(s, oks) := exec_ops s ops in (s, is_ok r :: oks)
  end.

Record refines s m : Prop := {
  rf_keys : logs_wf (raft_logs s);
  rf_entries : ∀ i, is_u64 i → bolt_view (raft_logs s) !! log_key i = encodeRaftLog <$> m !! i;
  rf_range : ∀ i l, m !! i = Some l → is_u64 i ∧ log_wf l ∧ stamp_ok l;
}.

Lemma refines_new st c md : refines (mkStore bolt_empty st c md) ∅.
Proof.
  split; cbn [raft_logs].
  - intros k v. by rewrite bolt_empty_view, lookup_empty.
  - intros i _. by rewrite bolt_empty_view, !lookup_empty.
  - intros i l. by rewrite lookup_empty.
Qed.

Lemma spec_store_lookup m logs i :
  spec_op m (OpStore logs) !! i = match last_for i logs with Some l => Some l | None => m !! i end.
Proof.
  cbn. revert m. induction logs as [|l rest IH]; intros m; cbn; [done|]. rewrite IH.
  destruct (last_for i rest); [done|]. destruct (Z.eqb_spec (Log_Index l) i) as [->|].
  - apply lookup_insert_eq.
  - by apply lookup_insert_ne.
Qed.

Lemma store_refines s m logs s' :
  StoreLogs s logs = (s', Ok tt) → op_ok (OpStore logs) → refines s m →
  refines s' (spec_op m (OpStore logs)).
Proof.
  unfold StoreLogs. destruct (put_logs _ _) as [b|] eqn:E; [|done].
  intros [= <-] [F1 F2] [K V R]. destruct (put_logs_view _ _ _ E F1 K) as [K' V'].
  split; cbn [raft_logs set_logs]; [done| |].
  - intros i Hi. rewrite V', spec_store_lookup, V by done. by destruct (last_for i logs).
  - intros i l. rewrite spec_store_lookup. destruct (last_for i logs) as [l'|] eqn:L; [|apply R].
    intros [= ->]. apply last_for_elem in L as [Hin <-]. rewrite Forall_forall in F1, F2.
    split_and!; [apply (lg_index _ (F1 _ Hin))|auto..].
Qed.
Lemma delete_refines s m min max s' :
  DeleteRange s min max = (s', Ok tt) → op_ok (OpDelete min max) → refines s m →
  refines s' (spec_op m (OpDelete min max)).
Proof.
  intros E [Hmin Hmax] [K V R]. destruct (DeleteRange_view _ _ _ _ E K Hmin Hmax) as [K' V'].
  split; [done| |].
  - intros i Hi. rewrite V', V by done. cbn. rewrite map_lookup_filter.
    destruct (m !! i) as [l|]; cbn; [|by destruct (_ && _)].
    destruct (Z.leb_spec min i), (Z.leb_spec i max); cbn; case_guard; (done || lia).
  - intros i l Hl. cbn in Hl. apply map_lookup_filter_Some in Hl as [Hl _]. by apply R.
Qed.

Lemma exec_refines s m op s' r :
  exec_op s op = (s', r) → op_ok op → refines s m →
  refines s' (if is_ok r then spec_op m op else m) ∧ (is_ok r = false → s' = s).
Proof.
  intros E Ok R. destruct op as [logs|min max]; cbn in E.
  - destruct r as [[]|e|]; cbn [is_ok].
    + split; [by eapply store_refines|done].
    + unfold StoreLogs in E. destruct (put_logs _ _); [done|]. by injection E as <- <-.
    + unfold StoreLogs in E. by destruct (put_logs _ _).
  - destruct r as [[]|e|]; cbn [is_ok].
    + split; [by eapply delete_refines|done].
    + unfold DeleteRange in E. destruct (_ <? _); [done|]. destruct (delete_until _ _ _); [done|].
      by injection E as <- <-.
    + unfold DeleteRange in E. destruct (_ <? _); [done|]. by destruct (delete_until _ _ _).
Qed.

Lemma exec_ops_refines s m ops :
  refines s m → Forall op_ok ops → refines (exec_ops s ops).1 (spec_ops m ops (exec_ops s ops).2).
Proof.
  revert s m. induction ops as [|op ops IH]; intros s m R F; [done|].
  apply Forall_cons in F as [Ho F]. cbn. destruct (exec_op s op) as [s1 r] eqn:E.
  destruct (exec_refines _ _ _ _ _ E Ho R) as [R1 _]. specialize (IH s1 _ R1 F).
  by destruct (exec_ops s1 ops).
Qed.

Lemma refines_lookup s m i out : refines s m → is_u64 i →
  GetLog s i out = match m !! i with Some l => Ok l | None => Err "log not found" end.
Proof.
  intros [_ V R] Hi. unfold GetLog, bolt_get. rewrite V by done.
  destruct (m !! i) as [l|] eqn:E; cbn; [|done]. destruct (R _ _ E) as (_ & W & T).
  by apply decode_stamped.
Qed.

Lemma refines_empty s m : refines s m → bolt_list (raft_logs s) = [] ↔ m = ∅.
Proof.
  intros [K V R]. split.
  - intros E. apply map_empty. intros i. destruct (m !! i) as [l|] eqn:Hl; [|done].
    destruct (R _ _ Hl) as [Hi _]. specialize (V i Hi). unfold bolt_view in V.
    by rewrite E, Hl in V.
  - intros ->. destruct (bolt_list (raft_logs s)) as [|[k v] l] eqn:E; [done|].
    assert (bolt_view (raft_logs s) !! k = Some v) as Hk by (apply bolt_view_elem; rewrite E; left).
    destruct (K _ _ Hk) as (i & Hi & ->). by rewrite V, lookup_empty in Hk.
Qed.

Lemma index_u64 s : is_u64 (FirstIndex s) ∧ is_u64 (LastIndex s).
Proof.
  unfold FirstIndex, LastIndex.
  split; [destruct (head _) as [[k v]|]|destruct (last _) as [[k v]|]];
    (apply (decode_opt_u64 (Some (str_bytes k))) || (unfold is_u64; lia)).
Qed.

Lemma exec_ops_frame s ops :
  let s' := (exec_ops s ops).1 in
  raft_stable s' = raft_stable s ∧ canonical s' = canonical s ∧ canonical_meta s' = canonical_meta s.
Proof.
  revert s. induction ops as [|op ops IH]; intros s; [done|]. cbn.
  destruct (exec_op s op) as [s1 r] eqn:E.
  assert (raft_stable s1 = raft_stable s ∧ canonical s1 = canonical s ∧
          canonical_meta s1 = canonical_meta s) as (<- & <- & <-).
  { destruct op; cbn in E; [unfold StoreLogs in E|unfold DeleteRange in E];
      repeat case_match; by injection E as <- <-. }
  specialize (IH s1). by destruct (exec_ops s1 ops).
Qed.

Lemma refines_bounds s m : refines s m → least m (FirstIndex s) ∧ greatest m (LastIndex s).
Proof.
  intros Rf. pose proof Rf as [K V R]. destruct (decide (m = ∅)) as [Em|Hne].
  { pose proof (proj2 (refines_empty _ _ Rf) Em) as E. unfold FirstIndex, LastIndex. rewrite E.
    split; by left. }
  assert (∀ i, is_u64 i → is_Some (bolt_get (raft_logs s) (log_key i)) ↔ is_Some (m !! i)) as Hs.
  { intros i Hi. unfold bolt_get. rewrite V by done. by rewrite fmap_is_Some. }
  assert (∀ j, is_Some (m !! j) → is_u64 j) as Hu by (intros j [l Hl]; by apply (R j l)).
  apply map_choose in Hne as (i & l & Hl). assert (is_Some (m !! i)) as Hi by eauto.
  destruct (log_bounds s i K (Hu _ Hi)) as (_ & Hf & Hla); [by apply Hs; auto|].
  pose proof (index_u64 s) as [Uf Ul].
  split; right; (split; [by apply Hs|]); intros j Hj;
    destruct (log_bounds s j K (Hu _ Hj)) as ([? ?] & _); [by apply Hs; auto|lia|by apply Hs; auto|lia].
Qed.

End refinement.
