(* ===== verification/ControlFsm.v ===== *)
(** * The replicated state machine ([internal/controlplane/fsm.go])

    The canonical state of the cluster: path normalisation, the route-ownership
    invariant, the application of a Raft log entry as one transaction with its
    replay watermark, projection of the result to files, and snapshots.

    [encoding/json] is a class of the decoders the code uses, the file system a
    class with the two effects of the projection. *)

From Stdlib Require Import Strings.Byte.
From stdpp Require Import pretty.
From S2P Require Import Prelude GoLib GoStrings GoEncoding Float64 Netip Crypto ControlStore.

Definition CommandVersion : Z := 1.
Definition ControlSchemaVersion : Z := 1.

Definition replicatedPrefixes : list string :=
  ["control/identity/users/"; "control/identity/usernames/"; "control/identity/access/";
   "control/identity/refresh/"; "control/devices/"; "control/device-addresses/";
   "control/device-public-keys/"; "control/access/"; "control/p2p-delivery/";
   "control/node-join/"; "control/node-join-used/"; "control/nodes/";
   "control/node-public-keys/"; "control/node-credentials/"; "control/routes/";
   "control/topology/links/"; "control/revocations/"; "cluster/controllers/"].

Definition replicatedExact : list string := ["cluster/cluster.json"; "control/config.json"].

Record Operation := mkOperation {
  Op : string;
  Op_Path : string;
  Op_Data : bytes;
  IfAbsent : bool;
  RequirePresent : bool;
  ExpectedSHA256 : string;
}.

Record Mutation := mkMutation {
  Mut_Version : Z;
  Mut_ID : string;
  Mut_Kind : string;
  Mut_IssuedAt : Z;
  Mut_Operations : list Operation;
  Mut_RevisionMinimum : Z;
}.

Record MutationResult := mkMutationResult {
  CommitIndex : Z;
  Res_OK : bool;
  Res_Revision : Z;
  Res_Error : string;
  Res_Conflict : bool;
}.

Definition mutation_error (e : string) : MutationResult := mkMutationResult 0 false 0 e false.

Record snapshotEnvelope := mkEnvelope {
  Env_Version : Z;
  Env_SchemaVersion : Z;
  Env_Revision : Z;
  Env_Entries : gmap string bytes;
  Env_Checksum : string;
}.

Record routeOwnershipRecord := mkRouteRecord {
  RR_CIDR : string;
  RR_NodeID : string;
  RR_OwnerNodeID : string;
}.

Record routeOwnerNodeRecord := mkNodeRecord {
  NR_AuthorizedRoutes : option (list string);
  NR_AdvertisedRoutes : list string;
  NR_NodeID : string;
  NR_Revoked : bool;
  NR_Roles : gmap string bool;
}.

Record validatedRouteOwnership := mkValidated {
  VO_path : string;
  VO_owner : string;
  VO_prefix : Prefix;
}.

(** [encoding/json] for the types of this file.  [json_string] holds of the strings
    it preserves, those that are valid UTF-8. *)
Class ControlJson := {
  json_mutation : bytes → option Mutation;
  json_mutation_u64 : ∀ raw m, json_mutation raw = Some m → is_u64 (Mut_RevisionMinimum m);
  json_route : bytes → option routeOwnershipRecord;
  json_node : bytes → option routeOwnerNodeRecord;
  json_marshal_envelope : snapshotEnvelope → bytes;
  json_envelope : bytes → option snapshotEnvelope;
  json_string : string → bool;
  json_string_hex : ∀ b, json_string (hex_encode b) = true;
  json_envelope_roundtrip : ∀ e,
    is_u64 (Env_Version e) → is_u64 (Env_SchemaVersion e) → is_u64 (Env_Revision e) →
    (∀ p, is_Some (Env_Entries e !! p) → json_string p = true) →
    json_string (Env_Checksum e) = true →
    json_envelope (json_marshal_envelope e) = Some e;
}.

(** The files of the projection: [fs_write] is [atomicProjectionWrite] and
    [fs_remove] is [os.Remove] with a missing file counted as removed; the flag
    tells success.  A failed call may change the file it names and no other. *)
Class ProjectionFS (F : Type) := {
  fs_files : F → gmap string bytes;
  fs_write : F → string → bytes → F * bool;
  fs_remove : F → string → F * bool;
  fs_write_ok : ∀ f p d f', fs_write f p d = (f', true) → fs_files f' = <[p := d]> (fs_files f);
  fs_remove_ok : ∀ f p f', fs_remove f p = (f', true) → fs_files f' = delete p (fs_files f);
  fs_write_frame : ∀ f p d q, p ≠ q → fs_files (fs_write f p d).1 !! q = fs_files f !! q;
  fs_remove_frame : ∀ f p q, p ≠ q → fs_files (fs_remove f p).1 !! q = fs_files f !! q;
}.

Definition NormalizeReplicatedPath (path : string) : result string :=
  let clean := filepath_clean (trim_space path) in
  let clean := trim_prefix clean "./" in
  check (String.eqb clean "." || String.eqb clean "" || has_prefix clean "../" || is_abs path)
    "invalid canonical path" ;;
  if bool_decide (clean ∈ replicatedExact) then Ok clean
  else if List.existsb (λ prefix, has_prefix clean prefix
                          && (str_len prefix <? str_len clean)) replicatedPrefixes
  then Ok clean
  else Err "path is not replicated canonical state: %s".

(** [strings.ToLower] on ASCII letters, compared with a hexadecimal digest. *)
Definition lower_byte (b : byte) : byte :=
  if (65 <=? byte_val b) && (byte_val b <=? 90) then byte_of (byte_val b + 32) else b.
Definition to_lower (s : string) : string := bytes_str (lower_byte <$> str_bytes s).

Section fsm.
Context `{HS : Hashes} `{GS : GoSort} `{CJ : ControlJson}.
Context {B : Type} `{BB : BoltBucket B} {F : Type} `{PF : ProjectionFS F}.

Definition sha256Hex (value : bytes) : string := hex_encode (sha256 value).

(** The entries under a prefix, as they will be after the operations. *)
Definition resultingPrefixRecords (canon : gmap string bytes) (prefix : string)
    (ops : list Operation) : gmap string bytes :=
  let result := filter (λ '(k, _), has_prefix k prefix = true) canon in
  fold_left (λ result op,
    if negb (has_prefix (Op_Path op) prefix) then result
    else if String.eqb (Op op) "put" then <[Op_Path op := Op_Data op]> result
    else if String.eqb (Op op) "delete" then delete (Op_Path op) result
    else result) ops result.

Definition grant_covers (prefix : Prefix) (rawGrant : string) : bool :=
  match parse_prefix4 rawGrant with
  | Some grant => (0 <? pfx_bits grant) && (pfx_bits grant <=? pfx_bits prefix)
                  && prefix_contains (prefix_masked grant) (pfx_addr prefix)
  | None => false
  end.

(** One iteration of the loop over the routes. *)
Definition validate_route (nodes : gmap string bytes) (path : string) (raw : bytes)
    : result validatedRouteOwnership :=
  match json_route raw with
  | None => Err "invalid route ownership record: %s"
  | Some record =>
      let owner := trim_space (RR_OwnerNodeID record) in
      let owner := if String.eqb owner "" then trim_space (RR_NodeID record) else owner in
      check (String.eqb owner ""
             || (negb (String.eqb (RR_NodeID record) "")
                 && negb (String.eqb (trim_space (RR_NodeID record)) owner)))
        "route owner identity mismatch: %s" ;;
      match parse_prefix4 (trim_space (RR_CIDR record)) with
      | None => Err "invalid or default route ownership: %s"
      | Some prefix =>
          check (pfx_bits prefix =? 0) "invalid or default route ownership: %s" ;;
          let prefix := prefix_masked prefix in
          match nodes !! ("control/nodes/" +:+ owner +:+ ".json") with
          | None => Err "route owner Node does not exist: %s"
          | Some nodeRaw =>
              match json_node nodeRaw with
              | None => Err "invalid route owner Node record: %s"
              | Some node =>
                  check (negb (String.eqb (trim_space (NR_NodeID node)) owner)
                         || NR_Revoked node
                         || negb (default false (NR_Roles node !! "site_router")))
                    "route owner is not an active site_router: %s" ;;
                  let grants := default (NR_AdvertisedRoutes node) (NR_AuthorizedRoutes node) in
                  check (negb (List.existsb (grant_covers prefix) grants))
                    "route is outside Controller route policy: %s" ;;
                  Ok (mkValidated path owner prefix)
              end
          end
      end
  end.

Fixpoint validate_routes (nodes : gmap string bytes) (routes : list (string * bytes))
    : result (list validatedRouteOwnership) :=
  match routes with
  | [] => Ok []
  | (path, raw) :: rest =>
      v ← validate_route nodes path raw;
      vs ← validate_routes nodes rest;
      Ok (v :: vs)
  end.

(** The two nested loops over the sorted routes. *)
Fixpoint ownership_conflict (validated : list validatedRouteOwnership) : bool :=
  match validated with
  | [] => false
  | v :: rest =>
      List.existsb (λ w, negb (String.eqb (VO_owner v) (VO_owner w))
                           && prefix_overlaps (VO_prefix v) (VO_prefix w)) rest
      || ownership_conflict rest
  end.

(** The empty string for a valid state, as in the code.  Which of several
    problems is reported depends on Go's map iteration order; the model takes
    that of [map_to_list]. *)
Definition validateRouteOwnershipInvariant (canon : gmap string bytes) (ops : list Operation)
    : string :=
  let routes := resultingPrefixRecords canon "control/routes/" ops in
  let nodes := resultingPrefixRecords canon "control/nodes/" ops in
  match validate_routes nodes (map_to_list routes) with
  | Ok validated =>
      let validated := sort_slice (λ a b, String.ltb (VO_path a) (VO_path b)) validated in
      if ownership_conflict validated
      then "route ownership conflict: %s owned by %s overlaps %s owned by %s" else ""
  | Err e => e
  | Panic => "panic"
  end.

Fixpoint normalize_ops (ops : list Operation) : result (list Operation) :=
  match ops with
  | [] => Ok []
  | op :: rest =>
      path ← NormalizeReplicatedPath (Op_Path op);
      check (negb (String.eqb (Op op) "put") && negb (String.eqb (Op op) "delete"))
        "unsupported operation: %s" ;;
      rest ← normalize_ops rest;
      Ok (mkOperation (Op op) path (Op_Data op) (IfAbsent op) (RequirePresent op)
            (ExpectedSHA256 op) :: rest)
  end.

(** The conflict of one operation's preconditions, the empty string for none. *)
Definition precondition (canon : gmap string bytes) (op : Operation) : string :=
  let existing := canon !! Op_Path op in
  if IfAbsent op && bool_decide (is_Some existing) then "path already exists: %s"
  else if RequirePresent op && bool_decide (existing = None) then "path does not exist: %s"
  else if negb (String.eqb (ExpectedSHA256 op) "")
       && match existing with
          | None => true
          | Some value => negb (String.eqb (sha256Hex value) (to_lower (ExpectedSHA256 op)))
          end then "precondition failed: %s"
  else "".

Fixpoint preconditions (canon : gmap string bytes) (ops : list Operation) : string :=
  match ops with
  | [] => ""
  | op :: rest =>
      let conflict := precondition canon op in
      if negb (String.eqb conflict "") then conflict else preconditions canon rest
  end.

Fixpoint write_ops (b : B) (ops : list Operation) : option B :=
  match ops with
  | [] => Some b
  | op :: rest =>
      b ← (if String.eqb (Op op) "put" then bolt_put b (Op_Path op) (Op_Data op)
           else if String.eqb (Op op) "delete" then bolt_delete b (Op_Path op)
           else Some b);
      write_ops b rest
  end.

Definition set_canonical (s : Store B) c m : Store B :=
  mkStore (raft_logs s) (raft_stable s) c m.

Definition max_u64 : Z := 2 ^ 64 - 1.

(** The body of the transaction of [Apply]: the new buckets with the revision,
    the conflict and the replay flag, or an error. *)
Definition apply_tx (s : Store B) (command : Mutation) (ops : list Operation) (idx : Z)
    : result (Store B * Z * string * bool) :=
  let meta := canonical_meta s in
  let canon := canonical s in
  let rev := revision s in
  if negb (idx =? 0) && (idx <=? appliedIndex s) then Ok (s, rev, "", true)
  else
    match (if negb (idx =? 0) then bolt_put meta keyAppliedIndex (u64key idx) else Some meta) with
    | None => Err "bolt"
    | Some meta =>
        let conflict := preconditions (bolt_view canon) ops in
        let conflict := if String.eqb conflict ""
                        then validateRouteOwnershipInvariant (bolt_view canon) ops
                        else conflict in
        if negb (String.eqb conflict "") then Ok (set_canonical s canon meta, rev, conflict, false)
        else
          next ← (if String.eqb (Mut_Kind command) "ReconcileRevision"
                  then Ok (if rev <? Mut_RevisionMinimum command
                           then Mut_RevisionMinimum command else rev)
                  else check (rev =? max_u64) "canonical revision exhausted" ;; Ok (rev + 1));
          match write_ops canon ops with
          | None => Err "bolt"
          | Some canon =>
              match bolt_put meta keyRevision (u64key next) with
              | None => Err "bolt"
              | Some meta =>
                  match bolt_put meta keySchema (u64key ControlSchemaVersion) with
                  | None => Err "bolt"
                  | Some meta => Ok (set_canonical s canon meta, next, "", false)
                  end
              end
          end
    end.

Record StateMachine := mkFSM { fsm_store : Store B; fsm_root : string; fsm_fs : F }.

Definition NewStateMachine (store : Store B) (stateRoot : string) (fs : F) : StateMachine :=
  mkFSM store (filepath_clean stateRoot) fs.

(** The loop of [projectOperations]: it stops at the first error, and what was
    written before stays. *)
Fixpoint project_ops (root : string) (fs : F) (ops : list Operation) : F * result unit :=
  match ops with
  | [] => (fs, Ok tt)
  | op :: rest =>
      let target := filepath_join root (Op_Path op) in
      if negb (has_prefix (filepath_clean target +:+ "/") (root +:+ "/"))
      then (fs, Err "projection escaped state root")
      else
        let '(fs, ok) :=
          if String.eqb (Op op) "put" then fs_write fs target (Op_Data op)
          else if String.eqb (Op op) "delete" then fs_remove fs target
          else (fs, true) in
        if ok then project_ops root fs rest else (fs, Err "projection")
  end.

Definition projectOperations (f : StateMachine) (ops : list Operation)
    : StateMachine * result unit :=
  let '(fs, res) := project_ops (fsm_root f) (fsm_fs f) ops in
  (mkFSM (fsm_store f) (fsm_root f) fs, res).

(** The checks of a command before the transaction. *)
Definition check_command (command : Mutation) : result unit :=
  check (negb (Mut_Version command =? CommandVersion) || String.eqb (Mut_ID command) ""
         || String.eqb (Mut_Kind command) "") "unsupported or incomplete mutation" ;;
  if String.eqb (Mut_Kind command) "ReconcileRevision"
  then check ((Mut_RevisionMinimum command =? 0) || negb (zlen (Mut_Operations command) =? 0))
         "invalid revision reconciliation"
  else check (negb (Mut_RevisionMinimum command =? 0))
         "revision minimum requires administrative reconciliation".

Definition Apply (f : StateMachine) (log : Log) : StateMachine * MutationResult :=
  match json_mutation (Log_Data log) with
  | None => (f, mutation_error "invalid mutation encoding: %s")
  | Some command =>
      match (check_command command ;; normalize_ops (Mut_Operations command)) with
      | Err e => (f, mutation_error e)
      | Panic => (f, mutation_error "panic")
      | Ok normalized =>
          match apply_tx (fsm_store f) command normalized (Log_Index log) with
          | Err e => (f, mutation_error e)
          | Panic => (f, mutation_error "panic")
          | Ok (store, rev, conflict, replay) =>
              let f := mkFSM store (fsm_root f) (fsm_fs f) in
              if negb (String.eqb conflict "")
              then (f, mkMutationResult 0 false rev conflict true)
              else if replay then (f, mkMutationResult 0 true rev "" false)
              else
                let '(f, res) := projectOperations f normalized in
                match res with
                | Ok _ => (f, mkMutationResult 0 true rev "" false)
                | _ => (f, mkMutationResult 0 false rev
                             "state committed but projection failed: %s" false)
                end
          end
      end
  end.

(** ** Snapshots *)

Definition snapshot_line (entries : gmap string bytes) (path : string) : bytes :=
  str_bytes path ++ [x00] ++ str_bytes (sha256Hex (default [] (entries !! path))) ++ [x0a].

Definition sorted_paths (entries : gmap string bytes) : list string :=
  sort_slice String.ltb (fst <$> map_to_list entries).

Definition snapshotChecksum (schema rev : Z) (entries : gmap string bytes) : string :=
  hex_encode (sha256
    (str_bytes "schema=" ++ str_bytes (pretty schema) ++ [x0a] ++
     str_bytes "revision=" ++ str_bytes (pretty rev) ++ [x0a] ++
     concat (snapshot_line entries <$> sorted_paths entries))).

Definition checkSnapshotRevisionFloor (s : Store B) (rev : Z) : result unit :=
  check (rev <? revisionFloor s) "cannot snapshot canonical revision %d below preserved floor %d".

Definition ExportSnapshot (f : StateMachine) : result bytes :=
  let s := fsm_store f in
  checkSnapshotRevisionFloor s (revision s) ;;
  Ok (json_marshal_envelope
        (mkEnvelope 1 (schemaVersion s) (revision s) (canonicalEntries s)
           (snapshotChecksum (schemaVersion s) (revision s) (canonicalEntries s)))).

Definition Snapshot (f : StateMachine) : result bytes := ExportSnapshot f.

Fixpoint put_entries (b : B) (entries : list (string * bytes)) : option B :=
  match entries with
  | [] => Some b
  | (k, v) :: rest => b ← bolt_put b k v; put_entries b rest
  end.

Definition restore_tx (s : Store B) (envelope : snapshotEnvelope) : result (Store B) :=
  for_each (λ path, NormalizeReplicatedPath path ;; Ok tt)
    (fst <$> map_to_list (Env_Entries envelope)) ;;
  let paths := sorted_paths (Env_Entries envelope) in
  match put_entries bolt_empty
          ((λ p, (p, default [] (Env_Entries envelope !! p))) <$> paths) with
  | None => Err "bolt"
  | Some canon =>
      match (meta ← bolt_delete (canonical_meta s) keyAppliedIndex;
             meta ← bolt_put meta keyRevision (u64key (Env_Revision envelope));
             bolt_put meta keySchema (u64key (Env_SchemaVersion envelope))) with
      | None => Err "bolt"
      | Some meta => Ok (set_canonical s canon meta)
      end
  end.

(** The durable part of [Restore]; the projection is rebuilt afterwards. *)
Definition restore_store (s : Store B) (raw : bytes) : Store B * result unit :=
  match json_envelope raw with
  | None => (s, Err "json")
  | Some envelope =>
      if negb (Env_Version envelope =? 1) || (ControlSchemaVersion <? Env_SchemaVersion envelope)
      then (s, Err "incompatible canonical snapshot schema")
      else if negb (String.eqb (snapshotChecksum (Env_SchemaVersion envelope)
                      (Env_Revision envelope) (Env_Entries envelope)) (Env_Checksum envelope))
      then (s, Err "canonical snapshot checksum mismatch")
      else match restore_tx s envelope with
           | Ok s' => (s', Ok tt)
           | Err e => (s, Err e)
           | Panic => (s, Panic)
           end
  end.

Definition FSM_Revision (f : StateMachine) : Z := revision (fsm_store f).
Definition FSM_SchemaVersion (f : StateMachine) : Z := schemaVersion (fsm_store f).
End fsm.

Arguments StateMachine B F : clear implicits.

(** ** Paths *)

Lemma has_prefix_head s p c : has_prefix s p = true → no_slash c → has_prefix p (c +:+ "/") = true →
  head (split_slash s) = Some c.
Proof.
  intros [r ->]%has_prefix_spec Hc [r' ->]%has_prefix_spec.
  by rewrite !str_app_assoc, split_app_slash.
Qed.

Lemma replicated_prefix_head p :
  p ∈ replicatedPrefixes ++ replicatedExact →
  has_prefix p "control/" = true ∨ has_prefix p "cluster/" = true.
Proof.
  intros Hp. assert (List.forallb (λ p, has_prefix p "control/" || has_prefix p "cluster/")
    (replicatedPrefixes ++ replicatedExact) = true) as H by done.
  apply list_elem_of_In in Hp. apply (proj1 (forallb_forall _ _) H) in Hp.
  by apply orb_true_iff in Hp.
Qed.

Lemma clean_no_dot p : has_prefix (filepath_clean p) "./" = false.
Proof.
  destruct (has_prefix (filepath_clean p) "./") eqn:E; [|done]. exfalso.
  assert (head (split_slash (filepath_clean p)) = Some ".") as Hh
    by (by apply (has_prefix_head _ "./" ".")).
  unfold filepath_clean in Hh. destruct (is_abs p) eqn:A.
  { by change ("/" +:+ ?x) with ("" +:+ "/" +:+ x) in Hh; rewrite split_app_slash in Hh by done. }
  destruct (reverse (clean_stack false (split_slash p))) as [|c cs] eqn:R.
  { apply has_prefix_spec in E as [r E]. unfold filepath_clean in E. by rewrite A, R in E. }
  rewrite split_join in Hh; [|done|rewrite <- R; apply Forall_reverse, clean_stack_no_slash].
  injection Hh as ->. destruct (clean_stack_inv false (split_slash p)) as (n & k & Ek & F).
  assert ("." ∈ clean_stack false (split_slash p)) as Hin.
  { rewrite <- elem_of_reverse, R. left. }
  rewrite Ek in Hin. apply elem_of_app in Hin as [Hin|Hin].
  - rewrite Forall_forall in F. by destruct (F _ Hin) as (_ & ? & _).
  - apply elem_of_replicate in Hin as [? _]. done.
Qed.

(** What an accepted path is: it names a replicated record, its components are
    plain, and it is what [filepath.Clean] makes of the trimmed input. *)
Lemma normalize_Ok path p :
  NormalizeReplicatedPath path = Ok p →
  p = filepath_clean (trim_space path) ∧ Forall plain_component (split_slash p) ∧
  (p ∈ replicatedExact ∨ ∃ prefix, prefix ∈ replicatedPrefixes ∧ has_prefix p prefix = true
     ∧ str_len prefix < str_len p).
Proof.
  unfold NormalizeReplicatedPath, trim_prefix. rewrite clean_no_dot.
  set (clean := filepath_clean (trim_space path)). intros [G E]%check_then.
  assert (p = clean ∧ (p ∈ replicatedExact ∨ ∃ prefix, prefix ∈ replicatedPrefixes ∧
    has_prefix p prefix = true ∧ str_len prefix < str_len p)) as [-> Hrep].
  { case_bool_decide; [injection E as <-; auto|]. destruct (List.existsb _ _) eqn:Ex; [|done].
    injection E as <-. split; [done|]. right. apply existsb_exists in Ex as (q & Hq & Hb).
    exists q. guards. split_and!; [by apply list_elem_of_In|naive_solver..]. }
  split_and!; [done| |done]. clear E.
  assert (head (split_slash clean) = Some "control" ∨ head (split_slash clean) = Some "cluster") as Hh.
  { assert (∃ q, q ∈ replicatedPrefixes ++ replicatedExact ∧ has_prefix clean q = true) as (q & Hq & Hp).
    { destruct Hrep as [?|(q & ? & ? & _)]; [|exists q; split; [apply elem_of_app; by left|done]].
      exists clean. split; [apply elem_of_app; by right|]. apply has_prefix_spec. exists "". by rewrite str_app_nil. }
    apply replicated_prefix_head in Hq as [Hq|Hq];
      [left; by apply (has_prefix_head _ q "control")|right; by apply (has_prefix_head _ q "cluster")]. }
  apply clean_rel_plain.
  - destruct (is_abs (trim_space path)) eqn:A; [|done]. unfold clean, filepath_clean in Hh.
    rewrite A in Hh. change ("/" +:+ ?x) with ("" +:+ "/" +:+ x) in Hh.
    rewrite split_app_slash in Hh by done. by destruct Hh.
  - intros Ec. unfold clean in Hh. rewrite Ec in Hh. by destruct Hh.
  - fold clean. by destruct Hh as [->| ->].
Qed.

(** ** The state the operations produce *)

Definition apply_op (st : gmap string bytes) (op : Operation) : gmap string bytes :=
  if String.eqb (Op op) "put" then <[Op_Path op := Op_Data op]> st
  else if String.eqb (Op op) "delete" then delete (Op_Path op) st else st.

Definition apply_ops (st : gmap string bytes) (ops : list Operation) : gmap string bytes :=
  fold_left apply_op ops st.

Definition under (prefix : string) (st : gmap string bytes) : gmap string bytes :=
  filter (λ '(k, _), has_prefix k prefix = true) st.

Lemma under_apply_op prefix st op :
  under prefix (apply_op st op) =
  if has_prefix (Op_Path op) prefix then apply_op (under prefix st) op else under prefix st.
Proof.
  unfold apply_op, under. destruct (has_prefix (Op_Path op) prefix) eqn:H.
  - repeat case_match; [by rewrite map_filter_insert_True|by rewrite map_filter_delete|done].
  - repeat case_match; [|by rewrite map_filter_delete_not by congruence|done].
    rewrite map_filter_insert_False by congruence.
    apply map_filter_delete_not. intros ? _. congruence.
Qed.

Lemma resulting_records st prefix ops :
  resultingPrefixRecords st prefix ops = under prefix (apply_ops st ops).
Proof.
  unfold resultingPrefixRecords, apply_ops. fold (under prefix st). revert st.
  induction ops as [|op ops IH]; intros st; cbn; [done|].
  rewrite <- IH. f_equal. rewrite under_apply_op.
  destruct (has_prefix (Op_Path op) prefix); done.
Qed.

Lemma write_ops_view {B} `{BoltBucket B} (b : B) ops b' :
  write_ops b ops = Some b' → bolt_view b' = apply_ops (bolt_view b) ops.
Proof.
  revert b. induction ops as [|op ops IH]; intros b E; cbn in E; [by simplify_eq|].
  apply bind_Some in E as (b1 & E1 & E). rewrite (IH _ E).
  change (apply_ops (bolt_view b) (op :: ops)) with (apply_ops (apply_op (bolt_view b) op) ops).
  f_equal. unfold apply_op.
  destruct (String.eqb (Op op) "put"); [by apply bolt_put_view|].
  destruct (String.eqb (Op op) "delete"); [by apply bolt_delete_view|by simplify_eq].
Qed.

(** ** Route ownership *)

Section ownership.
Context `{HS : Hashes} `{GS : GoSort} `{CJ : ControlJson}.
Implicit Types st : gmap string bytes.

Definition record_owner (r : routeOwnershipRecord) : string :=
  let owner := trim_space (RR_OwnerNodeID r) in
  if String.eqb owner "" then trim_space (RR_NodeID r) else owner.

(** [owns st owner addr]: a route record of the state gives the address to the
    owner. *)
Definition owns st (owner : string) (a : Z) : Prop :=
  ∃ path raw record prefix, st !! path = Some raw ∧ has_prefix path "control/routes/" = true ∧
    json_route raw = Some record ∧ record_owner record = owner ∧
    parse_prefix4 (trim_space (RR_CIDR record)) = Some prefix ∧ prefix_contains prefix a = true.

(** The owner is an active site router with a grant that contains the address. *)
Definition active_owner st (owner : string) (a : Z) : Prop :=
  ∃ raw node grant prefix, st !! ("control/nodes/" +:+ owner +:+ ".json") = Some raw ∧
    json_node raw = Some node ∧ NR_Revoked node = false ∧
    NR_Roles node !! "site_router" = Some true ∧
    grant ∈ default (NR_AdvertisedRoutes node) (NR_AuthorizedRoutes node) ∧
    parse_prefix4 grant = Some prefix ∧ 0 < pfx_bits prefix ∧ prefix_contains prefix a = true.

(** What the validator establishes of a state. *)
Record ownership_ok st : Prop := {
  oo_valid : ∀ path raw, under "control/routes/" st !! path = Some raw →
    ∃ v, validate_route (under "control/nodes/" st) path raw = Ok v;
  oo_disjoint : ∀ p1 raw1 v1 p2 raw2 v2,
    under "control/routes/" st !! p1 = Some raw1 → under "control/routes/" st !! p2 = Some raw2 →
    validate_route (under "control/nodes/" st) p1 raw1 = Ok v1 →
    validate_route (under "control/nodes/" st) p2 raw2 = Ok v2 →
    VO_owner v1 ≠ VO_owner v2 → prefix_overlaps (VO_prefix v1) (VO_prefix v2) = false;
}.

Lemma validate_routes_Ok nodes routes vs :
  validate_routes nodes routes = Ok vs →
  (∀ path raw, (path, raw) ∈ routes → ∃ v, v ∈ vs ∧ validate_route nodes path raw = Ok v).
Proof.
  revert vs. induction routes as [|[p r] routes IH]; intros vs E path raw Hin; cbn in E.
  { by apply elem_of_nil in Hin. }
  apply bind_Ok in E as (v & Hv & E). apply bind_Ok in E as (vs' & Hvs & E). injection E as <-.
  apply elem_of_cons in Hin as [[= -> ->]|Hin]; [exists v; split; [left|done]|].
  destruct (IH _ Hvs _ _ Hin) as (w & ? & ?). exists w. split; [by right|done].
Qed.

Lemma ownership_conflict_false vs v w :
  ownership_conflict vs = false → v ∈ vs → w ∈ vs → VO_owner v ≠ VO_owner w →
  prefix_overlaps (VO_prefix v) (VO_prefix w) = false.
Proof.
  induction vs as [|x vs IH]; intros E Hv Hw Hne; [by apply elem_of_nil in Hv|].
  cbn in E. apply orb_false_iff in E as [Ex E].
  assert (∀ y, y ∈ vs → VO_owner x ≠ VO_owner y →
            prefix_overlaps (VO_prefix x) (VO_prefix y) = false) as Hx.
  { intros y Hy Hxy. apply not_true_iff_false. intros Ho.
    apply not_true_iff_false in Ex. apply Ex, existsb_exists. exists y.
    split; [by apply list_elem_of_In|]. rewrite Ho. guards. done. }
  apply elem_of_cons in Hv as [->|Hv], Hw as [->|Hw]; [done|by apply Hx| |by apply IH].
  rewrite prefix_overlaps_sym. by apply Hx.
Qed.

Lemma validate_route_message nodes path raw e :
  validate_route nodes path raw = Err e → e ≠ "".
Proof.
  intros E ->. unfold validate_route in E. destruct (json_route raw) as [record|]; [|done].
  apply check_err in E; [|done]. destruct (parse_prefix4 _) as [prefix|]; [|done].
  apply check_err in E; [|done]. destruct (nodes !! _) as [nodeRaw|]; [|done].
  destruct (json_node nodeRaw) as [node|]; [|done].
  do 2 (apply check_err in E; [|done]). done.
Qed.

Lemma validate_routes_message nodes routes : validate_routes nodes routes ≠ Err "".
Proof.
  induction routes as [|[p r] routes IH]; cbn; [done|].
  destruct (validate_route nodes p r) as [v|e|] eqn:V; cbn;
    [|apply validate_route_message in V; congruence|done].
  destruct (validate_routes nodes routes) as [| |] eqn:R; cbn; congruence.
Qed.

Lemma validate_ok st ops :
  validateRouteOwnershipInvariant st ops = "" → ownership_ok (apply_ops st ops).
Proof.
  unfold validateRouteOwnershipInvariant. rewrite !resulting_records.
  set (st' := apply_ops st ops).
  destruct (validate_routes _ _) as [vs|e|] eqn:E; [| |done].
  2: { intros ->. by apply validate_routes_message in E. }
  destruct (ownership_conflict _) eqn:C; [done|]. intros _.
  assert (∀ path raw v, under "control/routes/" st' !! path = Some raw →
    validate_route (under "control/nodes/" st') path raw = Ok v →
    v ∈ sort_slice (λ a b, String.ltb (VO_path a) (VO_path b)) vs) as Hin.
  { intros path raw v Hp Hv. apply sort_slice_elem.
    destruct (validate_routes_Ok _ _ _ E path raw) as (w & ? & ?);
      [by apply elem_of_map_to_list|]. congruence. }
  constructor.
  - intros path raw Hp. destruct (validate_routes_Ok _ _ _ E path raw) as (w & ? & ?);
      [by apply elem_of_map_to_list|eauto].
  - intros p1 r1 v1 p2 r2 v2 H1 H2 V1 V2. apply (ownership_conflict_false _ _ _ C); eauto.
Qed.

Lemma validate_route_Ok nodes path raw v :
  validate_route nodes path raw = Ok v →
  ∃ record prefix nodeRaw node grant gp,
    json_route raw = Some record ∧ VO_owner v = record_owner record ∧
    parse_prefix4 (trim_space (RR_CIDR record)) = Some prefix ∧ VO_prefix v = prefix_masked prefix ∧
    nodes !! ("control/nodes/" +:+ VO_owner v +:+ ".json") = Some nodeRaw ∧
    json_node nodeRaw = Some node ∧ NR_Revoked node = false ∧
    NR_Roles node !! "site_router" = Some true ∧
    grant ∈ default (NR_AdvertisedRoutes node) (NR_AuthorizedRoutes node) ∧
    parse_prefix4 grant = Some gp ∧ 0 < pfx_bits gp <= pfx_bits prefix ∧
    prefix_contains (prefix_masked gp) (pfx_addr (prefix_masked prefix)) = true.
Proof.
  unfold validate_route. intros E. destruct (json_route raw) as [record|]; [|done].
  apply check_then in E as [_ E]. destruct (parse_prefix4 _) as [prefix|] eqn:P; [|done].
  apply check_then in E as [_ E]. destruct (nodes !! _) as [nodeRaw|] eqn:N; [|done].
  destruct (json_node nodeRaw) as [node|] eqn:J; [|done].
  apply check_then in E as [G1 E]. apply check_then in E as [G2 E]. injection E as <-.
  guards. destruct G1 as [[G1 G1'] G1'']. apply existsb_exists in G2 as (grant & Hg & Hc).
  unfold grant_covers in Hc. destruct (parse_prefix4 grant) as [gp|] eqn:PG; [|done]. guards.
  exists record, prefix, nodeRaw, node, grant, gp. cbn [VO_owner VO_prefix].
  split_and!; try done; try lia.
  - by destruct (NR_Roles node !! "site_router") as [[]|].
  - by apply list_elem_of_In.
  - by destruct Hc as [[_ ?] _].
  - by destruct Hc as [_ ?].
Qed.

(** A longer prefix whose address lies in a shorter one is contained in it. *)
Lemma grant_contains gp prefix a :
  prefix_valid gp → prefix_valid prefix → pfx_bits gp <= pfx_bits prefix →
  prefix_contains (prefix_masked gp) (pfx_addr (prefix_masked prefix)) = true →
  prefix_contains prefix a = true → prefix_contains gp a = true.
Proof.
  intros [_ Bg] [_ Bp] Hb Hc Ha. rewrite prefix_masked_contains in Hc by done.
  apply (prefix_contains_sub gp (prefix_masked prefix)); cbn; try (done || lia).
  by rewrite prefix_masked_contains.
Qed.

Lemma under_Some prefix st k v :
  under prefix st !! k = Some v ↔ st !! k = Some v ∧ has_prefix k prefix = true.
Proof. unfold under. by rewrite map_lookup_filter_Some. Qed.

(** In a validated state every owned address has one owner, and it is active. *)
Lemma ownership_unique st o1 o2 a :
  ownership_ok st → addr_valid a → owns st o1 a → owns st o2 a → o1 = o2.
Proof.
  intros [V D] Ha (p1 & raw1 & r1 & x1 & S1 & H1 & J1 & <- & P1 & C1)
    (p2 & raw2 & r2 & x2 & S2 & H2 & J2 & <- & P2 & C2).
  assert (under "control/routes/" st !! p1 = Some raw1) as U1 by by apply under_Some.
  assert (under "control/routes/" st !! p2 = Some raw2) as U2 by by apply under_Some.
  destruct (V _ _ U1) as [v1 V1], (V _ _ U2) as [v2 V2].
  pose proof (validate_route_Ok _ _ _ _ V1) as (r1' & y1 & _ & _ & _ & _ & J1' & O1 & P1' & X1 & _).
  pose proof (validate_route_Ok _ _ _ _ V2) as (r2' & y2 & _ & _ & _ & _ & J2' & O2 & P2' & X2 & _).
  rewrite J1 in J1'. injection J1' as <-. rewrite J2 in J2'. injection J2' as <-.
  rewrite P1 in P1'. injection P1' as <-. rewrite P2 in P2'. injection P2' as <-.
  rewrite <- O1, <- O2. destruct (decide (VO_owner v1 = VO_owner v2)) as [|Hne]; [done|].
  specialize (D _ _ _ _ _ _ U1 U2 V1 V2 Hne). apply not_true_iff_false in D. destruct D.
  apply parse_prefix4_valid in P1 as W1, P2 as W2. rewrite X1, X2.
  apply prefix_overlaps_spec; [by apply prefix_masked_valid..|].
  destruct W1, W2. exists a. by rewrite !prefix_masked_contains.
Qed.

Lemma ownership_active st o a :
  ownership_ok st → owns st o a → active_owner st o a.
Proof.
  intros [V _] (p & raw & r & x & S & H & J & <- & P & C).
  assert (under "control/routes/" st !! p = Some raw) as U by by apply under_Some.
  destruct (V _ _ U) as [v Hv].
  apply validate_route_Ok in Hv as (r' & y & nraw & node & grant & gp & J' & O & P' & X &
    N & JN & Rv & Ro & Hg & PG & Hb & Hc).
  rewrite J in J'. injection J' as <-. rewrite P in P'. injection P' as <-.
  apply under_Some in N as [N _]. rewrite O in N.
  exists nraw, node, grant, gp. split_and!; try done; try lia.
  apply (grant_contains gp x); [by eapply parse_prefix4_valid..|lia|done|done].
Qed.
End ownership.

(** ** Applying log entries *)

Section apply_facts.
Context `{HS : Hashes} `{GS : GoSort} `{CJ : ControlJson}.
Context {B : Type} `{BB : BoltBucket B} {F : Type} `{PF : ProjectionFS F}.
Implicit Types (s : Store B) (f : StateMachine B F).

Definition state_of s : gmap string bytes := bolt_view (canonical s).

Lemma meta_put (b b' : B) k z k' :
  bolt_put b k (u64key z) = Some b' → is_u64 z →
  decode_opt (bolt_get b' k') = if decide (k' = k) then z else decode_opt (bolt_get b k').
Proof.
  intros E Hz. unfold bolt_get. rewrite (bolt_put_view _ _ _ _ E). case_decide as Hk.
  - subst. rewrite lookup_insert_eq. cbn [decode_opt]. by apply decodeU64_u64key.
  - by rewrite lookup_insert_ne.
Qed.

(** What one transaction may do: nothing for a replayed entry; only the watermark
    for a conflicting one; otherwise the operations, the next revision and the
    watermark at once. *)
Inductive tx_outcome s (command : Mutation) (ops : list Operation) (idx : Z)
    : Store B → Z → string → bool → Prop :=
| tx_replay :
    idx ≠ 0 → idx <= appliedIndex s → tx_outcome s command ops idx s (revision s) "" true
| tx_conflict s' conflict :
    (idx = 0 ∨ appliedIndex s < idx) → conflict ≠ "" →
    state_of s' = state_of s → revision s' = revision s → revisionFloor s' = revisionFloor s →
    appliedIndex s' = (if idx =? 0 then appliedIndex s else idx) →
    tx_outcome s command ops idx s' (revision s) conflict false
| tx_commit s' next :
    (idx = 0 ∨ appliedIndex s < idx) →
    preconditions (state_of s) ops = "" → ownership_ok (state_of s') →
    state_of s' = apply_ops (state_of s) ops → revision s' = next →
    revisionFloor s' = revisionFloor s →
    appliedIndex s' = (if idx =? 0 then appliedIndex s else idx) →
    (if String.eqb (Mut_Kind command) "ReconcileRevision"
     then next = Z.max (revision s) (Mut_RevisionMinimum command)
     else next = revision s + 1 ∧ revision s < max_u64) →
    tx_outcome s command ops idx s' next "" false.

Lemma apply_tx_outcome s command ops idx s' rev conflict replay :
  apply_tx s command ops idx = Ok (s', rev, conflict, replay) →
  is_u64 idx → is_u64 (Mut_RevisionMinimum command) →
  tx_outcome s command ops idx s' rev conflict replay.
Proof.
  unfold apply_tx. intros E Hidx Hmin. pose proof (decode_opt_u64 (bolt_get (canonical_meta s) keyRevision))
    as Hrev. fold (revision s) in Hrev.
  destruct (negb (idx =? 0) && (idx <=? appliedIndex s)) eqn:R.
  { injection E as <- <- <- <-. guards. destruct R. by apply tx_replay. }
  assert (idx = 0 ∨ appliedIndex s < idx) as Hnew by (guards; lia).
  destruct (if negb (idx =? 0) then _ else _) as [meta|] eqn:M; [|done].
  assert (∀ k, decode_opt (bolt_get meta k) =
    if decide (k = keyAppliedIndex) then (if idx =? 0 then appliedIndex s else idx)
    else decode_opt (bolt_get (canonical_meta s) k)) as Hm.
  { intros k. destruct (Z.eqb_spec idx 0) as [->|]; cbn [negb] in M.
    - injection M as <-. case_decide; by subst.
    - rewrite (meta_put _ _ _ _ k M) by done. done. }
  set (c := if String.eqb (preconditions _ _) "" then _ else _) in E.
  destruct (String.eqb_spec c "") as [Hc|Hc]; cbn [negb] in E; cycle 1.
  { injection E as <- <- <- <-. apply tx_conflict; try done;
      unfold revision, revisionFloor, appliedIndex; cbn [canonical_meta set_canonical];
      by rewrite Hm. }
  destruct (String.eqb_spec (preconditions (bolt_view (canonical s)) ops) "") as [Hp|]; [|done].
  apply bind_Ok in E as (next & Hnext & E).
  destruct (write_ops (canonical s) ops) as [canon|] eqn:Wr; [|done].
  apply write_ops_view in Wr.
  destruct (bolt_put meta keyRevision _) as [meta1|] eqn:M1; [|done].
  destruct (bolt_put meta1 keySchema _) as [meta2|] eqn:M2; [|done].
  injection E as <- <- <- <-.
  assert (is_u64 next ∧ if String.eqb (Mut_Kind command) "ReconcileRevision"
     then next = Z.max (revision s) (Mut_RevisionMinimum command)
     else next = revision s + 1 ∧ revision s < max_u64) as [Hu Hn].
  { unfold is_u64, max_u64 in *. destruct (String.eqb (Mut_Kind command) _).
    - injection Hnext as <-. destruct (Z.ltb_spec (revision s) (Mut_RevisionMinimum command)); lia.
    - apply check_then in Hnext as [G Hnext]. injection Hnext as <-. guards. lia. }
  apply tx_commit; try done; unfold revision, revisionFloor, appliedIndex, state_of;
    cbn [canonical canonical_meta set_canonical].
  - rewrite Wr. by apply validate_ok.
  - by rewrite (meta_put _ _ _ _ _ M2), (meta_put _ _ _ _ _ M1).
  - by rewrite (meta_put _ _ _ _ _ M2), (meta_put _ _ _ _ _ M1), Hm.
  - by rewrite (meta_put _ _ _ _ _ M2), (meta_put _ _ _ _ _ M1), Hm.
Qed.

Lemma normalize_ops_Ok ops ops' :
  normalize_ops ops = Ok ops' →
  Forall (λ op, (Op op = "put" ∨ Op op = "delete") ∧
                ∃ path, NormalizeReplicatedPath path = Ok (Op_Path op)) ops'.
Proof.
  revert ops'. induction ops as [|op ops IH]; intros ops' E; cbn in E; [by simplify_eq|].
  apply bind_Ok in E as (path & Hp & E). apply check_then in E as [G E].
  apply bind_Ok in E as (rest & Hr & E). injection E as <-. constructor; [|by apply IH].
  cbn. split; [|eauto]. guards. by destruct (decide (Op op = "put")); [left|right; naive_solver].
Qed.

(** The shape of one application: refused before the transaction, or a
    transaction outcome followed by the projection of a committed entry. *)
Lemma Apply_cases f log :
  is_u64 (Log_Index log) →
  (∃ e, Apply f log = (f, mutation_error e)) ∨
  ∃ command ops s' rev conflict replay,
    json_mutation (Log_Data log) = Some command ∧ check_command command = Ok tt ∧
    normalize_ops (Mut_Operations command) = Ok ops ∧
    tx_outcome (fsm_store f) command ops (Log_Index log) s' rev conflict replay ∧
    Apply f log =
      if negb (String.eqb conflict "")
      then (mkFSM s' (fsm_root f) (fsm_fs f), mkMutationResult 0 false rev conflict true)
      else if replay
      then (mkFSM s' (fsm_root f) (fsm_fs f), mkMutationResult 0 true rev "" false)
      else let '(fs, res) := project_ops (fsm_root f) (fsm_fs f) ops in
           (mkFSM s' (fsm_root f) fs,
            match res with
            | Ok _ => mkMutationResult 0 true rev "" false
            | _ => mkMutationResult 0 false rev "state committed but projection failed: %s" false
            end).
Proof.
  intros Hidx. unfold Apply. destruct (json_mutation _) as [command|] eqn:J; [|left; eauto].
  destruct (check_command command) as [[]|e|] eqn:Hc; cbn [mbind result_bind]; [|left; eauto..].
  destruct (normalize_ops _) as [ops|e|] eqn:N; [|left; eauto..].
  destruct (apply_tx _ _ _ _) as [[[[s' rev] conflict] replay]|e|] eqn:T; [|left; eauto..].
  right. exists command, ops, s', rev, conflict, replay. split_and!; try done.
  - eapply apply_tx_outcome; [done|done|by eapply json_mutation_u64].
  - unfold projectOperations. cbn [fsm_root fsm_fs fsm_store].
    destruct (negb _); [done|]. destruct replay; [done|].
    destruct (project_ops _ _ _) as [fs [u|e|]]; by try destruct u.
Qed.

Lemma Apply_store f log :
  is_u64 (Log_Index log) →
  fsm_store (Apply f log).1 = fsm_store f ∨
  ∃ command ops rev conflict replay,
    json_mutation (Log_Data log) = Some command ∧ check_command command = Ok tt ∧
    normalize_ops (Mut_Operations command) = Ok ops ∧
    tx_outcome (fsm_store f) command ops (Log_Index log) (fsm_store (Apply f log).1)
      rev conflict replay.
Proof.
  intros Hidx. destruct (Apply_cases f log Hidx)
    as [[e ->]|(command & ops & s' & rev & conflict & replay & J & C & N & T & E)]; [by left|].
  right. exists command, ops, rev, conflict, replay. split_and!; try done.
  assert (fsm_store (Apply f log).1 = s') as ->; [|done]. rewrite E.
  destruct (negb _); [done|]. destruct replay; [done|]. by destruct (project_ops _ _ _).
Qed.

(** ** Restoring *)

Lemma put_entries_view (g : string → bytes) paths (b b' : B) :
  put_entries b ((λ p, (p, g p)) <$> paths) = Some b' →
  ∀ k, bolt_view b' !! k = if bool_decide (k ∈ paths) then Some (g k) else bolt_view b !! k.
Proof.
  revert b. induction paths as [|p paths IH]; intros b E k; cbn in E; [by simplify_eq|].
  apply bind_Some in E as (b1 & P & E). rewrite (IH _ E), (bolt_put_view _ _ _ _ P).
  destruct (decide (k = p)) as [->|Hne].
  - rewrite lookup_insert_eq, (bool_decide_eq_true_2 (p ∈ p :: paths)) by left.
    by case_bool_decide.
  - rewrite lookup_insert_ne by done. erewrite (bool_decide_ext (k ∈ p :: paths)); [done|].
    rewrite elem_of_cons. naive_solver.
Qed.

Lemma sorted_paths_elem (entries : gmap string bytes) k :
  k ∈ sorted_paths entries ↔ is_Some (entries !! k).
Proof.
  unfold sorted_paths. rewrite sort_slice_elem, list_elem_of_fmap. split.
  - intros ([k' v] & -> & H%elem_of_map_to_list). eauto.
  - intros [v H%elem_of_map_to_list]. by exists (k, v).
Qed.

Lemma meta_delete (b b' : B) k k' :
  bolt_delete b k = Some b' →
  decode_opt (bolt_get b' k') = if decide (k' = k) then 0 else decode_opt (bolt_get b k').
Proof.
  intros E. unfold bolt_get. rewrite (bolt_delete_view _ _ _ E). case_decide as Hk.
  - subst. by rewrite lookup_delete_eq.
  - by rewrite lookup_delete_ne.
Qed.

Lemma restore_tx_Ok s env s' :
  restore_tx s env = Ok s' → is_u64 (Env_Revision env) → is_u64 (Env_SchemaVersion env) →
  state_of s' = Env_Entries env ∧ revision s' = Env_Revision env ∧
  schemaVersion s' = Env_SchemaVersion env ∧ appliedIndex s' = 0 ∧
  revisionFloor s' = revisionFloor s.
Proof.
  unfold restore_tx. intros E Hr Hs. apply bind_Ok in E as (? & _ & E).
  destruct (put_entries _ _) as [canon|] eqn:P; [|done].
  destruct (_ ≫= _) as [meta|] eqn:M; [|done]. injection E as <-.
  apply bind_Some in M as (m1 & M1 & M). apply bind_Some in M as (m2 & M2 & M3).
  assert (∀ k, decode_opt (bolt_get meta k) =
    if decide (k = keySchema) then Env_SchemaVersion env
    else if decide (k = keyRevision) then Env_Revision env
    else if decide (k = keyAppliedIndex) then 0
    else decode_opt (bolt_get (canonical_meta s) k)) as Hm.
  { intros k. rewrite (meta_put _ _ _ _ _ M3), (meta_put _ _ _ _ _ M2), (meta_delete _ _ _ _ M1) by done.
    done. }
  unfold revision, schemaVersion, appliedIndex, revisionFloor, state_of.
  cbn [canonical canonical_meta set_canonical]. rewrite !Hm. split_and!; try done.
  apply map_eq. intros k. rewrite (put_entries_view (λ p, default [] (Env_Entries env !! p)) _ _ _ P).
  rewrite bolt_empty_view, lookup_empty.
  case_bool_decide as Hk; rewrite sorted_paths_elem in Hk.
  - destruct Hk as [v ->]. done.
  - by destruct (Env_Entries env !! k); [destruct Hk; eauto|].
Qed.

Lemma restore_store_Ok s raw s' :
  restore_store s raw = (s', Ok tt) →
  ∃ env, json_envelope raw = Some env ∧ restore_tx s env = Ok s'.
Proof.
  unfold restore_store. destruct (json_envelope raw) as [env|]; [|done].
  destruct (_ || _); [done|]. destruct (negb _); [done|].
  destruct (restore_tx s env) eqn:E; intros [=]; subst; eauto.
Qed.

(** Every canonical path is a string that survives JSON. *)
Definition json_paths f : Prop :=
  ∀ p, is_Some (state_of (fsm_store f) !! p) → json_string p = true.

Lemma export_Ok f raw :
  json_paths f → ExportSnapshot f = Ok raw →
  ∃ env, json_envelope raw = Some env ∧ Env_Version env = 1 ∧
    Env_Entries env = state_of (fsm_store f) ∧
    Env_Revision env = revision (fsm_store f) ∧
    Env_SchemaVersion env = schemaVersion (fsm_store f) ∧
    Env_Checksum env = snapshotChecksum (Env_SchemaVersion env) (Env_Revision env) (Env_Entries env) ∧
    revisionFloor (fsm_store f) <= revision (fsm_store f).
Proof.
  unfold ExportSnapshot. intros Hj [G [= <-]]%check_then.
  rewrite json_envelope_roundtrip; [|done|apply decode_opt_u64..|done|apply json_string_hex].
  eexists. split; [done|]. guards. by split_and!.
Qed.

Lemma restore_export s f raw s' :
  json_paths f → ExportSnapshot f = Ok raw → restore_store s raw = (s', Ok tt) →
  state_of s' = state_of (fsm_store f) ∧ revision s' = revision (fsm_store f) ∧
  schemaVersion s' = schemaVersion (fsm_store f) ∧ appliedIndex s' = 0 ∧
  revisionFloor s' = revisionFloor s.
Proof.
  intros Hj Ex (env' & J' & R)%restore_store_Ok.
  apply export_Ok in Ex as (env & J & _ & E1 & E2 & E3 & _); [|done].
  rewrite J in J'. injection J' as <-.
  apply restore_tx_Ok in R; rewrite ?E1, ?E2, ?E3 in *; [done|apply decode_opt_u64..].
Qed.

(** States of a Controller: a fresh one, one reached by applying a log entry, or
    one restored from the snapshot of another. *)
Inductive fsm_reach : StateMachine B F → Prop :=
| reach_init s root fs : state_of s = ∅ → fsm_reach (NewStateMachine s root fs)
| reach_apply f log : fsm_reach f → is_u64 (Log_Index log) → fsm_reach (Apply f log).1
| reach_restore f g raw s' fs :
    fsm_reach f → fsm_reach g → json_paths g → ExportSnapshot g = Ok raw →
    restore_store (fsm_store f) raw = (s', Ok tt) → fsm_reach (mkFSM s' (fsm_root f) fs).

Lemma empty_ownership : ownership_ok ∅.
Proof.
  constructor.
  - intros path raw H%under_Some. set_solver.
  - intros p1 r1 v1 p2 r2 v2 H%under_Some. set_solver.
Qed.

Lemma reach_ownership f : fsm_reach f → ownership_ok (state_of (fsm_store f)).
Proof.
  induction 1 as [s root fs E|f log R IH Hidx|f g raw s' fs Rf IHf Rg IHg Hj Ex Rs].
  - cbn. rewrite E. apply empty_ownership.
  - destruct (Apply_store f log Hidx) as [->|(? & ? & ? & ? & ? & _ & _ & _ & T)]; [done|].
    by destruct T as [|s' c ? ? -> |].
  - cbn. by destruct (restore_export _ _ _ _ Hj Ex Rs) as [-> _].
Qed.

(** C6. Exclusive route ownership: in every state a Controller can reach, by any
    sequence of mutations and by restoring snapshots of such states, no IPv4
    address is given to two different owners, and the owner of an address is
    the id of a Node that exists, is not revoked, is a site router and holds a
    grant that contains the address. *)
Theorem route_ownership f a o1 o2 :
  fsm_reach f → addr_valid a →
  owns (state_of (fsm_store f)) o1 a → owns (state_of (fsm_store f)) o2 a →
  o1 = o2 ∧ active_owner (state_of (fsm_store f)) o1 a.
Proof.
  intros R%reach_ownership Ha H1 H2.
  split; [by eapply ownership_unique|by apply ownership_active].
Qed.

(** C7. A mutation is atomic and the revision counts the changes: an application
    either leaves the canonical state and the revision as they were, or commits
    all operations of an entry whose preconditions held, which advances the
    revision by exactly one; the revision never decreases, a reported conflict
    means nothing changed, and a reported success carries the revision of the
    resulting state. *)
Theorem Apply_atomic f log :
  is_u64 (Log_Index log) →
  let '(f', res) := Apply f log in
  let s := fsm_store f in let s' := fsm_store f' in
  revision s <= revision s' ∧
  (state_of s' = state_of s ∨
   revision s' = revision s + 1 ∧ ∃ command ops, json_mutation (Log_Data log) = Some command ∧
     normalize_ops (Mut_Operations command) = Ok ops ∧ preconditions (state_of s) ops = "" ∧
     state_of s' = apply_ops (state_of s) ops) ∧
  (Res_Conflict res = true →
     Res_OK res = false ∧ state_of s' = state_of s ∧ revision s' = revision s) ∧
  (Res_OK res = true → Res_Revision res = revision s').
Proof.
  intros Hidx. destruct (Apply_cases f log Hidx)
    as [[e ->]|(command & ops & s' & rev & conflict & replay & J & C & N & T & ->)].
  { cbn. split_and!; (lia || done || naive_solver). }
  destruct T as [Hi Hle|s' conflict Hnew Hc E1 E2 E3 E4|s' next Hnew Hp Ho E1 E2 E3 E4 Hn].
  - cbn. split_and!; (lia || done || naive_solver).
  - apply String.eqb_neq in Hc as ->. cbn. split_and!; (lia || done || naive_solver).
  - cbn [String.eqb negb]. destruct (project_ops _ _ _) as [fs res]. cbn [fsm_store].
    destruct (String.eqb_spec (Mut_Kind command) "ReconcileRevision") as [Ek|].
    + assert (ops = []) as ->.
      { unfold check_command in C. apply check_then in C as [_ C].
        rewrite (proj2 (String.eqb_eq _ _) Ek) in C. apply check_Ok in C. guards.
        destruct C as [_ C]. destruct (Mut_Operations command); [by injection N|].
        rewrite zlen_cons in C. pose proof (zlen_nonneg l). lia. }
      split_and!; [lia|by left|by destruct res|by destruct res].
    + split_and!; [lia|right; split; [lia|by exists command, ops]|by destruct res|by destruct res].
Qed.

(** Replay is harmless: applying a log entry a second time, as Raft does
    after a restart, leaves the durable store exactly as the first application
    left it, and an entry at or below the watermark changes neither the store
    nor the projected files. *)
Lemma Apply_replay f log :
  is_u64 (Log_Index log) → Log_Index log ≠ 0 →
  fsm_store (Apply (Apply f log).1 log).1 = fsm_store (Apply f log).1 ∧
  (Log_Index log <= appliedIndex (fsm_store f) → (Apply f log).1 = f).
Proof.
  intros Hidx Hnz.
  assert (∀ g, Log_Index log <= appliedIndex (fsm_store g) → (Apply g log).1 = g) as Hold.
  { intros g Hle. destruct (Apply_cases g log Hidx)
      as [[e ->]|(command & ops & s' & rev & conflict & replay & J & C & N & T & ->)]; [done|].
    destruct T; [by destruct g|lia..]. }
  split; [|apply Hold]. destruct (Apply_cases f log Hidx)
    as [[e E]|(command & ops & s' & rev & conflict & replay & J & C & N & T & E)].
  { by rewrite E; cbn [fst]; rewrite E. }
  assert (fsm_store (Apply f log).1 = s') as Es.
  { rewrite E. destruct (negb _); [done|]. destruct replay; [done|].
    by destruct (project_ops _ _ _). }
  rewrite Hold; [done|]. rewrite Es.
  destruct T as [? ?|s' c ? ? ? ? ? Ea|s' n ? ? ? ? ? ? Ea ?]; [done| |];
    rewrite Ea; destruct (Z.eqb_spec (Log_Index log) 0); lia.
Qed.

(** ** The projection *)

(** An absolute, clean state directory. *)
Definition root_ok (root : string) : Prop :=
  ∃ comps, root = "/" +:+ join_slash comps ∧ comps ≠ [] ∧ Forall plain_component comps ∧
    Forall no_slash comps.

Definition target (root p : string) : string := root +:+ "/" +:+ p.

Lemma target_inj root p q : target root p = target root q → p = q.
Proof. unfold target. intros H%str_app_inj. by apply (str_app_inj "/"). Qed.

Lemma project_target root path p :
  root_ok root → NormalizeReplicatedPath path = Ok p →
  filepath_join root p = target root p ∧
  has_prefix (filepath_clean (filepath_join root p) +:+ "/") (root +:+ "/") = true.
Proof.
  intros (comps & -> & Hne & Fp & Fs) (_ & Hp & _)%normalize_Ok.
  assert (filepath_join ("/" +:+ join_slash comps) p = target ("/" +:+ join_slash comps) p) as E.
  { rewrite filepath_join_plain by done. unfold target. by rewrite str_app_assoc. }
  split; [done|]. rewrite E.
  assert (filepath_clean (target ("/" +:+ join_slash comps) p)
          = target ("/" +:+ join_slash comps) p) as ->.
  { rewrite <- E at 2. unfold filepath_join. destruct (String.eqb_spec p "") as [->|]; [|done].
    inversion_clear Hp as [|?? [? _]]. done. }
  apply has_prefix_spec. exists (p +:+ "/"). unfold target. by rewrite !str_app_assoc.
Qed.

Definition normal_ops (ops : list Operation) : Prop :=
  Forall (λ op, (Op op = "put" ∨ Op op = "delete") ∧
                ∃ path, NormalizeReplicatedPath path = Ok (Op_Path op)) ops.

(** One operation on the files. *)
Lemma project_op root (fs : F) op (rest : list Operation) :
  root_ok root → (Op op = "put" ∨ Op op = "delete") →
  (∃ path, NormalizeReplicatedPath path = Ok (Op_Path op)) →
  ∃ fs1 ok, project_ops root fs (op :: rest)
    = (if (ok : bool) then project_ops root fs1 rest else (fs1, Err "projection")) ∧
    (ok = true → fs_files fs1 = if String.eqb (Op op) "put"
       then <[target root (Op_Path op) := Op_Data op]> (fs_files fs)
       else delete (target root (Op_Path op)) (fs_files fs)) ∧
    ∀ q, q ≠ target root (Op_Path op) → fs_files fs1 !! q = fs_files fs !! q.
Proof.
  intros Hr Hop [path Hp]. destruct (project_target _ _ _ Hr Hp) as [E1 E2].
  cbn [project_ops]. rewrite E2, E1. cbn [negb].
  destruct Hop as [-> | ->]; cbn [String.eqb Ascii.eqb Bool.eqb].
  - pose proof (fs_write_frame fs (target root (Op_Path op)) (Op_Data op)) as Fr.
    destruct (fs_write _ _ _) as [fs1 ok] eqn:Wr. exists fs1, ok. split_and!; [by destruct ok| |].
    + intros ->. by apply fs_write_ok in Wr.
    + intros q Hq. by apply Fr.
  - pose proof (fs_remove_frame fs (target root (Op_Path op))) as Fr.
    destruct (fs_remove _ _) as [fs1 ok] eqn:Wr. exists fs1, ok. split_and!; [by destruct ok| |].
    + intros ->. by apply fs_remove_ok in Wr.
    + intros q Hq. by apply Fr.
Qed.

Lemma project_ops_spec root (fs : F) ops :
  root_ok root → normal_ops ops →
  let '(fs', res) := project_ops root fs ops in
  (∀ q, (∀ op, op ∈ ops → q ≠ target root (Op_Path op)) → fs_files fs' !! q = fs_files fs !! q) ∧
  (∀ st, res = Ok tt → (∀ p, fs_files fs !! target root p = st !! p) →
     ∀ p, fs_files fs' !! target root p = apply_ops st ops !! p).
Proof.
  intros Hr. revert fs. induction ops as [|op ops IH]; intros fs F1; [done|].
  apply Forall_cons in F1 as [[Hop Hpath] F1].
  destruct (project_op root fs op ops Hr Hop Hpath) as (fs1 & ok & E & Hok & Fr).
  rewrite E. destruct ok; cycle 1.
  { split; [|done]. intros q Hq. apply Fr, Hq. left. }
  specialize (IH fs1 F1). destruct (project_ops root fs1 ops) as [fs' res].
  destruct IH as [IH1 IH2]. split.
  - intros q Hq. rewrite IH1 by (intros; apply Hq; by right). apply Fr, Hq. left.
  - intros st Hres Hm p. specialize (Hok eq_refl).
    change (apply_ops st (op :: ops)) with (apply_ops (apply_op st op) ops).
    apply IH2; [done|]. intros q. rewrite Hok. unfold apply_op.
    destruct (decide (q = Op_Path op)) as [->|Hne].
    + destruct (String.eqb_spec (Op op) "put"); [by rewrite !lookup_insert_eq|].
      destruct Hop as [?| ->]; [done|]. cbn. by rewrite !lookup_delete_eq.
    + assert (target root (Op_Path op) ≠ target root q) by (intros H%target_inj; congruence).
      destruct (String.eqb_spec (Op op) "put"); [by rewrite !lookup_insert_ne|].
      destruct Hop as [?| ->]; [done|]. cbn. by rewrite !lookup_delete_ne.
Qed.

(** The files under the state directory are the canonical records. *)
Definition mirrors f : Prop :=
  ∀ p, fs_files (fsm_fs f) !! target (fsm_root f) p = state_of (fsm_store f) !! p.

(** Projection: an application never touches a file outside the state
    directory, whatever paths the mutation names, and when the files of the
    directory mirror the canonical state before an application that reports
    success, they mirror the new state after it. *)
Lemma Apply_projection f log :
  root_ok (fsm_root f) → is_u64 (Log_Index log) →
  let '(f', res) := Apply f log in
  (∀ q, (∀ p, q ≠ target (fsm_root f) p) → fs_files (fsm_fs f') !! q = fs_files (fsm_fs f) !! q) ∧
  (mirrors f → Res_OK res = true → mirrors f').
Proof.
  intros Hr Hidx. destruct (Apply_cases f log Hidx)
    as [[e ->]|(command & ops & s' & rev & conflict & replay & J & C & N & T & ->)]; [done|].
  destruct T as [Hi Hle|s' conflict Hnew Hc E1 E2 E3 E4|s' next Hnew Hp Ho E1 E2 E3 E4 Hn].
  - split; [done|]. by destruct f.
  - apply String.eqb_neq in Hc as ->. done.
  - cbn [String.eqb negb].
    pose proof (project_ops_spec (fsm_root f) (fsm_fs f) ops Hr (normalize_ops_Ok _ _ N)) as H.
    destruct (project_ops _ _ _) as [fs res]. destruct H as [H1 H2]. split.
    + intros q Hq. apply H1. intros op _. apply Hq.
    + intros Hm Hok p. cbn. rewrite E1. apply H2; [|done]. by destruct res as [[]| |].
Qed.

Lemma for_each_names (entries : gmap string bytes) :
  (∀ p, is_Some (entries !! p) → is_ok (NormalizeReplicatedPath p) = true) →
  for_each (λ path, NormalizeReplicatedPath path ;; Ok tt) (fst <$> map_to_list entries) = Ok tt.
Proof.
  intros H. apply for_each_Ok, Forall_forall.
  intros p ([k v] & -> & Hin%elem_of_map_to_list)%list_elem_of_fmap.
  specialize (H k (ex_intro _ _ Hin)). cbn. by destruct (NormalizeReplicatedPath k).
Qed.

(** Snapshot round trip: when every canonical path is valid UTF-8 and one the
    normalisation accepts, a snapshot exported by a Controller of the same schema is accepted
    by [Restore] unless the database itself fails; the restored store has the
    exported canonical state, revision and schema and no replay watermark, and
    keeps its own revision floor.  A failed restore changes nothing. *)
Lemma snapshot_roundtrip f s raw :
  json_paths f → ExportSnapshot f = Ok raw → schemaVersion (fsm_store f) <= ControlSchemaVersion →
  (∀ p, is_Some (state_of (fsm_store f) !! p) → is_ok (NormalizeReplicatedPath p) = true) →
  match restore_store s raw with
  | (s', Ok _) =>
      state_of s' = state_of (fsm_store f) ∧ revision s' = revision (fsm_store f) ∧
      schemaVersion s' = schemaVersion (fsm_store f) ∧ appliedIndex s' = 0 ∧
      revisionFloor s' = revisionFloor s
  | (s', Err e) => s' = s ∧ e = "bolt"
  | (_, Panic) => False
  end.
Proof.
  intros Hj Ex Hv Hn. destruct (restore_store s raw) as [s' [[]|e|]] eqn:R.
  { by eapply restore_export. }
  all: apply export_Ok in Ex as (env & J & E0 & E1 & E2 & E3 & E4 & _); [|done];
    unfold restore_store in R; rewrite J, E0 in R; rewrite E3 in *;
    destruct (Z.ltb_spec ControlSchemaVersion (schemaVersion (fsm_store f))); [lia|];
    cbn [negb Z.eqb Pos.eqb orb] in R; rewrite E4, String.eqb_refl in R; cbn [negb] in R;
    unfold restore_tx in R; rewrite for_each_names in R by (by rewrite E1);
    cbn [mbind result_bind] in R; repeat case_match; simplify_eq; done.
Qed.
End apply_facts.

(** ** Executable instances *)

#[export] Program Instance gmap_fs : ProjectionFS (gmap string bytes) := {|
  fs_files f := f;
  fs_write f p d := (<[p := d]> f, true);
  fs_remove f p := (delete p f, true);
|}.
Next Obligation. cbn. by intros f p d f' [= <-]. Qed.
Next Obligation. cbn. by intros f p f' [= <-]. Qed.
Next Obligation. cbn. intros. by rewrite lookup_insert_ne. Qed.
Next Obligation. cbn. intros. by rewrite lookup_delete_ne. Qed.

Definition envelope_tuple (e : snapshotEnvelope) :=
  (Env_Version e, Env_SchemaVersion e, Env_Revision e, Env_Entries e, Env_Checksum e).
Definition tuple_envelope (t : Z * Z * Z * gmap string bytes * string) : snapshotEnvelope :=
  let '(v, sv, r, es, c) := t in mkEnvelope v sv r es c.

(** Decoders given by tables, and envelopes as the bits of their number. *)
Program Definition table_json (ms : list (bytes * Mutation))
    (rs : list (bytes * routeOwnershipRecord)) (ns : list (bytes * routeOwnerNodeRecord))
    (H : Forall (λ e, is_u64 (Mut_RevisionMinimum e.2)) ms) : ControlJson := {|
  json_mutation raw := snd <$> List.find (λ e, bool_decide (e.1 = raw)) ms;
  json_route raw := snd <$> List.find (λ e, bool_decide (e.1 = raw)) rs;
  json_node raw := snd <$> List.find (λ e, bool_decide (e.1 = raw)) ns;
  json_string _ := true;
  json_marshal_envelope e := bits_of (encode (envelope_tuple e));
  json_envelope raw := tuple_envelope <$> decode (of_bits raw);
|}.
Next Obligation.
  intros ms rs ns H raw m E. apply fmap_Some in E as (e & [Hin _]%find_some & ->).
  rewrite Forall_forall in H. by apply H, list_elem_of_In.
Qed.
Next Obligation. done. Qed.
Next Obligation.
  intros ms rs ns H e _ _ _ _ _. cbv beta. rewrite of_bits_of, decode_encode. by destruct e.
Qed.

(** ** A snapshot that cannot be restored *)

Module PoisonPath.
(** The mutation that writes one record whose last component is a space. *)
Definition mutation : Mutation :=
  mkMutation 1 "m1" "PutDevice" 0
    [mkOperation "put" "control/devices/ /." [x01] false false ""] 0.

#[local] Instance json : ControlJson.
Proof. refine (table_json [([x01], mutation)] [] [] _). by repeat constructor. Defined.

Definition start : StateMachine (gmap string bytes) (gmap string bytes) :=
  NewStateMachine (mkStore ∅ ∅ ∅ ∅) "/var/lib/bpc" ∅.
Definition entry : Log := mkLog 1 1 x00 [x01] [] 1.
Definition poisoned := (Apply start entry).1.

(** The normalisation is not idempotent, and the difference is observable: a
    mutation that names [control/devices/ /.] is accepted and commits the
    record [control/devices/ ] (with a trailing space), a path the
    normalisation itself refuses; the Controller then exports snapshots that no
    Controller restores. *)
Lemma snapshot_not_restorable :
  NormalizeReplicatedPath "control/devices/ /." = Ok "control/devices/ " ∧
  NormalizeReplicatedPath "control/devices/ "
    = Err "path is not replicated canonical state: %s" ∧
  Res_OK (Apply start entry).2 = true ∧
  ∃ raw, ExportSnapshot poisoned = Ok raw ∧
    (restore_store (fsm_store start) raw).2
      = Err "path is not replicated canonical state: %s".
Proof.
  split; [by vm_compute|]. split; [by vm_compute|]. split; [by vm_compute|].
  eexists. split; [by vm_compute|]. by vm_compute.
Qed.
End PoisonPath.
