(* ===== verification/ControlProjection.v ===== *)
(** * Reconciling the projected files ([internal/controlplane/fsm.go])

    [ReconcileProjection] makes the files of the state directory those of the canonical
    state, whatever is there; [ScanReplicatedProjection] reads them, and
    [BootstrapMutation] turns them into the first mutation of a cluster. *)

From Stdlib Require Import Strings.Byte.
From S2P Require Import Prelude GoLib GoStrings Netip Crypto ControlStore ControlFsm.

(** A file has no files below it. *)
Class ProjectionTree (F : Type) `{PF : ProjectionFS F} :=
  fs_tree : ∀ (f : F) q r, is_Some (fs_files f !! q) → has_prefix r (q +:+ "/") = true →
    fs_files f !! r = None.

Section projection.
Context `{HS : Hashes} `{GS : GoSort} `{CJ : ControlJson}.
Context {B : Type} `{BB : BoltBucket B} {F : Type} `{PF : ProjectionFS F}.

(** [filepath.WalkDir]: the files below a directory.  Two files with one normalised
    name are in one directory, where the walk visits names in order. *)
Definition walk (files : gmap string bytes) (dir : string) : list (string * bytes) :=
  (λ p, (p, default [] (files !! p))) <$>
    sort_slice String.ltb (fst <$> map_to_list (filter (λ '(k, _), has_prefix k (dir +:+ "/") = true) files)).

(** The function of the walk on a file: [filepath.Rel] and the normalisation. *)
Definition scan_entry (root : string) (result : gmap string bytes) (e : string * bytes) : gmap string bytes :=
  match NormalizeReplicatedPath (trim_prefix e.1 (root +:+ "/")) with
  | Ok normalized => <[normalized := e.2]> result
  | _ => result
  end.

Definition scan_candidate (root : string) (files result : gmap string bytes) (relative : string)
    : gmap string bytes :=
  let full := filepath_join root relative in
  match files !! full with
  | Some data => <[relative := data]> result
  | None => fold_left (scan_entry root) (walk files full) result
  end.

Definition candidates : list string := sort_slice String.ltb (replicatedPrefixes ++ replicatedExact).

(** [fault]: the operating system failed to list or read a file. *)
Definition ScanReplicatedProjection (root : string) (fs : F) (fault : bool) : result (gmap string bytes) :=
  if fault then Err "scan" else Ok (fold_left (scan_candidate root (fs_files fs)) candidates ∅).

(** The two loops of [ReconcileProjection]; both stop at the first error. *)
Fixpoint write_entries (root : string) (fs : F) (entries : list (string * bytes)) : F * bool :=
  match entries with
  | [] => (fs, true)
  | (path, data) :: rest =>
      let '(fs, ok) := fs_write fs (filepath_join root path) data in
      if (ok : bool) then write_entries root fs rest else (fs, false)
  end.

Fixpoint remove_stale (root : string) (present : gmap string bytes) (fs : F) (names : list string) : F * bool :=
  match names with
  | [] => (fs, true)
  | path :: rest =>
      if bool_decide (is_Some (present !! path)) then remove_stale root present fs rest
      else
        let '(fs, ok) := fs_remove fs (filepath_join root path) in
        if (ok : bool) then remove_stale root present fs rest else (fs, false)
  end.

Definition ReconcileProjection (f : StateMachine B F) (fault : bool) : StateMachine B F * result unit :=
  let entries := canonicalEntries (fsm_store f) in
  let with_fs fs := mkFSM (fsm_store f) (fsm_root f) fs in
  let '(fs, ok) := write_entries (fsm_root f) (fsm_fs f) (map_to_list entries) in
  if (ok : bool) then
    match ScanReplicatedProjection (fsm_root f) fs fault with
    | Ok existing =>
        let '(fs, ok) := remove_stale (fsm_root f) entries fs (fst <$> map_to_list existing) in
        (with_fs fs, if (ok : bool) then Ok tt else Err "remove")
    | Err e => (with_fs fs, Err e)
    | Panic => (with_fs fs, Panic)
    end
  else (with_fs fs, Err "write").

Definition BootstrapMutation (root : string) (fs : F) (fault : bool) (id : string) (issuedAt : Z) : result Mutation :=
  entries ← ScanReplicatedProjection root fs fault;
  Ok (mkMutation CommandVersion id "BootstrapCanonicalState" issuedAt
        ((λ path, mkOperation "put" path (default [] (entries !! path)) true false "") <$> sorted_paths entries) 0).
End projection.

(** ** Facts *)

(** A prefix names a directory. *)
Definition dir_of (prefix : string) : string := join_slash (removelast (split_slash prefix)).

Lemma prefixes_dirs prefix : prefix ∈ replicatedPrefixes →
  prefix = dir_of prefix +:+ "/" ∧ Forall plain_component (split_slash (dir_of prefix)) ∧
  dir_of prefix ∉ replicatedExact ∧
  Forall (λ q, has_prefix (dir_of prefix) q = false ∨ str_len (dir_of prefix) <= str_len q) replicatedPrefixes.
Proof.
  intros H. assert (Forall (λ prefix, bool_decide (prefix = dir_of prefix +:+ "/") &&
    List.forallb (λ c, negb (String.eqb c "") && negb (String.eqb c ".") && negb (String.eqb c ".."))
      (split_slash (dir_of prefix)) && bool_decide (dir_of prefix ∉ replicatedExact) &&
    List.forallb (λ q, negb (has_prefix (dir_of prefix) q) || (str_len (dir_of prefix) <=? str_len q))
      replicatedPrefixes = true) replicatedPrefixes) as G
    by (repeat constructor).
  rewrite Forall_forall in G. specialize (G _ H). guards. destruct G as [[[G1 G2] G3] G4].
  split_and!; [done| |done|].
  - apply Forall_forall. intros c Hc%list_elem_of_In. apply (proj1 (forallb_forall _ _) G2) in Hc. guards.
    unfold plain_component. naive_solver.
  - apply Forall_forall. intros c Hc%list_elem_of_In. apply (proj1 (forallb_forall _ _) G4) in Hc.
    apply orb_true_iff in Hc as [Hc|Hc]; guards; auto.
Qed.

(** No record is stored under the name of a directory. *)
Lemma dir_not_record prefix path : prefix ∈ replicatedPrefixes → NormalizeReplicatedPath path ≠ Ok (dir_of prefix).
Proof.
  intros (_ & _ & Ne & F)%prefixes_dirs (_ & _ & [H|(q & Hq & H1 & H2)])%normalize_Ok; [done|].
  rewrite Forall_forall in F. destruct (F _ Hq) as [?|?]; [congruence|lia].
Qed.

Lemma filepath_clean_slash s : s ≠ "" → filepath_clean (s +:+ "/") = filepath_clean s.
Proof.
  intros Hs.
  assert (split_slash (s +:+ "/") = split_slash s ++ [""]) as Sp.
  { rewrite <- (join_split s) at 1. change ("/") with ("/" +:+ "").
    destruct (split_slash_cons s) as (h & t & E).
    rewrite split_app_no_slash_l; [done|by rewrite E|apply split_slash_no_slash]. }
  assert (is_abs (s +:+ "/") = is_abs s) as Ha.
  { destruct s as [|c s]; [done|]. unfold is_abs. cbn. by destruct (s +:+ "/"), s. }
  unfold filepath_clean. rewrite Ha, Sp. unfold clean_stack. rewrite fold_left_app. done.
Qed.

Lemma target_clean root p : root_ok root → Forall plain_component (split_slash p) →
  filepath_join root p = target root p ∧ filepath_clean (target root p) = target root p ∧ p ≠ "".
Proof.
  intros (comps & -> & Hne & Fp & Fs) Hp.
  assert (p ≠ "") as Hn by (intros ->; inversion_clear Hp as [|?? [? _]]; done).
  assert (filepath_join ("/" +:+ join_slash comps) p = target ("/" +:+ join_slash comps) p) as E.
  { rewrite filepath_join_plain by done. unfold target. by rewrite str_app_assoc. }
  split_and!; [done| |done]. rewrite <- E at 2. unfold filepath_join.
  destruct (String.eqb_spec p ""); [done|].
  by destruct (String.eqb_spec ("/" +:+ join_slash comps) "").
Qed.

Lemma join_prefix root prefix : root_ok root → prefix ∈ replicatedPrefixes →
  filepath_join root prefix = target root (dir_of prefix).
Proof.
  intros Hr (Ep & Pl & _)%prefixes_dirs. destruct (target_clean _ _ Hr Pl) as (Ej & Ec & Hn).
  rewrite Ep at 1. unfold filepath_join in *. destruct Hr as (comps & -> & _).
  destruct (String.eqb_spec ("/" +:+ join_slash comps) ""); [done|].
  destruct (String.eqb_spec (dir_of prefix +:+ "/") "") as [E|_]; [by destruct (dir_of prefix)|].
  set (root := "/" +:+ join_slash comps) in *. unfold target in *.
  replace (root +:+ "/" +:+ dir_of prefix +:+ "/") with ((root +:+ "/" +:+ dir_of prefix) +:+ "/")
    by (by rewrite !str_app_assoc).
  by rewrite filepath_clean_slash by (by subst root).
Qed.

Lemma join_record root path p : root_ok root → NormalizeReplicatedPath path = Ok p →
  filepath_join root p = target root p.
Proof. intros Hr Hp. by apply (project_target _ _ _ Hr Hp). Qed.

Lemma str_drop_app (p s : string) : str_drop (String.length p) (p +:+ s) = s.
Proof. induction p as [|c p IH]; [by destruct s|]. done. Qed.

Lemma trim_target root p : trim_prefix (target root p) (root +:+ "/") = p.
Proof.
  unfold trim_prefix, target. rewrite <- str_app_assoc.
  rewrite (proj2 (has_prefix_spec _ _)) by by exists p. apply str_drop_app.
Qed.

Section facts.
Context `{HS : Hashes} `{GS : GoSort} `{CJ : ControlJson}.
Context {B : Type} `{BB : BoltBucket B} {F : Type} `{PF : ProjectionFS F}.
Implicit Types (fs : F) (files result : gmap string bytes) (f : StateMachine B F).

Lemma walk_elem files dir p d :
  (p, d) ∈ walk files dir ↔ has_prefix p (dir +:+ "/") = true ∧ files !! p = Some d.
Proof.
  unfold walk. rewrite list_elem_of_fmap. setoid_rewrite sort_slice_perm.
  setoid_rewrite list_elem_of_fmap. split.
  - intros (q & [= -> ->] & (e & -> & He)). destruct e as [k v]. cbn [fst].
    apply elem_of_map_to_list, map_lookup_filter_Some in He as [He Hp]. by rewrite He.
  - intros [Hp He]. exists p. rewrite He. split; [done|]. exists (p, d). split; [done|].
    by apply elem_of_map_to_list, map_lookup_filter_Some.
Qed.

Lemma scan_entry_mono root result e p : is_Some (result !! p) → is_Some (scan_entry root result e !! p).
Proof.
  intros [d H]. unfold scan_entry. destruct (NormalizeReplicatedPath _) as [n| |]; [|by eexists..].
  destruct (decide (n = p)) as [->|]; [by rewrite lookup_insert_eq|]. rewrite lookup_insert_ne by done. eauto.
Qed.

Lemma scan_entries_mono root result es p :
  is_Some (result !! p) → is_Some (fold_left (scan_entry root) es result !! p).
Proof. revert result. induction es as [|e es IH]; intros result H; cbn; auto using scan_entry_mono. Qed.

Lemma scan_entries_elem root result es p q d : NormalizeReplicatedPath q = Ok p → (target root q, d) ∈ es →
  is_Some (fold_left (scan_entry root) es result !! p).
Proof.
  intros Hp. revert result. induction es as [|e es IH]; intros result; cbn; [set_solver|].
  rewrite elem_of_cons. intros [<-|H]; [|by apply IH]. apply scan_entries_mono. unfold scan_entry.
  cbn [fst]. rewrite trim_target, Hp, lookup_insert_eq. eauto.
Qed.

Lemma scan_candidate_mono root files result c p :
  is_Some (result !! p) → is_Some (scan_candidate root files result c !! p).
Proof.
  intros H. unfold scan_candidate. destruct (files !! _); [|by apply scan_entries_mono].
  destruct (decide (c = p)) as [->|]; [by rewrite lookup_insert_eq|]. by rewrite lookup_insert_ne.
Qed.

Lemma scan_candidates_elem root files result cs c p :
  c ∈ cs → (∀ result, is_Some (scan_candidate root files result c !! p)) →
  is_Some (fold_left (scan_candidate root files) cs result !! p).
Proof.
  intros Hc H. revert result. induction cs as [|x cs IH]; intros result; cbn; [set_solver|].
  apply elem_of_cons in Hc as [<-|Hc]; [|by apply IH]. clear IH. specialize (H result).
  revert H. generalize (scan_candidate root files result c). clear.
  induction cs as [|x cs IH]; intros result H; cbn; auto using scan_candidate_mono.
Qed.

(** Every file that is a record is found. *)
Lemma scan_complete `{PT : !ProjectionTree F} root fs fault existing p :
  root_ok root → ScanReplicatedProjection root fs fault = Ok existing →
  NormalizeReplicatedPath p = Ok p → is_Some (fs_files fs !! target root p) → is_Some (existing !! p).
Proof.
  intros Hr E Hp [d Hd]. unfold ScanReplicatedProjection in E. destruct fault; [done|].
  injection E as <-. pose proof Hp as (_ & _ & H)%normalize_Ok.
  destruct H as [H|(prefix & Hq & H & _)].
  - apply (scan_candidates_elem _ _ _ _ p).
    { unfold candidates. rewrite sort_slice_perm, elem_of_app. by right. }
    intros result. unfold scan_candidate. rewrite (join_record _ _ _ Hr Hp), Hd, lookup_insert_eq. eauto.
  - apply (scan_candidates_elem _ _ _ _ prefix).
    { unfold candidates. rewrite sort_slice_perm, elem_of_app. by left. }
    intros result. unfold scan_candidate. rewrite (join_prefix _ _ Hr Hq).
    assert (has_prefix (target root p) (target root (dir_of prefix) +:+ "/") = true) as Hb.
    { apply has_prefix_spec in H as [r ->]. apply has_prefix_spec. exists r.
      destruct (prefixes_dirs _ Hq) as [Ep _]. rewrite Ep at 1. unfold target. by rewrite !str_app_assoc. }
    destruct (fs_files fs !! target root (dir_of prefix)) eqn:Ef.
    + exfalso. assert (fs_files fs !! target root p = None) by by eapply fs_tree. congruence.
    + apply (scan_entries_elem _ _ _ _ p d Hp). by apply walk_elem.
Qed.

(** What is found is a record, or a file in the place of a directory. *)
Definition scanned_name (n : string) : Prop :=
  (∃ path, NormalizeReplicatedPath path = Ok n) ∨ n ∈ replicatedPrefixes.

Lemma exact_normal p : p ∈ replicatedExact → NormalizeReplicatedPath p = Ok p.
Proof. intros [->|[->|[]%elem_of_nil]%elem_of_cons]%elem_of_cons; by vm_compute. Qed.

Lemma scan_sound root fs fault existing : ScanReplicatedProjection root fs fault = Ok existing →
  ∀ n, is_Some (existing !! n) → scanned_name n.
Proof.
  unfold ScanReplicatedProjection. destruct fault; [done|]. intros [= <-].
  assert (∀ es result, (∀ n, is_Some (result !! n) → scanned_name n) →
    ∀ n, is_Some (fold_left (scan_entry root) es result !! n) → scanned_name n) as He.
  { induction es as [|e es IH]; intros result H; cbn; [done|]. apply IH. intros n. unfold scan_entry.
    destruct (NormalizeReplicatedPath _) as [m| |] eqn:Em; [|apply H..].
    destruct (decide (m = n)) as [->|]; [|rewrite lookup_insert_ne by done; apply H]. left. eauto. }
  assert (∀ cs result, (∀ c, c ∈ cs → c ∈ replicatedPrefixes ++ replicatedExact) →
    (∀ n, is_Some (result !! n) → scanned_name n) →
    ∀ n, is_Some (fold_left (scan_candidate root (fs_files fs)) cs result !! n) → scanned_name n) as Hc.
  { induction cs as [|c cs IH]; intros result Hin H; cbn; [done|].
    apply IH; [intros; apply Hin; by right|]. unfold scan_candidate. destruct (fs_files fs !! _); [|by apply He].
    intros n. destruct (decide (c = n)) as [->|]; [|rewrite lookup_insert_ne by done; apply H].
    intros _. assert (n ∈ replicatedPrefixes ++ replicatedExact) as [?|?]%elem_of_app by (apply Hin; left).
    - by right.
    - left. exists n. by apply exact_normal. }
  apply Hc; [|intros n; rewrite lookup_empty; by intros []].
  intros c. unfold candidates. by rewrite sort_slice_perm.
Qed.

Lemma join_scanned root n : root_ok root → scanned_name n → ∃ p, filepath_join root n = target root p ∧
  ((∃ path, NormalizeReplicatedPath path = Ok p) → p = n).
Proof.
  intros Hr [[path Hp]|Hn].
  - exists n. split; [by apply (join_record _ path)|done].
  - exists (dir_of n). split; [by apply join_prefix|]. intros [path Hp]. by apply dir_not_record in Hp.
Qed.

Lemma write_entries_spec root fs es :
  root_ok root → Forall (λ e, ∃ path, NormalizeReplicatedPath path = Ok e.1) es → NoDup (fst <$> es) →
  let '(fs', ok) := write_entries root fs es in
  (∀ q, (∀ e, e ∈ es → q ≠ target root e.1) → fs_files fs' !! q = fs_files fs !! q) ∧
  (ok = true → ∀ p d, (p, d) ∈ es → fs_files fs' !! target root p = Some d).
Proof.
  intros Hr. revert fs. induction es as [|[p d] es IH]; intros fs Fa N; [split; [done|set_solver]|].
  apply Forall_cons in Fa as [[path Hp] Fa]. rewrite fmap_cons in N. apply NoDup_cons in N as [Np N].
  cbn [fst] in *. cbn [write_entries]. rewrite (join_record _ _ _ Hr Hp).
  pose proof (fs_write_frame fs (target root p) d) as Fr.
  destruct (fs_write fs (target root p) d) as [fs1 ok] eqn:W. destruct ok; cycle 1.
  { split; [|done]. intros q Hq. apply Fr. intros <-. by apply (Hq (p, d)); [left|]. }
  specialize (IH fs1 Fa N). destruct (write_entries root fs1 es) as [fs' ok]. destruct IH as [IH1 IH2].
  apply fs_write_ok in W. split.
  - intros q Hq. rewrite IH1 by (intros; apply Hq; by right). apply Fr. intros <-. by apply (Hq (p, d)); [left|].
  - intros Ho q d' [[= -> ->]|H]%elem_of_cons; [|by apply IH2].
    rewrite IH1, W, lookup_insert_eq; [done|]. intros [k v] Hk E%target_inj. cbn in E. subst k.
    apply Np, list_elem_of_fmap. by exists (p, v).
Qed.

Lemma remove_stale_spec root present fs names :
  let '(fs', ok) := remove_stale root present fs names in
  (∀ q, (∀ n, n ∈ names → present !! n = None → q ≠ filepath_join root n) →
     fs_files fs' !! q = fs_files fs !! q) ∧
  (ok = true → (∀ q, fs_files fs !! q = None → fs_files fs' !! q = None) ∧
     ∀ n, n ∈ names → present !! n = None → fs_files fs' !! filepath_join root n = None).
Proof.
  revert fs. induction names as [|n names IH]; intros fs; cbn [remove_stale]; [split; [done|]; set_solver|].
  case_bool_decide as Hn.
  - specialize (IH fs). destruct (remove_stale root present fs names) as [fs' ok]. destruct IH as [IH1 IH2].
    split; [intros q Hq; apply IH1; intros; apply Hq; [by right|done]|]. intros Ho.
    destruct (IH2 Ho) as [K1 K2]. split; [done|]. intros m [->|Hm]%elem_of_cons Em; [|by apply K2].
    destruct Hn as [d Hd]. congruence.
  - pose proof (fs_remove_frame fs (filepath_join root n)) as Fr.
    assert (present !! n = None) as En by (by destruct (present !! n); [destruct Hn|]).
    destruct (fs_remove fs _) as [fs1 ok] eqn:R. destruct ok; cycle 1.
    { split; [|done]. intros q Hq. apply Fr. intros <-. by apply (Hq n); [left|..]. }
    apply fs_remove_ok in R. specialize (IH fs1). destruct (remove_stale root present fs1 names) as [fs' ok].
    destruct IH as [IH1 IH2]. split.
    + intros q Hq. rewrite IH1 by (intros; apply Hq; [by right|done]). apply Fr. intros <-.
      by apply (Hq n); [left|..].
    + intros Ho. destruct (IH2 Ho) as [K1 K2].
      assert (∀ q, fs_files fs !! q = None → fs_files fs1 !! q = None) as K3.
      { intros q Hq. rewrite R. destruct (decide (filepath_join root n = q)) as [<-|];
          [apply lookup_delete_eq|by rewrite lookup_delete_ne]. }
      split; [auto|]. intros m [->|Hm]%elem_of_cons Em; [|by apply K2].
      apply K1. rewrite R. apply lookup_delete_eq.
Qed.

(** Reconciliation makes the files those of the canonical state: it never changes
    the store nor a file outside the state directory; when it succeeds, whatever the
    directory held before, every canonical record is in its file, and every file whose
    name is a record's has that record, so that files of records that are gone are
    removed. *)
Lemma ReconcileProjection_mirrors `{PT : !ProjectionTree F} f fault :
  root_ok (fsm_root f) →
  (∀ p, is_Some (state_of (fsm_store f) !! p) → ∃ path, NormalizeReplicatedPath path = Ok p) →
  let '(f', res) := ReconcileProjection f fault in
  fsm_store f' = fsm_store f ∧ fsm_root f' = fsm_root f ∧
  (∀ q, (∀ p, q ≠ target (fsm_root f) p) → fs_files (fsm_fs f') !! q = fs_files (fsm_fs f) !! q) ∧
  (res = Ok tt → ∀ p, (is_Some (state_of (fsm_store f) !! p) ∨ NormalizeReplicatedPath p = Ok p) →
     fs_files (fsm_fs f') !! target (fsm_root f) p = state_of (fsm_store f) !! p).
Proof.
  intros Hr Hs. set (st := state_of (fsm_store f)) in *. unfold ReconcileProjection.
  change (canonicalEntries (fsm_store f)) with st.
  pose proof (write_entries_spec (fsm_root f) (fsm_fs f) (map_to_list st) Hr) as Hw.
  assert (Forall (λ e, ∃ path, NormalizeReplicatedPath path = Ok e.1) (map_to_list st)) as Fa.
  { apply Forall_forall. intros [k v] Hk%elem_of_map_to_list. apply Hs. cbn. eauto. }
  specialize (Hw Fa (NoDup_fst_map_to_list st)).
  destruct (write_entries _ _ _) as [fs1 ok]. destruct Hw as [W1 W2]. destruct ok; cycle 1.
  { split_and!; [done|done| |done]. intros q Hq. cbn. by apply W1. }
  assert (∀ q, (∀ p, q ≠ target (fsm_root f) p) → fs_files fs1 !! q = fs_files (fsm_fs f) !! q) as Wf
    by (intros q Hq; apply W1; auto).
  destruct (ScanReplicatedProjection _ fs1 fault) as [existing| |] eqn:Sc; [|by split_and!..].
  pose proof (scan_sound _ _ _ _ Sc) as Sd.
  pose proof (remove_stale_spec (fsm_root f) st fs1 (fst <$> map_to_list existing)) as Hd.
  destruct (remove_stale _ _ _ _) as [fs2 ok]. destruct Hd as [D1 D2]. cbn [fsm_store fsm_root fsm_fs].
  assert (∀ n, n ∈ fst <$> map_to_list existing → scanned_name n) as Sn.
  { intros n ([k v] & -> & Hk%elem_of_map_to_list)%list_elem_of_fmap. apply Sd. cbn. eauto. }
  split_and!; [done..| |].
  - intros q Hq. rewrite D1; [by apply Wf|]. intros n Hn _.
    destruct (join_scanned _ _ Hr (Sn _ Hn)) as (p & -> & _). apply Hq.
  - intros Ho p Hp. destruct ok; [|done]. destruct (D2 eq_refl) as [D3 D4].
    destruct (st !! p) as [d|] eqn:Ep.
    + rewrite D1; [apply W2; [done|by apply elem_of_map_to_list]|].
      intros n Hn En E. destruct (join_scanned _ _ Hr (Sn _ Hn)) as (p' & Ej & Uq).
      rewrite Ej in E. apply target_inj in E. subst p'. rewrite Uq in Ep; [congruence|]. by apply Hs.
    + destruct Hp as [[? ?]|Hp]; [done|]. destruct (fs_files fs1 !! target (fsm_root f) p) as [d|] eqn:Ef; [|auto].
      rewrite <- (join_record _ _ _ Hr Hp). apply D4; [|done].
      destruct (scan_complete _ _ _ _ _ Hr Sc Hp) as [v Hv]; [by rewrite Ef|].
      apply list_elem_of_fmap. exists (p, v). split; [done|]. by apply elem_of_map_to_list.
Qed.

(** No name of a file has surrounding space that the normalisation would remove, and
    no file is in the place of a directory. *)
Record plain_names (root : string) fs : Prop := {
  pn_names : ∀ q n, is_Some (fs_files fs !! target root q) → NormalizeReplicatedPath q = Ok n → n = q;
  pn_dirs : ∀ p, p ∈ replicatedPrefixes → fs_files fs !! filepath_join root p = None;
}.

Lemma scan_values root fs existing :
  root_ok root → plain_names root fs → ScanReplicatedProjection root fs false = Ok existing →
  ∀ p d, existing !! p = Some d → NormalizeReplicatedPath p = Ok p ∧ fs_files fs !! target root p = Some d.
Proof.
  intros Hr [Pl Dr] [= <-].
  set (good := λ result : gmap string bytes, ∀ p d, result !! p = Some d →
    NormalizeReplicatedPath p = Ok p ∧ fs_files fs !! target root p = Some d).
  assert (∀ dir es result, (∀ e, e ∈ es → has_prefix e.1 (target root dir +:+ "/") = true ∧
    fs_files fs !! e.1 = Some e.2) → good result → good (fold_left (scan_entry root) es result)) as He.
  { intros dir. induction es as [|[path data] es IH]; intros result Hin G; cbn; [done|].
    apply IH; [intros; apply Hin; by right|]. destruct (Hin (path, data)) as [Hb Hf]; [left|]. cbn in Hb, Hf.
    apply has_prefix_spec in Hb as [r ->]. unfold scan_entry. cbn [fst snd].
    replace ((target root dir +:+ "/") +:+ r) with (target root (dir +:+ "/" +:+ r)) in *
      by (unfold target; by rewrite !str_app_assoc).
    rewrite trim_target. destruct (NormalizeReplicatedPath _) as [n| |] eqn:En; [|done..].
    pose proof (Pl _ n ltac:(by eexists) En) as ->. intros p d.
    destruct (decide (dir +:+ "/" +:+ r = p)) as [<-|]; [|rewrite lookup_insert_ne by done; by apply G].
    rewrite lookup_insert_eq. by intros [= <-]. }
  assert (∀ cs result, (∀ c, c ∈ cs → c ∈ replicatedPrefixes ++ replicatedExact) → good result →
    good (fold_left (scan_candidate root (fs_files fs)) cs result)) as Hc.
  { induction cs as [|c cs IH]; intros result Hin G; cbn; [done|].
    apply IH; [intros; apply Hin; by right|].
    assert (c ∈ replicatedPrefixes ++ replicatedExact) as Hc by (apply Hin; left). unfold scan_candidate.
    apply elem_of_app in Hc as [Hc|Hc].
    - rewrite Dr, join_prefix by done. apply (He (dir_of c)); [|done]. by intros [k v] H%walk_elem.
    - pose proof (exact_normal _ Hc) as Hn. rewrite (join_record _ c c Hr Hn).
      destruct (fs_files fs !! target root c) as [data|] eqn:Ef.
      + intros p d. destruct (decide (c = p)) as [<-|]; [|rewrite lookup_insert_ne by done; by apply G].
        rewrite lookup_insert_eq. by intros [= <-].
      + apply (He c); [|done]. by intros [k v] H%walk_elem. }
  apply Hc; [|intros p d; by rewrite lookup_empty].
  intros c. unfold candidates. by rewrite sort_slice_perm.
Qed.

Lemma scan_exact `{PT : !ProjectionTree F} root fs existing p :
  root_ok root → plain_names root fs → ScanReplicatedProjection root fs false = Ok existing →
  existing !! p = if bool_decide (NormalizeReplicatedPath p = Ok p) then fs_files fs !! target root p else None.
Proof.
  intros Hr Pl Sc. destruct (existing !! p) as [d|] eqn:Ee.
  - destruct (scan_values _ _ _ Hr Pl Sc _ _ Ee) as [Hp Hd]. by rewrite bool_decide_eq_true_2.
  - case_bool_decide as Hp; [|done]. destruct (fs_files fs !! target root p) as [d|] eqn:Ef; [|done].
    destruct (scan_complete _ _ _ _ _ Hr Sc Hp) as [d' Hd']; [by rewrite Ef|congruence].
Qed.

Lemma normalize_puts ops ops' :
  (∀ op, op ∈ ops → NormalizeReplicatedPath (Op_Path op) = Ok (Op_Path op)) →
  normalize_ops ops = Ok ops' → ops' = ops.
Proof.
  intros H. revert ops'. induction ops as [|op ops IH]; intros ops' E; cbn in E; [by injection E|].
  rewrite H in E by left. cbn [mbind result_bind] in E. apply check_then in E as [_ E].
  apply bind_Ok in E as (rest & Er & E). injection E as <-.
  rewrite (IH ltac:(intros; apply H; by right) rest Er). by destruct op.
Qed.

Lemma apply_puts (entries st : gmap string bytes) paths p :
  apply_ops st ((λ path, mkOperation "put" path (default [] (entries !! path)) true false "") <$> paths) !! p
    = if bool_decide (p ∈ paths) then Some (default [] (entries !! p)) else st !! p.
Proof.
  revert st. induction paths as [|q paths IH]; intros st; [done|]. cbn [fmap list_fmap].
  unfold apply_ops. cbn [fold_left]. fold (apply_ops (apply_op st (mkOperation "put" q (default [] (entries !! q)) true false ""))
    ((λ path, mkOperation "put" path (default [] (entries !! path)) true false "") <$> paths)).
  rewrite IH. unfold apply_op. cbn [Op String.eqb Ascii.eqb Bool.eqb Op_Path Op_Data].
  destruct (decide (p ∈ paths)) as [Hp|Hp].
  { rewrite !bool_decide_eq_true_2 by set_solver. done. }
  rewrite (bool_decide_eq_false_2 _ Hp). destruct (decide (p = q)) as [->|Hq].
  - rewrite bool_decide_eq_true_2 by set_solver. apply lookup_insert_eq.
  - rewrite bool_decide_eq_false_2 by set_solver. by apply lookup_insert_ne.
Qed.

(** The first mutation of a cluster imports the files: when a Controller without
    state applies the mutation made from a state directory whose file names have no
    surrounding space, and reports success, its canonical state has exactly the files
    of the directory that are records, with their contents. *)
Lemma bootstrap_imports `{PT : !ProjectionTree F} f root fs id issuedAt m log :
  root_ok root → plain_names root fs → state_of (fsm_store f) = ∅ → is_u64 (Log_Index log) →
  appliedIndex (fsm_store f) < Log_Index log → BootstrapMutation root fs false id issuedAt = Ok m →
  json_mutation (Log_Data log) = Some m → Res_OK (Apply f log).2 = true →
  revision (fsm_store (Apply f log).1) = revision (fsm_store f) + 1 ∧
  ∀ p, state_of (fsm_store (Apply f log).1) !! p =
    if bool_decide (NormalizeReplicatedPath p = Ok p) then fs_files fs !! target root p else None.
Proof.
  intros Hr Pl Em Hi Ha Bm J Hok. unfold BootstrapMutation in Bm.
  apply bind_Ok in Bm as (existing & Sc & [= <-]).
  destruct (Apply_cases f log Hi) as [[e E]|(command & ops & s' & rev & conflict & replay & J' & C & N & T & E)];
    rewrite E in *; [done|]. clear E. rewrite J in J'. injection J' as <-. cbn [Mut_Operations] in N.
  apply normalize_puts in N as ->; cycle 1.
  { intros op (q & -> & Hq%sorted_paths_elem)%list_elem_of_fmap. destruct Hq as [d Hd]. cbn.
    by apply (scan_values _ _ _ Hr Pl Sc _ _ Hd). }
  destruct T as [? ?|s' conflict _ Hc _ _ _ _|s' next _ _ _ E1 E2 _ _ [E3 _]].
  - lia.
  - apply String.eqb_neq in Hc. by rewrite Hc in Hok.
  - cbn [String.eqb negb]. destruct (project_ops _ _ _) as [fs' res]. cbn [fsm_store fst].
    split; [lia|]. intros p. rewrite E1, Em, apply_puts, <- (scan_exact _ _ _ p Hr Pl Sc), lookup_empty.
    case_bool_decide as Hp; rewrite sorted_paths_elem in Hp.
    + by destruct Hp as [d ->].
    + destruct (existing !! p); [|done]. destruct Hp. eauto.
Qed.
End facts.
