(* ===== verification/ControlNode.v ===== *)
(** * A Controller and Raft ([internal/controlplane/node.go], [reconcile.go], [Restore]
    of [fsm.go])

    hashicorp/raft is not part of the repository.  A call to it is modelled by what it
    does to the state machine: the entries it commits before it answers, and its answer.
    The leader election, the configuration of the cluster and the commit index are
    state that Raft changes. *)

From Stdlib Require Import Strings.Byte.
From stdpp Require Import pretty.
From S2P Require Import Prelude GoLib GoStrings Netip Crypto GoNet ControlStore ControlFsm ControlProjection.

Definition ErrNotLeader : string := "not raft leader".

Inductive Suffrage := Voter | Nonvoter | Staging.
#[export] Instance Suffrage_eq_decision : EqDecision Suffrage.
Proof. solve_decision. Defined.

Record Server := mkServer { srv_id : string; srv_address : string; srv_suffrage : Suffrage }.
#[export] Instance Server_eq_decision : EqDecision Server.
Proof. solve_decision. Defined.

(** [json.Marshal] of a mutation: strings of ASCII characters survive JSON, and so does
    a mutation whose strings do. *)
Definition ascii_string (s : string) : Prop := Forall (λ b, byte_val b < 128) (str_bytes s).

Definition is_i64 (z : Z) : Prop := - 2 ^ 63 <= z < 2 ^ 63.

Class MutationJson `{CJ : ControlJson} := {
  marshal_mutation : Mutation → bytes;
  json_string_ascii : ∀ s, ascii_string s → json_string s = true;
  json_mutation_roundtrip : ∀ m, json_string (Mut_ID m) = true → json_string (Mut_Kind m) = true →
    (∀ op, op ∈ Mut_Operations m → json_string (Op op) = true ∧ json_string (Op_Path op) = true ∧
       json_string (ExpectedSHA256 op) = true) → is_u64 (Mut_RevisionMinimum m) →
    is_i64 (Mut_Version m) → is_i64 (Mut_IssuedAt m) →
    json_mutation (marshal_mutation m) = Some m;
}.

(** The documented effect of [RemoveServer] and [AddVoter]/[AddNonvoter] on a
    configuration. *)
Class RaftMembership := {
  raft_remove : list Server → string → list Server;
  raft_add : list Server → Server → list Server;
  raft_remove_servers : ∀ servers id, raft_remove servers id ≡ₚ filter (λ s, srv_id s ≠ id) servers;
  raft_add_others : ∀ servers s t, srv_id t ≠ srv_id s → t ∈ raft_add servers s ↔ t ∈ servers;
  raft_add_self : ∀ servers s, ∃ t, t ∈ raft_add servers s ∧ srv_id t = srv_id s ∧ srv_address t = srv_address s;
}.

Section node.
Context `{HS : Hashes} `{GS : GoSort} `{CJ : ControlJson} `{MJ : !MutationJson} `{RM : RaftMembership}.
Context {B : Type} `{BB : BoltBucket B} {F : Type} `{PF : ProjectionFS F}.

(** The configuration fields the operations use, the state machine with its store, and
    what Raft keeps. *)
Record Node := mkNode {
  n_id : string;
  n_address : string;
  n_fsm : StateMachine B F;
  n_floor : Z;
  n_leader : bool;
  n_servers : list Server;
  n_configIndex : Z;
  n_commit : Z;
}.
Implicit Types n : Node.

Definition set_fsm n (f : StateMachine B F) : Node :=
  mkNode (n_id n) (n_address n) f (n_floor n) (n_leader n) (n_servers n) (n_configIndex n) (n_commit n).
Definition set_servers n (servers : list Server) : Node :=
  mkNode (n_id n) (n_address n) (n_fsm n) (n_floor n) (n_leader n) servers (n_configIndex n) (n_commit n).

(** [FSM.Apply] on entries Raft commits. *)
Definition apply_logs n (logs : list Log) : Node :=
  set_fsm n (fold_left (λ f log, (Apply f log).1) logs (n_fsm n)).

Definition checkRevisionFloor n : result unit :=
  check (FSM_Revision (n_fsm n) <? n_floor n) "canonical revision %d is below preserved pre-replay floor %d; migration requires revision reconciliation".

Definition reconcile_projection n (fault : bool) : Node * result unit :=
  let '(f, r) := ReconcileProjection (n_fsm n) fault in (set_fsm n f, r).

(** ** The state machine below Raft *)

Definition maxRestore : Z := 128 * 1024 * 1024.

Definition Restore (f : StateMachine B F) (raw : bytes) (fault : bool) : StateMachine B F * result unit :=
  let '(s, r) := restore_store (fsm_store f) (limit_reader maxRestore raw) in
  match r with
  | Ok _ => ReconcileProjection (mkFSM s (fsm_root f) (fsm_fs f)) fault
  | _ => (f, r)
  end.

(** ** Starting *)

(** What the operating system, the network and Raft answer while a Controller starts:
    the number of snapshots, whether the listener starts, whether Raft finds existing
    state, and whether it starts. *)
Record start_env := mkStart {
  st_snapshots : option nat;
  st_listen : bool;
  st_existing : option bool;
  st_fault : bool;
  st_raft : bool;
  st_servers : list Server;
}.

(** [NewNode] after the store is opened; the durable state is returned also when it
    fails. *)
Definition NewNode (id address : string) (store : Store B) (stateRoot : string) (fs : F) (env : start_env)
    : Store B * F * result Node :=
  if blank id || blank address then (store, fs, Err "node id and raft advertise address are required")
  else match st_snapshots env with
  | None => (store, fs, Err "snapshots")
  | Some snapshots =>
      let '(store, r) := prepareReplay store (negb (Nat.eqb snapshots 0)) in
      match r with
      | Ok floor =>
          let f := NewStateMachine store stateRoot fs in
          if negb (st_listen env) then (store, fs, Err "listen")
          else match st_existing env with
          | None => (store, fs, Err "existing state")
          | Some existing =>
              let '(f, r) := if (existing : bool) then ReconcileProjection f (st_fault env) else (f, Ok tt) in
              match r with
              | Ok _ =>
                  (fsm_store f, fsm_fs f,
                   if st_raft env
                   then Ok (mkNode id address f floor false (st_servers env) 0 0)
                   else Err "raft")
              | Err e => (fsm_store f, fsm_fs f, Err "reconcile canonical state: %w")
              | Panic => (fsm_store f, fsm_fs f, Panic)
              end
          end
      | Err e => (store, fs, Err e)
      | Panic => (store, fs, Panic)
      end
  end.

(** ** Writing *)

(** The answer of [raft.Apply]: the entries committed meanwhile, then the index and
    term of this entry, unless the future fails. *)
Record raft_answer := mkAnswer { ans_before : list Log; ans_entry : option Log }.

Definition with_data (log : Log) (raw : bytes) : Log :=
  mkLog (Log_Index log) (Log_Term log) (Log_Type log) raw (Log_Extensions log) (Log_AppendedAt log).

Definition raft_apply n (raw : bytes) (ans : raft_answer) : Node * option (MutationResult * Z) :=
  let n := apply_logs n (ans_before ans) in
  match ans_entry ans with
  | None => (n, None)
  | Some log =>
      let '(f, res) := Apply (n_fsm n) (with_data log raw) in
      (set_fsm n f, Some (res, Log_Index log))
  end.

Definition with_index (res : MutationResult) (index : Z) : MutationResult :=
  mkMutationResult index (Res_OK res) (Res_Revision res) (Res_Error res) (Res_Conflict res).

Definition Submit n (command : Mutation) (ans : raft_answer) : Node * result MutationResult :=
  if String.eqb (Mut_Kind command) "ReconcileRevision" || negb (Mut_RevisionMinimum command =? 0)
  then (n, Err "use administrative revision reconciliation")
  else if negb (n_leader n) then (n, Err ErrNotLeader)
  else match checkRevisionFloor n with
  | Ok _ =>
      let '(n, out) := raft_apply n (marshal_mutation command) ans in
      (n, match out with Some (res, index) => Ok (with_index res index) | None => Err "raft" end)
  | Err e => (n, Err e)
  | Panic => (n, Panic)
  end.

(** ** Reading *)

(** [barrier]: the entries applied before [Barrier] returns, [None] when it fails. *)
Definition StrongRead n (barrier : option (list Log)) (fault : bool) : Node * result (Z * Z) :=
  if negb (n_leader n) then (n, Err ErrNotLeader)
  else match barrier with
  | None => (n, Err "barrier")
  | Some logs =>
      let n := apply_logs n logs in
      match checkRevisionFloor n with
      | Ok _ =>
          let '(n, r) := reconcile_projection n fault in
          (n, r ;; Ok (n_commit n, FSM_Revision (n_fsm n)))
      | Err e => (n, Err e)
      | Panic => (n, Panic)
      end
  end.

(** [reached]: the entries applied until the index was reached, [None] on timeout. *)
Definition WaitApplied n (reached : option (list Log)) (fault : bool) : Node * result unit :=
  match reached with
  | None => (n, Err "local controller did not apply commit index %d before timeout")
  | Some logs =>
      let n := apply_logs n logs in
      match checkRevisionFloor n with
      | Ok _ => reconcile_projection n fault
      | Err e => (n, Err e)
      | Panic => (n, Panic)
      end
  end.

Definition Node_ExportSnapshot n : result bytes := checkRevisionFloor n ;; ExportSnapshot (n_fsm n).

(** [Node.Snapshot]: [raft.Snapshot] asks the state machine; [ok] is its own answer. *)
Definition Node_Snapshot n (ok : bool) : result bytes :=
  checkRevisionFloor n ;; raw ← Snapshot (n_fsm n); if ok then Ok raw else Err "raft".

(** ** Members *)

Definition AddMember n (id address : string) (voter : bool) (ok : bool) : Node * result unit :=
  if negb (n_leader n) then (n, Err ErrNotLeader)
  else match checkRevisionFloor n with
  | Ok _ =>
      if ok then (set_servers n (raft_add (n_servers n)
                    (mkServer id address (if voter then Voter else Nonvoter))), Ok tt)
      else (n, Err "raft")
  | r => (n, r)
  end.

Definition is_voter (s : Server) : bool := bool_decide (srv_suffrage s = Voter).
Definition count_voters (servers : list Server) : Z := zlen (List.filter is_voter servers).

Definition RemoveMember n (id : string) (force configuration ok : bool) : Node * result unit :=
  if negb (n_leader n) then (n, Err ErrNotLeader)
  else match checkRevisionFloor n with
  | Ok _ =>
      if negb configuration then (n, Err "configuration")
      else if negb (List.existsb (λ s, String.eqb (srv_id s) id) (n_servers n))
      then (n, Err "controller %s is not a raft member")
      else if (count_voters (n_servers n) <=? 2) && negb force
      then (n, Err "refusing to shrink controller cluster below two voters without force")
      else if ok then (set_servers n (raft_remove (n_servers n) id), Ok tt) else (n, Err "raft")
  | r => (n, r)
  end.

(** ** Status *)

Record Status := mkStatus {
  Sta_Revision : Z; Sta_RevisionFloor : Z; Sta_StateSchema : Z; Sta_PeerCount : Z; Sta_ReplicationLag : Z;
  Sta_Members : list Server; Sta_Voters : Z; Sta_Quorum : Z;
}.

(** The fields computed from the configuration and the two indices of [raft.Stats]. *)
Definition Node_Status n (commit applied : Z) : Status :=
  let members := n_servers n in
  let voters := count_voters members in
  mkStatus (FSM_Revision (n_fsm n)) (n_floor n) (FSM_SchemaVersion (n_fsm n))
    (if 0 <? zlen members then zlen members - 1 else 0)
    (if applied <? commit then commit - applied else 0)
    members voters (if 0 <? voters then voters / 2 + 1 else 0).

(** ** Reconciliation of the revision ([reconcile.go]) *)

Definition RevisionRecoveryVersion : Z := 1.

Record RecoveryState := mkRecovery {
  Rv_NodeID : string; Rv_Index : Z; Rv_Revision : Z; Rv_Floor : Z; Rv_Digest : string; Rv_ConfigurationIndex : Z;
}.

Definition recovery_view n (index : Z) : RecoveryState :=
  let s := fsm_store (n_fsm n) in
  mkRecovery (n_id n) index (revision s) (revisionFloor s)
    (snapshotChecksum (schemaVersion s) 0 (canonicalEntries s)) (n_configIndex n).

(** [applied]: the entries applied by the barrier or while waiting for the index. *)
Definition GetRecoveryState n (index : Z) (applied : option (list Log)) (configuration : bool)
    : Node * result RecoveryState :=
  if (index =? 0) && negb (n_leader n) then (n, Err ErrNotLeader)
  else match applied with
  | None => (n, Err (if index =? 0 then "barrier" else "recovery catch-up timeout"))
  | Some logs =>
      let n := apply_logs n logs in
      let index := if index =? 0 then n_commit n else index in
      (n, if configuration then Ok (recovery_view n index) else Err "configuration")
  end.

Definition recovery_command (minimum : Z) : Mutation :=
  mkMutation CommandVersion ("revision-recovery-" +:+ pretty minimum) "ReconcileRevision" 0 [] minimum.

Definition ReconcileRevision n (view : RecoveryState) (minimum : Z) (applied : option (list Log))
    (configuration : bool) (ans : raft_answer) (barrier : option (list Log)) (fault : bool)
    : Node * result MutationResult :=
  if negb (n_leader n) then (n, Err ErrNotLeader)
  else
    let '(n, r) := GetRecoveryState n 0 applied configuration in
    match r with
    | Ok current =>
        if negb (String.eqb (Rv_Digest view) (Rv_Digest current))
           || negb (Rv_ConfigurationIndex view =? Rv_ConfigurationIndex current)
           || negb (Rv_Revision view =? Rv_Revision current)
        then (n, Err "canonical state or membership changed; retry reconciliation")
        else if (minimum <? Rv_Floor current) || (minimum <? Rv_Revision current)
                || (minimum =? 0) || (minimum =? max_u64)
        then (n, Err "invalid reconciliation minimum")
        else
          let '(n, out) := raft_apply n (marshal_mutation (recovery_command minimum)) ans in
          match out with
          | None => (n, Err "raft")
          | Some (res, index) =>
              if negb (Res_OK res) then (n, Err "reconciliation failed: %v")
              else
                let '(n, r) := StrongRead n barrier fault in
                (n, r ;; Ok (with_index res index))
          end
    | Err e => (n, Err e)
    | Panic => (n, Panic)
    end.

(** The roles and the revocation of a Node record. *)
Record gatewayRecord := mkGateway { Gw_NodeID : string; Gw_Roles : gmap string bool; Gw_Revoked : bool }.

Fixpoint recovery_gateways (json_gateway : bytes → option gatewayRecord) (entries : list (string * bytes))
    : result (list string) :=
  match entries with
  | [] => Ok []
  | (k, v) :: rest =>
      if negb (has_prefix k "control/nodes/") then recovery_gateways json_gateway rest
      else match json_gateway v with
      | None => Err "json"
      | Some record =>
          if default false (Gw_Roles record !! "gateway") && negb (Gw_Revoked record) then
            check (String.eqb (Gw_NodeID record) ""
                   || negb (String.eqb k ("control/nodes/" +:+ Gw_NodeID record +:+ ".json")))
              "invalid canonical Gateway identity" ;;
            ids ← recovery_gateways json_gateway rest; Ok (Gw_NodeID record :: ids)
          else recovery_gateways json_gateway rest
      end
  end.

Definition RecoveryGateways n (json_gateway : bytes → option gatewayRecord) : result (list string) :=
  recovery_gateways json_gateway (bolt_list (canonical (fsm_store (n_fsm n)))).
End node.
Arguments Node B F : clear implicits.

(** ** Facts *)

Section node_facts.
Context `{HS : Hashes} `{GS : GoSort} `{CJ : ControlJson} `{MJ : !MutationJson} `{RM : RaftMembership}.
Context {B : Type} `{BB : BoltBucket B} {F : Type} `{PF : ProjectionFS F}.
Implicit Types (n : Node B F) (f : StateMachine B F) (s : Store B) (fs : F).

Definition log_ok (log : Log) : Prop := is_u64 (Log_Index log).

Lemma Apply_counters f log : log_ok log →
  revision (fsm_store f) <= revision (fsm_store (Apply f log).1) ∧
  revisionFloor (fsm_store (Apply f log).1) = revisionFloor (fsm_store f) ∧
  fsm_root (Apply f log).1 = fsm_root f ∧
  (Res_OK (Apply f log).2 = true → Res_Revision (Apply f log).2 = revision (fsm_store (Apply f log).1)).
Proof.
  intros Hi. destruct (Apply_cases f log Hi) as [[e ->]|(c & ops & s' & rev & cf & rp & _ & _ & _ & T & ->)].
  { cbn. split_and!; [lia|done..]. }
  destruct T as [? ?|s' cf ? Hc _ E1 E2 _|s' next _ _ _ _ E1 E2 _ Hn].
  - cbn. split_and!; [lia|done..].
  - apply String.eqb_neq in Hc as ->. cbn. split_and!; [lia|done..].
  - cbn [String.eqb negb]. destruct (project_ops _ _ _) as [fs' res]. cbn [fsm_store fsm_root fst snd].
    split_and!; [|done|done|by destruct res].
    destruct (String.eqb (Mut_Kind c) "ReconcileRevision"); lia.
Qed.

Lemma apply_fold f logs : Forall log_ok logs →
  let f' := fold_left (λ f log, (Apply f log).1) logs f in
  revision (fsm_store f) <= revision (fsm_store f') ∧ revisionFloor (fsm_store f') = revisionFloor (fsm_store f).
Proof.
  revert f. induction logs as [|log logs IH]; intros f H; [cbn; lia|]. apply Forall_cons in H as [H1 H].
  cbn [fold_left]. specialize (IH (Apply f log).1 H). destruct (Apply_counters f log H1) as (R & E & _).
  cbn in *. lia.
Qed.

Lemma ReconcileProjection_store f fault :
  fsm_store (ReconcileProjection f fault).1 = fsm_store f.
Proof.
  unfold ReconcileProjection. destruct (write_entries _ _ _) as [fs1 []]; [|done].
  destruct (ScanReplicatedProjection _ _ _); [|done..]. by destruct (remove_stale _ _ _ _).
Qed.

Lemma restore_floor s raw : revisionFloor (restore_store s raw).1 = revisionFloor s.
Proof.
  destruct (restore_store s raw) as [s' r] eqn:E. unfold restore_store in E. cbn [fst].
  destruct (json_envelope raw) as [env|]; [|by injection E as <- _].
  destruct (_ || _); [by injection E as <- _|]. destruct (negb _); [by injection E as <- _|].
  destruct (restore_tx s env) as [s1| |] eqn:Et; injection E as <- _; [|done..].
  unfold restore_tx in Et. apply bind_Ok in Et as (? & _ & Et). destruct (put_entries _ _); [|done].
  destruct (_ ≫= _) as [meta|] eqn:M; [|done]. injection Et as <-.
  apply bind_Some in M as (m1 & M1 & M). apply bind_Some in M as (m2 & M2 & M3).
  apply bolt_delete_view in M1. apply bolt_put_view in M2, M3.
  unfold revisionFloor, bolt_get. cbn [canonical_meta set_canonical].
  by rewrite M3, lookup_insert_ne, M2, lookup_insert_ne, M1, lookup_delete_ne by done.
Qed.

Lemma Restore_floor f raw fault :
  revisionFloor (fsm_store (Restore f raw fault).1) = revisionFloor (fsm_store f).
Proof.
  unfold Restore. pose proof (restore_floor (fsm_store f) (limit_reader maxRestore raw)) as E.
  destruct (restore_store _ _) as [s r]. cbn in E. destruct r; [|done..].
  by rewrite ReconcileProjection_store.
Qed.

Lemma NewNode_floor id address s root fs env :
  let '(s', fs', r) := NewNode id address s root fs env in
  Z.max (revision s) (revisionFloor s) <= Z.max (revision s') (revisionFloor s') ∧
  revisionFloor s <= revisionFloor s' ∧
  ∀ n, r = Ok n → n_floor n = Z.max (revision s) (revisionFloor s) ∧
    revisionFloor (fsm_store (n_fsm n)) = n_floor n.
Proof.
  unfold NewNode. destruct (_ || _); [split_and!; (lia || done)|].
  destruct (st_snapshots env) as [k|]; [|split_and!; (lia || done)].
  pose proof (prepareReplay_floor s (negb (Nat.eqb k 0))) as P.
  destruct (prepareReplay s _) as [s1 r]. destruct r as [floor|e|]; [|subst; split_and!; (lia || done)..].
  destruct P as (E1 & E2 & _ & E3 & _ & _).
  destruct (negb (st_listen env)); [split_and!; (lia || done)|].
  destruct (st_existing env) as [existing|]; [|split_and!; (lia || done)].
  set (g := NewStateMachine s1 root fs).
  assert (∀ x : StateMachine B F * result unit,
    x = (if existing then ReconcileProjection g (st_fault env) else (g, Ok tt)) → fsm_store x.1 = s1) as Hx.
  { intros x ->. destruct existing; [by rewrite ReconcileProjection_store|done]. }
  destruct (if existing then _ else _) as [f2 r2] eqn:E. specialize (Hx (f2, r2) eq_refl). cbn in Hx.
  destruct r2; rewrite Hx; (split_and!; [lia|lia|]); [|done..].
  destruct (st_raft env); [|done]. intros m [= <-]. cbn. split; [lia|]. rewrite Hx. lia.
Qed.

(** *** A Controller over its life

    It runs, with Raft applying entries, installing snapshots and changing leaders and
    members, or it is down and only its store and files remain; a start may fail. *)
Inductive controller := Up (n : Node B F) | Down (s : Store B) (fs : F).

Inductive ctl_step (id address root : string) : controller → controller → Prop :=
| ctl_apply n log : log_ok log → ctl_step id address root (Up n) (Up (set_fsm n (Apply (n_fsm n) log).1))
| ctl_restore n raw fault : ctl_step id address root (Up n) (Up (set_fsm n (Restore (n_fsm n) raw fault).1))
| ctl_project n fault : ctl_step id address root (Up n) (Up (reconcile_projection n fault).1)
| ctl_raft n leader servers configIndex commit :
    ctl_step id address root (Up n)
      (Up (mkNode (n_id n) (n_address n) (n_fsm n) (n_floor n) leader servers configIndex commit))
| ctl_crash n : ctl_step id address root (Up n) (Down (fsm_store (n_fsm n)) (fsm_fs (n_fsm n)))
| ctl_start s fs env s' fs' r : NewNode id address s root fs env = (s', fs', r) →
    ctl_step id address root (Down s fs) match r with Ok n => Up n | _ => Down s' fs' end.

(** What was durable stays below the floor. *)
Definition fenced (base : Z) (c : controller) : Prop :=
  match c with
  | Up n => base <= n_floor n ∧ revisionFloor (fsm_store (n_fsm n)) = n_floor n
  | Down s _ => base <= Z.max (revision s) (revisionFloor s)
  end.

Lemma ctl_step_fenced id address root base c c' :
  ctl_step id address root c c' → fenced base c → fenced base c'.
Proof.
  intros []; cbn.
  - intros [? E]. destruct (Apply_counters (n_fsm n) log H) as (_ & -> & _). done.
  - intros [? E]. by rewrite Restore_floor.
  - intros [? E]. unfold reconcile_projection. pose proof (ReconcileProjection_store (n_fsm n) fault) as Es.
    destruct (ReconcileProjection _ _) as [g r]. cbn in *. by rewrite Es.
  - done.
  - intros [? E]. lia.
  - intros Hb. pose proof (NewNode_floor id address s root fs env) as P. rewrite H in P.
    destruct P as (P1 & P2 & P3). destruct r as [n|e|]; cbn; [|lia..]. destruct (P3 n eq_refl). lia.
Qed.

Lemma checkRevisionFloor_Ok n : checkRevisionFloor n = Ok tt ↔ n_floor n <= revision (fsm_store (n_fsm n)).
Proof. unfold checkRevisionFloor, FSM_Revision. rewrite check_Ok. apply Z.ltb_ge. Qed.

(** [raft.Apply] answers with the state machine's result. *)
Definition answer_ok (ans : raft_answer) : Prop :=
  Forall log_ok (ans_before ans) ∧ ∀ log, ans_entry ans = Some log → log_ok log.

Lemma raft_apply_spec n raw ans : answer_ok ans →
  let '(n', out) := raft_apply n raw ans in
  revision (fsm_store (n_fsm n)) <= revision (fsm_store (n_fsm n')) ∧
  revisionFloor (fsm_store (n_fsm n')) = revisionFloor (fsm_store (n_fsm n)) ∧ n_floor n' = n_floor n ∧
  n_leader n' = n_leader n ∧
  ∀ res index, out = Some (res, index) → Res_OK res = true →
    Res_Revision res = revision (fsm_store (n_fsm n')).
Proof.
  intros [Hb He]. unfold raft_apply. destruct (apply_fold (n_fsm n) (ans_before ans) Hb) as [R E].
  destruct (ans_entry ans) as [log|] eqn:El; [|by split_and!].
  assert (log_ok (with_data log raw)) as Hl by exact (He log eq_refl).
  destruct (Apply_counters (n_fsm (apply_logs n (ans_before ans))) _ Hl) as (R1 & E1 & _ & Ok1).
  destruct (Apply _ _) as [g res]. cbn in *. split_and!; [lia|congruence|done|done|]. by intros ?? [= <- _].
Qed.

Lemma StrongRead_id n barrier fault : n_id (StrongRead n barrier fault).1 = n_id n.
Proof.
  unfold StrongRead. destruct (negb (n_leader n)); [done|]. destruct barrier as [logs|]; [|done].
  destruct (checkRevisionFloor _); [|done..]. unfold reconcile_projection.
  by destruct (ReconcileProjection _ _) as [g r].
Qed.

Lemma StrongRead_Ok n barrier fault n' ci rev :
  StrongRead n barrier fault = (n', Ok (ci, rev)) → (∀ logs, barrier = Some logs → Forall log_ok logs) →
  n_floor n <= rev ∧ revision (fsm_store (n_fsm n)) <= rev ∧ rev = revision (fsm_store (n_fsm n')) ∧
  n_floor n' = n_floor n.
Proof.
  unfold StrongRead. destruct (negb (n_leader n)); [done|]. destruct barrier as [logs|]; [|done].
  intros E Hl. destruct (apply_fold (n_fsm n) logs (Hl _ eq_refl)) as [R _].
  destruct (checkRevisionFloor _) as [[]| |] eqn:C; [|done..]. apply checkRevisionFloor_Ok in C. cbn in C.
  unfold reconcile_projection in E. cbn [n_fsm apply_logs set_fsm] in *.
  set (g := fold_left _ logs (n_fsm n)) in *.
  pose proof (ReconcileProjection_store g fault) as Es.
  destruct (ReconcileProjection g fault) as [h r]. cbn [fst] in Es.
  destruct r as [[]| |]; [|done..]. cbn [mbind result_bind] in E.
  injection E as <- <- <-. cbn. unfold FSM_Revision. rewrite Es. split_and!; (done || lia).
Qed.

(** C20. No Controller answers from before its restart: whatever Raft replays, applies or
    restores, and however often the Controller crashes and starts, also without success,
    every write it accepts, every strong read, every wait for an index, every snapshot
    and every membership change happens at or above each revision that was durable when
    the Controller went down. *)
Theorem revision_floor_fence id address root s fs n :
  rtc (ctl_step id address root) (Down s fs) (Up n) →
  (∀ command ans n' res, answer_ok ans → Submit n command ans = (n', Ok res) →
     revision s <= revision (fsm_store (n_fsm n)) ∧ (Res_OK res = true → revision s <= Res_Revision res)) ∧
  (∀ barrier fault n' ci rev, (∀ logs, barrier = Some logs → Forall log_ok logs) →
     StrongRead n barrier fault = (n', Ok (ci, rev)) → revision s <= rev) ∧
  (∀ reached fault n', (∀ logs, reached = Some logs → Forall log_ok logs) →
     WaitApplied n reached fault = (n', Ok tt) → revision s <= revision (fsm_store (n_fsm n'))) ∧
  (is_ok (Node_ExportSnapshot n) = true → revision s <= revision (fsm_store (n_fsm n))) ∧
  (∀ ok, is_ok (Node_Snapshot n ok) = true → revision s <= revision (fsm_store (n_fsm n))) ∧
  (∀ who where_ voter ok n', AddMember n who where_ voter ok = (n', Ok tt) →
     revision s <= revision (fsm_store (n_fsm n))) ∧
  (∀ who force configuration ok n', RemoveMember n who force configuration ok = (n', Ok tt) →
     revision s <= revision (fsm_store (n_fsm n))).
Proof.
  intros R. assert (fenced (revision s) (Up n)) as [Hb _].
  { assert (fenced (revision s) (Down s fs)) as H by (cbn; lia). revert R H.
    generalize (Up n) (Down s fs). intros c0 c R. induction R; eauto using ctl_step_fenced. }
  assert (∀ u, checkRevisionFloor n = Ok u → revision s <= revision (fsm_store (n_fsm n))) as Hc.
  { intros [] C%checkRevisionFloor_Ok. lia. }
  split_and!.
  - intros command ans n' res Ha E. unfold Submit in E. destruct (_ || _); [done|].
    destruct (negb (n_leader n)); [done|]. destruct (checkRevisionFloor n) as [u| |] eqn:C; [|done..].
    pose proof (Hc u eq_refl). pose proof (raft_apply_spec n (marshal_mutation command) ans Ha) as P.
    destruct (raft_apply _ _ _) as [n1 out]. destruct P as (P1 & _ & _ & _ & P2).
    destruct out as [[res0 index]|]; [|done]. injection E as <- <-. split; [done|].
    intros Hok. cbn in Hok |- *. rewrite (P2 _ _ eq_refl Hok). lia.
  - intros barrier fault n' ci rev Hl E. apply StrongRead_Ok in E as (? & _); [lia|done].
  - intros reached fault n' Hl E. unfold WaitApplied in E. destruct reached as [logs|]; [|done].
    destruct (checkRevisionFloor (apply_logs n logs)) as [[]| |] eqn:C; [|done..].
    apply checkRevisionFloor_Ok in C. unfold reconcile_projection in E.
    pose proof (ReconcileProjection_store (n_fsm (apply_logs n logs)) fault) as Es.
    destruct (ReconcileProjection _ _) as [g r]. injection E as <- _. cbn in *. rewrite Es. lia.
  - unfold Node_ExportSnapshot. destruct (checkRevisionFloor n) as [u| |] eqn:C; [|done..]. eauto.
  - intros ok. unfold Node_Snapshot. destruct (checkRevisionFloor n) as [u| |] eqn:C; [|done..]. eauto.
  - intros who where_ voter ok n' E. unfold AddMember in E. destruct (negb _); [done|].
    destruct (checkRevisionFloor n) as [u| |] eqn:C; [|done..]. eauto.
  - intros who force configuration ok n' E. unfold RemoveMember in E. destruct (negb (n_leader n)); [done|].
    destruct (checkRevisionFloor n) as [u| |] eqn:C; [|done..]. eauto.
Qed.

Lemma voters_proper (l k : list Server) : l ≡ₚ k → List.filter is_voter l ≡ₚ List.filter is_voter k.
Proof.
  induction 1 as [|x l k _ IH|x y l|l k m _ IH1 _ IH2]; cbn; [done| | |by etrans].
  - by destruct (is_voter x); rewrite IH.
  - destruct (is_voter x), (is_voter y); try done. apply perm_swap.
Qed.

Lemma remove_one_voter (l : list Server) id : NoDup (srv_id <$> l) →
  (length (List.filter is_voter l) <= S (length (List.filter is_voter (filter (λ m, srv_id m ≠ id) l))))%nat.
Proof.
  induction l as [|s l IH]; [cbn; lia|]. rewrite fmap_cons. intros [Ns Nl]%NoDup_cons. rewrite filter_cons.
  destruct (decide (srv_id s ≠ id)) as [Hne|He].
  - specialize (IH Nl). cbn. destruct (is_voter s); cbn; lia.
  - assert (filter (λ m, srv_id m ≠ id) l = l) as ->.
    { assert (∀ t, t ∈ l → srv_id t ≠ id) as H.
      { intros t Ht Et. apply Ns, list_elem_of_fmap. exists t. split; [|done].
        apply dec_stable in He. congruence. }
      clear -H. induction l as [|t l IH]; [done|]. rewrite filter_cons_True by (apply H; left).
      by rewrite IH by (intros; apply H; by right). }
    cbn. destruct (is_voter s); cbn; lia.
Qed.

(** What a removal does: it takes a member out of the configuration, and without force
    it leaves two voters. *)
Lemma RemoveMember_Ok n id force configuration ok n' :
  NoDup (srv_id <$> n_servers n) → RemoveMember n id force configuration ok = (n', Ok tt) →
  n' = set_servers n (raft_remove (n_servers n) id) ∧ id ∈ (srv_id <$> n_servers n) ∧
  (∀ m, m ∈ raft_remove (n_servers n) id ↔ m ∈ n_servers n ∧ srv_id m ≠ id) ∧
  (force = false → 2 <= count_voters (raft_remove (n_servers n) id)).
Proof.
  intros Nd E. unfold RemoveMember in E. destruct (n_leader n); [cbn [negb] in E|done].
  destruct (checkRevisionFloor n) as [u| |]; [|done..]. destruct (negb configuration); [done|].
  destruct (List.existsb _ _) eqn:Ex; [|done]. cbn [negb] in E.
  destruct (_ && _) eqn:Cv in E; [done|]. destruct ok; [|done]. injection E as <-.
  pose proof (raft_remove_servers (n_servers n) id) as P.
  apply existsb_exists in Ex as (s0 & Hs0%list_elem_of_In & Es0%String.eqb_eq).
  split_and!; [done| |intros m; rewrite P; rewrite list_elem_of_filter; naive_solver|].
  - apply list_elem_of_fmap. by exists s0.
  - intros ->. rewrite andb_true_r in Cv. apply Z.leb_gt in Cv. unfold count_voters, zlen in *.
    assert (length (List.filter is_voter (raft_remove (n_servers n) id))
      = length (List.filter is_voter (filter (λ m, srv_id m ≠ id) (n_servers n)))) as ->.
    { apply Permutation_length. by apply voters_proper. }
    pose proof (remove_one_voter (n_servers n) id Nd). lia.
Qed.

(** With two voters the quorum that the status reports can be reached. *)
Lemma Node_Status_quorum n commit applied : 1 <= count_voters (n_servers n) →
  1 <= Sta_Quorum (Node_Status n commit applied) <= Sta_Voters (Node_Status n commit applied).
Proof.
  intros H. cbn. destruct (Z.ltb_spec 0 (count_voters (n_servers n))); [|lia].
  pose proof (Z.div_mod (count_voters (n_servers n)) 2 ltac:(lia)).
  pose proof (Z.mod_pos_bound (count_voters (n_servers n)) 2 ltac:(lia)). lia.
Qed.

Lemma ascii_app a b : ascii_string a → ascii_string b → ascii_string (a +:+ b).
Proof.
  unfold ascii_string. induction a as [|c a IH]; [done|]. intros Ha Hb.
  unfold str_bytes, String.list_byte_of_string in *. cbn in *. apply Forall_cons in Ha as [? Ha]. by constructor; [|apply IH].
Qed.

Lemma pretty_N_ascii (x : N) (str : string) : ascii_string str → ascii_string (pretty_N_go x str).
Proof.
  revert str. induction (N.lt_wf_0 x) as [x _ IH]; intros str H.
  destruct (decide (x = 0%N)) as [->|Hx]; [by rewrite pretty_N_go_0|].
  rewrite pretty_N_go_step by lia. apply IH; [by apply N.div_lt; lia|].
  change (String ?c str) with (String c "" +:+ str). apply ascii_app; [|done].
  unfold pretty_N_char, ascii_string. repeat case_match; by repeat constructor.
Qed.

Lemma pretty_ascii (z : Z) : 0 <= z → ascii_string (pretty z).
Proof.
  intros Hz. unfold pretty, pretty_Z. destruct z as [|x|x]; [by repeat constructor| |lia].
  unfold pretty, pretty_positive, pretty, pretty_N. destruct (decide _); [by repeat constructor|].
  apply pretty_N_ascii. constructor.
Qed.

Lemma recovery_roundtrip minimum : is_u64 minimum →
  json_mutation (marshal_mutation (recovery_command minimum)) = Some (recovery_command minimum).
Proof.
  intros Hm. apply json_mutation_roundtrip; cbn; [| |set_solver|done|done|done]; apply json_string_ascii.
  - apply ascii_app; [by repeat constructor|]. apply pretty_ascii. apply Hm.
  - by repeat constructor.
Qed.

(** The entry of a reconciliation raises the revision and changes nothing else. *)
Lemma Apply_recovery f log minimum : is_u64 minimum → log_ok log → appliedIndex (fsm_store f) < Log_Index log →
  let '(f', res) := Apply f (with_data log (marshal_mutation (recovery_command minimum))) in
  Res_OK res = true → state_of (fsm_store f') = state_of (fsm_store f) ∧
    revision (fsm_store f') = Z.max (revision (fsm_store f)) minimum ∧ Res_Revision res = revision (fsm_store f').
Proof.
  intros Hm Hl Ha. destruct (Apply_cases f (with_data log (marshal_mutation (recovery_command minimum))) Hl)
    as [[e ->]|(c & ops & s' & rev & cf & rp & J & _ & N & T & ->)]; [done|].
  cbn [Log_Data with_data] in J. rewrite recovery_roundtrip in J by done. injection J as <-.
  injection N as <-. cbn [Log_Index with_data] in T.
  destruct T as [? ?|s' cf ? Hc _ _ _ _|s' next _ _ _ E1 E2 _ _ Hn]; [lia| |].
  - apply String.eqb_neq in Hc as ->. done.
  - cbn in Hn. intros _. cbn. rewrite E1, E2. by split_and!.
Qed.

(** Reconciliation unblocks a Controller below its floor and changes no policy:
    when it succeeds, the digest, revision and configuration the administrator saw were
    those of the committed state, the new revision is at least the minimum, which is at
    least the floor, the checks of the floor pass again, and, as its lock keeps other
    writers out, the canonical state is what it was and the revision is the minimum. *)
Lemma ReconcileRevision_unblocks n view minimum applied configuration ans barrier fault n' res :
  revisionFloor (fsm_store (n_fsm n)) = n_floor n → is_u64 minimum → answer_ok ans →
  (∀ logs, applied = Some logs ∨ barrier = Some logs → Forall log_ok logs) →
  let seen := apply_logs n (default [] applied) in
  (∀ log, ans_entry ans = Some log →
     appliedIndex (fsm_store (n_fsm (apply_logs seen (ans_before ans)))) < Log_Index log) →
  ReconcileRevision n view minimum applied configuration ans barrier fault = (n', Ok res) →
  let st := fsm_store (n_fsm seen) in
  Rv_Digest view = snapshotChecksum (schemaVersion st) 0 (state_of st) ∧ Rv_Revision view = revision st ∧
  Rv_ConfigurationIndex view = n_configIndex n ∧
  n_floor n <= minimum <= Res_Revision res ∧ checkRevisionFloor n' = Ok tt ∧
  (ans_before ans = [] → barrier = Some [] →
   state_of (fsm_store (n_fsm n')) = state_of st ∧ revision (fsm_store (n_fsm n')) = minimum).
Proof.
  intros Hf Hm Ha Hl seen Hi E. unfold ReconcileRevision in E.
  destruct (n_leader n) eqn:Ld; [cbn [negb] in E|done]. unfold GetRecoveryState in E. rewrite Ld in E.
  cbn [negb andb Z.eqb] in E. destruct applied as [logs|]; [|done]. cbn [default] in seen. fold seen in E.
  assert (seen = apply_logs n logs) as Es by done.
  destruct configuration; [|done]. cbn [Rv_Digest Rv_ConfigurationIndex Rv_Revision Rv_Floor recovery_view] in E.
  destruct (_ || _ || _) eqn:G1 in E; [done|]. destruct (_ || _ || _ || _) eqn:G2 in E; [done|].
  guards. destruct G1 as [[G1 G1'] G1'']. destruct G2 as [[[G2 G3] G4] G5].
  destruct (apply_fold (n_fsm n) logs (Hl _ (or_introl eq_refl))) as [R1 F1].
  change (fold_left _ logs (n_fsm n)) with (n_fsm seen) in R1, F1.
  pose proof (raft_apply_spec seen (marshal_mutation (recovery_command minimum)) ans Ha) as P.
  unfold raft_apply in E, P. destruct (ans_entry ans) as [log|] eqn:El; [|done].
  pose proof (Apply_recovery (n_fsm (apply_logs seen (ans_before ans))) log minimum Hm (proj2 Ha log El)
    (Hi log eq_refl)) as A.
  destruct (Apply _ _) as [g res0]. destruct P as (_ & _ & Pf & _).
  destruct (Res_OK res0) eqn:Hok; [cbn [negb] in E|done]. destruct (A eq_refl) as (A1 & A2 & A3).
  destruct (StrongRead _ barrier fault) as [n2 r] eqn:Sr.
  destruct r as [[ci rev]| |]; [|done..]. injection E as <- <-. cbn [Res_Revision with_index].
  pose proof Sr as Sr'. apply StrongRead_Ok in Sr' as (S1 & S2 & S3 & S4); [|intros; apply Hl; by right].
  cbn [n_fsm set_fsm n_floor] in *.
  assert (n_floor n = n_floor seen) as Ef by (by rewrite Es).
  change (apply_logs n logs) with seen in G2, G3. rewrite F1, Hf in G2. rewrite A3, A2 in *.
  split_and!; [done|done|exact G1'|lia|lia| |].
  - apply checkRevisionFloor_Ok. lia.
  - intros Eb ->. rewrite Eb in *. cbn [apply_logs fold_left set_fsm n_fsm] in A1, A2.
    unfold StrongRead in Sr. cbn [n_leader set_fsm apply_logs] in Sr.
    rewrite Ld in Sr. cbn [negb] in Sr.
    destruct (checkRevisionFloor _) as [[]| |]; [|done..]. unfold reconcile_projection in Sr.
    cbn [n_fsm apply_logs set_fsm fold_left] in Sr.
    pose proof (ReconcileProjection_store g fault) as Eg. destruct (ReconcileProjection g fault) as [h r].
    injection Sr as <- _. cbn [n_fsm set_fsm] in *. cbn [fst] in Eg. rewrite Eg.
    split; [done|]. rewrite A2. lia.
Qed.
End node_facts.
