(* ===== verification/ControlTls.v ===== *)
(** * Mutual TLS between Controllers ([internal/controlplane/tls.go])

    After the handshake has checked the chain, [VerifyConnection] looks the peer up among
    the files the state machine projects: a peer is a Controller when the replicated
    state says so. *)

From Stdlib Require Import Strings.Byte Strings.Ascii.
From S2P Require Import Prelude GoLib GoStrings Netip GoEncoding Crypto ControlStore ControlFsm ControlNode.

Record TLSMaterial := mkTLS {
  Tls_CertificateFile : string;
  Tls_KeyFile : string;
  Tls_CAFile : string;
  Tls_MembershipDir : string;
  Tls_ClusterID : string;
}.

(** The fields of [x509.Certificate] the code reads; a URI is its [String]. *)
Record Certificate := mkCert { Cert_CommonName : string; Cert_Raw : bytes; Cert_URIs : list string }.

Record membershipRecord := mkMember { Mem_NodeID : string; Mem_State : string; Mem_CertificateSHA256 : string }.

(** [json.Unmarshal] into a membership record. *)
Class MembershipJson := json_membership : bytes → option membershipRecord.

Section tls.
Context `{HS : Hashes} `{MB : MembershipJson}.

Definition fingerprint (cert : Certificate) : string := hex_encode (sha256 (Cert_Raw cert)).

Definition member_states : list string := ["pending"; "nonvoter"; "voter"].

(** [strings.ContainsAny] with a slash and a backslash. *)
Fixpoint has_separator (s : string) : bool :=
  match s with
  | EmptyString => false
  | String c r => is_slash c || Ascii.eqb c "\"%char || has_separator r
  end.

Definition verifyControllerMembership (material : TLSMaterial) (files : gmap string bytes) (cert : Certificate)
    : result unit :=
  if blank (Tls_MembershipDir material) then Ok tt
  else
    check (blank (Tls_ClusterID material)) "cluster identity is missing" ;;
    let nodeID := trim_space (Cert_CommonName cert) in
    check (String.eqb nodeID "" || String.eqb nodeID "." || String.eqb nodeID ".." || has_separator nodeID)
      "controller certificate has invalid node identity" ;;
    match files !! filepath_join (Tls_MembershipDir material) (nodeID +:+ ".json") with
    | None => Err "controller %s is not a cluster member: %w"
    | Some raw =>
        match json_membership raw with
        | None => Err "invalid controller membership record for %s: %w"
        | Some record =>
            check (negb (String.eqb (Mem_NodeID record) nodeID)) "controller membership identity mismatch" ;;
            check (negb (bool_decide (Mem_State record ∈ member_states))) "controller %s membership state is %q" ;;
            check (negb (String.eqb (to_lower (trim_space (Mem_CertificateSHA256 record))) (fingerprint cert)))
              "controller %s certificate fingerprint mismatch" ;;
            check (negb (List.existsb
                     (String.eqb ("bpc://" +:+ Tls_ClusterID material +:+ "/controller/" +:+ nodeID)) (Cert_URIs cert)))
              "controller %s certificate does not bind cluster identity"
        end
    end.

(** [VerifyConnection] of both TLS configurations. *)
Definition verifyPeer (material : TLSMaterial) (files : gmap string bytes) (peers : list Certificate) : result unit :=
  match peers with
  | [] => Err "controller peer certificate is missing"
  | cert :: _ => verifyControllerMembership material files cert
  end.

(** ** Facts *)

(** What the replicated state says of a certificate. *)
Definition admits (state : gmap string bytes) (clusterID : string) (cert : Certificate) : Prop :=
  ∃ nodeID raw record, nodeID = trim_space (Cert_CommonName cert) ∧
    nodeID ∉ [""; "."; ".."] ∧ has_separator nodeID = false ∧
    state !! ("cluster/controllers/" +:+ nodeID +:+ ".json") = Some raw ∧ json_membership raw = Some record ∧
    Mem_NodeID record = nodeID ∧ Mem_State record ∈ member_states ∧
    to_lower (trim_space (Mem_CertificateSHA256 record)) = fingerprint cert ∧
    ("bpc://" +:+ clusterID +:+ "/controller/" +:+ nodeID) ∈ Cert_URIs cert.

Lemma no_slash_json s : has_separator s = false → no_slash (s +:+ ".json").
Proof.
  unfold no_slash. induction s as [|c s IH]; [done|]. cbn [has_separator]. rewrite !orb_false_iff.
  intros [[Hc _] Hs]. change (String c s +:+ ".json") with (String c (s +:+ ".json")).
  cbn [split_slash]. by rewrite Hc, (IH Hs).
Qed.

Lemma member_file root nodeID : root_ok root → has_separator nodeID = false →
  filepath_join (filepath_join root "cluster/controllers") (nodeID +:+ ".json")
    = target root ("cluster/controllers/" +:+ nodeID +:+ ".json").
Proof.
  intros (comps & -> & Hne & Fp & Fs) Hn.
  assert (Forall plain_component ["cluster"; "controllers"] ∧ Forall no_slash ["cluster"; "controllers"]) as [P N]
    by (split; repeat constructor; done).
  rewrite (filepath_join_plain comps "cluster/controllers"); [|done..|exact P].
  replace ("/" +:+ join_slash comps +:+ "/" +:+ "cluster/controllers")
    with ("/" +:+ join_slash (comps ++ ["cluster"; "controllers"])) by (by rewrite join_slash_app).
  rewrite filepath_join_plain; [|by destruct comps|by apply Forall_app|by apply Forall_app|].
  - rewrite join_slash_app by done. unfold target. by rewrite !str_app_assoc.
  - rewrite (no_slash_json _ Hn). constructor; [|constructor].
    unfold plain_component. destruct nodeID as [|c1 [|c2 nodeID]]; cbn; split_and!; try by intros [=].
    intros [= _ _ E]. by destruct nodeID.
Qed.

Lemma verify_iff material files cert : blank (Tls_MembershipDir material) = false →
  verifyControllerMembership material files cert = Ok tt ↔
  blank (Tls_ClusterID material) = false ∧ ∃ raw record,
    let nodeID := trim_space (Cert_CommonName cert) in
    nodeID ∉ [""; "."; ".."] ∧ has_separator nodeID = false ∧
    files !! filepath_join (Tls_MembershipDir material) (nodeID +:+ ".json") = Some raw ∧
    json_membership raw = Some record ∧
    Mem_NodeID record = nodeID ∧ Mem_State record ∈ member_states ∧
    to_lower (trim_space (Mem_CertificateSHA256 record)) = fingerprint cert ∧
    ("bpc://" +:+ Tls_ClusterID material +:+ "/controller/" +:+ nodeID) ∈ Cert_URIs cert.
Proof.
  intros Hd. unfold verifyControllerMembership. rewrite Hd.
  set (nodeID := trim_space (Cert_CommonName cert)). rewrite !check_then.
  assert (String.eqb nodeID "" || String.eqb nodeID "." || String.eqb nodeID ".." || has_separator nodeID = false ↔
    nodeID ∉ [""; "."; ".."] ∧ has_separator nodeID = false) as ->.
  { rewrite !orb_false_iff, !String.eqb_neq, !not_elem_of_cons. split; [|tauto].
    intros [[[? ?] ?] ?]. split_and!; try done. apply not_elem_of_nil. }
  destruct (files !! _) as [raw|]; [|naive_solver].
  destruct (json_membership raw) as [record|] eqn:J; [|naive_solver].
  rewrite !check_then, check_Ok, !negb_false_iff, !String.eqb_eq, bool_decide_eq_true.
  rewrite existsb_exists. split.
  - intros (? & [? ?] & ? & ? & ? & uri & Hu%list_elem_of_In & <-%String.eqb_eq). split; [done|].
    exists raw, record. by split_and!.
  - intros (? & raw' & record' & ? & ? & [= <-] & J' & ? & ? & ? & ?). rewrite J in J'. injection J' as <-.
    split_and!; try done. eexists. split; [by apply list_elem_of_In|]. apply String.eqb_refl.
Qed.
End tls.

Section admission.
Context `{HS : Hashes} `{MB : MembershipJson} `{GS : GoSort} `{CJ : ControlJson}.
Context {B : Type} `{BB : BoltBucket B} {F : Type} `{PF : ProjectionFS F}.
Implicit Types (f : StateMachine B F).

End admission.
