(* ===== verification/ControlCheckpoint.v ===== *)
(** * Replay checkpoints ([internal/controlplane/checkpoint.go], [SnapshotClusterID] of
    [node.go])

    A Controller without a replay base imports the Raft snapshot of a ready leader.  The
    import checks the checkpoint against itself, the two certificates and the local
    database, keeps a backup, and leaves the canonical state for Raft to restore. *)

From Stdlib Require Import Strings.Byte.
From S2P Require Import Prelude GoLib GoStrings Netip GoEncoding Crypto GoNet ControlStore ControlFsm.
From S2P Require Import ControlProjection ControlNode ControlTls.

Definition maxCheckpointStateBytes : Z := 128 * 1024 * 1024.
Definition maxCheckpointBytes : Z := 192 * 1024 * 1024.

(** [raft.SnapshotMeta]; the legacy peer encoding is not used. *)
Record SnapshotMeta := mkMeta {
  SM_Version : Z; SM_ID : string; SM_Index : Z; SM_Term : Z; SM_Servers : list Server;
  SM_ConfigurationIndex : Z; SM_Size : Z;
}.

Record ReplayCheckpoint := mkCheckpoint {
  Cp_Version : Z; Cp_ClusterID : string; Cp_SourceNodeID : string; Cp_Meta : SnapshotMeta;
  Cp_State : bytes; Cp_SHA256 : string;
}.

Record CheckpointImportResult := mkImported { Im_SnapshotIndex : Z; Im_RevisionFloor : Z; Im_BackupFile : string }.

(** The fields of [NodeConfig] an import uses. *)
Record NodeConfig := mkConfig { Cfg_NodeID : string; Cfg_RaftAddress : string; Cfg_TLS : TLSMaterial }.

(** [json.Marshal] and [json.Unmarshal] of a checkpoint and of the cluster record, and
    what decoding into unsigned fields gives. *)
Class CheckpointJson `{CJ : ControlJson} := {
  marshal_checkpoint : ReplayCheckpoint → bytes;
  json_checkpoint : bytes → option ReplayCheckpoint;
  json_cluster : bytes → option string;
  json_envelope_u64 : ∀ raw e, json_envelope raw = Some e → is_u64 (Env_Revision e) ∧ is_u64 (Env_SchemaVersion e);
}.

(** hashicorp/raft: the version of its snapshots, and its snapshot store, which keeps
    what it has in an order of its own. *)
Class RaftSnapshots := {
  SnapshotVersionMax : Z;
  snapshot_add : list (SnapshotMeta * bytes) → SnapshotMeta * bytes → list (SnapshotMeta * bytes);
  snapshot_add_perm : ∀ l s, snapshot_add l s ≡ₚ s :: l;
}.

Section checkpoint.
Context `{HS : Hashes} `{GS : GoSort} `{CJ : ControlJson} `{MJ : !MutationJson} `{CPJ : !CheckpointJson}.
Context `{MB : MembershipJson} `{RS : RaftSnapshots}.
Context {B : Type} `{BB : BoltBucket B} {F : Type} `{PF : ProjectionFS F}.

Definition checkpointChecksum (c : ReplayCheckpoint) : string :=
  hex_encode (sha256 (marshal_checkpoint
    (mkCheckpoint (Cp_Version c) (Cp_ClusterID c) (Cp_SourceNodeID c) (Cp_Meta c) (Cp_State c) ""))).

Definition SnapshotClusterID (raw : bytes) : result string :=
  match json_envelope raw with
  | None => Err "json"
  | Some envelope =>
      check (negb (Env_Version envelope =? 1) || (ControlSchemaVersion <? Env_SchemaVersion envelope))
        "incompatible canonical snapshot schema" ;;
      check (negb (String.eqb (snapshotChecksum (Env_SchemaVersion envelope) (Env_Revision envelope)
                                 (Env_Entries envelope)) (Env_Checksum envelope)))
        "canonical snapshot checksum mismatch" ;;
      match Env_Entries envelope !! "cluster/cluster.json" with
      | None => Err "canonical snapshot does not contain cluster metadata"
      | Some clusterRaw =>
          match json_cluster clusterRaw with
          | None => Err "json"
          | Some id =>
              check (blank id) "canonical snapshot cluster_id is missing" ;; Ok (trim_space id)
          end
      end
  end.

(** The loop over the members of the configuration: whether the recipient and the
    source are among them. *)
Fixpoint check_members (config : NodeConfig) (source : string) (seen : list string) (found : bool * bool)
    (members : list Server) : result (bool * bool) :=
  match members with
  | [] => Ok found
  | member :: rest =>
      check (String.eqb (srv_id member) "" || String.eqb (srv_address member) ""
             || bool_decide (srv_id member ∈ seen)
             || negb (bool_decide (srv_suffrage member = Voter)) && negb (bool_decide (srv_suffrage member = Nonvoter)))
        "invalid checkpoint membership configuration" ;;
      let here := String.eqb (srv_id member) (Cfg_NodeID config) in
      check (here && negb (String.eqb (srv_address member) (Cfg_RaftAddress config)))
        "checkpoint recipient Raft address mismatch" ;;
      let there := String.eqb (srv_id member) source && is_voter member in
      check_members config source (srv_id member :: seen) (found.1 || here, found.2 || there) rest
  end.

(** The body of the loop over the two certificates. *)
Definition check_certificate (entries : gmap string bytes) (source nodeID : string) (cert : option Certificate)
    : result unit :=
  match cert with
  | None => Err "checkpoint certificate identity mismatch"
  | Some cert =>
      check (negb (String.eqb (Cert_CommonName cert) nodeID)) "checkpoint certificate identity mismatch" ;;
      match entries !! ("cluster/controllers/" +:+ nodeID +:+ ".json") ≫= json_membership with
      | None => Err "checkpoint membership record unavailable"
      | Some record =>
          check (negb (String.eqb (Mem_NodeID record) nodeID)
                 || negb (String.eqb (to_lower (Mem_CertificateSHA256 record)) (fingerprint cert))
                 || negb (bool_decide (Mem_State record ∈ ["voter"; "nonvoter"; "pending"])))
            "checkpoint does not authorize authenticated certificates" ;;
          check (String.eqb nodeID source && negb (String.eqb (Mem_State record) "voter"))
            "checkpoint source is not a canonical voter"
      end
  end.

(** Ranging over the map of the two certificates in one of its orders; the order only
    decides which of two errors is reported. *)
Definition validateReplayCheckpoint (c : ReplayCheckpoint) (config : NodeConfig)
    (recipient source : option Certificate) : result unit :=
  check (negb (Cp_Version c =? 1) || String.eqb (Cp_SourceNodeID c) ""
         || String.eqb (Cp_SourceNodeID c) (Cfg_NodeID config)
         || negb (String.eqb (Cp_ClusterID c) (Tls_ClusterID (Cfg_TLS config))))
    "checkpoint identity/version mismatch" ;;
  check ((maxCheckpointStateBytes <? zlen (Cp_State c)) || negb (String.eqb (Cp_SHA256 c) (checkpointChecksum c)))
    "checkpoint checksum/size mismatch" ;;
  let meta := Cp_Meta c in
  check (negb (SM_Version meta =? SnapshotVersionMax) || (SM_Index meta =? 0) || (SM_Term meta =? 0)
         || (SM_ConfigurationIndex meta =? 0) || (SM_Index meta <? SM_ConfigurationIndex meta)
         || negb (SM_Size meta =? zlen (Cp_State c)))
    "invalid checkpoint Raft metadata" ;;
  clusterID ← SnapshotClusterID (Cp_State c);
  check (negb (String.eqb clusterID (Cp_ClusterID c))) "checkpoint canonical cluster mismatch" ;;
  match json_envelope (Cp_State c) with
  | None => Err "json"
  | Some envelope =>
      for_each (λ path, check (negb (bool_decide (NormalizeReplicatedPath path = Ok path)))
                          "invalid checkpoint canonical path %q")
        (fst <$> map_to_list (Env_Entries envelope)) ;;
      found ← check_members config (Cp_SourceNodeID c) [] (false, false) (SM_Servers meta);
      check (negb found.1 || negb found.2) "checkpoint does not include recipient and source Controller" ;;
      check_certificate (Env_Entries envelope) (Cp_SourceNodeID c) (Cfg_NodeID config) recipient ;;
      check_certificate (Env_Entries envelope) (Cp_SourceNodeID c) (Cp_SourceNodeID c) source
  end.

(** ** Importing *)

(** What a stopped Controller has on disk: its database, its Raft snapshots as
    [List] orders them, and the complete backups. *)
Record disk := mkDisk {
  dk_store : Store B;
  dk_snapshots : list (SnapshotMeta * bytes);
  dk_backups : list (string * Store B);
}.

(** A failed [sink.Close] may have moved the snapshot into place. *)
Inductive close_answer := Closed | CloseFailed (kept : bool).

(** What the operating system answers, call by call, and the names it gives. *)
Record import_io := mkIO {
  io_chmod : bool; io_open : bool; io_list : bool; io_backupDir : bool; io_backup : bool; io_backupName : string;
  io_sync : bool; io_create : bool; io_sinkID : string; io_write : bool; io_close : close_answer; io_perm : bool;
}.

Definition add_snapshot (d : disk) (id : string) (c : ReplayCheckpoint) : disk :=
  let meta := Cp_Meta c in
  mkDisk (dk_store d)
    (snapshot_add (dk_snapshots d)
       (mkMeta (SM_Version meta) id (SM_Index meta) (SM_Term meta) (SM_Servers meta) (SM_ConfigurationIndex meta)
          (zlen (Cp_State c)), Cp_State c))
    (dk_backups d).

Definition newer_than_snapshots (d : disk) (index : Z) : bool :=
  match dk_snapshots d with [] => true | (meta, _) :: _ => SM_Index meta <? index end.

Definition installReplayCheckpoint (d : disk) (config : NodeConfig) (c : ReplayCheckpoint)
    (recipient source : option Certificate) (io : import_io) : disk * result CheckpointImportResult :=
  match validateReplayCheckpoint c config recipient source with
  | Err e => (d, Err e)
  | Panic => (d, Panic)
  | Ok _ =>
      if negb (bool_decide (canonicalGet (dk_store d) "cluster/cluster.json" ≫= json_cluster = Some (Cp_ClusterID c)))
      then (d, Err "checkpoint does not match recipient canonical DB cluster")
      else if negb (io_chmod io) then (d, Err "chmod")
      else if negb (io_open io) then (d, Err "snapshot store")
      else if negb (io_list io) then (d, Err "list")
      else if negb (newer_than_snapshots d (SM_Index (Cp_Meta c)))
      then (d, Err "recipient already has an equal or newer Raft checkpoint; refusing replacement")
      else if negb (io_backupDir io) then (d, Err "mkdir")
      else if negb (io_backup io) then (d, Err "backup")
      else
        let d := mkDisk (dk_store d) (dk_snapshots d) ((io_backupName io, dk_store d) :: dk_backups d) in
        if negb (io_sync io) then (d, Err "sync")
        else if negb (io_create io) then (d, Err "create")
        else if negb (io_write io) then (d, Err "write")
        else match io_close io with
        | CloseFailed kept => (if (kept : bool) then add_snapshot d (io_sinkID io) c else d, Err "close")
        | Closed =>
            let d := add_snapshot d (io_sinkID io) c in
            if negb (io_perm io) then (d, Err "chmod")
            else
              let '(s, r) := prepareReplay (dk_store d) true in
              let d := mkDisk s (dk_snapshots d) (dk_backups d) in
              (d, floor ← r; Ok (mkImported (SM_Index (Cp_Meta c)) floor (io_backupName io)))
        end
  end.

(** [url.Parse] of the source, and the answer to the request; the body is missing when
    reading it failed. *)
Record Origin := mkOrigin {
  Or_Scheme : string; Or_Host : string; Or_User : bool; Or_RawQuery : string; Or_Fragment : string; Or_Path : string;
}.
Record Response := mkResponse { Rs_Status : Z; Rs_Peers : list Certificate; Rs_Body : option bytes }.

(** [regular] and [opened]: the database is a regular file, and its lock was free;
    [recipient]: the certificate of the Controller, when its TLS material loads. *)
Definition ImportReplayCheckpoint (d : disk) (config : NodeConfig) (endpoint : option Origin) (regular opened : bool)
    (recipient : option Certificate) (response : option Response) (io : import_io)
    : disk * result CheckpointImportResult :=
  match endpoint with
  | None => (d, Err "checkpoint source must be an HTTPS Controller origin")
  | Some u =>
      if negb (String.eqb (Or_Scheme u) "https") || String.eqb (Or_Host u) "" || Or_User u
         || negb (String.eqb (Or_RawQuery u) "") || negb (String.eqb (Or_Fragment u) "")
         || negb (String.eqb (Or_Path u) "") && negb (String.eqb (Or_Path u) "/")
      then (d, Err "checkpoint source must be an HTTPS Controller origin")
      else if String.eqb (Cfg_NodeID config) "" || String.eqb (Cfg_RaftAddress config) ""
              || String.eqb (Tls_ClusterID (Cfg_TLS config)) "" || String.eqb (Tls_MembershipDir (Cfg_TLS config)) ""
      then (d, Err "checkpoint recipient identity/trust configuration is incomplete")
      else if negb regular then (d, Err "checkpoint import requires an existing stopped Controller DB")
      else if negb opened then (d, Err "stop recipient bpc-controld before importing checkpoint: %w")
      else match recipient, response with
      | None, _ => (d, Err "tls")
      | _, None => (d, Err "post")
      | Some recipient, Some response =>
          if negb (Rs_Status response =? 200)
          then (d, Err "checkpoint source returned HTTP %d; select an upgraded ready Leader")
          else match Rs_Peers response, Rs_Body response with
          | [], _ => (d, Err "checkpoint source TLS identity missing")
          | _, None => (d, Err "read")
          | peer :: _, Some body =>
              let raw := limit_reader (maxCheckpointBytes + 1) body in
              if maxCheckpointBytes <? zlen raw then (d, Err "checkpoint response is too large")
              else match json_checkpoint raw with
              | None => (d, Err "json")
              | Some c =>
                  if negb (String.eqb (Cp_SourceNodeID c) (Cert_CommonName peer))
                  then (d, Err "checkpoint source does not match authenticated TLS peer")
                  else installReplayCheckpoint d config c (Some recipient) (Some peer) io
              end
          end
      end
  end.

(** ** Exporting *)

Inductive snapshot_answer := SnapshotTaken | NothingNew | SnapshotFailed.

(** [available]: what [List] and [Open] of the newest snapshot give; [leading]: whether
    the Controller still leads afterwards. *)
Definition ExportReplayCheckpoint (n : Node B F) (barrier : option (list Log)) (fault : bool) (taken : snapshot_answer)
    (available : option (list (SnapshotMeta * bytes))) (leading : bool) : Node B F * result ReplayCheckpoint :=
  let '(n, r) := StrongRead n barrier fault in
  (n, r ;;
      checkRevisionFloor n ;;
      match taken with
      | SnapshotFailed => Err "snapshot"
      | _ =>
          match available with
          | None => Err "list"
          | Some [] => Err "no Raft snapshot available"
          | Some ((meta, state) :: _) =>
              let state := limit_reader (maxCheckpointStateBytes + 1) state in
              check (maxCheckpointStateBytes <? zlen state) "Raft snapshot is too large" ;;
              clusterID ← SnapshotClusterID state;
              check (negb leading) ErrNotLeader ;;
              let c := mkCheckpoint 1 clusterID (n_id n) meta state "" in
              Ok (mkCheckpoint 1 clusterID (n_id n) meta state (checkpointChecksum c))
          end
      end).

(** ** Restoring a snapshot an administrator uploads *)

(** [raft.Restore] gives the state to the state machine of every member; [accepted] is
    whether Raft took it. *)
Definition RestoreSnapshot (n : Node B F) (raw : bytes) (configuration accepted fault : bool) : Node B F * result unit :=
  if negb (n_leader n) then (n, Err ErrNotLeader)
  else match SnapshotClusterID raw with
  | Err e => (n, Err e)
  | Panic => (n, Panic)
  | Ok _ =>
      if negb configuration then (n, Err "configuration")
      else if negb accepted then (n, Err "raft")
      else let '(f, r) := Restore (n_fsm n) raw fault in (set_fsm n f, r)
  end.
End checkpoint.
Arguments disk B : clear implicits.

(** ** Facts *)

(** A configuration that names the recipient, at its address, and the source, which
    votes. *)
Record members_ok (config : NodeConfig) (source : string) (members : list Server) : Prop := {
  mo_unique : NoDup (srv_id <$> members);
  mo_names : ∀ m, m ∈ members → srv_id m ≠ "" ∧ srv_address m ≠ "" ∧ srv_suffrage m ≠ Staging;
  mo_recipient : ∃ m, m ∈ members ∧ srv_id m = Cfg_NodeID config;
  mo_address : ∀ m, m ∈ members → srv_id m = Cfg_NodeID config → srv_address m = Cfg_RaftAddress config;
  mo_source : ∃ m, m ∈ members ∧ srv_id m = source ∧ srv_suffrage m = Voter;
}.

Lemma check_members_Ok config source seen found members found' :
  check_members config source seen found members = Ok found' ↔
  NoDup (srv_id <$> members) ∧ (∀ m, m ∈ members → srv_id m ∉ seen) ∧
  (∀ m, m ∈ members → srv_id m ≠ "" ∧ srv_address m ≠ "" ∧ srv_suffrage m ≠ Staging) ∧
  (∀ m, m ∈ members → srv_id m = Cfg_NodeID config → srv_address m = Cfg_RaftAddress config) ∧
  found' = (found.1 || List.existsb (λ m, String.eqb (srv_id m) (Cfg_NodeID config)) members,
            found.2 || List.existsb (λ m, String.eqb (srv_id m) source && is_voter m) members).
Proof.
  revert seen found. induction members as [|m members IH]; intros seen found; cbn [check_members List.existsb].
  { rewrite !orb_false_r, fmap_nil. destruct found as [f1 f2]. cbn. split.
    - intros [= <-]. split_and!; [constructor|set_solver..|done].
    - by intros (_ & _ & _ & _ & ->). }
  rewrite !check_then, IH, fmap_cons, NoDup_cons. cbn [fst snd]. rewrite !orb_assoc.
  assert (String.eqb (srv_id m) "" || String.eqb (srv_address m) "" || bool_decide (srv_id m ∈ seen)
    || negb (bool_decide (srv_suffrage m = Voter)) && negb (bool_decide (srv_suffrage m = Nonvoter)) = false ↔
    srv_id m ≠ "" ∧ srv_address m ≠ "" ∧ srv_suffrage m ≠ Staging ∧ srv_id m ∉ seen) as ->.
  { rewrite !orb_false_iff, !String.eqb_neq, bool_decide_eq_false. destruct (srv_suffrage m); naive_solver. }
  assert (String.eqb (srv_id m) (Cfg_NodeID config) && negb (String.eqb (srv_address m) (Cfg_RaftAddress config)) = false
    ↔ (srv_id m = Cfg_NodeID config → srv_address m = Cfg_RaftAddress config)) as ->.
  { rewrite andb_false_iff, negb_false_iff, String.eqb_neq, String.eqb_eq.
    destruct (decide (srv_id m = Cfg_NodeID config)); naive_solver. }
  setoid_rewrite elem_of_cons.
  assert (srv_id m ∉ srv_id <$> members ↔ ∀ x, x ∈ members → srv_id x ≠ srv_id m) as ->.
  { rewrite list_elem_of_fmap. naive_solver. }
  naive_solver.
Qed.

Section checkpoint_facts.
Context `{HS : Hashes} `{GS : GoSort} `{CJ : ControlJson} `{CPJ : !CheckpointJson}.
Context `{MB : MembershipJson} `{RS : RaftSnapshots}.

(** The records of a state authorise a certificate for a Controller. *)
Definition authorises (entries : gmap string bytes) (source nodeID : string) (cert : option Certificate) : Prop :=
  ∃ crt raw record, cert = Some crt ∧ Cert_CommonName crt = nodeID ∧
    entries !! ("cluster/controllers/" +:+ nodeID +:+ ".json") = Some raw ∧ json_membership raw = Some record ∧
    Mem_NodeID record = nodeID ∧ to_lower (Mem_CertificateSHA256 record) = fingerprint crt ∧
    Mem_State record ∈ ["voter"; "nonvoter"; "pending"] ∧ (nodeID = source → Mem_State record = "voter").

Lemma check_certificate_Ok entries source nodeID cert :
  check_certificate entries source nodeID cert = Ok tt ↔ authorises entries source nodeID cert.
Proof.
  unfold check_certificate, authorises. destruct cert as [crt|]; [|naive_solver]. rewrite check_then.
  destruct (entries !! _) as [raw|] eqn:E; cbn [mbind option_bind]; [|naive_solver].
  destruct (json_membership raw) as [record|] eqn:J; [|naive_solver].
  rewrite check_then, check_Ok, !orb_false_iff, !negb_false_iff, !String.eqb_eq, bool_decide_eq_true.
  rewrite andb_false_iff, String.eqb_neq, negb_false_iff, String.eqb_eq. split.
  - intros (? & [[? ?] ?] & ?). exists crt, raw, record. split_and!; try done. naive_solver.
  - intros (crt' & raw' & record' & [= <-] & ? & [= <-] & J' & ? & ? & ? & ?).
    rewrite J in J'. injection J' as <-. split_and!; try done.
    destruct (decide (nodeID = source)); [right|left]; auto.
Qed.

(** What an import demands of a checkpoint. *)
Record acceptable (c : ReplayCheckpoint) (config : NodeConfig) (recipient source : option Certificate)
    (envelope : snapshotEnvelope) : Prop := {
  ac_version : Cp_Version c = 1;
  ac_source : Cp_SourceNodeID c ≠ "" ∧ Cp_SourceNodeID c ≠ Cfg_NodeID config;
  ac_cluster : Cp_ClusterID c = Tls_ClusterID (Cfg_TLS config);
  ac_size : zlen (Cp_State c) <= maxCheckpointStateBytes ∧ SM_Size (Cp_Meta c) = zlen (Cp_State c);
  ac_checksum : Cp_SHA256 c = checkpointChecksum c;
  ac_meta : SM_Version (Cp_Meta c) = SnapshotVersionMax ∧ SM_Index (Cp_Meta c) ≠ 0 ∧ SM_Term (Cp_Meta c) ≠ 0 ∧
    SM_ConfigurationIndex (Cp_Meta c) ≠ 0 ∧ SM_ConfigurationIndex (Cp_Meta c) <= SM_Index (Cp_Meta c);
  ac_state : json_envelope (Cp_State c) = Some envelope;
  ac_clusterID : SnapshotClusterID (Cp_State c) = Ok (Cp_ClusterID c);
  ac_paths : ∀ p, is_Some (Env_Entries envelope !! p) → NormalizeReplicatedPath p = Ok p;
  ac_members : members_ok config (Cp_SourceNodeID c) (SM_Servers (Cp_Meta c));
  ac_recipient_cert : authorises (Env_Entries envelope) (Cp_SourceNodeID c) (Cfg_NodeID config) recipient;
  ac_source_cert : authorises (Env_Entries envelope) (Cp_SourceNodeID c) (Cp_SourceNodeID c) source;
}.

Lemma members_found config source members :
  (∃ found, check_members config source [] (false, false) members = Ok found ∧ negb found.1 || negb found.2 = false)
  ↔ members_ok config source members.
Proof.
  setoid_rewrite check_members_Ok. split.
  - intros (found & (N & _ & M & A & ->) & Hf). cbn in Hf. rewrite orb_false_iff, !negb_false_iff in Hf.
    rewrite !existsb_exists in Hf. destruct Hf as [(m1 & I1 & E1) (m2 & I2 & E2)]. guards.
    destruct E2 as [E2 E3]. unfold is_voter in E3. apply bool_decide_eq_true in E3.
    apply list_elem_of_In in I1, I2. constructor; eauto.
  - intros [N M (m1 & I1 & E1) A (m2 & I2 & E2 & E3)]. eexists. split; [split_and!; [done|set_solver|done|done|reflexivity]|].
    cbn. rewrite orb_false_iff, !negb_false_iff, !existsb_exists. split.
    + exists m1. split; [by apply list_elem_of_In|]. by apply String.eqb_eq.
    + exists m2. split; [by apply list_elem_of_In|]. unfold is_voter. by rewrite E2, String.eqb_refl, E3.
Qed.

Lemma validate_Ok c config recipient source :
  validateReplayCheckpoint c config recipient source = Ok tt ↔
  ∃ envelope, acceptable c config recipient source envelope.
Proof.
  unfold validateReplayCheckpoint. rewrite !check_then, bind_Ok. setoid_rewrite check_then.
  rewrite !orb_false_iff, !negb_false_iff, !String.eqb_neq, !String.eqb_eq, !Z.eqb_neq, !Z.eqb_eq, !Z.ltb_ge.
  split.
  - intros ([[[V S1] S2] C] & [Sz Ck] & [[[[[Mv Mi] Mt] Mc] Ml] Ms] & id & Id & E & H).
    apply negb_false_iff, String.eqb_eq in E as ->.
    destruct (json_envelope (Cp_State c)) as [envelope|] eqn:J; [|done].
    apply bind_Ok in H as (? & P & H). apply bind_Ok in H as (found & M & H).
    apply check_then in H as [Hf H]. apply bind_Ok in H as ([] & C1 & C2).
    apply check_certificate_Ok in C1, C2. exists envelope. constructor; try done.
    + destruct x. rewrite for_each_Ok, Forall_forall in P. intros p [v Hv%elem_of_map_to_list].
      specialize (P p). rewrite check_Ok, negb_false_iff, bool_decide_eq_true in P. apply P.
      apply list_elem_of_fmap. by exists (p, v).
    + apply members_found. eauto.
  - intros (envelope & [V [S1 S2] C [Sz Ms] Ck (Mv & Mi & Mt & Mc & Ml) J Id P M R S]).
    split_and!; try done. exists (Cp_ClusterID c). split; [done|]. rewrite String.eqb_refl. split; [done|].
    rewrite J. apply bind_Ok. exists tt. split.
    { apply for_each_Ok, Forall_forall. intros p ([k v] & -> & Hk%elem_of_map_to_list)%list_elem_of_fmap.
      cbn. apply check_Ok. rewrite negb_false_iff, bool_decide_eq_true. apply P. eauto. }
    apply members_found in M as (found & M & Hf). apply bind_Ok. exists found. split; [done|].
    rewrite check_then. split; [done|]. apply bind_Ok. exists tt.
    by rewrite !check_certificate_Ok.
Qed.

Context {B : Type} `{BB : BoltBucket B}.
Implicit Types d : disk B.

(** An import leaves what the database holds, and adds to the rest. *)
Record untouched d d' : Prop := {
  un_logs : raft_logs (dk_store d') = raft_logs (dk_store d);
  un_stable : raft_stable (dk_store d') = raft_stable (dk_store d);
  un_canonical : canonical (dk_store d') = canonical (dk_store d);
  un_revision : revision (dk_store d') = revision (dk_store d);
  un_applied : appliedIndex (dk_store d') = appliedIndex (dk_store d);
  un_floor : revisionFloor (dk_store d) <= revisionFloor (dk_store d');
  un_snapshots : ∀ s, s ∈ dk_snapshots d → s ∈ dk_snapshots d';
  un_backups : ∀ b, b ∈ dk_backups d → b ∈ dk_backups d';
}.

Lemma untouched_refl d : untouched d d.
Proof. constructor; (done || lia). Qed.

Lemma untouched_trans d d' d'' : untouched d d' → untouched d' d'' → untouched d d''.
Proof. intros [] []. constructor; (congruence || lia || auto). Qed.

Lemma untouched_backup d name :
  untouched d (mkDisk (dk_store d) (dk_snapshots d) ((name, dk_store d) :: dk_backups d)).
Proof. constructor; cbn; try (done || lia). intros b Hb. by right. Qed.

Lemma untouched_snapshot d id c : untouched d (add_snapshot d id c).
Proof. constructor; cbn; try (done || lia). intros s Hs. rewrite snapshot_add_perm. by right. Qed.

Lemma untouched_replay d :
  untouched d (mkDisk (prepareReplay (dk_store d) true).1 (dk_snapshots d) (dk_backups d)).
Proof.
  pose proof (prepareReplay_floor (dk_store d) true) as P. pose proof (prepareReplay_raft (dk_store d) true) as [R1 R2].
  destruct (prepareReplay _ _) as [s r]. cbn [fst] in *. destruct r as [floor| |]; [|subst; constructor; cbn; (done || lia)..].
  destruct P as (P1 & P2 & P3 & P4 & P5 & _). constructor; cbn; try done. lia.
Qed.

(** What a successful import did. *)
Definition imported d config c recipient source (out : CheckpointImportResult) d' : Prop :=
  (∃ envelope, acceptable c config (Some recipient) (Some source) envelope) ∧
  canonicalGet (dk_store d) "cluster/cluster.json" ≫= json_cluster = Some (Cp_ClusterID c) ∧
  (∀ meta state, head (dk_snapshots d) = Some (meta, state) → SM_Index meta < SM_Index (Cp_Meta c)) ∧
  (∃ meta, dk_snapshots d' ≡ₚ (meta, Cp_State c) :: dk_snapshots d ∧ SM_Index meta = SM_Index (Cp_Meta c) ∧
     SM_Servers meta = SM_Servers (Cp_Meta c) ∧ Im_SnapshotIndex out = SM_Index (Cp_Meta c)) ∧
  (Im_BackupFile out, dk_store d) ∈ dk_backups d' ∧
  revisionFloor (dk_store d') = Im_RevisionFloor out ∧
  Im_RevisionFloor out = Z.max (revisionFloor (dk_store d)) (revision (dk_store d)).

Lemma install_spec d config c recipient source io :
  let '(d', r) := installReplayCheckpoint d config c (Some recipient) (Some source) io in
  untouched d d' ∧ ∀ out, r = Ok out → imported d config c recipient source out d'.
Proof.
  unfold installReplayCheckpoint.
  destruct (validateReplayCheckpoint _ _ _ _) as [[]| |] eqn:V; [|by split; [apply untouched_refl|]..].
  destruct (negb (bool_decide _)) eqn:C; [by split; [apply untouched_refl|]|].
  destruct (negb (io_chmod io)); [by split; [apply untouched_refl|]|].
  destruct (negb (io_open io)); [by split; [apply untouched_refl|]|].
  destruct (negb (io_list io)); [by split; [apply untouched_refl|]|].
  destruct (newer_than_snapshots d _) eqn:N; [cbn [negb]|by split; [apply untouched_refl|]].
  destruct (negb (io_backupDir io)); [by split; [apply untouched_refl|]|].
  destruct (negb (io_backup io)); [by split; [apply untouched_refl|]|].
  set (d1 := mkDisk _ _ _). assert (untouched d d1) as U1 by apply untouched_backup.
  destruct (negb (io_sync io)); [by split|]. destruct (negb (io_create io)); [by split|].
  destruct (negb (io_write io)); [by split|].
  set (d2 := add_snapshot d1 (io_sinkID io) c).
  assert (untouched d d2) as U2 by (eapply untouched_trans; [done|apply untouched_snapshot]).
  destruct (io_close io) as [|[]]; [|by split..].
  destruct (negb (io_perm io)); [by split|].
  pose proof (untouched_replay d2) as U3. pose proof (prepareReplay_floor (dk_store d2) true) as P.
  destruct (prepareReplay (dk_store d2) true) as [s r]. cbn [fst] in U3.
  split; [by eapply untouched_trans|]. intros out Ho. destruct r as [floor| |]; [|done..].
  injection Ho as <-. destruct P as (P1 & P2 & _). apply validate_Ok in V. guards.
  split_and!; [done|done| | | |done|done].
  - intros meta state Hh. unfold newer_than_snapshots in N.
    destruct (dk_snapshots d) as [|[m st] l]; [done|]. injection Hh as -> _. by apply Z.ltb_lt.
  - eexists. split; [apply snapshot_add_perm|]. done.
  - cbn. left.
Qed.

(** C21. Importing a checkpoint never touches the identity or the canonical state: on
    every path, errors included, Raft's log and votes, the records, the revision and the
    applied index of the database are as before, and no snapshot or backup is lost.  It
    succeeds only with a checkpoint that vouches for itself, for this Controller and for
    the authenticated peer it came from, a canonical voter of the same cluster as the
    local database, and that is newer than the latest snapshot; then the checkpoint is a
    snapshot, the old database is in the backup, and the floor has kept the revision. *)
Theorem checkpoint_import_safe d config endpoint regular opened recipient response io :
  let '(d', r) := ImportReplayCheckpoint d config endpoint regular opened recipient response io in
  untouched d d' ∧
  ∀ out, r = Ok out → ∃ c crt peer rest body, recipient = Some crt ∧
    response = Some (mkResponse 200 (peer :: rest) (Some body)) ∧ json_checkpoint body = Some c ∧
    Cp_SourceNodeID c = Cert_CommonName peer ∧ imported d config c crt peer out d'.
Proof.
  unfold ImportReplayCheckpoint. destruct endpoint as [u|]; [|by split; [apply untouched_refl|]].
  destruct (negb (String.eqb (Or_Scheme u) "https") || _ || _ || _ || _ || _); [by split; [apply untouched_refl|]|].
  destruct (String.eqb (Cfg_NodeID config) "" || _ || _ || _); [by split; [apply untouched_refl|]|].
  destruct (negb regular); [by split; [apply untouched_refl|]|].
  destruct (negb opened); [by split; [apply untouched_refl|]|].
  destruct recipient as [crt|]; [|by split; [apply untouched_refl|]].
  destruct response as [[status peers body]|]; [|by split; [apply untouched_refl|]].
  cbn [Rs_Status Rs_Peers Rs_Body].
  destruct (negb (status =? 200)) eqn:St; [by split; [apply untouched_refl|]|].
  destruct peers as [|peer rest]; [by split; [apply untouched_refl|]|].
  destruct body as [body|]; [|by split; [apply untouched_refl|]].
  destruct (maxCheckpointBytes <? _) eqn:Lb; [by split; [apply untouched_refl|]|].
  assert (limit_reader (maxCheckpointBytes + 1) body = body) as Eb by (by apply limit_reader_whole, Z.ltb_ge).
  rewrite Eb. destruct (json_checkpoint body) as [c|] eqn:J; [|by split; [apply untouched_refl|]].
  destruct (negb (String.eqb (Cp_SourceNodeID c) _)) eqn:Es; [by split; [apply untouched_refl|]|].
  pose proof (install_spec d config c crt peer io) as I.
  destruct (installReplayCheckpoint _ _ _ _ _ _) as [d' r]. destruct I as [I1 I2]. split; [done|].
  intros out Ho. exists c, crt, peer, rest, body. guards. subst status. by split_and!; auto.
Qed.
End checkpoint_facts.

Section roundtrip.
Context `{HS : Hashes} `{GS : GoSort} `{CJ : ControlJson} `{MJ : !MutationJson} `{CPJ : !CheckpointJson}.
Context `{MB : MembershipJson} `{RS : RaftSnapshots}.
Context {B : Type} `{BB : BoltBucket B} {F : Type} `{PF : ProjectionFS F}.

Lemma cluster_envelope raw id envelope : SnapshotClusterID raw = Ok id → json_envelope raw = Some envelope →
  Env_Version envelope = 1 ∧ Env_SchemaVersion envelope <= ControlSchemaVersion ∧
  snapshotChecksum (Env_SchemaVersion envelope) (Env_Revision envelope) (Env_Entries envelope) = Env_Checksum envelope.
Proof.
  unfold SnapshotClusterID. intros H J. rewrite J in H. apply check_then in H as [H1 H].
  apply check_then in H as [H2 _]. guards. naive_solver.
Qed.

(** A state that passed the checks of an import passes those of [Restore]. *)
Lemma acceptable_restores c config recipient source envelope (f : StateMachine B F) fault :
  acceptable c config recipient source envelope →
  let '(f', r) := Restore f (Cp_State c) fault in
  (r = Err "bolt" ∧ f' = f) ∨
  (state_of (fsm_store f') = Env_Entries envelope ∧ revision (fsm_store f') = Env_Revision envelope ∧
   appliedIndex (fsm_store f') = 0 ∧ revisionFloor (fsm_store f') = revisionFloor (fsm_store f)).
Proof.
  intros A. destruct A as [_ _ _ [Sz _] _ _ J Id P _ _ _].
  destruct (cluster_envelope _ _ _ Id J) as (V & Sv & Ck). destruct (json_envelope_u64 _ _ J) as [Ur Us].
  unfold Restore, limit_reader. replace (zlen (Cp_State c) <=? maxRestore) with true by (symmetry; by apply Z.leb_le).
  destruct (restore_store (fsm_store f) (Cp_State c)) as [s r] eqn:R. destruct r as [[]| |].
  - apply restore_store_Ok in R as (e & J' & T). rewrite J in J'. injection J' as <-.
    apply restore_tx_Ok in T as (T1 & T2 & _ & T3 & T4); [|done..].
    pose proof (ReconcileProjection_store (mkFSM s (fsm_root f) (fsm_fs f)) fault) as Es.
    destruct (ReconcileProjection _ _) as [f' r]. cbn [fst] in Es. right. by rewrite Es.
  - left. split; [|done]. unfold restore_store in R. rewrite J, V in R.
    destruct (Z.ltb_spec ControlSchemaVersion (Env_SchemaVersion envelope)); [lia|].
    cbn [negb Z.eqb Pos.eqb orb] in R. rewrite Ck, String.eqb_refl in R. cbn [negb] in R.
    unfold restore_tx in R. rewrite for_each_names in R by (intros p Hp; by rewrite P).
    cbn [mbind result_bind] in R. repeat case_match; simplify_eq; done.
  - exfalso. unfold restore_store in R. repeat case_match; simplify_eq. unfold restore_tx in *.
    rewrite for_each_names in * by (intros p Hp; by rewrite P). cbn [mbind result_bind] in *.
    repeat case_match; simplify_eq.
Qed.

End roundtrip.
