(* ===== verification/P2pGrant.v ===== *)
(** * P2P grants ([internal/p2p/grant.go], [ParseWGKey] of [internal/agentctl])

    Signed, short-lived grants for a session between two Devices of one owner.
    Ed25519 and the strict JSON decoder are classes. *)

From Stdlib Require Import Strings.Byte.
From S2P Require Import Prelude GoLib GoStrings GoEncoding Netip Crypto.

Definition Version : Z := 1.
Definition Sunshine : string := "sunshine-v1".
Definition MaxLease : Z := 60 * second.
Definition maxTicket : Z := 8192.

Inductive Side := Initiator | Host.
#[export] Instance Side_eq_decision : EqDecision Side.
Proof. solve_decision. Defined.

(** [1 - side] *)
Definition other (s : Side) : Side := match s with Initiator => Host | Host => Initiator end.

(** An address is [Some] IPv4 address, or [None] for any other [netip.Addr]. *)
Record Participant := mkParticipant {
  DeviceID : string;
  UserID : string;
  IdentityKey : string;
  WireGuardKey : string;
  Address : option Z;
}.
#[export] Instance Participant_eq_decision : EqDecision Participant.
Proof. solve_decision. Defined.

Record Grant := mkGrant {
  Grant_Version : Z;
  Grant_ClusterID : string;
  Grant_SessionID : string;
  Grant_Revision : Z;
  Grant_IssuedAt : Z;
  Grant_ExpiresAt : Z;
  Grant_Service : string;
  Grant_Initiator : Participant;
  Grant_Host : Participant;
}.

#[export] Instance Grant_eq_decision : EqDecision Grant.
Proof. solve_decision. Defined.

(** [g.Participants[side]] *)
Definition participant (g : Grant) (s : Side) : Participant :=
  match s with Initiator => Grant_Initiator g | Host => Grant_Host g end.

Record signedGrant := mkSigned { Payload : bytes; Signature : bytes }.

Record sessionAuthorization := mkAuthorization { auth_deadline : Z; auth_expiresAt : Z }.

Record Session := mkSession {
  session_grant : Grant;
  session_ticket : bytes;
  session_deadline : Z;
  session_managed : bool;
  session_authorization : option sessionAuthorization;
}.

Definition active (s : Session) (now : Z) : bool :=
  (if session_managed s then
     match session_authorization s with
     | None => false
     | Some policy => (time_unix now <? auth_expiresAt policy) && (now <? auth_deadline policy)
     end
   else true)
  && (Grant_IssuedAt (session_grant s) <=? time_unix now)
  && (time_unix now <? Grant_ExpiresAt (session_grant s)) && (now <? session_deadline s).

(** [agentctl.ParseWGKey] *)
Definition ParseWGKey (encoded : string) (allowZero : bool) : result bytes :=
  match base64_decode (trim_space encoded) with
  | None => Err "illegal base64 data at input byte %d"
  | Some raw =>
      check (negb (zlen raw =? 32)) "expected 32 bytes, got %d" ;;
      let nonzero := fold_left (λ acc b, Z.lor acc (byte_val b)) raw 0 in
      check (negb allowZero && (nonzero =? 0)) "zero key is not valid" ;;
      Ok raw
  end.

Definition zero_key : bytes := replicate 32 x00.

Definition validate_participant (p : Participant) : result unit :=
  check (String.eqb (DeviceID p) "" || (128 <? str_len (DeviceID p))
         || String.eqb (UserID p) "" || (128 <? str_len (UserID p))
         || match Address p with None => true | Some a => negb (addr_is_private a) end)
    "invalid P2P participant" ;;
  check (match base64_decode (IdentityKey p) with
         | None => true
         | Some key => negb (zlen key =? 32)
                       || negb (String.eqb (base64_encode key) (IdentityKey p))
                       || bool_decide (key = zero_key)
         end) "invalid Device identity key" ;;
  check (match ParseWGKey (WireGuardKey p) false with
         | Ok wgKey => negb (String.eqb (base64_encode wgKey) (WireGuardKey p))
         | _ => true
         end) "invalid Device WireGuard key".

Definition Grant_validate (g : Grant) (now : Z) : result unit :=
  check (negb (Grant_Version g =? Version) || negb (String.eqb (Grant_Service g) Sunshine)
         || String.eqb (Grant_ClusterID g) "" || (128 <? str_len (Grant_ClusterID g))
         || (Grant_Revision g =? 0)) "unsupported P2P grant scope" ;;
  check (match hex_decode (Grant_SessionID g) with
         | None => true
         | Some id => negb (zlen id =? 16) || negb (String.eqb (hex_encode id) (Grant_SessionID g))
         end) "invalid P2P session ID" ;;
  check ((Grant_IssuedAt g <=? 0) || (time_unix now <? Grant_IssuedAt g)
         || (Grant_ExpiresAt g <=? time_unix now)
         || (Z.quot MaxLease second <? Grant_ExpiresAt g - Grant_IssuedAt g))
    "P2P grant expired or invalid lifetime" ;;
  for_each validate_participant [Grant_Initiator g; Grant_Host g] ;;
  let a := Grant_Initiator g in
  let b := Grant_Host g in
  check (negb (String.eqb (UserID a) (UserID b)) || String.eqb (DeviceID a) (DeviceID b)
         || bool_decide (Address a = Address b) || String.eqb (IdentityKey a) (IdentityKey b)
         || String.eqb (WireGuardKey a) (WireGuardKey b))
    "P2P requires distinct Devices of the same owner".

(** [crypto/ed25519]: a signature made with a private key verifies with its public
    key. *)
Class Ed25519 := {
  ed_public : bytes → bytes;
  ed_sign : bytes → bytes → bytes;
  ed_verify : bytes → bytes → bytes → bool;
  ed_public_length : ∀ sk, length sk = 64%nat → length (ed_public sk) = 32%nat;
  ed_verify_sign : ∀ sk m, length sk = 64%nat → ed_verify (ed_public sk) m (ed_sign sk m) = true;
}.

(** [decodeStrict] and [json.Marshal] for the two documents: decoding inverts
    encoding, for grants whose strings are valid UTF-8. *)
Class GrantJson := {
  marshal_grant : Grant → bytes;
  decode_grant : bytes → option Grant;
  marshal_signed : signedGrant → bytes;
  decode_signed : bytes → option signedGrant;
  json_grant : Grant → bool;
  decode_marshal_grant : ∀ g, json_grant g = true → decode_grant (marshal_grant g) = Some g;
  decode_marshal_signed : ∀ e, decode_signed (marshal_signed e) = Some e;
}.

Section grant.
Context `{ED : Ed25519} `{GJ : GrantJson} `{HS : Hashes}.

Definition grant_label : bytes := str_bytes "BPC-P2P-GRANT-v1" ++ [x00].

Definition SignGrant (g : Grant) (issuer : bytes) (now : Z) : result bytes :=
  check (negb (zlen issuer =? 64)) "invalid P2P issuer key" ;;
  Grant_validate g now ;;
  let payload := marshal_grant g in
  Ok (marshal_signed (mkSigned payload (ed_sign issuer (grant_label ++ payload)))).

Definition VerifyGrant (ticket issuer : bytes) (cluster : string) (minRevision now : Z)
    : result Session :=
  check (negb (zlen issuer =? 32) || String.eqb cluster "" || (maxTicket <? zlen ticket))
    "invalid P2P trust context" ;;
  match decode_signed ticket with
  | None => Err "invalid P2P document"
  | Some envelope =>
      check (negb (ed_verify issuer (grant_label ++ Payload envelope) (Signature envelope)))
        "invalid P2P grant signature" ;;
      match decode_grant (Payload envelope) with
      | None => Err "invalid P2P document"
      | Some g =>
          Grant_validate g now ;;
          check (negb (String.eqb (Grant_ClusterID g) cluster) || (Grant_Revision g <? minRevision))
            "P2P grant cluster/revision mismatch" ;;
          Ok (mkSession g ticket (now + time_sub (unix_time (Grant_ExpiresAt g)) now) false None)
      end
  end.

Definition side_byte (s : Side) : byte := match s with Initiator => x00 | Host => x01 end.

Definition proofMessage (challenge ticket : bytes) (side : Side) (binding : bytes) : bytes :=
  str_bytes "BPC-P2P-RELAY-PROOF-v1" ++ [x00] ++ challenge ++ sha256 ticket ++ [side_byte side]
  ++ binding.
End grant.

(** ** Facts *)

(** What a valid grant is. *)
Record participant_wf (p : Participant) : Prop := {
  pp_device : 1 <= str_len (DeviceID p) <= 128;
  pp_user : 1 <= str_len (UserID p) <= 128;
  pp_addr : ∃ a, Address p = Some a ∧ addr_is_private a = true;
  pp_identity : ∃ key, IdentityKey p = base64_encode key ∧ length key = 32%nat ∧ key ≠ zero_key;
}.

Record grant_wf (g : Grant) (now : Z) : Prop := {
  gw_version : Grant_Version g = 1;
  gw_service : Grant_Service g = Sunshine;
  gw_cluster : 1 <= str_len (Grant_ClusterID g) <= 128;
  gw_revision : Grant_Revision g ≠ 0;
  gw_session : ∃ id, Grant_SessionID g = hex_encode id ∧ length id = 16%nat;
  gw_issued : 0 < Grant_IssuedAt g <= time_unix now;
  gw_expires : time_unix now < Grant_ExpiresAt g <= Grant_IssuedAt g + 60;
  gw_participants : participant_wf (Grant_Initiator g) ∧ participant_wf (Grant_Host g);
  gw_owner : UserID (Grant_Initiator g) = UserID (Grant_Host g);
  gw_distinct : DeviceID (Grant_Initiator g) ≠ DeviceID (Grant_Host g) ∧
    Address (Grant_Initiator g) ≠ Address (Grant_Host g) ∧
    IdentityKey (Grant_Initiator g) ≠ IdentityKey (Grant_Host g) ∧
    WireGuardKey (Grant_Initiator g) ≠ WireGuardKey (Grant_Host g);
}.

Lemma str_len_pos s : s ≠ "" → 1 <= str_len s.
Proof. destruct s as [|c s]; [done|]. unfold str_len. cbn [String.length]. lia. Qed.

Lemma validate_participant_Ok p : validate_participant p = Ok tt → participant_wf p.
Proof.
  unfold validate_participant. intros [G1 E]%check_then. apply check_then in E as [G2 _]. guards.
  destruct G1 as [[[[G1 ?] G3] ?] G5]. constructor.
  - split; [by apply str_len_pos|done].
  - split; [by apply str_len_pos|done].
  - destruct (Address p) as [a|]; [|done]. guards. eauto.
  - destruct (base64_decode (IdentityKey p)) as [key|]; [|done]. guards.
    destruct G2 as [[? ?] ?]. exists key. unfold zlen in *. split_and!; [done|lia|done].
Qed.

Lemma Grant_validate_Ok g now : Grant_validate g now = Ok tt → grant_wf g now.
Proof.
  unfold Grant_validate. intros [G1 E]%check_then. apply check_then in E as [G2 E].
  apply check_then in E as [G3 E]. apply bind_unit_Ok in E as [G4 G5]. apply check_Ok in G5.
  apply for_each_Ok in G4. apply Forall_cons in G4 as [P1 G4]. apply Forall_cons in G4 as [P2 _].
  apply validate_participant_Ok in P1, P2. guards.
  destruct G1 as [[[[? ?] Hc] ?] ?], G3 as [[[? ?] ?] Hl], G5 as [[[[? ?] ?] ?] ?].
  change (Z.quot MaxLease second) with 60 in Hl. constructor; try done; try lia.
  - split; [by apply str_len_pos|done].
  - destruct (hex_decode (Grant_SessionID g)) as [id|]; [|done]. guards. destruct G2.
    exists id. unfold zlen in *. split; [done|lia].
Qed.

Section grant_facts.
Context `{ED : Ed25519} `{GJ : GrantJson}.

Lemma VerifyGrant_Ok ticket issuer cluster minRevision now s :
  VerifyGrant ticket issuer cluster minRevision now = Ok s →
  ∃ payload sig, decode_signed ticket = Some (mkSigned payload sig) ∧
    ed_verify issuer (grant_label ++ payload) sig = true ∧
    decode_grant payload = Some (session_grant s) ∧ grant_wf (session_grant s) now ∧
    Grant_ClusterID (session_grant s) = cluster ∧ minRevision <= Grant_Revision (session_grant s) ∧
    s = mkSession (session_grant s) ticket
          (now + time_sub (unix_time (Grant_ExpiresAt (session_grant s))) now) false None.
Proof.
  unfold VerifyGrant. intros [_ E]%check_then.
  destruct (decode_signed ticket) as [[payload sig]|]; [|done]. cbn [Payload Signature] in E.
  apply check_then in E as [G1 E]. destruct (decode_grant payload) as [g|] eqn:D; [|done].
  apply bind_Ok in E as ([] & W & E). apply check_then in E as [G2 E]. injection E as <-.
  guards. destruct G2. exists payload, sig. cbn. split_and!; try done.
  by apply Grant_validate_Ok.
Qed.

Lemma Grant_validate_no_panic g now : Grant_validate g now ≠ Panic.
Proof.
  unfold Grant_validate. repeat (apply check_bind_no_panic; intros _).
  apply bind_no_panic; [|intros; apply check_no_panic]. apply for_each_no_panic. intros x _.
  unfold validate_participant. repeat (apply check_bind_no_panic; intros _). apply check_no_panic.
Qed.

Lemma VerifyGrant_no_panic ticket issuer cluster minRevision now :
  VerifyGrant ticket issuer cluster minRevision now ≠ Panic.
Proof.
  unfold VerifyGrant. apply check_bind_no_panic. intros _.
  destruct (decode_signed ticket); [|done]. apply check_bind_no_panic. intros _.
  destruct (decode_grant _); [|done]. apply bind_no_panic; [apply Grant_validate_no_panic|].
  intros _ _. apply check_bind_no_panic. intros _. done.
Qed.

Lemma grant_deadline g now : grant_wf g now →
  now < unix_time (Grant_ExpiresAt g) ∧
  now + time_sub (unix_time (Grant_ExpiresAt g)) now = unix_time (Grant_ExpiresAt g).
Proof.
  intros W. pose proof (gw_issued _ _ W). pose proof (gw_expires _ _ W).
  unfold time_unix, unix_time in *.
  pose proof (Z.div_mod now second ltac:(done)). pose proof (Z.mod_pos_bound now second ltac:(done)).
  assert (second = 1000000000) as Es by done.
  assert (now < Grant_ExpiresAt g * second) by nia. split; [done|].
  rewrite time_sub_small; [lia|]. nia.
Qed.

(** What the Controller signs, a Device and a relay accept. *)
Lemma SignGrant_VerifyGrant g sk now ticket minRevision :
  json_grant g = true → SignGrant g sk now = Ok ticket → zlen ticket <= maxTicket →
  minRevision <= Grant_Revision g →
  ∃ s, VerifyGrant ticket (ed_public sk) (Grant_ClusterID g) minRevision now = Ok s ∧
    session_grant s = g.
Proof.
  intros J E L R. unfold SignGrant in E. apply check_then in E as [G1 E].
  apply bind_Ok in E as ([] & W & E). injection E as <-. guards.
  assert (length sk = 64%nat) as Hk by (unfold zlen in *; lia).
  pose proof (Grant_validate_Ok _ _ W) as Wf. unfold VerifyGrant.
  assert (zlen (ed_public sk) = 32) as -> by (unfold zlen; by rewrite ed_public_length).
  pose proof (gw_cluster _ _ Wf) as Hc. destruct (String.eqb_spec (Grant_ClusterID g) "") as [Ec|].
  { rewrite Ec in Hc. change (str_len "") with 0 in Hc. lia. }
  rewrite (proj2 (Z.ltb_ge _ _) L). cbn [negb Z.eqb Pos.eqb orb check mbind result_bind].
  rewrite decode_marshal_signed. cbn [Payload Signature]. rewrite ed_verify_sign by done.
  cbn [negb check mbind result_bind]. rewrite decode_marshal_grant, W by done.
  cbn [mbind result_bind]. rewrite String.eqb_refl, (proj2 (Z.ltb_ge _ _) R).
  cbn. by eexists.
Qed.

(** A verified grant is authentic and short-lived: a session is created only
    from a ticket whose payload the issuer signed, for the expected cluster, at
    or above the known revision, between two distinct Devices of one owner; the
    session is active when it is created and, whatever the Controller
    authorisation says later, never after its expiry, which is at most 60
    seconds behind its issue. *)
Lemma VerifyGrant_sound ticket issuer cluster minRevision now s :
  VerifyGrant ticket issuer cluster minRevision now = Ok s →
  (∃ payload sig, decode_signed ticket = Some (mkSigned payload sig) ∧
     ed_verify issuer (grant_label ++ payload) sig = true ∧
     decode_grant payload = Some (session_grant s)) ∧
  grant_wf (session_grant s) now ∧ Grant_ClusterID (session_grant s) = cluster ∧
  minRevision <= Grant_Revision (session_grant s) ∧ active s now = true ∧
  ∀ s' now', session_grant s' = session_grant s → session_deadline s' = session_deadline s →
    active s' now' = true →
    unix_time (Grant_IssuedAt (session_grant s)) <= now'
      < unix_time (Grant_IssuedAt (session_grant s)) + MaxLease.
Proof.
  intros (payload & sig & D & V & G & W & Hc & Hr & Es)%VerifyGrant_Ok.
  pose proof (grant_deadline _ _ W) as [Hlt Hd]. rewrite Hd in Es.
  split_and!; [by exists payload, sig|done..| |].
  - rewrite Es. unfold active. cbn. pose proof (gw_issued _ _ W). pose proof (gw_expires _ _ W).
    guards. split_and!; lia.
  - intros s' now' Eg Ed A. rewrite Es in Ed. cbn in Ed. unfold active in A.
    rewrite Eg, Ed in A. guards. destruct A as [[[_ A1] A2] A3].
    pose proof (gw_expires _ _ W). unfold time_unix, unix_time, MaxLease in *.
    pose proof (Z.div_mod now' second ltac:(done)).
    pose proof (Z.mod_pos_bound now' second ltac:(done)).
    assert (second = 1000000000) by done. nia.
Qed.
End grant_facts.
