(* ===== verification/P2pPolicy.v ===== *)
(** * The P2P packet policy ([internal/p2p/policy.go])

    The plaintext filter at both ends of a P2P WireGuard session: which packets
    pass, and the table of flows a Device may answer. *)

From Stdlib Require Import Strings.Byte.
From S2P Require Import Prelude GoLib Netip Crypto P2pGrant.

Definition maxFlows : Z := 4096.

(** [flow]: protocol, client port, service port. *)
Abbreviation flow := (Z * Z * Z)%type.

(** The session of a policy is shared with its authority; it is an argument of the
    operations that read it. *)
Record Policy := mkPolicy {
  side : Side;
  revoked : bool;
  flows : gmap flow Z;
  nextPrune : Z;
}.

Definition NewPolicy (s : option Session) (sd : Side) (now : Z) : result Policy :=
  match s with
  | None => Err "invalid P2P policy session"
  | Some s =>
      check (negb (active s now)) "invalid P2P policy session" ;;
      Ok (mkPolicy sd false ∅ zero_time)
  end.

Definition Revoke (p : Policy) : Policy := mkPolicy (side p) true ∅ (nextPrune p).

Definition servicePort (protocol port : Z) : bool :=
  if protocol =? 6 then (port =? 47984) || (port =? 47989) || (port =? 48010)
  else (port =? 47998) || (port =? 47999) || (port =? 48000) || (port =? 48002) || (port =? 48010).

Definition u16 (packet : bytes) (i : Z) : result Z := w ← slice packet i (i + 2); Ok (be_decode w).

(** The transport header: the TCP flags, 0 for UDP, [None] when it is malformed. *)
Definition transport_flags (packet : bytes) (proto : Z) : result (option Z) :=
  if proto =? 6 then
    if zlen packet <? 40 then Ok None
    else
      b ← index packet 32;
      let header := Z.shiftr (byte_val b) 4 * 4 in
      if (header <? 20) || (zlen packet <? 20 + header) then Ok None
      else f ← index packet 33; Ok (Some (byte_val f))
  else
    n ← u16 packet 24;
    if negb (n =? zlen packet - 20) then Ok None else Ok (Some 0).

Definition sender_of (p : Policy) (outbound : bool) : Side :=
  if outbound then side p else other (side p).

(** The stateless part of [Allowed]: the sender, the flow and the flags of an
    acceptable packet. *)
Definition inspect (g : Grant) (sender : Side) (packet : bytes) : result (option (flow * Z)) :=
  if zlen packet <? 20 then Ok None
  else
    version ← index packet 0;
    total ← u16 packet 2;
    frag ← u16 packet 6;
    if negb (byte_val version =? 69) || negb (total =? zlen packet)
       || negb (Z.land frag 49151 =? 0) then Ok None
    else
      protocol ← index packet 9;
      let proto := byte_val protocol in
      if negb (proto =? 6) && negb (proto =? 17) then Ok None
      else if zlen packet <? 28 then Ok None
      else
        source ← slice packet 12 16;
        target ← slice packet 16 20;
        if negb (bool_decide (Some (be_decode source) = Address (participant g sender)))
           || negb (bool_decide (Some (be_decode target) = Address (participant g (other sender))))
        then Ok None
        else
          src ← u16 packet 20;
          dst ← u16 packet 22;
          if (src =? 0) || (dst =? 0) then Ok None
          else
            flags ← transport_flags packet proto;
            match flags with
            | None => Ok None
            | Some flags =>
                let key : flow :=
                  if decide (sender = Host) then (proto, dst, src) else (proto, src, dst) in
                if negb (servicePort proto key.2) then Ok None else Ok (Some (key, flags))
            end.

Definition prune (p : Policy) (now : Z) : Policy :=
  if now <? nextPrune p then p
  else mkPolicy (side p) (revoked p) (filter (λ '(_, until), now < until) (flows p)) (now + second).

(** The stateful part: whether the flow may pass, and the refreshed table. *)
Definition pass_flow (p : Policy) (sender : Side) (key : flow) (flags now : Z) : Policy * bool :=
  let p := prune p now in
  let established := match flows p !! key with Some until => now <? until | None => false end in
  let tcp := key.1.1 =? 6 in
  let syn := negb (Z.land flags 2 =? 0) in
  let ack := negb (Z.land flags 16 =? 0) in
  let rst := negb (Z.land flags 4 =? 0) in
  let denied :=
    if decide (sender = Host) then negb established || (tcp && (syn && negb ack))
    else negb established
         && ((maxFlows <=? Z.of_nat (size (flows p))) || (tcp && (negb syn || ack))) in
  if denied then (p, false)
  else
    let fl := <[key := now + 30 * second]> (flows p) in
    let fl := if tcp && rst then delete key fl else fl in
    (mkPolicy (side p) (revoked p) fl (nextPrune p), true).

Definition Allowed (p : Policy) (s : Session) (packet : bytes) (outbound : bool) (now : Z)
    : result (Policy * bool) :=
  if revoked p || negb (active s now)
  then Ok (mkPolicy (side p) (revoked p) ∅ (nextPrune p), false)
  else
    seen ← inspect (session_grant s) (sender_of p outbound) packet;
    match seen with
    | None => Ok (p, false)
    | Some (key, flags) => Ok (pass_flow p (sender_of p outbound) key flags now)
    end.

(** ** What a passed packet is *)

Lemma u16_ok packet i : 0 <= i → i + 2 <= zlen packet → ∃ v, u16 packet i = Ok v.
Proof. intros. unfold u16. rewrite slice_ok by lia. cbn. eauto. Qed.

Lemma transport_flags_no_panic packet proto :
  28 <= zlen packet → transport_flags packet proto ≠ Panic.
Proof.
  intros L. unfold transport_flags. destruct (proto =? 6).
  - destruct (Z.ltb_spec (zlen packet) 40); [done|].
    destruct (index_ok packet 32) as (b & -> & _); [lia|]. cbn [mbind result_bind].
    destruct (_ || _); [done|]. destruct (index_ok packet 33) as (f & -> & _); [lia|done].
  - destruct (u16_ok packet 24) as (n & ->); [lia..|]. cbn [mbind result_bind].
    by destruct (negb _).
Qed.

Lemma inspect_no_panic g sender packet : inspect g sender packet ≠ Panic.
Proof.
  unfold inspect. destruct (Z.ltb_spec (zlen packet) 20); [done|].
  destruct (index_ok packet 0) as (? & -> & _); [lia|]. cbn [mbind result_bind].
  destruct (u16_ok packet 2) as (? & ->); [lia..|]. cbn [mbind result_bind].
  destruct (u16_ok packet 6) as (? & ->); [lia..|]. cbn [mbind result_bind].
  destruct (_ || _); [done|]. destruct (index_ok packet 9) as (? & -> & _); [lia|].
  cbn [mbind result_bind]. destruct (_ && _); [done|].
  destruct (Z.ltb_spec (zlen packet) 28); [done|].
  rewrite (slice_ok packet 12 16) by lia. cbn [mbind result_bind].
  rewrite (slice_ok packet 16 20) by lia. cbn [mbind result_bind].
  destruct (_ || _); [done|].
  destruct (u16_ok packet 20) as (? & ->); [lia..|]. cbn [mbind result_bind].
  destruct (u16_ok packet 22) as (? & ->); [lia..|]. cbn [mbind result_bind].
  destruct (_ || _); [done|]. apply bind_no_panic; [by apply transport_flags_no_panic|].
  intros [f|] _; [|done]. by destruct (negb _).
Qed.

(** The address pair of a packet. *)
Definition packet_addresses (packet : bytes) : option Z * option Z :=
  (Some (be_decode (take 4 (drop 12 packet))), Some (be_decode (take 4 (drop 16 packet)))).

Lemma inspect_Some g sender packet key flags :
  inspect g sender packet = Ok (Some (key, flags)) →
  28 <= zlen packet ∧ (key.1.1 = 6 ∨ key.1.1 = 17) ∧ servicePort key.1.1 key.2 = true ∧
  packet_addresses packet
    = (Address (participant g sender), Address (participant g (other sender))) ∧
  index packet 0 = Ok x45 ∧ u16 packet 2 = Ok (zlen packet) ∧
  (∃ frag, u16 packet 6 = Ok frag ∧ Z.land frag 49151 = 0).
Proof.
  unfold inspect. destruct (Z.ltb_spec (zlen packet) 20); [done|]. intros E.
  apply bind_Ok in E as (v & Hv & E). apply bind_Ok in E as (t & Ht & E).
  apply bind_Ok in E as (f & Hf & E). destruct (_ || _) eqn:G1; [done|].
  apply bind_Ok in E as (pr & Hp & E). destruct (_ && _) eqn:G2; [done|].
  destruct (Z.ltb_spec (zlen packet) 28); [done|].
  apply bind_Ok in E as (source & Hs & E). apply bind_Ok in E as (target & Hd & E).
  rewrite slice_ok in Hs by lia. injection Hs as <-.
  rewrite slice_ok in Hd by lia. injection Hd as <-.
  destruct (negb (bool_decide _) || _) eqn:G3; [done|].
  apply bind_Ok in E as (src & Hsrc & E). apply bind_Ok in E as (dst & Hdst & E).
  destruct ((src =? 0) || _) eqn:G4; [done|]. apply bind_Ok in E as (fl & Hfl & E).
  destruct fl as [fl|]; [|done]. destruct (negb (servicePort _ _)) eqn:G5; [done|].
  injection E as <- <-. guards. destruct G1 as [[G1 ->] G1'], G3 as [G3 G3'].
  split_and!; [lia| | | | |done|eauto].
  - destruct (decide (sender = Host)); cbn; lia.
  - destruct (decide (sender = Host)); done.
  - unfold packet_addresses. by rewrite <- G3, <- G3'.
  - rewrite Hv. f_equal. by apply byte_val_inj.
Qed.

Lemma Allowed_passed p s packet outbound now p' :
  Allowed p s packet outbound now = Ok (p', true) →
  revoked p = false ∧ active s now = true ∧ side p' = side p ∧
  ∃ key flags, inspect (session_grant s) (sender_of p outbound) packet = Ok (Some (key, flags)).
Proof.
  unfold Allowed. intros E. destruct (_ || _) eqn:G; [by injection E|]. guards. destruct G.
  apply bind_Ok in E as ([[key flags]|] & I & E); [|done]. split_and!; try done; [|eauto].
  injection E as E. unfold pass_flow in E. destruct (if decide _ then _ else _); [done|].
  injection E as <-. cbn. unfold prune. by destruct (_ <? _).
Qed.

Lemma Allowed_no_panic p s packet outbound now : Allowed p s packet outbound now ≠ Panic.
Proof.
  unfold Allowed. destruct (_ || _); [done|]. apply bind_no_panic; [apply inspect_no_panic|].
  by intros [[key flags]|] _.
Qed.


(** ** Flows *)

(** A packet that may open a flow: any UDP packet, or a TCP SYN without ACK. *)
Definition opening (key : flow) (flags : Z) : Prop :=
  key.1.1 = 6 → Z.land flags 2 ≠ 0 ∧ Z.land flags 16 = 0.

(** The passed packets of a policy, newest first. *)
Abbreviation history := (list (Side * flow * Z)).

Inductive policy_reach (sd : Side) : Policy → history → Prop :=
| reach_new s p now : NewPolicy (Some s) sd now = Ok p → policy_reach sd p []
| reach_revoke p h : policy_reach sd p h → policy_reach sd (Revoke p) h
| reach_denied p h s packet outbound now p' :
    policy_reach sd p h → Allowed p s packet outbound now = Ok (p', false) → policy_reach sd p' h
| reach_passed p h s packet outbound now p' key flags :
    policy_reach sd p h → Allowed p s packet outbound now = Ok (p', true) →
    inspect (session_grant s) (sender_of p outbound) packet = Ok (Some (key, flags)) →
    policy_reach sd p' ((sender_of p outbound, key, flags) :: h).

Definition opened (h : history) (key : flow) : Prop :=
  ∃ flags, (Initiator, key, flags) ∈ h ∧ opening key flags.

Record flows_inv (p : Policy) (h : history) : Prop := {
  fi_size : Z.of_nat (size (flows p)) <= maxFlows;
  fi_opened : ∀ key, is_Some (flows p !! key) → opened h key;
}.

Lemma flows_inv_empty sd rv np h : flows_inv (mkPolicy sd rv ∅ np) h.
Proof.
  constructor; cbn.
  - rewrite map_size_empty. unfold maxFlows. lia.
  - intros key [? H]. by rewrite lookup_empty in H.
Qed.

Lemma prune_sub p now : flows (prune p now) ⊆ flows p.
Proof. unfold prune. case_match; [done|]. apply map_filter_subseteq. Qed.

Lemma prune_inv p h now : flows_inv p h → flows_inv (prune p now) h.
Proof.
  intros [Hs Ho]. pose proof (prune_sub p now) as Hsub. constructor.
  - pose proof (map_subseteq_size _ _ Hsub). lia.
  - intros key [u Hu]. apply Ho. eauto using lookup_weaken.
Qed.

Lemma opened_cons h e key : opened h key → opened (e :: h) key.
Proof. intros (f & ? & ?). exists f. split; [by right|done]. Qed.

Lemma pass_flow_inv p h sender key flags now p' :
  flows_inv p h → pass_flow p sender key flags now = (p', true) →
  flows_inv p' ((sender, key, flags) :: h) ∧ (sender = Host → opened h key).
Proof.
  intros I E. unfold pass_flow in E. apply (prune_inv _ _ now) in I.
  set (q := prune p now) in *. clearbody q.
  destruct (if decide (sender = Host) then _ else _) eqn:D; [done|]. injection E as <-.
  assert (opened ((sender, key, flags) :: h) key ∧ (sender = Host → opened h key) ∧
          (flows q !! key = None → Z.of_nat (size (flows q)) < maxFlows)) as (Hk & Hh & Hn).
  { destruct (flows q !! key) as [u|] eqn:Hf.
    - assert (opened h key) by (apply I; eauto). split_and!; [by apply opened_cons|done|done].
    - destruct (decide (sender = Host)); [done|]. cbn in D. guards. destruct D as [D1 D2].
      destruct sender; [|done]. split_and!; [|done|lia]. exists flags. split; [left|].
      intros Ht. destruct D2 as [?|[? ?]]; [done|]. done. }
  split; [|done]. constructor; cbn.
  - assert (Z.of_nat (size (<[key:=now + 30 * second]> (flows q))) <= maxFlows) as Hs.
    { destruct (flows q !! key) as [u|] eqn:Hf.
      - rewrite map_size_insert_Some by eauto. apply I.
      - rewrite map_size_insert_None by done. specialize (Hn eq_refl). lia. }
    destruct ((key.1.1 =? 6) && negb (Z.land flags 4 =? 0)); [|done].
    pose proof (map_subseteq_size _ _ (delete_subseteq (<[key:=now + 30 * second]> (flows q)) key)). lia.
  - intros k [u Hu]. assert (<[key:=now + 30 * second]> (flows q) !! k = Some u) as Hu'.
    { destruct ((key.1.1 =? 6) && negb (Z.land flags 4 =? 0)); [|done]. eapply lookup_weaken; [exact Hu|apply delete_subseteq]. }
    apply lookup_insert_Some in Hu' as [[<- _]|[_ Hu']]; [done|].
    apply opened_cons, I. eauto.
Qed.

(** A Device is never reached uninvited: over every sequence of packets,
    denials and revocations, each packet that passed from the Host belongs to a
    flow that an earlier passed packet of the Initiator opened (for TCP with a
    SYN), and the flow table never holds more than [maxFlows] entries. *)
Lemma host_only_answers sd p h :
  policy_reach sd p h →
  Z.of_nat (size (flows p)) <= maxFlows ∧
  ∀ h1 h2 key flags, h = h1 ++ (Host, key, flags) :: h2 → opened h2 key.
Proof.
  intros R. cut (flows_inv p h ∧ ∀ h1 h2 key flags, h = h1 ++ (Host, key, flags) :: h2 → opened h2 key).
  { intros [[? _] ?]. done. }
  induction R as [s p now N|p h R [I H]|p h s packet outbound now p' R [I H] A
                 |p h s packet outbound now p' key flags R [I H] A Ins].
  - apply check_then in N as [_ [= <-]]. split; [apply flows_inv_empty|].
    intros h1 h2 k f E. by destruct h1.
  - split; [apply flows_inv_empty|done].
  - split; [|done]. unfold Allowed in A. destruct (_ || _); [injection A as <-; apply flows_inv_empty|].
    apply bind_Ok in A as ([[k f]|] & _ & A); [|by injection A as <-].
    injection A as A. unfold pass_flow in A.
    destruct (if decide _ then _ else _); [injection A as <-; by apply prune_inv|done].
  - unfold Allowed in A. destruct (_ || _); [done|]. rewrite Ins in A. cbn in A. injection A as A.
    destruct (pass_flow_inv _ _ _ _ _ _ _ I A) as [I' Hh]. split; [done|].
    intros [|e h1] h2 k f E; [|injection E as _ E; by eapply H].
    injection E as Es <- <- <-. by apply Hh.
Qed.
