(* ===== verification/P2pAuthority.v ===== *)
(** * The authority of a Device over its P2P sessions ([internal/p2p/authority.go])

    A Device keeps the trust pin of its Controller, a revision and time floor and
    the denied sessions in a database, and the authorisation of its sessions in
    memory.  The database is the bucket of [ControlStore]; the sessions are the
    objects of [P2pGrant], which a store updates in place. *)

From Stdlib Require Import Strings.Byte.
From S2P Require Import Prelude GoLib GoStrings Float64 Netip GoEncoding Crypto ControlStore P2pGrant.

Definition MaxManagedSessions : Z := 16.
Definition maxDenied : Z := 4096.

Record Trust := mkTrust {
  Trust_ClusterID : string;
  Trust_DeviceID : string;
  Trust_Issuer : bytes;
}.
#[export] Instance Trust_eq_decision : EqDecision Trust.
Proof. solve_decision. Defined.

Record policyEntry := mkEntry { Entry_SessionID : string; Entry_TicketSHA256 : string }.

Record checkpoint := mkCheckpoint {
  Cp_Version : Z;
  Cp_ClusterID : string;
  Cp_DeviceID : string;
  Cp_Revision : Z;
  Cp_IssuedAt : Z;
  Cp_ExpiresAt : Z;
  Cp_Allowed : list policyEntry;
}.

(** [Denied] is [None] for a nil map; an address of [Reserved] is [None] when it is
    not IPv4. *)
Record policyState := mkState {
  St_Version : Z;
  St_Trust : Trust;
  St_Revision : Z;
  St_IssuedAt : Z;
  St_Denied : option (gmap string Z);
  St_Reserved : list (option Z);
}.

(** [decodeStrict] and [json.Marshal] for the documents of this file: decoded
    strings are valid UTF-8, and a state with such strings survives. *)
Class PolicyJson := {
  utf8 : string → bool;
  utf8_hex : ∀ b, utf8 (hex_encode b) = true;
  decode_checkpoint : bytes → option checkpoint;
  decode_state : bytes → option policyState;
  marshal_state : policyState → bytes;
  decode_state_trust : ∀ raw st, decode_state raw = Some st →
    utf8 (Trust_ClusterID (St_Trust st)) = true ∧ utf8 (Trust_DeviceID (St_Trust st)) = true;
  decode_state_denied : ∀ raw st d, decode_state raw = Some st → St_Denied st = Some d →
    ∀ id, is_Some (d !! id) → utf8 id = true;
  decode_marshal_state : ∀ st d,
    utf8 (Trust_ClusterID (St_Trust st)) = true → utf8 (Trust_DeviceID (St_Trust st)) = true →
    St_Denied st = Some d → (∀ id, is_Some (d !! id) → utf8 id = true) →
    decode_state (marshal_state st) = Some st;
}.

Section authority.
Context `{ED : Ed25519} `{GJ : GrantJson} `{PJ : PolicyJson} `{HS : Hashes} `{GS : GoSort}.
Context {B : Type} `{BB : BoltBucket B}.

(** [ps_open] is false when [db] is nil; [ps_db] is then the closed file. *)
Record PolicyStore := mkPolicyStore {
  ps_db : B;
  ps_open : bool;
  ps_trust : Trust;
  ps_sessions : gmap string Session;
}.

Definition set_sessions (p : PolicyStore) ss : PolicyStore :=
  mkPolicyStore (ps_db p) (ps_open p) (ps_trust p) ss.
Definition set_db (p : PolicyStore) b : PolicyStore :=
  mkPolicyStore b (ps_open p) (ps_trust p) (ps_sessions p).

(** The address of a reservation must be private, and none may occur twice. *)
Fixpoint check_reserved (seen : list (option Z)) (ips : list (option Z)) : result unit :=
  match ips with
  | [] => Ok tt
  | ip :: rest =>
      check (match ip with None => true | Some a => negb (addr_is_private a) end
             || bool_decide (ip ∈ seen)) "invalid P2P reservation" ;;
      check_reserved (ip :: seen) rest
  end.

(** [PolicyStore.state] *)
Definition policy_state (trust : Trust) (b : B) : result policyState :=
  match bolt_get b "state" ≫= decode_state with
  | None => Err "invalid P2P document"
  | Some st =>
      check (negb (St_Version st =? 1) || negb (bool_decide (St_Trust st = trust))
             || match St_Denied st with
                | None => true
                | Some d => maxDenied <? Z.of_nat (size d)
                end) "P2P stored trust/state mismatch" ;;
      check (MaxManagedSessions <? zlen (St_Reserved st)) "invalid P2P reservations" ;;
      check_reserved [] (St_Reserved st) ;;
      Ok st
  end.

Definition putPolicyState (b : B) (st : policyState) : result B :=
  match bolt_put b "state" (marshal_state st) with
  | Some b => Ok b
  | None => Err "bolt"
  end.

(** The part of [openPolicyStore] behind the opening of the file: [b] is its bucket. *)
Definition openPolicyStore (b : B) (trust : Trust) (create : bool) : result PolicyStore :=
  check (String.eqb (Trust_ClusterID trust) "" || String.eqb (Trust_DeviceID trust) ""
         || negb (zlen (Trust_Issuer trust) =? 32)) "invalid P2P trust pin" ;;
  if create then
    b ← putPolicyState bolt_empty (mkState 1 trust 0 0 (Some ∅) []);
    Ok (mkPolicyStore b true trust ∅)
  else
    policy_state trust b ;;
    Ok (mkPolicyStore b true trust ∅).

Definition denied_of (st : policyState) : gmap string Z := default ∅ (St_Denied st).

(** [Denied[id]], 0 for an absent entry. *)
Definition denied_until (st : policyState) (id : string) : Z := default 0 (denied_of st !! id).

Definition remote_address (trust : Trust) (g : Grant) : option Z :=
  if String.eqb (DeviceID (Grant_Initiator g)) (Trust_DeviceID trust)
  then Address (Grant_Host g) else Address (Grant_Initiator g).

(** The transaction of [Track]. *)
Definition track_tx (trust : Trust) (b : B) (g : Grant) (now : Z) : result B :=
  st ← policy_state trust b;
  check (time_unix now <? denied_until st (Grant_SessionID g)) "P2P session was revoked" ;;
  let remote := remote_address trust g in
  if bool_decide (remote ∈ St_Reserved st) then Ok b
  else
    check (MaxManagedSessions <=? zlen (St_Reserved st)) "P2P reservation capacity exhausted" ;;
    putPolicyState b (mkState (St_Version st) (St_Trust st) (St_Revision st) (St_IssuedAt st)
                        (St_Denied st) (St_Reserved st ++ [remote])).

Definition set_authorization (s : Session) (a : option sessionAuthorization) : Session :=
  mkSession (session_grant s) (session_ticket s) (session_deadline s) (session_managed s) a.

Definition manage (s : Session) : Session :=
  mkSession (session_grant s) (session_ticket s) (session_deadline s) true (session_authorization s).

(** [Track] reads the clock several times; all readings are [now].  A session that
    is dropped because it expired also loses its authorisation, which [active] no
    longer reads then. *)
Definition Track (p : PolicyStore) (ticket : bytes) (now : Z) : PolicyStore * result Session :=
  if negb (ps_open p) then (p, Err "P2P policy store closed")
  else match VerifyGrant ticket (Trust_Issuer (ps_trust p)) (Trust_ClusterID (ps_trust p)) 0 now with
  | Err e => (p, Err e)
  | Panic => (p, Panic)
  | Ok s =>
      let g := session_grant s in
      if negb (String.eqb (DeviceID (Grant_Initiator g)) (Trust_DeviceID (ps_trust p)))
         && negb (String.eqb (DeviceID (Grant_Host g)) (Trust_DeviceID (ps_trust p)))
      then (p, Err "P2P grant belongs to another Device")
      else match track_tx (ps_trust p) (ps_db p) g now with
      | Err e => (p, Err e)
      | Panic => (p, Panic)
      | Ok b =>
          let live := filter (λ '(_, old), time_unix now < Grant_ExpiresAt (session_grant old))
                        (ps_sessions p) in
          let p := set_sessions (set_db p b) live in
          match live !! Grant_SessionID g with
          | Some old =>
              if negb (bool_decide (session_ticket old = ticket))
              then (p, Err "P2P session ID reused") else (p, Ok old)
          | None =>
              if MaxManagedSessions <=? Z.of_nat (size live)
              then (p, Err "too many managed P2P sessions")
              else (set_sessions p (<[Grant_SessionID g := manage s]> live), Ok (manage s))
          end
      end
  end.

Definition ReservedPeers (p : PolicyStore) : result (list (option Z)) :=
  check (negb (ps_open p)) "P2P store closed" ;;
  st ← policy_state (ps_trust p) (ps_db p);
  Ok (St_Reserved st).

Definition failClosed (p : PolicyStore) : PolicyStore :=
  set_sessions p ((λ s, set_authorization s None) <$> ps_sessions p).

Definition FailClosed (p : PolicyStore) : PolicyStore := failClosed p.

(** Denials that have not expired. *)
Definition live_denials (st : policyState) (now : Z) : gmap string Z :=
  filter (λ '(_, expiry), time_unix now < expiry) (denied_of st).

Definition stop_tx (trust : Trust) (b : B) (id : string) (s : Session) (now : Z) : result B :=
  st ← policy_state trust b;
  let denied := live_denials st now in
  check (maxDenied <=? Z.of_nat (size denied)) "P2P revocation capacity exhausted" ;;
  putPolicyState b (mkState (St_Version st) (St_Trust st) (St_Revision st) (St_IssuedAt st)
    (Some (<[id := Grant_ExpiresAt (session_grant s)]> denied)) (St_Reserved st)).

Definition Stop (p : PolicyStore) (id : string) (now : Z) : PolicyStore * result unit :=
  let p := failClosed p in
  if negb (ps_open p) then (p, Err "P2P policy store closed")
  else match ps_sessions p !! id with
  | None => (p, Err "unknown P2P session")
  | Some s =>
      match stop_tx (ps_trust p) (ps_db p) id s now with
      | Ok b => (set_db p b, Ok tt)
      | Err e => (p, Err e)
      | Panic => (p, Panic)
      end
  end.

Definition Close (p : PolicyStore) : PolicyStore :=
  let p := failClosed p in
  mkPolicyStore (ps_db p) false (ps_trust p) (ps_sessions p).

(** ** Checkpoints *)

Definition policy_label : bytes := str_bytes "BPC-P2P-POLICY-v1" ++ [x00].

(** The loop over the allowed entries: the ids accepted so far. *)
Fixpoint allowed_sessions (sessions : gmap string Session) (revision : Z) (allowed : gset string)
    (entries : list policyEntry) : result (gset string) :=
  match entries with
  | [] => Ok allowed
  | entry :: rest =>
      match sessions !! Entry_SessionID entry with
      | None => Err "unknown/duplicate P2P policy session"
      | Some s =>
          check (bool_decide (Entry_SessionID entry ∈ allowed)
                 || (revision <? Grant_Revision (session_grant s)))
            "unknown/duplicate P2P policy session" ;;
          check (negb (String.eqb (Entry_TicketSHA256 entry) (hex_encode (sha256 (session_ticket s)))))
            "P2P policy ticket mismatch" ;;
          allowed_sessions sessions revision ({[ Entry_SessionID entry ]} ∪ allowed) rest
      end
  end.

(** The checks of [Apply] on the signed document. *)
Definition verify_checkpoint (p : PolicyStore) (ticket : bytes) (now : Z)
    : result (checkpoint * gset string) :=
  check (negb (ps_open p) || (maxTicket <? zlen ticket)) "invalid P2P checkpoint/store" ;;
  match decode_signed ticket with
  | None => Err "invalid P2P document"
  | Some envelope =>
      check (negb (ed_verify (Trust_Issuer (ps_trust p)) (policy_label ++ Payload envelope)
                     (Signature envelope))) "invalid P2P policy signature" ;;
      match decode_checkpoint (Payload envelope) with
      | None => Err "invalid P2P document"
      | Some cp =>
          check (negb (Cp_Version cp =? 1)
                 || negb (String.eqb (Cp_ClusterID cp) (Trust_ClusterID (ps_trust p)))
                 || negb (String.eqb (Cp_DeviceID cp) (Trust_DeviceID (ps_trust p)))
                 || (Cp_Revision cp =? 0) || (Cp_IssuedAt cp <=? 0)
                 || (time_unix now <? Cp_IssuedAt cp) || (Cp_ExpiresAt cp <=? time_unix now)
                 || (30 <? Cp_ExpiresAt cp - Cp_IssuedAt cp)
                 || (MaxManagedSessions <? zlen (Cp_Allowed cp)))
            "invalid P2P policy scope/lifetime" ;;
          allowed ← allowed_sessions (ps_sessions p) (Cp_Revision cp) ∅ (Cp_Allowed cp);
          Ok (cp, allowed)
      end
  end.

(** The sessions a checkpoint does not list, which it revokes. *)
Definition revoked_sessions (p : PolicyStore) (allowed : gset string) : gmap string Session :=
  filter (λ '(id, _), id ∉ allowed) (ps_sessions p).

Definition apply_policy (p : PolicyStore) (cp : checkpoint) (allowed : gset string) (now : Z)
    : result B :=
  st ← policy_state (ps_trust p) (ps_db p);
  check ((Cp_Revision cp <=? St_Revision st) || (Cp_IssuedAt cp <? St_IssuedAt st))
    "P2P policy rollback/replay" ;;
  let live := live_denials st now in
  let denied := (Grant_ExpiresAt ∘ session_grant <$> revoked_sessions p allowed) ∪ live in
  check (List.existsb (λ '(id, _), bool_decide (id ∈ allowed)
                                   && (time_unix now <? default 0 (live !! id)))
           (map_to_list (ps_sessions p))) "revoked P2P ticket cannot be reauthorized" ;;
  check (maxDenied <? Z.of_nat (size denied)) "P2P revocation capacity exhausted" ;;
  putPolicyState (ps_db p) (mkState (St_Version st) (St_Trust st) (Cp_Revision cp)
    (Cp_IssuedAt cp) (Some denied) (St_Reserved st)).

Definition earlier (a b : Z) : Z := if a <? b then a else b.

Definition authorize (cp : checkpoint) (allowed : gset string) (now : Z) (id : string) (s : Session)
    : Session :=
  set_authorization s
    (if bool_decide (id ∈ allowed)
     then Some (mkAuthorization
                  (earlier (now + time_sub (unix_time (Cp_ExpiresAt cp)) now) (session_deadline s))
                  (Cp_ExpiresAt cp))
     else None).

Definition Apply (p : PolicyStore) (ticket : bytes) (now : Z) : PolicyStore * result (list string) :=
  match ('(cp, allowed) ← verify_checkpoint p ticket now;
         b ← apply_policy p cp allowed now;
         Ok (cp, allowed, b)) with
  | Ok (cp, allowed, b) =>
      (set_sessions (set_db p b) (map_imap (λ id s, Some (authorize cp allowed now id s)) (ps_sessions p)),
       Ok (sort_slice String.ltb (fst <$> map_to_list (revoked_sessions p allowed))))
  | Err e => (failClosed p, Err e)
  | Panic => (p, Panic)
  end.
End authority.
Arguments PolicyStore B : clear implicits.

(** ** The durable state *)

Section durable.
Context `{PJ : PolicyJson} {B : Type} `{BB : BoltBucket B}.
Implicit Types (b : B) (st : policyState).

Definition private_ip (ip : option Z) : Prop := ∃ a, ip = Some a ∧ addr_is_private a = true.

Lemma check_reserved_Ok seen ips :
  check_reserved seen ips = Ok tt ↔
  Forall private_ip ips ∧ NoDup ips ∧ ∀ ip, ip ∈ ips → ip ∉ seen.
Proof.
  revert seen. induction ips as [|ip ips IH]; intros seen; cbn.
  { split; [|done]. intros _. split_and!; [constructor..|]. intros ip H. by apply not_elem_of_nil in H. }
  rewrite check_then, orb_false_iff, bool_decide_eq_false, IH, Forall_cons, NoDup_cons.
  assert ((match ip with None => true | Some a => negb (addr_is_private a) end) = false ↔ private_ip ip) as ->.
  { unfold private_ip. destruct ip as [a|]; [|naive_solver]. rewrite negb_false_iff. naive_solver. }
  setoid_rewrite elem_of_cons. naive_solver.
Qed.

(** What a stored state must satisfy to be read back. *)
Record state_valid (trust : Trust) st : Prop := {
  sv_version : St_Version st = 1;
  sv_trust : St_Trust st = trust;
  sv_utf8 : utf8 (Trust_ClusterID trust) = true ∧ utf8 (Trust_DeviceID trust) = true;
  sv_denied : ∃ d, St_Denied st = Some d ∧ Z.of_nat (size d) <= maxDenied ∧
    ∀ id, is_Some (d !! id) → utf8 id = true;
  sv_capacity : zlen (St_Reserved st) <= MaxManagedSessions;
  sv_reserved : Forall private_ip (St_Reserved st) ∧ NoDup (St_Reserved st);
}.

Lemma policy_state_valid trust b st : policy_state trust b = Ok st → state_valid trust st.
Proof.
  unfold policy_state. destruct (bolt_get b "state" ≫= decode_state) as [st'|] eqn:D; [|done].
  apply bind_Some in D as (raw & _ & D). intros E.
  apply check_then in E as [G1 E]. apply check_then in E as [G2 E].
  apply bind_Ok in E as ([] & (R1 & R2 & _)%check_reserved_Ok & [= <-]). guards.
  destruct G1 as [[? Ht] Hd]. apply decode_state_trust in D as Hu. rewrite Ht in Hu.
  constructor; try done. destruct (St_Denied st') as [d|] eqn:Ed; [|done]. guards.
  exists d. split_and!; [done|lia|]. by eapply decode_state_denied.
Qed.

Lemma policy_state_no_panic trust b : policy_state trust b ≠ Panic.
Proof.
  unfold policy_state. destruct (_ ≫= _) as [st|]; [|done].
  apply check_bind_no_panic. intros _. apply check_bind_no_panic. intros _.
  apply bind_no_panic; [|done].
  generalize (@nil (option Z)) as seen. induction (St_Reserved st) as [|ip ips IH]; intros seen; [done|].
  cbn. apply check_bind_no_panic. intros _. apply IH.
Qed.

(** A valid state that was written is read back. *)
Lemma put_read trust b st b' :
  state_valid trust st → putPolicyState b st = Ok b' → policy_state trust b' = Ok st.
Proof.
  intros [V T U (d & Hd & Hs & Hu) C [R1 R2]] E. unfold putPolicyState in E.
  destruct (bolt_put b "state" _) as [b2|] eqn:P; [|done]. injection E as <-.
  apply bolt_put_view in P. unfold policy_state, bolt_get. rewrite P, lookup_insert_eq. cbn.
  erewrite decode_marshal_state; [|by rewrite T; apply U..|exact Hd|done].
  rewrite V, T, Hd, bool_decide_eq_true_2 by done.
  rewrite (proj2 (Z.ltb_ge _ _) Hs), (proj2 (Z.ltb_ge _ _) C). cbn.
  rewrite (proj2 (check_reserved_Ok [] (St_Reserved st))); [done|].
  split_and!; [done..|]. intros ip _. apply not_elem_of_nil.
Qed.

Lemma putPolicyState_no_panic b st : putPolicyState b st ≠ Panic.
Proof. unfold putPolicyState. by destruct (bolt_put _ _ _). Qed.
End durable.

(** ** The invariant of a store *)

Section store_facts.
Context `{ED : Ed25519} `{GJ : GrantJson} `{PJ : PolicyJson} `{HS : Hashes} `{GS : GoSort}.
Context {B : Type} `{BB : BoltBucket B}.
Implicit Types (p : PolicyStore B) (st : policyState) (t : Z).

Definition durable p st : Prop := policy_state (ps_trust p) (ps_db p) = Ok st.

(** At time [t]: the durable state can be read, the sessions are managed and stored
    under their own ids, and a session that is denied at [t] is not authorised and
    is denied until it expires. *)
Record store_inv t p : Prop := {
  si_state : ∃ st, durable p st;
  si_sessions : ∀ id s, ps_sessions p !! id = Some s →
    Grant_SessionID (session_grant s) = id ∧ session_managed s = true ∧ utf8 id = true;
  si_denied : ∀ id s st e, ps_sessions p !! id = Some s → durable p st →
    denied_of st !! id = Some e → time_unix t < e →
    e = Grant_ExpiresAt (session_grant s) ∧ session_authorization s = None;
}.

(** Nothing the durable state forbids is forgotten: the floor does not sink and
    live denials stay. *)
Definition grows t p p' : Prop :=
  ∀ st, durable p st → ∃ st', durable p' st' ∧
    St_Revision st <= St_Revision st' ∧ St_IssuedAt st <= St_IssuedAt st' ∧
    (∀ ip, ip ∈ St_Reserved st → ip ∈ St_Reserved st') ∧
    ∀ id e, denied_of st !! id = Some e → time_unix t < e → denied_of st' !! id = Some e.

Lemma grows_refl t p p' :
  ps_db p' = ps_db p → ps_trust p' = ps_trust p → grows t p p'.
Proof. intros Ed Et st D. exists st. unfold durable. rewrite Ed, Et. by split_and!. Qed.

Lemma time_unix_mono t t' : t <= t' → time_unix t <= time_unix t'.
Proof. intros. by apply Z.div_le_mono. Qed.

(** A store whose sessions only lost authorisations. *)
Lemma inv_weaken t p p' :
  store_inv t p → ps_db p' = ps_db p → ps_trust p' = ps_trust p →
  (∀ id s', ps_sessions p' !! id = Some s' → ∃ s, ps_sessions p !! id = Some s ∧
     session_grant s' = session_grant s ∧ session_managed s' = session_managed s ∧
     (session_authorization s' = None ∨ session_authorization s' = session_authorization s)) →
  store_inv t p'.
Proof.
  intros [S I D] Ed Et Hs. constructor; unfold durable in *; rewrite ?Ed, ?Et.
  - done.
  - intros id s' (s & H & Eg & Em & _)%Hs. rewrite Eg, Em. by apply I.
  - intros id s' st e (s & H & Eg & _ & Ea)%Hs Hst Hd Ht. rewrite Eg.
    destruct (D id s st e H Hst Hd Ht) as [-> Hn]. split; [done|]. destruct Ea as [?|Ea]; congruence.
Qed.

Lemma failClosed_sessions p id s' :
  ps_sessions (failClosed p) !! id = Some s' →
  ∃ s, ps_sessions p !! id = Some s ∧ s' = set_authorization s None.
Proof. cbn. rewrite lookup_fmap. intros (s & -> & ->)%fmap_Some. eauto. Qed.

Lemma failClosed_inv t p : store_inv t p → store_inv t (failClosed p).
Proof.
  intros I. apply (inv_weaken t p); [done..|]. intros id s' (s & H & ->)%failClosed_sessions.
  exists s. split_and!; try done. by left.
Qed.

Lemma Close_inv t p : store_inv t p → store_inv t (Close p).
Proof.
  intros I. apply (inv_weaken t (failClosed p)); [by apply failClosed_inv|done..|].
  intros id s' H. exists s'. split_and!; try done. by right.
Qed.

Lemma later_inv t t' p : t <= t' → store_inv t p → store_inv t' p.
Proof.
  intros L%time_unix_mono [S I D]. constructor; [done..|].
  intros id s st e H1 H2 H3 H4. apply (D id s st e); try done. lia.
Qed.

Lemma live_denials_Some st t id e :
  live_denials st t !! id = Some e ↔ denied_of st !! id = Some e ∧ time_unix t < e.
Proof. unfold live_denials. by rewrite map_lookup_filter_Some. Qed.

Lemma live_denials_size st t trust : state_valid trust st →
  Z.of_nat (size (live_denials st t)) <= maxDenied ∧
  ∀ id, is_Some (live_denials st t !! id) → utf8 id = true.
Proof.
  intros V. destruct (sv_denied _ _ V) as (d & Hd & Hs & Hu).
  assert (live_denials st t ⊆ d) as Hsub.
  { unfold live_denials, denied_of. rewrite Hd. apply map_filter_subseteq. }
  split; [pose proof (map_subseteq_size _ _ Hsub); lia|].
  intros id [e He]. apply Hu. eauto using lookup_weaken.
Qed.

(** ** [Stop] *)

Lemma stop_tx_Ok t p id s b st :
  store_inv t p → ps_sessions p !! id = Some s → durable p st →
  stop_tx (ps_trust p) (ps_db p) id s t = Ok b →
  policy_state (ps_trust p) b = Ok (mkState (St_Version st) (St_Trust st) (St_Revision st)
    (St_IssuedAt st) (Some (<[id := Grant_ExpiresAt (session_grant s)]> (live_denials st t)))
    (St_Reserved st)).
Proof.
  intros I Hs D E. unfold stop_tx in E. rewrite D in E. cbn [mbind result_bind] in E.
  apply check_then in E as [G E]. guards. pose proof (policy_state_valid _ _ _ D) as V.
  destruct (live_denials_size st t _ V) as [_ Hu].
  eapply put_read; [|exact E]. destruct V as [? ? ? _ ? ?]. constructor; try done. cbn.
  eexists. split; [done|]. split.
  - destruct (live_denials st t !! id) eqn:L.
    + rewrite map_size_insert_Some by eauto. lia.
    + rewrite map_size_insert_None by done. lia.
  - intros id' Hi. destruct (decide (id' = id)) as [->|Hne]; [by apply (si_sessions _ _ I id s)|].
    rewrite lookup_insert_ne in Hi by done. by apply Hu.
Qed.

Lemma Stop_step t p id p' r :
  store_inv t p → Stop p id t = (p', r) → store_inv t p' ∧ grows t p p' ∧ r ≠ Panic.
Proof.
  intros I E. pose proof (failClosed_inv t p I) as I1. unfold Stop in E.
  assert (grows t p (failClosed p)) as G1 by by apply grows_refl.
  destruct (ps_open (failClosed p)); cbn [negb] in E; [|by injection E as <- <-].
  destruct (ps_sessions (failClosed p) !! id) as [s|] eqn:Hs; [|by injection E as <- <-].
  destruct (si_state _ _ I1) as [st D].
  destruct (stop_tx _ _ _ _ _) as [b|e|] eqn:Tx; injection E as <- <-; [|done|].
  - pose proof (stop_tx_Ok t _ id s b st I1 Hs D Tx) as D'. split_and!; [|  |done].
    + constructor; unfold durable; cbn [set_db ps_db ps_trust ps_sessions].
      * eauto.
      * apply I1.
      * intros id' s' st' e Hs' D2 He Ht. rewrite D' in D2. injection D2 as <-. cbn in He.
        apply lookup_insert_Some in He as [[<- <-]|[Hne He]].
        { rewrite Hs in Hs'. injection Hs' as <-. split; [done|].
          by apply failClosed_sessions in Hs as (s0 & _ & ->). }
        apply live_denials_Some in He as [He _]. by apply (si_denied _ _ I1 id' s' st e).
    + intros st0 D0. assert (st0 = st) as ->.
      { unfold durable in *. cbn in D. congruence. }
      eexists. split; [exact D'|]. cbn. split_and!; [done..|]. intros id' e He Ht.
      destruct (decide (id = id')) as [->|Hne].
      { destruct (si_denied _ _ I1 id' s st e Hs D He Ht) as [-> _]. by rewrite lookup_insert_eq. }
      rewrite lookup_insert_ne by done. by apply live_denials_Some.
  - exfalso. unfold stop_tx in Tx. rewrite D in Tx. revert Tx. cbn [mbind result_bind].
    apply check_bind_no_panic. intros _. apply putPolicyState_no_panic.
Qed.

(** ** [Track] *)

Lemma remote_private trust g now : grant_wf g now → private_ip (remote_address trust g).
Proof.
  intros W. destruct (gw_participants _ _ W) as [Pi Ph]. unfold remote_address, private_ip.
  destruct (String.eqb _ _); [apply (pp_addr _ Ph)|apply (pp_addr _ Pi)].
Qed.

(** The transaction reserves the peer and otherwise keeps the state. *)
Lemma track_tx_Ok trust b g t st b' :
  grant_wf g t → policy_state trust b = Ok st → track_tx trust b g t = Ok b' →
  denied_until st (Grant_SessionID g) <= time_unix t ∧
  ∃ reserved, (∀ ip, ip ∈ St_Reserved st → ip ∈ reserved) ∧ remote_address trust g ∈ reserved ∧
    policy_state trust b' = Ok (mkState (St_Version st) (St_Trust st) (St_Revision st)
      (St_IssuedAt st) (St_Denied st) reserved).
Proof.
  intros W D E. unfold track_tx in E. rewrite D in E. cbn [mbind result_bind] in E.
  apply check_then in E as [G E]. guards. split; [done|].
  case_bool_decide as Hin.
  - injection E as <-. exists (St_Reserved st). split_and!; [done..|]. rewrite D. by destruct st.
  - apply check_then in E as [G2 E]. guards. exists (St_Reserved st ++ [remote_address trust g]).
    split_and!; [intros; apply elem_of_app; auto|apply elem_of_app; right; left|].
    eapply put_read; [|exact E]. destruct (policy_state_valid _ _ _ D) as [? ? ? ? ? [R1 R2]].
    constructor; try done; cbn.
    + rewrite zlen_app. change (zlen [_]) with 1. lia.
    + split.
      * apply Forall_app. split; [done|]. constructor; [by eapply remote_private|constructor].
      * apply NoDup_app. split_and!; [done| |apply NoDup_singleton].
        intros ip Hip ->%list_elem_of_singleton. done.
Qed.

Lemma track_tx_no_panic trust b g t : track_tx trust b g t ≠ Panic.
Proof.
  unfold track_tx. apply bind_no_panic; [apply policy_state_no_panic|]. intros st _.
  apply check_bind_no_panic. intros _. case_bool_decide; [done|].
  apply check_bind_no_panic. intros _. apply putPolicyState_no_panic.
Qed.

Lemma Track_step t p ticket p' r :
  store_inv t p → Track p ticket t = (p', r) → store_inv t p' ∧ grows t p p' ∧ r ≠ Panic.
Proof.
  intros I E. unfold Track in E.
  destruct (ps_open p); cbn [negb] in E; [|by injection E as <- <-; split_and!; [|apply grows_refl|]].
  destruct (VerifyGrant _ _ _ _ _) as [s|e|] eqn:V;
    [|injection E as <- <-; by split_and!; [|apply grows_refl|]|by apply VerifyGrant_no_panic in V].
  destruct (_ && _) in E; [injection E as <- <-; by split_and!; [|apply grows_refl|]|].
  apply VerifyGrant_Ok in V as (_ & _ & _ & _ & _ & W & _ & _ & Es).
  set (g := session_grant s) in *.
  destruct (track_tx _ _ _ _) as [b|e|] eqn:Tx;
    [|injection E as <- <-; by split_and!; [|apply grows_refl|]|by apply track_tx_no_panic in Tx].
  destruct (si_state _ _ I) as [st D].
  destruct (track_tx_Ok _ _ g t st b W D Tx) as (Hd & reserved & Hr & _ & D').
  set (live := filter _ (ps_sessions p)) in *.
  assert (grows t p (set_sessions (set_db p b) live)) as G.
  { intros st0 D0. assert (st0 = st) as -> by (unfold durable in *; congruence).
    eexists. split; [exact D'|]. by split_and!. }
  assert (∀ id q, live !! id = Some q → ps_sessions p !! id = Some q) as Hl.
  { intros id q [Hq _]%map_lookup_filter_Some. done. }
  assert (store_inv t (set_sessions (set_db p b) live)) as I'.
  { constructor; unfold durable; cbn.
    - eauto.
    - intros id q Hq%Hl. by apply (si_sessions _ _ I).
    - intros id q st' e Hq%Hl D2 He Ht. rewrite D' in D2. injection D2 as <-.
      by apply (si_denied _ _ I id q st e). }
  destruct (live !! Grant_SessionID g) as [old|] eqn:L.
  { destruct (negb _); injection E as <- <-; by split_and!. }
  destruct (_ <=? _); injection E as <- <-; [by split_and!|].
  split_and!; [|by intros st0 D0; destruct (G st0 D0) as (st' & ?); exists st'|done].
  constructor; unfold durable; cbn.
  - eauto.
  - intros id q [[<- <-]|[_ Hq]]%lookup_insert_Some; [|by apply (si_sessions _ _ I')].
    split_and!; [done..|]. destruct (gw_session _ _ W) as (x & -> & _). apply utf8_hex.
  - intros id q st' e Hq D2 He Ht. rewrite D' in D2. injection D2 as <-.
    apply lookup_insert_Some in Hq as [[<- _]|[_ Hq]]; [|by apply (si_denied _ _ I id q st e); [apply Hl| | |]].
    unfold denied_until in Hd. change (denied_of st !! Grant_SessionID g = Some e) in He.
    rewrite He in Hd. cbn in Hd. lia.
Qed.

(** ** [Apply] *)

Definition listed (cp : checkpoint) (id : string) (s : Session) : Prop :=
  ∃ entry, entry ∈ Cp_Allowed cp ∧ Entry_SessionID entry = id ∧
    Entry_TicketSHA256 entry = hex_encode (sha256 (session_ticket s)).

Lemma allowed_sessions_Ok ss rev A es A' :
  allowed_sessions ss rev A es = Ok A' →
  (∀ id, id ∈ A' ↔ id ∈ A ∨ ∃ entry, entry ∈ es ∧ Entry_SessionID entry = id) ∧
  ∀ entry, entry ∈ es → ∃ s, ss !! Entry_SessionID entry = Some s ∧
    Entry_TicketSHA256 entry = hex_encode (sha256 (session_ticket s)) ∧
    Grant_Revision (session_grant s) <= rev.
Proof.
  revert A. induction es as [|entry es IH]; intros A E; cbn in E.
  { injection E as <-. split; [|intros ? H; by apply not_elem_of_nil in H].
    intros id. split; [by left|]. intros [?|(? & H & _)]; [done|by apply not_elem_of_nil in H]. }
  destruct (ss !! Entry_SessionID entry) as [s|] eqn:Hs; [|done].
  apply check_then in E as [G1 E]. apply check_then in E as [G2 E]. guards.
  apply IH in E as [HA He]. split.
  - intros id. rewrite HA, elem_of_union, elem_of_singleton. setoid_rewrite elem_of_cons. naive_solver.
  - intros entry' [->|Hin]%elem_of_cons; [|by apply He]. exists s. by destruct G1.
Qed.

Lemma allowed_sessions_no_panic ss rev A es : allowed_sessions ss rev A es ≠ Panic.
Proof.
  revert A. induction es as [|entry es IH]; intros A; cbn; [done|].
  destruct (ss !! _); [|done]. apply check_bind_no_panic. intros _.
  apply check_bind_no_panic. intros _. apply IH.
Qed.

Lemma verify_checkpoint_Ok p ticket t cp allowed :
  verify_checkpoint p ticket t = Ok (cp, allowed) →
  (∃ payload sig, decode_signed ticket = Some (mkSigned payload sig) ∧
     ed_verify (Trust_Issuer (ps_trust p)) (policy_label ++ payload) sig = true ∧
     decode_checkpoint payload = Some cp) ∧
  time_unix t < Cp_ExpiresAt cp <= Cp_IssuedAt cp + 30 ∧ Cp_IssuedAt cp <= time_unix t ∧
  allowed_sessions (ps_sessions p) (Cp_Revision cp) ∅ (Cp_Allowed cp) = Ok allowed.
Proof.
  unfold verify_checkpoint. intros [_ E]%check_then.
  destruct (decode_signed ticket) as [[payload sig]|]; [|done]. cbn [Payload Signature] in E.
  apply check_then in E as [G1 E]. destruct (decode_checkpoint payload) as [cp'|] eqn:D; [|done].
  apply check_then in E as [G2 E]. apply bind_Ok in E as (A & HA & [= <- <-]). guards.
  split_and!; [by exists payload, sig|lia..|done].
Qed.

Lemma verify_checkpoint_no_panic p ticket t : verify_checkpoint p ticket t ≠ Panic.
Proof.
  unfold verify_checkpoint. apply check_bind_no_panic. intros _.
  destruct (decode_signed ticket); [|done]. apply check_bind_no_panic. intros _.
  destruct (decode_checkpoint _); [|done]. apply check_bind_no_panic. intros _.
  apply bind_no_panic; [apply allowed_sessions_no_panic|done].
Qed.

(** The denials after a checkpoint: the sessions it does not list, and what was
    denied and has not expired. *)
Definition new_denials p st (allowed : gset string) t : gmap string Z :=
  (Grant_ExpiresAt ∘ session_grant <$> revoked_sessions p allowed) ∪ live_denials st t.

Lemma revoked_denial p allowed id :
  (Grant_ExpiresAt ∘ session_grant <$> revoked_sessions p allowed) !! id =
  match ps_sessions p !! id with
  | Some s => if decide (id ∈ allowed) then None else Some (Grant_ExpiresAt (session_grant s))
  | None => None
  end.
Proof.
  rewrite lookup_fmap. unfold revoked_sessions. rewrite map_lookup_filter.
  destruct (ps_sessions p !! id) as [s|]; cbn; [|done].
  case_guard; case_decide; cbn; done.
Qed.

Lemma apply_policy_Ok t p cp allowed b st :
  store_inv t p → durable p st → apply_policy p cp allowed t = Ok b →
  St_Revision st < Cp_Revision cp ∧ St_IssuedAt st <= Cp_IssuedAt cp ∧
  (∀ id s e, ps_sessions p !! id = Some s → id ∈ allowed → live_denials st t !! id = Some e → False) ∧
  policy_state (ps_trust p) b = Ok (mkState (St_Version st) (St_Trust st) (Cp_Revision cp)
    (Cp_IssuedAt cp) (Some (new_denials p st allowed t)) (St_Reserved st)).
Proof.
  intros I D E. unfold apply_policy in E. rewrite D in E. cbn [mbind result_bind] in E.
  apply check_then in E as [G1 E]. apply check_then in E as [G2 E]. apply check_then in E as [G3 E].
  guards. split_and!; [lia|lia| |].
  - intros id s e Hs Ha Hl. apply not_true_iff_false in G2. apply G2, existsb_exists.
    exists (id, s). split; [by apply list_elem_of_In, elem_of_map_to_list|].
    rewrite bool_decide_eq_true_2, Hl by done. cbn. apply Z.ltb_lt.
    by apply live_denials_Some in Hl as [_ ?].
  - pose proof (policy_state_valid _ _ _ D) as V. destruct (live_denials_size st t _ V) as [_ Hu].
    eapply put_read; [|exact E]. destruct V as [? ? ? _ ? ?]. constructor; try done. cbn.
    eexists. split_and!; [done|unfold new_denials; lia|].
    intros id [e He]. apply lookup_union_Some_raw in He as [He|[_ He]]; [|eauto].
    rewrite revoked_denial in He. destruct (ps_sessions p !! id) as [s|] eqn:Hs; [|done].
    by apply (si_sessions _ _ I id s).
Qed.

Lemma apply_policy_no_panic t p cp allowed : apply_policy p cp allowed t ≠ Panic.
Proof.
  unfold apply_policy. apply bind_no_panic; [apply policy_state_no_panic|]. intros st _.
  do 3 (apply check_bind_no_panic; intros _). apply putPolicyState_no_panic.
Qed.

(** The outcome of [Apply]: failed closed, or a checkpoint that was verified. *)
Lemma policy_apply_cases t p ticket p' r :
  Apply p ticket t = (p', r) →
  (∃ e, r = Err e ∧ p' = failClosed p) ∨
  ∃ cp allowed b, verify_checkpoint p ticket t = Ok (cp, allowed) ∧
    apply_policy p cp allowed t = Ok b ∧
    p' = set_sessions (set_db p b)
           (map_imap (λ id s, Some (authorize cp allowed t id s)) (ps_sessions p)) ∧
    r = Ok (sort_slice String.ltb (fst <$> map_to_list (revoked_sessions p allowed))).
Proof.
  unfold Apply. intros E.
  destruct (verify_checkpoint p ticket t) as [[cp allowed]|e|] eqn:V; cbn [mbind result_bind] in E;
    [|left; injection E as <- <-; eauto|by apply verify_checkpoint_no_panic in V].
  destruct (apply_policy p cp allowed t) as [b|e|] eqn:A; cbn [mbind result_bind] in E;
    [|left; injection E as <- <-; eauto|by apply apply_policy_no_panic in A].
  right. injection E as <- <-. by exists cp, allowed, b.
Qed.

Lemma applied_session cp allowed t p id s' :
  map_imap (λ id s, Some (authorize cp allowed t id s)) (ps_sessions p) !! id = Some s' →
  ∃ s, ps_sessions p !! id = Some s ∧ s' = authorize cp allowed t id s.
Proof. rewrite map_lookup_imap. intros (s & -> & [= <-])%bind_Some. eauto. Qed.

Lemma Apply_step t p ticket p' r :
  store_inv t p → Apply p ticket t = (p', r) → store_inv t p' ∧ grows t p p' ∧ r ≠ Panic.
Proof.
  intros I [(e & -> & ->)|(cp & allowed & b & V & A & -> & ->)]%policy_apply_cases.
  { split_and!; [by apply failClosed_inv|by apply grows_refl|done]. }
  destruct (si_state _ _ I) as [st D].
  destruct (apply_policy_Ok t p cp allowed b st I D A) as (Hr & Hi & Hl & D').
  split_and!; [| |done].
  - constructor; unfold durable; cbn.
    + eauto.
    + intros id s' (s & Hs & ->)%applied_session. exact (si_sessions _ _ I id s Hs).
    + intros id s' st' e (s & Hs & ->)%applied_session D2 He Ht. rewrite D' in D2.
      injection D2 as <-. cbn in He. apply lookup_union_Some_raw in He as [He|[He0 He]].
      * rewrite revoked_denial, Hs in He. case_decide as Ha; [done|]. injection He as <-. cbn.
        by rewrite bool_decide_eq_false_2.
      * rewrite revoked_denial, Hs in He0. case_decide as Ha; [|done].
        by destruct (Hl id s e Hs Ha He).
  - intros st0 D0. assert (st0 = st) as -> by (unfold durable in *; congruence).
    eexists. split; [exact D'|]. cbn. split_and!; [lia|lia|done|]. intros id e He Ht.
    apply lookup_union_Some_raw. rewrite revoked_denial.
    assert (live_denials st t !! id = Some e) as L by by apply live_denials_Some.
    destruct (ps_sessions p !! id) as [s|] eqn:Hs; [|by right].
    case_decide; [by right|]. left. by destruct (si_denied _ _ I id s st e Hs D He Ht) as [-> _].
Qed.

(** ** Runs of a Device *)

(** The store as a state machine with a clock: its operations, a restart of the
    process on the same file, and the passing of time. *)
Inductive store_step : Z * PolicyStore B → Z * PolicyStore B → Prop :=
| step_track t p ticket : store_step (t, p) (t, (Track p ticket t).1)
| step_apply t p ticket : store_step (t, p) (t, (Apply p ticket t).1)
| step_stop t p id : store_step (t, p) (t, (Stop p id t).1)
| step_fail t p : store_step (t, p) (t, FailClosed p)
| step_close t p : store_step (t, p) (t, Close p)
| step_restart t p p' :
    openPolicyStore (ps_db p) (ps_trust p) false = Ok p' → store_step (t, p) (t, p')
| step_later t t' p : t <= t' → store_step (t, p) (t', p).

(** A store created by the Device at some time, and every later state of it. *)
Definition store_reach (t : Z) p : Prop :=
  ∃ b t0 trust p0, openPolicyStore b trust true = Ok p0 ∧
    utf8 (Trust_ClusterID trust) = true ∧ utf8 (Trust_DeviceID trust) = true ∧
    rtc store_step (t0, p0) (t, p).

Lemma restart_inv t p p' :
  openPolicyStore (ps_db p) (ps_trust p) false = Ok p' → store_inv t p' ∧ grows t p p'.
Proof.
  intros [_ E]%check_then. apply bind_Ok in E as (st & D & [= <-]). split; [|by apply grows_refl].
  constructor; cbn; [by exists st|by intros *; rewrite lookup_empty..].
Qed.

Lemma create_inv t b trust p :
  utf8 (Trust_ClusterID trust) = true → utf8 (Trust_DeviceID trust) = true →
  openPolicyStore b trust true = Ok p → store_inv t p.
Proof.
  intros U1 U2 [_ E]%check_then. apply bind_Ok in E as (b' & P & [= <-]).
  eapply (put_read trust) in P.
  - constructor; cbn; [by eexists|by intros *; rewrite lookup_empty..].
  - constructor; try done; cbn; [|split; constructor]. exists ∅.
    split_and!; [done..|]. intros id [? H]. by rewrite lookup_empty in H.
Qed.

Lemma store_step_inv t p t' p' :
  store_step (t, p) (t', p') → store_inv t p → t <= t' ∧ store_inv t' p' ∧ grows t' p p'.
Proof.
  intros S I. inversion S; subst; (split; [lia|]).
  - destruct (Track p ticket t') as [p1 r] eqn:E. by apply Track_step in E as (? & ? & _).
  - destruct (Apply p ticket t') as [p1 r] eqn:E. by apply Apply_step in E as (? & ? & _).
  - destruct (Stop p id t') as [p1 r] eqn:E. by apply Stop_step in E as (? & ? & _).
  - split; [by apply failClosed_inv|by apply grows_refl].
  - split; [by apply Close_inv|by apply grows_refl].
  - by apply restart_inv.
  - split; [by eapply later_inv|by apply grows_refl].
Qed.

Lemma grows_later t t' p p' : t <= t' → grows t p p' → grows t' p p'.
Proof.
  intros L%time_unix_mono G st D. destruct (G st D) as (st' & ? & ? & ? & ? & H).
  exists st'. split_and!; try done. intros id e He Ht. apply H; [done|lia].
Qed.

Lemma grows_trans t p q r : grows t p q → grows t q r → grows t p r.
Proof.
  intros G1 G2 st D. destruct (G1 st D) as (st1 & D1 & ? & ? & ? & Hd1).
  destruct (G2 st1 D1) as (st2 & D2 & ? & ? & ? & Hd2). exists st2.
  split_and!; [done|lia|lia|auto|auto].
Qed.

Lemma run_inv x y : rtc store_step x y → store_inv x.1 x.2 →
  x.1 <= y.1 ∧ store_inv y.1 y.2 ∧ grows y.1 x.2 y.2.
Proof.
  induction 1 as [[t p]|[t p] [t1 p1] [t2 p2] S R IH]; intros I; cbn in *.
  { split_and!; [lia|done|by apply grows_refl]. }
  apply store_step_inv in S as (L1 & I1 & G1); [|done].
  destruct (IH I1) as (L2 & I2 & G2). split_and!; [lia|done|].
  eapply grows_trans; [|exact G2]. by eapply grows_later.
Qed.

Lemma store_reach_inv t p : store_reach t p → store_inv t p.
Proof.
  intros (b & t0 & trust & p0 & C & U1 & U2 & R).
  apply (create_inv t0) in C; [|done..]. by apply run_inv in R as (_ & ? & _).
Qed.

Lemma Track_allowed t p ticket p' s st :
  store_inv t p → durable p st → Track p ticket t = (p', Ok s) →
  denied_until st (Grant_SessionID (session_grant s)) <= time_unix t.
Proof.
  intros I D E. unfold Track in E. destruct (ps_open p); cbn [negb] in E; [|done].
  destruct (VerifyGrant _ _ _ _ _) as [s0|e|] eqn:V; [|done..].
  destruct (_ && _) in E; [done|].
  apply VerifyGrant_Ok in V as (_ & _ & _ & _ & _ & W & _).
  destruct (track_tx _ _ _ _) as [b|e|] eqn:Tx; [|done..].
  destruct (track_tx_Ok _ _ (session_grant s0) t st b W D Tx) as [Hd _].
  destruct (filter _ (ps_sessions p) !! _) as [old|] eqn:L.
  - apply map_lookup_filter_Some in L as [L _]. apply (si_sessions _ _ I) in L as [L _].
    destruct (negb _); [done|]. injection E as _ <-. by rewrite L.
  - destruct (_ <=? _); [done|]. by injection E as _ <-.
Qed.

(** C8. Revocation is permanent: once the durable state of a Device denies a
    session, no sequence of further checkpoints, tickets, stops and restarts
    makes the session usable before the denial expires: it cannot be tracked
    again and, where it is still tracked, it is not active. *)
Theorem revocation_permanent t p t' p' st id e :
  store_reach t p → durable p st → denied_of st !! id = Some e →
  rtc store_step (t, p) (t', p') → time_unix t' < e →
  (∀ ticket s, (Track p' ticket t').2 = Ok s → Grant_SessionID (session_grant s) ≠ id) ∧
  (∀ s, ps_sessions p' !! id = Some s → active s t' = false).
Proof.
  intros I%store_reach_inv D He R Ht.
  apply run_inv in R as (L & I' & G); [|done]. cbn in L, I', G.
  destruct (G st D) as (st' & D' & _ & _ & _ & H). specialize (H id e He Ht). split.
  - intros ticket s Tk <-. destruct (Track p' ticket t') as [p2 r] eqn:E. cbn in Tk. subst r.
    apply (Track_allowed _ _ _ _ _ st') in E; [|done..]. unfold denied_until in E.
    rewrite H in E. cbn in E. lia.
  - intros s Hs. destruct (si_denied _ _ I' id s st' e Hs D' H Ht) as [_ Ha].
    unfold active. by rewrite (proj1 (proj2 (si_sessions _ _ I' id s Hs))), Ha.
Qed.

(** C9. No rollback: a checkpoint that was applied is refused at every later time,
    through any operations and restarts; the store stays readable and the refusal
    takes every authorisation away. *)
Theorem checkpoint_not_replayed t p ticket p1 revoked t' p' :
  store_reach t p → Apply p ticket t = (p1, Ok revoked) → rtc store_step (t, p1) (t', p') →
  (∃ st, durable p' st) ∧ (∃ e, (Apply p' ticket t').2 = Err e) ∧
  ∀ id s, ps_sessions (Apply p' ticket t').1 !! id = Some s → active s t' = false.
Proof.
  intros I%store_reach_inv E R. pose proof (Apply_step _ _ _ _ _ I E) as (I1 & _ & _).
  apply policy_apply_cases in E as [(e & ? & _)|(cp & allowed & b & V & A & E1 & _)]; [done|].
  destruct (si_state _ _ I) as [st D].
  destruct (apply_policy_Ok t p cp allowed b st I D A) as (_ & _ & _ & D1).
  apply run_inv in R as (_ & I' & G); [|done]. cbn in I', G.
  destruct (G _ ltac:(subst p1; exact D1)) as (st' & D' & Hr & _). cbn in Hr.
  apply verify_checkpoint_Ok in V as ((payload & sig & Dec & _ & Hcp) & _).
  destruct (Apply p' ticket t') as [p2 r] eqn:E.
  pose proof (Apply_step _ _ _ _ _ I' E) as (I2 & _ & _).
  apply policy_apply_cases in E as [(e & -> & ->)|(cp' & allowed' & b' & V' & A' & _)].
  - split_and!; [by exists st'|by exists e|]. intros id s Hs. cbn in Hs.
    unfold active. rewrite (proj1 (proj2 (si_sessions _ _ I2 id s Hs))).
    by apply failClosed_sessions in Hs as (s0 & _ & ->).
  - exfalso. apply verify_checkpoint_Ok in V' as ((payload' & sig' & Dec' & _ & Hcp') & _).
    rewrite Dec in Dec'. injection Dec' as <- <-. rewrite Hcp in Hcp'. injection Hcp' as <-.
    destruct (apply_policy_Ok t' p' cp allowed' b' st' I' D' A') as (Hlt & _). lia.
Qed.

(** C10. Authorisation comes only from a current checkpoint: after [Apply] a
    session of the store can be active only if the checkpoint was signed by the
    pinned issuer and lists the session with the digest of its ticket, and then
    at most until the checkpoint expires, within 30 seconds of its issue; every
    other session is reported as revoked and its denial is durable.  When [Apply]
    fails, nothing is written and no session is active. *)
Theorem Apply_authorizes t p ticket :
  store_reach t p →
  let '(p', r) := Apply p ticket t in
  match r with
  | Ok revoked =>
      ∃ cp payload sig st', decode_signed ticket = Some (mkSigned payload sig) ∧
        ed_verify (Trust_Issuer (ps_trust p)) (policy_label ++ payload) sig = true ∧
        decode_checkpoint payload = Some cp ∧ Cp_ExpiresAt cp <= Cp_IssuedAt cp + 30 ∧
        Cp_IssuedAt cp <= time_unix t ∧ durable p' st' ∧ St_Revision st' = Cp_Revision cp ∧
        ∀ id s, ps_sessions p' !! id = Some s →
          (∀ now, active s now = true → listed cp id s ∧ time_unix now < Cp_ExpiresAt cp) ∧
          (listed cp id s ∨
           id ∈ revoked ∧ denied_of st' !! id = Some (Grant_ExpiresAt (session_grant s)))
  | Err _ => ps_db p' = ps_db p ∧
      ∀ id s now, ps_sessions p' !! id = Some s → active s now = false
  | Panic => False
  end.
Proof.
  intros I%store_reach_inv. destruct (Apply p ticket t) as [p' r] eqn:E.
  pose proof (Apply_step _ _ _ _ _ I E) as (I' & _ & _).
  apply policy_apply_cases in E as [(e & -> & ->)|(cp & allowed & b & V & A & -> & ->)].
  { split; [done|]. intros id s now Hs. unfold active.
    rewrite (proj1 (proj2 (si_sessions _ _ I' id s Hs))).
    by apply failClosed_sessions in Hs as (s0 & _ & ->). }
  destruct (si_state _ _ I) as [st D].
  destruct (apply_policy_Ok t p cp allowed b st I D A) as (_ & _ & _ & D').
  apply verify_checkpoint_Ok in V as ((payload & sig & Dec & Sig & Hcp) & [_ Hx] & Hi & HA).
  apply allowed_sessions_Ok in HA as [HA He].
  eexists cp, payload, sig, _. split_and!; [done..|exact D'|done|].
  intros id s Hs. pose proof (proj1 (proj2 (si_sessions _ _ I' id s Hs))) as Hm.
  apply applied_session in Hs as (s0 & Hs & ->).
  assert (id ∈ allowed → listed cp id s0) as Hl.
  { intros [H|(entry & Hin & <-)]%HA; [by apply elem_of_empty in H|].
    exists entry. destruct (He entry Hin) as (s1 & Hs1 & ? & _). rewrite Hs in Hs1.
    by injection Hs1 as <-. }
  destruct (decide (id ∈ allowed)) as [Hin|Hout].
  - split; [|left; by apply Hl]. intros now Ac. split; [by apply Hl|].
    unfold active in Ac. rewrite Hm in Ac. cbn in Ac. rewrite bool_decide_eq_true_2 in Ac by done.
    cbn in Ac. guards. lia.
  - split.
    + intros now Ac. unfold active in Ac. rewrite Hm in Ac. cbn in Ac.
      by rewrite bool_decide_eq_false_2 in Ac.
    + right. split.
      * apply sort_slice_elem, list_elem_of_fmap. exists (id, s0). split; [done|].
        apply elem_of_map_to_list, map_lookup_filter_Some. done.
      * cbn. apply lookup_union_Some_raw. left. by rewrite revoked_denial, Hs, decide_False.
Qed.
End store_facts.
