(* ===== verification/P2pMux.v ===== *)
(** * The shared TUN adapter of a Device ([internal/p2p/mux.go])

    One adapter carries the traffic of the gateway and of every P2P session.  The
    dispatcher, the readers and the writers run concurrently and synchronise on a
    lock and on bounded queues; each critical section is one operation here, and a
    run is any interleaving of them.  The filter of [internal/p2p/policy.go]
    ([FilterTUN]) sits on the endpoint of a session. *)

From Stdlib Require Import Strings.Byte.
From S2P Require Import Prelude GoLib Netip Crypto P2pGrant P2pPolicy P2pAuthority.

Definition queueSize : Z := 128.

(** The adapter of the operating system: [Write] of one packet. *)
Class TunDevice (D : Type) := { dev_write : D → bytes → D * result unit }.

(** The endpoint of a session; the mux and its clients refer to the object by number. *)
Record peerTUN := mkPeerTUN { pt_peer : Z; pt_queue : list bytes; pt_stopped : bool }.

(** [peers] maps a reserved address to its endpoint, [None] when none is attached. *)
Record MuxTUN (D : Type) := mkMux {
  mux_device : D;
  mux_peers : gmap Z (option nat);
  mux_objects : list peerTUN;
  mux_gateway : list bytes;
  mux_closed : bool;
}.
Arguments mkMux {D}.
Arguments mux_device {D}.
Arguments mux_peers {D}.
Arguments mux_objects {D}.
Arguments mux_gateway {D}.
Arguments mux_closed {D}.

(** What a read of a queue yields: nothing yet, a packet or an error. *)
Inductive read_result := Blocked | Got (packet : bytes) | Failed (e : string).

Section mux.
Context {D : Type} `{TD : TunDevice D}.
Implicit Types m : MuxTUN D.

Definition NewMuxTUN (base : D) : MuxTUN D := mkMux base ∅ [] [] false.

Definition set_peers m ps : MuxTUN D :=
  mkMux (mux_device m) ps (mux_objects m) (mux_gateway m) (mux_closed m).
Definition set_objects m os : MuxTUN D :=
  mkMux (mux_device m) (mux_peers m) os (mux_gateway m) (mux_closed m).
Definition set_gateway m q : MuxTUN D :=
  mkMux (mux_device m) (mux_peers m) (mux_objects m) q (mux_closed m).
Definition set_device m d : MuxTUN D :=
  mkMux d (mux_peers m) (mux_objects m) (mux_gateway m) (mux_closed m).

(** [Reserve]; an address that is not IPv4 is [None]. *)
Definition Reserve m (peer : option Z) : MuxTUN D * result unit :=
  if mux_closed m then (m, Err "io: read/write on closed pipe")
  else match peer with
  | None => (m, Err "private peer /32 required")
  | Some a =>
      if negb (addr_is_private a) then (m, Err "private peer /32 required")
      else match mux_peers m !! a with
      | Some _ => (m, Ok tt)
      | None =>
          if MaxManagedSessions <=? Z.of_nat (size (mux_peers m))
          then (m, Err "P2P reservation limit reached")
          else (set_peers m (<[a := None]> (mux_peers m)), Ok tt)
      end
  end.

(** [Attach] with the address the policy binds its session to; the endpoint is the
    new object. *)
Definition Attach m (peer : option Z) (bound : option Z) : MuxTUN D * result nat :=
  let '(m, res) := Reserve m peer in
  match res, peer with
  | Ok _, Some a =>
      match mux_peers m !! a with
      | Some (Some _) => (m, Err "P2P peer already attached")
      | _ =>
          if negb (bool_decide (bound = Some a)) then (m, Err "P2P mux peer mismatch")
          else
            let i := length (mux_objects m) in
            (set_peers (set_objects m (mux_objects m ++ [mkPeerTUN a [] false]))
               (<[a := Some i]> (mux_peers m)), Ok i)
      end
  | Ok _, None => (m, Panic)
  | Err e, _ => (m, Err e)
  | Panic, _ => (m, Panic)
  end.

Definition packetAddresses (p : bytes) : result (option (Z * Z)) :=
  if zlen p <? 20 then Ok None
  else
    b ← index p 0;
    if negb (Z.shiftr (byte_val b) 4 =? 4) then Ok None
    else
      src ← slice p 12 16;
      dst ← slice p 16 20;
      Ok (Some (be_decode src, be_decode dst)).

(** A send that drops the packet when the queue is full. *)
Definition enqueue (q : list bytes) (packet : bytes) : list bytes :=
  if zlen q <? queueSize then q ++ [packet] else q.

(** The body of the dispatcher for one packet read from the adapter. *)
Definition dispatch_packet m (packet : bytes) : result (MuxTUN D) :=
  addrs ← packetAddresses packet;
  match (match addrs with Some (_, dst) => mux_peers m !! dst | None => None end) with
  | Some (Some i) =>
      Ok (set_objects m (alter (λ o, mkPeerTUN (pt_peer o) (enqueue (pt_queue o) packet) (pt_stopped o))
                           i (mux_objects m)))
  | Some None => Ok m
  | None => Ok (set_gateway m (enqueue (mux_gateway m) packet))
  end.

(** Whether the source or the destination of a packet is a reserved peer. *)
Definition reserved m (side : Z * Z → Z) (packet : bytes) : result bool :=
  addrs ← packetAddresses packet;
  Ok (match addrs with Some a => bool_decide (is_Some (mux_peers m !! side a)) | None => false end).

(** [MuxTUN.Read] on the packets queued for the gateway, with [room] bytes in the
    buffer; packets of peers reserved meanwhile are skipped. *)
Fixpoint gateway_read m (room : Z) (queue : list bytes) : MuxTUN D * read_result :=
  match queue with
  | [] => (set_gateway m [], Blocked)
  | packet :: rest =>
      if room <? zlen packet then (set_gateway m rest, Failed "short buffer")
      else match reserved m snd packet with
      | Ok true => gateway_read m room rest
      | Ok false => (set_gateway m rest, Got packet)
      | Err e => (set_gateway m rest, Failed e)
      | Panic => (set_gateway m rest, Failed "panic")
      end
  end.

Definition Mux_Read m (room : Z) : MuxTUN D * read_result :=
  if mux_closed m then (m, Failed "EOF") else gateway_read m room (mux_gateway m).

(** [MuxTUN.Write]: packets that claim a reserved peer as their source are dropped. *)
Fixpoint Mux_Write m (bufs : list bytes) (offset : Z) : MuxTUN D * result unit :=
  match bufs with
  | [] => (m, Ok tt)
  | b :: rest =>
      if (offset <? 0) || (zlen b <? offset) then (m, Err "short buffer")
      else
        let packet := drop (Z.to_nat offset) b in
        match reserved m fst packet with
        | Ok true => Mux_Write m rest offset
        | Ok false =>
            let '(d, res) := dev_write (mux_device m) packet in
            match res with
            | Ok _ => Mux_Write (set_device m d) rest offset
            | Err e => (set_device m d, Err e)
            | Panic => (set_device m d, Panic)
            end
        | Err e => (m, Err e)
        | Panic => (m, Panic)
        end
  end.

(** [peerTUN.Read], [peerTUN.Write] and [peerTUN.Close] of the object [i]. *)
Definition Peer_Read m (i : nat) (room : Z) : MuxTUN D * read_result :=
  match mux_objects m !! i with
  | None => (m, Failed "no such endpoint")
  | Some o =>
      if pt_stopped o then (m, Failed "EOF")
      else match pt_queue o with
      | [] => (m, Blocked)
      | packet :: rest =>
          (set_objects m (<[i := mkPeerTUN (pt_peer o) rest (pt_stopped o)]> (mux_objects m)),
           if room <? zlen packet then Failed "short buffer" else Got packet)
      end
  end.

Definition Peer_Write m (i : nat) (packet : bytes) : MuxTUN D * result unit :=
  match mux_objects m !! i with
  | None => (m, Err "no such endpoint")
  | Some o =>
      if pt_stopped o then (m, Err "io: read/write on closed pipe")
      else let '(d, res) := dev_write (mux_device m) packet in (set_device m d, res)
  end.

Definition stop (o : peerTUN) : peerTUN := mkPeerTUN (pt_peer o) (pt_queue o) true.

Definition Peer_Close m (i : nat) : MuxTUN D :=
  match mux_objects m !! i with
  | None => m
  | Some o =>
      let m := set_objects m (<[i := stop o]> (mux_objects m)) in
      if bool_decide (mux_peers m !! pt_peer o = Some (Some i))
      then set_peers m (<[pt_peer o := None]> (mux_peers m)) else m
  end.

(** [signalClose]: every attached endpoint stops. *)
Definition Mux_Close m : MuxTUN D :=
  if mux_closed m then m
  else mkMux (mux_device m) (mux_peers m)
         (imap (λ i o, if bool_decide (mux_peers m !! pt_peer o = Some (Some i)) then stop o else o)
            (mux_objects m))
         (mux_gateway m) true.

(** ** The filter of an endpoint *)

(** [FilterTUN.Read], one batch read from the endpoint: the packets that pass. *)
Fixpoint filter_batch (p : Policy) (s : Session) (now : Z) (batch : list bytes)
    : result (Policy * list bytes) :=
  match batch with
  | [] => Ok (p, [])
  | packet :: rest =>
      '(p, ok) ← Allowed p s packet true now;
      '(p, kept) ← filter_batch p s now rest;
      Ok (p, if (ok : bool) then packet :: kept else kept)
  end.

(** [FilterTUN.Write] on an endpoint: denied packets are consumed. *)
Fixpoint Filter_Write m (i : nat) (p : Policy) (s : Session) (now : Z) (bufs : list bytes) (offset : Z)
    : MuxTUN D * Policy * result unit :=
  match bufs with
  | [] => (m, p, Ok tt)
  | b :: rest =>
      if (0 <=? offset) && (offset <=? zlen b) then
        let packet := drop (Z.to_nat offset) b in
        match Allowed p s packet false now with
        | Ok (p, true) =>
            let '(m, res) := Peer_Write m i packet in
            match res with
            | Ok _ => Filter_Write m i p s now rest offset
            | Err e => (m, p, Err e)
            | Panic => (m, p, Panic)
            end
        | Ok (p, false) => Filter_Write m i p s now rest offset
        | Err e => (m, p, Err e)
        | Panic => (m, p, Panic)
        end
      else Filter_Write m i p s now rest offset
  end.
End mux.

(** ** The invariant *)

Section mux_facts.
Context {D : Type} `{TD : TunDevice D}.
Implicit Types m : MuxTUN D.

Definition addressed_to (a : Z) (packet : bytes) : Prop :=
  ∃ src, packetAddresses packet = Ok (Some (src, a)).
Definition sent_from (a : Z) (packet : bytes) : Prop :=
  ∃ dst, packetAddresses packet = Ok (Some (a, dst)).

(** The queue of an endpoint holds packets of its peer only. *)
Definition object_ok (o : peerTUN) : Prop :=
  Forall (addressed_to (pt_peer o)) (pt_queue o) ∧ zlen (pt_queue o) <= queueSize.

Record mux_inv m : Prop := {
  mx_objects : Forall object_ok (mux_objects m);
  mx_attached : ∀ a i, mux_peers m !! a = Some (Some i) →
    ∃ o, mux_objects m !! i = Some o ∧ pt_peer o = a;
  mx_size : Z.of_nat (size (mux_peers m)) <= MaxManagedSessions;
  mx_gateway : zlen (mux_gateway m) <= queueSize;
}.

Definition keeps_reserved m m' : Prop :=
  ∀ a, is_Some (mux_peers m !! a) → is_Some (mux_peers m' !! a).

Lemma stay m : mux_inv m → mux_inv m ∧ keeps_reserved m m.
Proof. by split; [|intros a]. Qed.

Lemma alter_insert {A} (f : A → A) (l : list A) i x :
  l !! i = Some x → alter f i l = <[i := f x]> l.
Proof.
  intros H. apply list_eq. intros j. destruct (decide (i = j)) as [<-|].
  - by rewrite list_lookup_alter_eq, list_lookup_insert_eq, H by (by apply lookup_lt_Some in H).
  - by rewrite list_lookup_alter_ne, list_lookup_insert_ne.
Qed.

Lemma enqueue_ok q packet : zlen q <= queueSize → zlen (enqueue q packet) <= queueSize.
Proof.
  intros. unfold enqueue. destruct (Z.ltb_spec (zlen q) queueSize); [|done].
  rewrite zlen_app. change (zlen [packet]) with 1. lia.
Qed.

Lemma packetAddresses_no_panic p : packetAddresses p ≠ Panic.
Proof.
  unfold packetAddresses. destruct (Z.ltb_spec (zlen p) 20); [done|].
  destruct (index_ok p 0) as (b & -> & _); [lia|]. cbn [mbind result_bind].
  destruct (negb _); [done|]. rewrite (slice_ok p 12 16) by lia. cbn [mbind result_bind].
  by rewrite (slice_ok p 16 20) by lia.
Qed.

(** Changes that keep the peers and the objects. *)
Lemma inv_gateway m q d : mux_inv m → zlen q <= queueSize →
  mux_inv (set_gateway (set_device m d) q).
Proof. intros [? ? ? ?] ?. by constructor. Qed.

Lemma inv_object m i o o' :
  mux_inv m → mux_objects m !! i = Some o → pt_peer o' = pt_peer o → object_ok o' →
  mux_inv (set_objects m (<[i := o']> (mux_objects m))).
Proof.
  intros [H1 H2 H3 H4] Ho Ep Hok. constructor; try done; cbn.
  - by apply Forall_insert.
  - intros a j Ha. destruct (H2 a j Ha) as (oj & Hj & <-). destruct (decide (i = j)) as [<-|Hne].
    + exists o'. rewrite list_lookup_insert_eq by (by apply lookup_lt_Some in Ho).
      rewrite Ho in Hj. injection Hj as <-. done.
    + exists oj. by rewrite list_lookup_insert_ne.
Qed.

Lemma Reserve_inv m peer : mux_inv m → mux_inv (Reserve m peer).1 ∧ keeps_reserved m (Reserve m peer).1.
Proof.
  intros I. unfold Reserve. destruct (mux_closed m); [by apply stay|]. destruct peer as [a|]; [|by apply stay].
  destruct (negb _); [by apply stay|]. destruct (mux_peers m !! a) as [x|] eqn:Ha; [by apply stay|].
  destruct (Z.leb_spec MaxManagedSessions (Z.of_nat (size (mux_peers m)))); [by apply stay|]. cbn.
  destruct I as [H1 H2 H3 H4]. split.
  - constructor; try done; cbn.
    + intros b i [[_ ?]|[_ Hb]]%lookup_insert_Some; [by apply stay|]. by apply H2.
    + rewrite map_size_insert_None by done. lia.
  - intros b Hb. cbn. rewrite lookup_insert_is_Some'. auto.
Qed.

Lemma Reserve_Ok m peer m' : Reserve m peer = (m', Ok tt) →
  ∃ a, peer = Some a ∧ is_Some (mux_peers m' !! a) ∧ addr_is_private a = true.
Proof.
  unfold Reserve. destruct (mux_closed m); [done|]. destruct peer as [a|]; [|done].
  destruct (addr_is_private a) eqn:P; cbn [negb]; [|done]. intros E. exists a.
  split_and!; [done| |done]. destruct (mux_peers m !! a) as [x|] eqn:Ha; [injection E as <-; eauto|].
  destruct (_ <=? _); [done|]. injection E as <-. cbn. rewrite lookup_insert_eq. eauto.
Qed.

Lemma Attach_inv m peer bound :
  mux_inv m → mux_inv (Attach m peer bound).1 ∧ keeps_reserved m (Attach m peer bound).1.
Proof.
  intros I. destruct (Reserve_inv m peer I) as [I1 K1]. unfold Attach.
  destruct (Reserve m peer) as [m1 res] eqn:R. cbn in I1, K1.
  destruct res as [[]|e|]; [|done..]. apply Reserve_Ok in R as (a & -> & Ha & _).
  destruct (mux_peers m1 !! a) as [[j|]|] eqn:Hp; [done| |by destruct Ha].
  destruct (negb _); [done|]. cbn. destruct I1 as [H1 H2 H3 H4]. split.
  - constructor; cbn; [| |by rewrite map_size_insert_Some by eauto|done].
    + apply Forall_app. split; [done|]. constructor; [|constructor]. by split; [constructor|].
    + intros b i [[<- [= <-]]|[_ Hb]]%lookup_insert_Some.
      * exists (mkPeerTUN a [] false). split; [|done].
        rewrite lookup_app_r, Nat.sub_diag by done. done.
      * destruct (H2 b i Hb) as (o & Ho & ?). exists o. split; [|done]. by apply lookup_app_l_Some.
  - intros b Hb%K1. cbn. rewrite lookup_insert_is_Some'. auto.
Qed.

Lemma dispatch_inv m packet m' :
  mux_inv m → dispatch_packet m packet = Ok m' → mux_inv m' ∧ keeps_reserved m m'.
Proof.
  intros I E. unfold dispatch_packet in E. apply bind_Ok in E as (addrs & A & E).
  destruct (match addrs with Some (_, dst) => mux_peers m !! dst | None => None end) as [[i|]|] eqn:P;
    injection E as <-; (split; [|by intros a]).
  - destruct addrs as [[src dst]|]; [|done]. destruct (mx_attached _ I dst i P) as (o & Ho & <-).
    rewrite (alter_insert _ _ _ o) by done. eapply inv_object; try done.
    destruct (proj1 (Forall_lookup _ _) (mx_objects _ I) i o Ho) as [Hq Hl].
    split; [|by apply enqueue_ok]. cbn. unfold enqueue.
    destruct (_ <? _); [|done]. apply Forall_app. split; [done|]. constructor; [|constructor].
    by exists src.
  - done.
  - apply (inv_gateway m _ (mux_device m)); [done|]. apply enqueue_ok, I.
Qed.

(** ** Reads, writes and closing *)

Lemma gateway_read_spec m room q m' r :
  gateway_read m room q = (m', r) →
  (∃ q', m' = set_gateway m q' ∧ zlen q' <= zlen q) ∧
  ∀ packet, r = Got packet → reserved m snd packet = Ok false.
Proof.
  revert m' r. induction q as [|p q IH]; intros m' r E; cbn in E.
  { injection E as <- <-. split; [by exists []|done]. }
  assert (∀ q' : list bytes, zlen q' <= zlen q → zlen q' <= zlen (p :: q)) as W
    by (intros; rewrite zlen_cons; lia).
  destruct (_ <? _); [injection E as <- <-; split; [exists q; split; [done|by apply W]|done]|].
  destruct (reserved m snd p) as [[]|e|] eqn:R.
  - apply IH in E as [(q' & -> & L) H]. split; [exists q'; split; [done|by apply W]|done].
  - injection E as <- <-. split; [exists q; split; [done|by apply W]|]. by intros packet [= <-].
  - injection E as <- <-. split; [exists q; split; [done|by apply W]|done].
  - injection E as <- <-. split; [exists q; split; [done|by apply W]|done].
Qed.

Lemma Mux_Read_inv m room :
  mux_inv m → mux_inv (Mux_Read m room).1 ∧ keeps_reserved m (Mux_Read m room).1.
Proof.
  intros I. unfold Mux_Read. destruct (mux_closed m); [by apply stay|].
  destruct (gateway_read m room (mux_gateway m)) as [m' r] eqn:E.
  apply gateway_read_spec in E as [(q' & -> & L) _]. cbn. split; [|by intros a].
  apply (inv_gateway m q' (mux_device m)); [done|]. pose proof (mx_gateway _ I). lia.
Qed.

(** The packets a writer handed to the adapter. *)
Definition wrote m m' (packets : list bytes) : Prop :=
  mux_device m' = fold_left (λ d packet, (dev_write d packet).1) packets (mux_device m).

Lemma Mux_Write_spec m bufs offset m' res :
  Mux_Write m bufs offset = (m', res) →
  (∃ d, m' = set_device m d) ∧
  ∃ packets, wrote m m' packets ∧ Forall (λ packet, reserved m fst packet = Ok false) packets.
Proof.
  assert (∀ n : MuxTUN D, set_device n (mux_device n) = n) as Hid by by intros [].
  revert m. induction bufs as [|b bufs IH]; intros m E; cbn in E.
  { injection E as <- <-. split; [exists (mux_device m); by rewrite Hid|by exists []]. }
  assert (∀ r0, (m, r0) = (m', res) →
    (∃ d, m' = set_device m d) ∧ ∃ packets, wrote m m' packets ∧
      Forall (λ packet, reserved m fst packet = Ok false) packets) as Same.
  { intros r0 [= <- <-]. split; [exists (mux_device m); by rewrite Hid|by exists []]. }
  destruct (_ || _); [by eapply Same|]. set (packet := drop _ b) in *.
  destruct (reserved m fst packet) as [[]|e|] eqn:R; [by apply IH| |by eapply Same..].
  destruct (dev_write (mux_device m) packet) as [d r] eqn:W.
  destruct r as [[]|e|].
  - apply IH in E as [[d' ->] (ps & Hw & Hf)]. split; [by exists d'|]. exists (packet :: ps).
    split; [|by constructor]. unfold wrote in *. cbn in *. by rewrite W.
  - injection E as <- <-. split; [by exists d|]. exists [packet]. split; [|by repeat constructor].
    unfold wrote. cbn. by rewrite W.
  - injection E as <- <-. split; [by exists d|]. exists [packet]. split; [|by repeat constructor].
    unfold wrote. cbn. by rewrite W.
Qed.

Lemma Peer_Read_inv m i room :
  mux_inv m → mux_inv (Peer_Read m i room).1 ∧ keeps_reserved m (Peer_Read m i room).1.
Proof.
  intros I. unfold Peer_Read. destruct (mux_objects m !! i) as [o|] eqn:Ho; [|by apply stay].
  destruct (pt_stopped o); [by apply stay|]. destruct (pt_queue o) as [|p q] eqn:Q; [by apply stay|].
  split; [|by intros a]. eapply inv_object; [done..|].
  destruct (proj1 (Forall_lookup _ _) (mx_objects _ I) i o Ho) as [Hq Hl]. rewrite Q in Hq, Hl.
  apply Forall_cons in Hq as [_ Hq]. rewrite zlen_cons in Hl. split; cbn; [done|lia].
Qed.

Lemma stop_ok o : object_ok o → object_ok (stop o).
Proof. done. Qed.

Lemma Peer_Close_inv m i : mux_inv m → mux_inv (Peer_Close m i) ∧ keeps_reserved m (Peer_Close m i).
Proof.
  intros I. unfold Peer_Close. destruct (mux_objects m !! i) as [o|] eqn:Ho; [|by apply stay].
  assert (mux_inv (set_objects m (<[i := stop o]> (mux_objects m)))) as I'.
  { eapply inv_object; [done..|]. apply stop_ok, (proj1 (Forall_lookup _ _) (mx_objects _ I) i o Ho). }
  case_bool_decide as Hp; [|split; [done|by intros a]]. destruct I' as [H1 H2 H3 H4]. split.
  - constructor; cbn in *; [done| |by rewrite map_size_insert_Some by eauto|done].
    intros a j [[_ ?]|[_ Ha]]%lookup_insert_Some; [done|]. by apply H2.
  - intros a Ha. cbn. rewrite lookup_insert_is_Some'. auto.
Qed.

Lemma Mux_Close_inv m : mux_inv m → mux_inv (Mux_Close m) ∧ keeps_reserved m (Mux_Close m).
Proof.
  intros I. unfold Mux_Close. destruct (mux_closed m); [by apply stay|]. split; [|by intros a].
  destruct I as [H1 H2 H3 H4]. constructor; try done; cbn.
  - apply Forall_lookup. intros i o'. rewrite list_lookup_imap. intros (o & Ho & ->)%fmap_Some.
    apply (proj1 (Forall_lookup _ _) H1) in Ho. case_bool_decide; [by apply stop_ok|done].
  - intros a i Ha. destruct (H2 a i Ha) as (o & Ho & <-). rewrite list_lookup_imap, Ho. cbn.
    eexists. split; [done|]. by case_bool_decide.
Qed.

(** ** Runs *)

Inductive mux_step : MuxTUN D → MuxTUN D → Prop :=
| step_reserve m peer : mux_step m (Reserve m peer).1
| step_attach m peer bound : mux_step m (Attach m peer bound).1
| step_dispatch m packet m' : dispatch_packet m packet = Ok m' → mux_step m m'
| step_read m room : mux_step m (Mux_Read m room).1
| step_write m bufs offset : mux_step m (Mux_Write m bufs offset).1
| step_peer_read m i room : mux_step m (Peer_Read m i room).1
| step_peer_write m i packet : mux_step m (Peer_Write m i packet).1
| step_peer_close m i : mux_step m (Peer_Close m i)
| step_close m : mux_step m (Mux_Close m).

Lemma set_device_inv m d : mux_inv m → mux_inv (set_device m d) ∧ keeps_reserved m (set_device m d).
Proof. intros [? ? ? ?]. by split; [|intros a]. Qed.

Lemma mux_step_inv m m' : mux_step m m' → mux_inv m → mux_inv m' ∧ keeps_reserved m m'.
Proof.
  intros S I. destruct S.
  - by apply Reserve_inv.
  - by apply Attach_inv.
  - by eapply dispatch_inv.
  - by apply Mux_Read_inv.
  - destruct (Mux_Write m bufs offset) as [m' res] eqn:E.
    apply Mux_Write_spec in E as [[d ->] _]. by apply set_device_inv.
  - by apply Peer_Read_inv.
  - unfold Peer_Write. destruct (mux_objects m !! i) as [o|]; [|by apply stay].
    destruct (pt_stopped o); [by apply stay|]. destruct (dev_write _ _). by apply set_device_inv.
  - by apply Peer_Close_inv.
  - by apply Mux_Close_inv.
Qed.

Lemma mux_run_inv m m' : rtc mux_step m m' → mux_inv m → mux_inv m' ∧ keeps_reserved m m'.
Proof.
  induction 1 as [m|m1 m2 m3 S R IH]; intros I; [by apply stay|].
  apply mux_step_inv in S as [I2 K2]; [|done]. destruct (IH I2) as [I3 K3].
  split; [done|]. intros a Ha. by apply K3, K2.
Qed.

Lemma new_mux_inv base : mux_inv (NewMuxTUN base).
Proof. by constructor; [constructor|..]. Qed.

Lemma reserved_side m f packet a x :
  reserved m f packet = Ok false → is_Some (mux_peers m !! a) →
  packetAddresses packet = Ok (Some x) → f x = a → False.
Proof.
  unfold reserved. intros R Ha P <-. rewrite P in R. cbn in R. injection R as R.
  by apply bool_decide_eq_false in R.
Qed.

(** What [FilterTUN.Write] hands to the adapter passed the policy of its session. *)
Lemma Filter_Write_spec m i p s now bufs offset m' p' res :
  Filter_Write m i p s now bufs offset = (m', p', res) →
  ∃ packets, wrote m m' packets ∧
    Forall (λ packet, active s now = true ∧
      packet_addresses packet = (Address (participant (session_grant s) (other (side p))),
                                 Address (participant (session_grant s) (side p)))) packets.
Proof.
  revert m p. induction bufs as [|b bufs IH]; intros m p E; cbn in E.
  { injection E as <- <- <-. by exists []. }
  destruct (_ && _); [|by apply IH]. set (packet := drop _ b) in *.
  assert (∀ p0 r0, (m, p0, r0) = (m', p', res) → wrote m m' []) as Same by by intros ? ? [= <- _ _].
  destruct (Allowed p s packet false now) as [[p1 []]|e|] eqn:A;
    [| |exists []; split; [by eapply Same|done]..].
  - apply Allowed_passed in A as (_ & Ha & Es & key & flags & Ins).
    apply inspect_Some in Ins as (_ & _ & _ & Hp & _). cbn in Hp.
    replace (other (other (side p))) with (side p) in Hp by by destruct (side p).
    unfold Peer_Write in E. destruct (mux_objects m !! i) as [o|];
      [|exists []; split; [by eapply Same|done]].
    destruct (pt_stopped o); [exists []; split; [by eapply Same|done]|].
    destruct (dev_write (mux_device m) packet) as [d r] eqn:W. destruct r as [[]|e|].
    + apply IH in E as (ps & Hw & Hf). exists (packet :: ps). rewrite Es in Hf.
      split; [|by constructor]. unfold wrote in *. cbn in *. by rewrite W.
    + injection E as <- _ _. exists [packet]. split; [unfold wrote; cbn; by rewrite W|by repeat constructor].
    + injection E as <- _ _. exists [packet]. split; [unfold wrote; cbn; by rewrite W|by repeat constructor].
  - assert (side p1 = side p) as Es.
    { unfold Allowed in A. destruct (_ || _); [by injection A as <-|].
      apply bind_Ok in A as ([[k fl]|] & _ & A); [|by injection A as <-].
      injection A as A. unfold pass_flow in A. destruct (if decide _ then _ else _); [|done].
      injection A as <-. unfold prune. by destruct (_ <? _). }
    apply IH in E. by rewrite Es in E.
Qed.

(** What [FilterTUN.Read] returns passed the policy in the other direction, and is a
    subsequence of what was read. *)
Lemma filter_batch_spec p s now batch p' kept :
  filter_batch p s now batch = Ok (p', kept) →
  sublist kept batch ∧
  Forall (λ packet, ∃ q q', Allowed q s packet true now = Ok (q', true)) kept.
Proof.
  revert p kept. induction batch as [|x batch IH]; intros p kept E; cbn in E.
  { injection E as <- <-. by split; [|constructor]. }
  apply bind_Ok in E as ([p1 ok] & A & E). apply bind_Ok in E as ([p2 ks] & F & E).
  injection E as <- <-. apply IH in F as [Hs Hf].
  destruct ok; split; [by constructor|constructor; eauto|by constructor|done].
Qed.

(** The gateway at a reserved peer. *)
Lemma gateway_isolated m a : is_Some (mux_peers m !! a) →
  (∀ room m2 packet, Mux_Read m room = (m2, Got packet) → ¬ addressed_to a packet) ∧
  (∀ bufs offset m2 res, Mux_Write m bufs offset = (m2, res) →
     ∃ packets, wrote m m2 packets ∧ Forall (λ packet, ¬ sent_from a packet) packets).
Proof.
  intros Ha. split.
  - intros room m2 packet E [src P]. unfold Mux_Read in E. destruct (mux_closed m); [done|].
    apply gateway_read_spec in E as [_ H].
    by apply (reserved_side m snd packet a (src, a)); [apply H| | |].
  - intros bufs offset m2 res [_ (ps & W & F)]%Mux_Write_spec. exists ps. split; [done|].
    eapply Forall_impl; [exact F|]. intros packet Hr [dst P].
    by apply (reserved_side m fst packet a (a, dst)).
Qed.

(** C11. A reserved peer never falls back to the gateway: once an address is
    reserved, in every later state of the mux, whatever the dispatcher, the
    sessions and the gateway do in whatever order, the gateway reads no packet
    addressed to it and can inject no packet that claims to come from it; an
    endpoint reads packets addressed to its own peer only, and what its filter
    writes comes from that peer while the session is active. *)
Theorem mux_isolation base m a m' :
  rtc mux_step (NewMuxTUN base) m → is_Some (mux_peers m !! a) → rtc mux_step m m' →
  (∀ room m2 packet, Mux_Read m' room = (m2, Got packet) → ¬ addressed_to a packet) ∧
  (∀ bufs offset m2 res, Mux_Write m' bufs offset = (m2, res) →
     ∃ packets, wrote m' m2 packets ∧ Forall (λ packet, ¬ sent_from a packet) packets) ∧
  (∀ i o room m2 packet, mux_objects m' !! i = Some o →
     Peer_Read m' i room = (m2, Got packet) → addressed_to (pt_peer o) packet) ∧
  (∀ i o p s now bufs offset m2 p2 res, mux_objects m' !! i = Some o →
     Address (participant (session_grant s) (other (side p))) = Some (pt_peer o) →
     Filter_Write m' i p s now bufs offset = (m2, p2, res) →
     ∃ packets, wrote m' m2 packets ∧
       Forall (λ packet, active s now = true ∧ (packet_addresses packet).1 = Some (pt_peer o)) packets).
Proof.
  intros R1 Ha R2. apply mux_run_inv in R1 as [I _]; [|apply new_mux_inv].
  apply mux_run_inv in R2 as [I' K]; [|done]. apply K in Ha. split_and!.
  - by apply gateway_isolated.
  - by apply gateway_isolated.
  - intros i o room m2 packet Ho E. unfold Peer_Read in E. rewrite Ho in E.
    destruct (pt_stopped o); [done|]. destruct (pt_queue o) as [|q qs] eqn:Q; [done|].
    injection E as _ E. destruct (_ <? _); [done|]. injection E as <-.
    destruct (proj1 (Forall_lookup _ _) (mx_objects _ I') i o Ho) as [Hq _]. rewrite Q in Hq.
    by apply Forall_cons in Hq as [? _].
  - intros i o p s now bufs offset m2 p2 res Ho Hb (ps & W & F)%Filter_Write_spec.
    exists ps. split; [done|]. eapply Forall_impl; [exact F|]. intros packet [Hac ->].
    by rewrite <- Hb.
Qed.
End mux_facts.
