(* ===== verification/P2pRelay.v ===== *)
(** * The P2P relay ([internal/p2p/relay.go])

    The relay joins the two Devices of a grant in a room and forwards WireGuard
    datagrams between them.  A goroutine per connection runs [handle]; here a
    handler is the point a connection's goroutine has reached with its local
    variables, and the statements between two synchronisation points of the code
    are one definition.  [time.Now] is the clock of the world, which only moves
    forward; rooms and connections are pointers in the code and numbers here. *)

From Stdlib Require Import Strings.Byte.
From S2P Require Import Prelude GoLib GoStrings GoEncoding Netip Crypto GoNet P2pGrant.

Definition maxDatagram : Z := 4096.

(** ** Frames *)

Section frames.
Context {W : Type} `{WR : Writer W}.

Definition writeFrame (w : W) (payload : bytes) : option (W * result unit) :=
  if (zlen payload =? 0) || (maxTicket * 2 <? zlen payload)
  then Some (w, Err "invalid P2P frame length")
  else write_loop (λ n, n =? 0) "short write" (length (tcp_frame payload)) w (tcp_frame payload).
End frames.

(** The frame at the head of what has arrived, and what follows it. *)
Definition readFrame (stream : bytes) (limit : Z) : result (bytes * bytes) :=
  '(header, stream) ← read_exact stream 4;
  let n := be_decode header in
  check ((n =? 0) || (limit <? n)) "invalid P2P frame length" ;;
  read_exact stream n.

(** [binary.LittleEndian.Uint32] of the first four bytes. *)
Definition wireGuardPacket (p : bytes) : bool :=
  if zlen p <? 4 then false
  else
    let kind := be_decode (rev (take 4 p)) in
    if kind =? 1 then zlen p =? 148
    else if kind =? 2 then zlen p =? 92
    else if kind =? 3 then zlen p =? 64
    else if kind =? 4 then (32 <=? zlen p) && (zlen p <=? maxDatagram) && (zlen p mod 16 =? 0)
    else false.

(** ** State *)

(** [Side] is a number on the wire. *)
Record relayAuth := mkAuth { Auth_Ticket : bytes; Auth_Side : Z; Auth_Proof : bytes }.

Definition side_of (n : Z) : option Side :=
  if n =? 0 then Some Initiator else if n =? 1 then Some Host else None.
Definition side_number (s : Side) : Z := match s with Initiator => 0 | Host => 1 end.

(** [decodeStrict] and [json.Marshal] of [relayAuth]. *)
Class RelayJson := {
  marshal_auth : relayAuth → bytes;
  decode_auth : bytes → option relayAuth;
  decode_marshal_auth : ∀ a, decode_auth (marshal_auth a) = Some a;
}.

(** An array indexed by a side. *)
Definition at_side {A} (p : A * A) (s : Side) : A :=
  match s with Initiator => p.1 | Host => p.2 end.
Definition set_side {A} (p : A * A) (s : Side) (a : A) : A * A :=
  match s with Initiator => (a, p.2) | Host => (p.1, a) end.

Lemma at_set_side {A} (p : A * A) s s' a :
  at_side (set_side p s a) s' = if decide (s = s') then a else at_side p s'.
Proof. by destruct s, s'. Qed.

(** A [relayPeer] is the number of its connection. *)
Record relaySession := mkRoom {
  room_session : Session;
  room_hash : bytes;
  room_peers : option nat * option nat;
  room_joined : bool * bool;
  room_revoked : bool;
}.

Definition room_id (r : relaySession) : string := Grant_SessionID (session_grant (room_session r)).

(** Connections; sessions are pointers into [w_rooms]. *)
Record Relay := mkRelay {
  relay_issuer : bytes;
  relay_cluster : string;
  relay_revision : Z;
  relay_sessions : gmap string nat;
  relay_denied : gmap string Z;
  relay_denyUntil : Z;
  relay_forwarded : Z;
}.

Definition NewRelay (issuer : bytes) (cluster : string) (minRevision : Z) : result Relay :=
  check (negb (zlen issuer =? 32) || String.eqb cluster "") "P2P relay trust required" ;;
  Ok (mkRelay issuer cluster minRevision ∅ ∅ zero_time 0).

Definition ForwardedBytes (r : Relay) : Z := relay_forwarded r.

(** Where a joined handler is: before the acknowledgement, which it writes holding
    the mutex of its own peer; at the read of its loop; before the write to the
    target it looked up; or returning. *)
Inductive stage := Acking | Reading | Sending (target : nat) (packet : bytes) | Leaving.

Inductive phase :=
| Challenged
| Joined (room : nat) (side : Side) (session : Session) (at_ : stage)
| Failed.

Record handler := mkHandler { h_challenge : bytes; h_binding : bytes; h_phase : phase }.

Definition relay_slots : Z := 128.
Definition maxRooms : Z := 64.
Definition maxTombstones : Z := 4096.
Definition ready : bytes := str_bytes "BPC-P2P-READY-v1".

Section relay.
Context `{ED : Ed25519} `{GJ : GrantJson} `{HS : Hashes} `{RJ : RelayJson}.
Context {W : Type} `{WR : Writer W}.

(** A connection: a write after [Close] fails. *)
Record conn := mkConn { conn_out : W; conn_closed : bool }.

Definition conn_write (k : conn) (p : bytes) : conn * Z * option net_error :=
  if conn_closed k then (k, 0, Some (mkNetError "use of closed network connection" true))
  else let '(out, n, e) := Write (conn_out k) p in (mkConn out false, n, e).

#[export] Program Instance conn_writer : Writer conn :=
  {| Write := conn_write; written := λ k, written (conn_out k) |}.
Next Obligation.
  intros k p. unfold conn_write. pose proof (zlen_nonneg p). pose proof (Write_bounds (conn_out k) p).
  destruct (conn_closed k); [cbn; lia|]. by destruct (Write (conn_out k) p) as [[? ?] ?].
Qed.
Next Obligation.
  intros k p. unfold conn_write. pose proof (Write_appends (conn_out k) p).
  destruct (conn_closed k); [cbn; by rewrite app_nil_r|].
  by destruct (Write (conn_out k) p) as [[? ?] ?].
Qed.

Record world := mkWorld {
  w_relay : Relay;
  w_rooms : list relaySession;
  w_conns : gmap nat conn;
  w_handlers : gmap nat handler;
  w_clock : Z;
}.
Implicit Types w : world.

Definition set_relay w r := mkWorld r (w_rooms w) (w_conns w) (w_handlers w) (w_clock w).
Definition set_rooms w rs := mkWorld (w_relay w) rs (w_conns w) (w_handlers w) (w_clock w).
Definition set_conns w cs := mkWorld (w_relay w) (w_rooms w) cs (w_handlers w) (w_clock w).
Definition set_handlers w hs := mkWorld (w_relay w) (w_rooms w) (w_conns w) hs (w_clock w).
Definition set_clock w t := mkWorld (w_relay w) (w_rooms w) (w_conns w) (w_handlers w) t.

Definition with_sessions (r : Relay) ss : Relay :=
  mkRelay (relay_issuer r) (relay_cluster r) (relay_revision r) ss (relay_denied r)
    (relay_denyUntil r) (relay_forwarded r).
Definition with_denied (r : Relay) d until : Relay :=
  mkRelay (relay_issuer r) (relay_cluster r) (relay_revision r) (relay_sessions r) d until
    (relay_forwarded r).
Definition with_forwarded (r : Relay) n : Relay :=
  mkRelay (relay_issuer r) (relay_cluster r) (relay_revision r) (relay_sessions r)
    (relay_denied r) (relay_denyUntil r) n.

(** The loops over [peers] that close every connection of a room. *)
Definition close_one (k : conn) : conn := mkConn (conn_out k) true.
Definition close_peers (cs : gmap nat conn) (r : relaySession) : gmap nat conn :=
  let close_peer cs p := match p with Some c => alter close_one c cs | None => cs end in
  close_peer (close_peer cs (room_peers r).1) (room_peers r).2.

(** ** Revocation and admission *)

Definition revoke_room (r : relaySession) : relaySession :=
  mkRoom (room_session r) (room_hash r) (room_peers r) (room_joined r) true.

Definition Revoke w (id : string) : world :=
  let now := w_clock w in
  let r := w_relay w in
  let denied := filter (λ '(_, until), now < until) (relay_denied r) in
  let r :=
    if Z.of_nat (size denied) <? maxTombstones
    then with_denied r (<[id := now + MaxLease]> denied) (relay_denyUntil r)
    else with_denied r denied (now + MaxLease) in
  let w := set_relay w r in
  match relay_sessions r !! id with
  | None => w
  | Some i =>
      match w_rooms w !! i with
      | None => w
      | Some room =>
          set_conns (set_rooms w (<[i := revoke_room room]> (w_rooms w)))
            (close_peers (w_conns w) room)
      end
  end.

(** The first loop of [attach]: the rooms whose session is over are dropped and
    their connections closed. *)
Definition room_live w (now : Z) (i : nat) : bool :=
  match w_rooms w !! i with Some room => active (room_session room) now | None => true end.

Definition close_room w (e : string * nat) (cs : gmap nat conn) : gmap nat conn :=
  let '(_, i) := e in match w_rooms w !! i with Some room => close_peers cs room | None => cs end.

Definition drop_inactive w : world :=
  let now := w_clock w in
  let r := w_relay w in
  let dead := filter (λ '(_, i), room_live w now i = false) (relay_sessions r) in
  let closed := foldr (close_room w) (w_conns w) (map_to_list dead) in
  set_conns
    (set_relay w
       (with_sessions r (filter (λ '(_, i), room_live w now i = true) (relay_sessions r)))) closed.

(** The last part of [attach], on the room of the session. *)
Definition join_room w (i : nat) (hash : bytes) (sd : Side) (peer : nat) : world * option nat :=
  match w_rooms w !! i with
  | None => (w, None)
  | Some room =>
      if negb (bool_decide (room_hash room = hash)) || room_revoked room
         || at_side (room_joined room) sd
      then (w, None)
      else
        (set_rooms w
           (<[i := mkRoom (room_session room) (room_hash room)
                     (set_side (room_peers room) sd (Some peer))
                     (set_side (room_joined room) sd true) (room_revoked room)]> (w_rooms w)),
         Some i)
  end.

Definition attach w (s : Session) (sd : Side) (peer : nat) : world * option nat :=
  let now := w_clock w in
  let id := Grant_SessionID (session_grant s) in
  if (now <? relay_denyUntil (w_relay w))
     || (now <? default zero_time (relay_denied (w_relay w) !! id))
  then (w, None)
  else
    let w := drop_inactive w in
    let r := w_relay w in
    let hash := sha256 (session_ticket s) in
    match relay_sessions r !! id with
    | Some i => join_room w i hash sd peer
    | None =>
        if maxRooms <=? Z.of_nat (size (relay_sessions r)) then (w, None)
        else
          let i := length (w_rooms w) in
          join_room
            (set_rooms (set_relay w (with_sessions r (<[id := i]> (relay_sessions r))))
               (w_rooms w ++ [mkRoom s hash (None, None) (false, false) false])) i hash sd peer
    end.

(** ** A connection *)

Definition set_phase w (c : nat) (h : handler) (p : phase) : world :=
  set_handlers w (<[c := mkHandler (h_challenge h) (h_binding h) p]> (w_handlers w)).

(** [writeFrame] to a connection: whether it succeeded. *)
Definition send_frame w (c : nat) (payload : bytes) : world * bool :=
  match w_conns w !! c ≫= λ k, writeFrame k payload with
  | Some (k, Ok _) => (set_conns w (<[c := k]> (w_conns w)), true)
  | Some (k, _) => (set_conns w (<[c := k]> (w_conns w)), false)
  | None => (w, false)
  end.

(** [Serve] on an accepted connection and the start of [handle]: the TLS exporter
    and the random challenge are what [tlsBinding] and [rand.Read] return, [None]
    when one of them fails. *)
Definition serve_accept w (c : nat) (out : W) (exported : option (bytes * bytes)) : world :=
  if relay_slots <=? Z.of_nat (size (w_handlers w))
  then set_conns w (<[c := mkConn out true]> (w_conns w))
  else
    let w := set_conns w (<[c := mkConn out false]> (w_conns w)) in
    match exported with
    | None => set_phase w c (mkHandler [] [] Failed) Failed
    | Some (binding, challenge) =>
        let '(w, sent) := send_frame w c challenge in
        let h := mkHandler challenge binding Challenged in
        set_phase w c h (if sent then Challenged else Failed)
    end.

(** [handle] from the authentication to [attach]: [t] is the time at which the
    ticket was verified, [stream] what has arrived. *)
Definition authenticate (r : Relay) (h : handler) (stream : bytes) (t : Z)
    : option (Session * Side) :=
  match readFrame stream (maxTicket * 2) with
  | Ok (raw, _) =>
      match decode_auth raw with
      | None => None
      | Some auth =>
          match side_of (Auth_Side auth) with
          | None => None
          | Some sd =>
              match VerifyGrant (Auth_Ticket auth) (relay_issuer r) (relay_cluster r)
                      (relay_revision r) t with
              | Ok s =>
                  let identity :=
                    default [] (base64_decode (IdentityKey (participant (session_grant s) sd))) in
                  if ed_verify identity
                       (proofMessage (h_challenge h) (Auth_Ticket auth) sd (h_binding h))
                       (Auth_Proof auth)
                  then Some (s, sd) else None
              | _ => None
              end
          end
      end
  | _ => None
  end.

Definition handle_auth w (c : nat) (h : handler) (stream : bytes) (t : Z) : world :=
  match authenticate (w_relay w) h stream t with
  | None => set_phase w c h Failed
  | Some (s, sd) =>
      let '(w, room) := attach w s sd c in
      match room with
      | None => set_phase w c h Failed
      | Some i => set_phase w c h (Joined i sd s Acking)
      end
  end.

(** The acknowledgement. *)
Definition handle_ready w (c : nat) (h : handler) (i : nat) (sd : Side) (s : Session) : world :=
  let '(w, sent) := send_frame w c ready in
  set_phase w c h (Joined i sd s (if sent then Reading else Leaving)).

(** The loop of [handle] up to the mutex of the target. *)
Definition handle_packet w (c : nat) (h : handler) (i : nat) (sd : Side) (s : Session)
    (stream : bytes) : world :=
  match readFrame stream maxDatagram with
  | Ok (packet, _) =>
      match w_rooms w !! i with
      | None => w
      | Some room =>
          if negb (negb (room_revoked room) && active (room_session room) (w_clock w))
          then set_phase w c h (Joined i sd s Leaving)
          else if negb (wireGuardPacket packet) then w
          else match at_side (room_peers room) (other sd) with
               | None => w
               | Some target => set_phase w c h (Joined i sd s (Sending target packet))
               end
      end
  | _ => set_phase w c h (Joined i sd s Leaving)
  end.

(** The write to the target and the end of the iteration. *)
Definition handle_send w (c : nat) (h : handler) (i : nat) (sd : Side) (s : Session)
    (target : nat) (packet : bytes) : world :=
  let '(w, sent) := send_frame w target packet in
  if sent then
    set_phase
      (set_relay w
         (with_forwarded (w_relay w) (atomic_add (relay_forwarded (w_relay w)) (zlen packet))))
      c h (Joined i sd s Reading)
  else set_phase w c h (Joined i sd s Leaving).

(** The deferred calls of [handle] and of the goroutine of [Serve]. *)
Definition serve_release w (c : nat) : world :=
  set_conns (set_handlers w (delete c (w_handlers w))) (alter close_one c (w_conns w)).

Definition handle_return w (c : nat) (h : handler) : world :=
  match h_phase h with
  | Joined _ _ s _ => serve_release (Revoke w (Grant_SessionID (session_grant s))) c
  | _ => serve_release w c
  end.

(** The mutex of a peer is taken by its own handler until the acknowledgement. *)
Definition peer_locked w (c : nat) : bool :=
  match w_handlers w !! c with
  | Some h => match h_phase h with Joined _ _ _ Acking => true | _ => false end
  | None => false
  end.

Inductive relay_step : world → world → Prop :=
| rs_tick w t : w_clock w <= t → relay_step w (set_clock w t)
| rs_accept w c out exported : w_conns w !! c = None → written out = [] →
    (∀ binding challenge, exported = Some (binding, challenge) → zlen challenge = 32) →
    relay_step w (serve_accept w c out exported)
| rs_auth w c h stream t : w_handlers w !! c = Some h → h_phase h = Challenged →
    t <= w_clock w → relay_step w (handle_auth w c h stream t)
| rs_ready w c h i sd s : w_handlers w !! c = Some h → h_phase h = Joined i sd s Acking →
    relay_step w (handle_ready w c h i sd s)
| rs_packet w c h i sd s stream : w_handlers w !! c = Some h →
    h_phase h = Joined i sd s Reading → relay_step w (handle_packet w c h i sd s stream)
| rs_send w c h i sd s target packet : w_handlers w !! c = Some h →
    h_phase h = Joined i sd s (Sending target packet) → peer_locked w target = false →
    relay_step w (handle_send w c h i sd s target packet)
| rs_return w c h : w_handlers w !! c = Some h →
    match h_phase h with Failed | Joined _ _ _ Leaving => True | _ => False end →
    relay_step w (handle_return w c h)
| rs_revoke w id : relay_step w (Revoke w id).

Definition relay_start (r : Relay) (t : Z) : world := mkWorld r [] ∅ ∅ t.

Definition relay_reach (w : world) : Prop :=
  ∃ issuer cluster revision r t, NewRelay issuer cluster revision = Ok r ∧
    rtc relay_step (relay_start r t) w.

(** ** Facts on frames and connections *)

Lemma writeFrame_spec (k : conn) p : 0 < zlen p <= maxTicket * 2 →
  ∃ k' r sent rest, writeFrame k p = Some (k', r) ∧ tcp_frame p = sent ++ rest ∧
    written k' = written k ++ sent ∧ conn_closed k' = conn_closed k ∧
    (r = Ok tt → rest = []).
Proof.
  intros Hp. unfold writeFrame. destruct (Z.eqb_spec (zlen p) 0) as [|_]; [lia|].
  destruct (Z.ltb_spec (maxTicket * 2) (zlen p)) as [|_]; [lia|]. cbn [orb].
  destruct (write_loop_spec (λ n, n =? 0) "short write" (length (tcp_frame p)) k (tcp_frame p))
    as (k' & r & E & _ & sent & rest & Ep & Ew & Er);
    [intros n Hn Hz; cbn in Hz; apply Z.eqb_neq in Hz; lia|done|].
  exists k', r, sent, rest. split_and!; try done.
  refine (write_loop_preserves _ _ (λ k', conn_closed k' = conn_closed k) _ _ _ _ _ _ _ E); [|done].
  intros k1 p1 <-. cbn. unfold conn_write. destruct (conn_closed k1) eqn:C; [done|].
  by destruct (Write (conn_out k1) p1) as [[? ?] ?].
Qed.

Lemma writeFrame_closed (k : conn) p : conn_closed k = true →
  ∃ e, writeFrame k p = Some (k, Err e).
Proof.
  intros C. unfold writeFrame. destruct (_ || _); [eauto|].
  assert (0 < zlen (tcp_frame p)) as Hf by (rewrite zlen_tcp_frame; pose proof (zlen_nonneg p); lia).
  destruct (tcp_frame p) as [|b f] eqn:Ef; [done|]. cbn [length write_loop Write conn_writer].
  unfold conn_write. rewrite C. eauto.
Qed.

Lemma wireGuardPacket_size p : wireGuardPacket p = true → 32 <= zlen p <= maxDatagram.
Proof.
  unfold wireGuardPacket, maxDatagram. destruct (_ <? 4); [done|].
  repeat destruct (be_decode _ =? _); intros; guards; lia.
Qed.

Lemma wireGuardPacket_frame p : wireGuardPacket p = true → 0 < zlen p <= maxTicket * 2.
Proof. intros ?%wireGuardPacket_size. unfold maxDatagram, maxTicket in *. lia. Qed.

Lemma ready_size : 0 < zlen ready <= maxTicket * 2.
Proof. vm_compute. split; [done|by intros]. Qed.

(** *** The connections of a world *)

Definition is_closed (cs : gmap nat conn) (c : nat) : Prop :=
  ∃ k, cs !! c = Some k ∧ conn_closed k = true.

Record conns_grow (cs cs' : gmap nat conn) : Prop := {
  cg_some : ∀ c, is_Some (cs !! c) → is_Some (cs' !! c);
  cg_closed : ∀ c, is_closed cs c → is_closed cs' c;
}.

#[export] Instance conns_grow_preorder : PreOrder conns_grow.
Proof. split; [by split|]. intros a b c [] []. split; eauto. Qed.

Lemma conns_grow_close cs c : conns_grow cs (alter close_one c cs).
Proof.
  split; intros d; destruct (decide (c = d)) as [->|].
  - intros [k E]. rewrite lookup_alter_eq, E. by eexists.
  - by rewrite lookup_alter_ne.
  - intros (k & E & C). exists (close_one k). by rewrite lookup_alter_eq, E.
  - intros (k & E & C). exists k. by rewrite lookup_alter_ne.
Qed.

Lemma conns_grow_fresh cs c k : cs !! c = None → conns_grow cs (<[c := k]> cs).
Proof.
  intros Ec. split; intros d; destruct (decide (c = d)) as [<-|].
  - by rewrite Ec; intros [].
  - by rewrite lookup_insert_ne.
  - intros (k' & E & _). congruence.
  - intros (k' & E & C). exists k'. by rewrite lookup_insert_ne.
Qed.

Lemma close_one_closed cs c : is_Some (cs !! c) → is_closed (alter close_one c cs) c.
Proof. intros [k E]. exists (close_one k). by rewrite lookup_alter_eq, E. Qed.

Lemma conns_grow_close_peers cs r : conns_grow cs (close_peers cs r).
Proof.
  unfold close_peers. destruct (room_peers r) as [[a|] [b|]]; cbn [fst snd].
  - etrans; apply conns_grow_close.
  - apply conns_grow_close.
  - apply conns_grow_close.
  - done.
Qed.

Lemma close_peers_closed cs r sd c :
  at_side (room_peers r) sd = Some c → is_Some (cs !! c) → is_closed (close_peers cs r) c.
Proof.
  unfold close_peers. destruct (room_peers r) as [p q]. destruct sd; cbn [at_side fst snd]; intros -> I.
  - pose proof (close_one_closed cs c I). destruct q; [|done]. by apply conns_grow_close.
  - apply close_one_closed. destruct p; [|done]. by apply conns_grow_close.
Qed.

(** A frame sent: other connections are not touched, and a success says that the
    connection is open and carries the whole frame. *)
Lemma send_frame_spec w c p w' b : send_frame w c p = (w', b) → 0 < zlen p <= maxTicket * 2 →
  w_relay w' = w_relay w ∧ w_rooms w' = w_rooms w ∧ w_handlers w' = w_handlers w ∧
  w_clock w' = w_clock w ∧ conns_grow (w_conns w) (w_conns w') ∧
  (∀ d, d ≠ c → w_conns w' !! d = w_conns w !! d) ∧
  (∀ k, w_conns w !! c = Some k → ∃ k' sent rest, w_conns w' !! c = Some k' ∧
     conn_closed k' = conn_closed k ∧ tcp_frame p = sent ++ rest ∧
     written k' = written k ++ sent ∧ (b = true → rest = [] ∧ conn_closed k = false)) ∧
  (b = true → is_Some (w_conns w !! c)).
Proof.
  unfold send_frame. intros E Hp. destruct (w_conns w !! c) as [k|] eqn:Ek; cbn [mbind option_bind] in E.
  2: { injection E as <- <-. split_and!; done. }
  destruct (writeFrame_spec k p Hp) as (k' & r & sent & rest & Ew & Ef & Ewr & Ec & Er).
  rewrite Ew in E.
  assert (w' = set_conns w (<[c := k']> (w_conns w)) ∧ (b = true → r = Ok tt)) as [-> Hb].
  { destruct r as [[]| |]; injection E as <- <-; done. }
  cbn [set_conns w_relay w_rooms w_handlers w_clock w_conns]. split_and!; try done.
  - split; intros d; destruct (decide (c = d)) as [<-|].
    + by rewrite lookup_insert_eq.
    + by rewrite lookup_insert_ne.
    + intros (k0 & E0 & C0). exists k'. rewrite lookup_insert_eq. naive_solver.
    + intros (k0 & E0 & C0). exists k0. by rewrite lookup_insert_ne.
  - intros d Hd. by rewrite lookup_insert_ne.
  - intros k0 [= <-]. exists k', sent, rest. rewrite lookup_insert_eq. split_and!; try done.
    intros Eb. split; [by auto|]. destruct (conn_closed k) eqn:C; [|done].
    destruct (writeFrame_closed k p C) as [e E']. rewrite E' in Ew. specialize (Hb Eb). congruence.
Qed.

(** ** The invariant *)

(** What a handler has checked of the Device behind its connection. *)
Definition authenticated (r : Relay) (h : handler) (sd : Side) (s : Session) : Prop :=
  ∃ t proof, VerifyGrant (session_ticket s) (relay_issuer r) (relay_cluster r) (relay_revision r) t
      = Ok s ∧
    ed_verify (default [] (base64_decode (IdentityKey (participant (session_grant s) sd))))
      (proofMessage (h_challenge h) (session_ticket s) sd (h_binding h)) proof = true.

Definition joined_at w (c i : nat) (sd : Side) : Prop :=
  ∃ h s st, w_handlers w !! c = Some h ∧ h_phase h = Joined i sd s st.

Definition handler_ok w (c : nat) (h : handler) : Prop :=
  match h_phase h with
  | Joined i sd s st =>
      authenticated (w_relay w) h sd s ∧
      ∃ room, w_rooms w !! i = Some room ∧ at_side (room_peers room) sd = Some c ∧
        room_id room = Grant_SessionID (session_grant s) ∧
        room_hash room = sha256 (session_ticket s) ∧
        match st with
        | Sending target packet =>
            at_side (room_peers room) (other sd) = Some target ∧ wireGuardPacket packet = true
        | _ => True
        end
  | _ => True
  end.

(** A room is registered and not revoked, or it is over and both its connections are
    closed. *)
Definition room_registered w (i : nat) (room : relaySession) : Prop :=
  relay_sessions (w_relay w) !! room_id room = Some i ∧ room_revoked room = false.
Definition room_over w (room : relaySession) : Prop :=
  (room_revoked room = true ∨ active (room_session room) (w_clock w) = false) ∧
  ∀ sd c, at_side (room_peers room) sd = Some c → is_closed (w_conns w) c.

Record room_ok w (i : nat) (room : relaySession) : Prop := {
  ro_managed : session_managed (room_session room) = false;
  ro_grant : ∃ t, t <= w_clock w ∧ grant_wf (session_grant (room_session room)) t;
  ro_joined : ∀ sd, at_side (room_joined room) sd = false → at_side (room_peers room) sd = None;
  ro_peers : ∀ sd c, at_side (room_peers room) sd = Some c →
    is_Some (w_conns w !! c) ∧ (is_closed (w_conns w) c ∨ joined_at w c i sd);
  ro_state : room_registered w i room ∨ room_over w room;
}.

Record relay_inv w : Prop := {
  ri_conns : ∀ c, is_Some (w_handlers w !! c) → is_Some (w_conns w !! c);
  ri_handlers : ∀ c h, w_handlers w !! c = Some h → handler_ok w c h;
  ri_rooms : ∀ i room, w_rooms w !! i = Some room → room_ok w i room;
  ri_sessions : ∀ id i, relay_sessions (w_relay w) !! id = Some i →
    ∃ room, w_rooms w !! i = Some room ∧ room_id room = id;
  ri_slots : Z.of_nat (size (w_handlers w)) <= relay_slots;
  ri_size : Z.of_nat (size (relay_sessions (w_relay w))) <= maxRooms;
  ri_denied : Z.of_nat (size (relay_denied (w_relay w))) <= maxTombstones;
}.

(** A session that is not managed is over for good once it is over. *)
Lemma active_over s t t' : session_managed s = false → (∃ t0, t0 <= t ∧ grant_wf (session_grant s) t0) →
  t <= t' → active s t = false → active s t' = false.
Proof.
  intros M (t0 & H0 & G) H A. pose proof (gw_issued _ _ G) as [_ Hi].
  apply not_true_is_false. intros A'. apply not_true_iff_false in A. apply A. revert A'.
  unfold active. rewrite M. intros A'. guards. destruct A' as [[_ A1] A2].
  assert (time_unix t0 <= time_unix t ∧ time_unix t <= time_unix t') as [? ?].
  { unfold time_unix. split; apply Z.div_le_mono; done. }
  split_and!; [done|lia..].
Qed.

(** *** What a step may change *)

Definition rooms_grow (rs rs' : list relaySession) : Prop :=
  ∀ i room, rs !! i = Some room → ∃ room', rs' !! i = Some room' ∧
    room_session room' = room_session room ∧ room_hash room' = room_hash room ∧
    ∀ sd c, at_side (room_peers room) sd = Some c → at_side (room_peers room') sd = Some c.

Definition same_trust (r r' : Relay) : Prop :=
  relay_issuer r' = relay_issuer r ∧ relay_cluster r' = relay_cluster r ∧
  relay_revision r' = relay_revision r.

Definition handlers_keep w w' : Prop :=
  ∀ c i sd, joined_at w c i sd → joined_at w' c i sd ∨ is_closed (w_conns w') c.

Lemma rooms_grow_refl rs : rooms_grow rs rs.
Proof. intros i room E. by exists room. Qed.

Lemma handlers_keep_same w w' : w_handlers w' = w_handlers w → handlers_keep w w'.
Proof. intros E c i sd H. left. unfold joined_at. by rewrite E. Qed.

Lemma handler_ok_mono w w' c h : same_trust (w_relay w) (w_relay w') →
  rooms_grow (w_rooms w) (w_rooms w') → handler_ok w c h → handler_ok w' c h.
Proof.
  intros (T1 & T2 & T3) G. unfold handler_ok. destruct (h_phase h) as [|i sd s st|]; [done| |done].
  intros (A & room & E & P & I & Hh & S). split; [unfold authenticated; by rewrite T1, T2, T3|].
  destruct (G _ _ E) as (room' & E' & Es & Eh & Pg). exists room'. split; [done|].
  split; [by apply Pg|]. unfold room_id. rewrite Es, Eh. split_and!; [done..|].
  destruct st; try done. destruct S. split; [by apply Pg|done].
Qed.

Lemma room_ok_mono w w' i room : w_clock w <= w_clock w' →
  relay_sessions (w_relay w') !! room_id room = relay_sessions (w_relay w) !! room_id room →
  conns_grow (w_conns w) (w_conns w') → handlers_keep w w' → room_ok w i room → room_ok w' i room.
Proof.
  intros T S G K [M (t & Ht & Hg) J P R]. split; try done.
  - exists t. split; [lia|done].
  - intros sd c E. destruct (P sd c E) as [I [C|H]]; (split; [by apply G|]).
    + left. by apply G.
    + destruct (K _ _ _ H); [by right|by left].
  - destruct R as [[R1 R2]|[R1 R2]]; [left|right].
    + split; [by rewrite S|done].
    + split; [|intros sd c E; apply G; eauto]. destruct R1 as [?|A]; [by left|right].
      apply (active_over _ (w_clock w)); try done. eauto.
Qed.

(** A step that leaves the rooms and the registered sessions alone. *)
Lemma relay_inv_frame w w' : relay_inv w →
  same_trust (w_relay w) (w_relay w') → w_rooms w' = w_rooms w →
  relay_sessions (w_relay w') = relay_sessions (w_relay w) →
  relay_denied (w_relay w') = relay_denied (w_relay w) → w_clock w <= w_clock w' →
  conns_grow (w_conns w) (w_conns w') → handlers_keep w w' →
  (∀ c h, w_handlers w' !! c = Some h →
     w_handlers w !! c = Some h ∨ is_Some (w_conns w' !! c) ∧ handler_ok w c h) →
  Z.of_nat (size (w_handlers w')) <= relay_slots → relay_inv w'.
Proof.
  intros [I1 I2 I3 I4 I5 I6 I7] T ER ES ED' C G K H N.
  assert (rooms_grow (w_rooms w) (w_rooms w')) as RG by (rewrite ER; apply rooms_grow_refl).
  split; rewrite ?ER, ?ES, ?ED'; try done.
  - intros c [h E]. destruct (H _ _ E) as [E'|[? _]]; [|done]. apply G, I1. by exists h.
  - intros c h E. apply (handler_ok_mono w); [done..|]. destruct (H _ _ E) as [E'|[_ ?]]; [|done].
    by apply I2.
  - intros i room E. apply (room_ok_mono w); [done|by rewrite ES|done..|by apply I3].
Qed.

(** A step that leaves the handlers alone. *)
Lemma relay_inv_rooms w w' : relay_inv w →
  same_trust (w_relay w) (w_relay w') → rooms_grow (w_rooms w) (w_rooms w') →
  w_handlers w' = w_handlers w → conns_grow (w_conns w) (w_conns w') →
  (∀ i room, w_rooms w' !! i = Some room → room_ok w' i room) →
  (∀ id i, relay_sessions (w_relay w') !! id = Some i →
     ∃ room, w_rooms w' !! i = Some room ∧ room_id room = id) →
  Z.of_nat (size (relay_sessions (w_relay w'))) <= maxRooms →
  Z.of_nat (size (relay_denied (w_relay w'))) <= maxTombstones → relay_inv w'.
Proof.
  intros [I1 I2 I3 I4 I5 I6 I7] T RG EH G R S N1 N2. split; rewrite ?EH; try done.
  - intros c H. by apply G, I1.
  - intros c h E. apply (handler_ok_mono w); [done..|]. by apply I2.
Qed.

Lemma set_phase_inv w c h p : relay_inv w → is_Some (w_handlers w !! c) →
  handler_ok w c (mkHandler (h_challenge h) (h_binding h) p) →
  (∀ i sd, joined_at w c i sd → ∃ s st, p = Joined i sd s st) → relay_inv (set_phase w c h p).
Proof.
  intros I [h0 E0] H J. apply (relay_inv_frame w); try done; cbn [set_phase set_handlers w_handlers w_conns].
  - intros d i sd Hd. left. destruct (decide (c = d)) as [<-|].
    + destruct (J _ _ Hd) as (s & st & ->). eexists _, s, st. cbn. by rewrite lookup_insert_eq.
    + destruct Hd as (h1 & s & st & E1 & E2). exists h1, s, st. cbn. by rewrite lookup_insert_ne.
  - intros d h1. destruct (decide (c = d)) as [<-|].
    + rewrite lookup_insert_eq. intros [= <-]. right. split; [|done]. apply (ri_conns _ I). eauto.
    + rewrite lookup_insert_ne by done. by left.
  - rewrite map_size_insert, E0. apply (ri_slots _ I).
Qed.

Lemma send_frame_inv w c p w' b : relay_inv w → 0 < zlen p <= maxTicket * 2 →
  send_frame w c p = (w', b) → relay_inv w'.
Proof.
  intros I Hp E. destruct (send_frame_spec _ _ _ _ _ E Hp) as (E1 & E2 & E3 & E4 & G & _).
  apply (relay_inv_frame w); rewrite ?E1, ?E2, ?E3, ?E4; try done.
  - by apply handlers_keep_same.
  - intros d h Hd. by left.
  - apply (ri_slots _ I).
Qed.

Lemma Revoke_conns_grow w id : conns_grow (w_conns w) (w_conns (Revoke w id)).
Proof.
  unfold Revoke. destruct (relay_sessions _ !! id) as [i|]; [|done].
  destruct (w_rooms _ !! i); [|done]. apply conns_grow_close_peers.
Qed.

(** What [Revoke] does, without its case distinctions. *)
Lemma Revoke_spec w id : relay_inv w → ∃ d until,
  w_relay (Revoke w id) = with_denied (w_relay w) d until ∧
  w_handlers (Revoke w id) = w_handlers w ∧ w_clock (Revoke w id) = w_clock w ∧
  Z.of_nat (size d) <= maxTombstones ∧
  (w_clock w + MaxLease = until ∨
   until = relay_denyUntil (w_relay w) ∧ d !! id = Some (w_clock w + MaxLease)) ∧
  (∀ id' t, relay_denied (w_relay w) !! id' = Some t → w_clock w < t →
     d !! id' = Some t ∨ id' = id ∧ d !! id = Some (w_clock w + MaxLease)) ∧
  (∀ i room', w_rooms (Revoke w id) !! i = Some room' → ∃ room, w_rooms w !! i = Some room ∧
     (room' = room ∧ (relay_sessions (w_relay w) !! id ≠ Some i) ∨
      relay_sessions (w_relay w) !! id = Some i ∧ room' = revoke_room room ∧
      ∀ sd c, at_side (room_peers room) sd = Some c → is_closed (w_conns (Revoke w id)) c)) ∧
  rooms_grow (w_rooms w) (w_rooms (Revoke w id)).
Proof.
  intros I. pose proof (ri_denied _ I) as Hd. pose proof (ri_sessions _ I id) as Hs.
  unfold Revoke. set (kept := filter _ _).
  assert (Z.of_nat (size kept) <= maxTombstones) as Hk.
  { assert (kept ⊆ relay_denied (w_relay w)) as Hsub by apply map_filter_subseteq.
    apply map_subseteq_size in Hsub. lia. }
  assert (∀ id' t, relay_denied (w_relay w) !! id' = Some t → w_clock w < t → kept !! id' = Some t)
    as Hkeep.
  { intros id' t E L. by apply map_lookup_filter_Some. }
  set (r := if _ <? _ then _ else _).
  assert (∃ d until, r = with_denied (w_relay w) d until ∧ Z.of_nat (size d) <= maxTombstones ∧
    (w_clock w + MaxLease = until ∨
     until = relay_denyUntil (w_relay w) ∧ d !! id = Some (w_clock w + MaxLease)) ∧
    (∀ id' t, relay_denied (w_relay w) !! id' = Some t → w_clock w < t →
       d !! id' = Some t ∨ id' = id ∧ d !! id = Some (w_clock w + MaxLease)))
    as (d & until & -> & D1 & D2 & D3).
  { unfold r. destruct (Z.ltb_spec (Z.of_nat (size kept)) maxTombstones).
    - eexists _, _. split; [done|]. split_and!.
      + rewrite map_size_insert. destruct (kept !! id); cbn; lia.
      + right. by rewrite lookup_insert_eq.
      + intros id' t E L. destruct (decide (id = id')) as [<-|].
        * right. by rewrite lookup_insert_eq.
        * left. rewrite lookup_insert_ne by done. by apply Hkeep.
    - eexists _, _. split; [done|]. split_and!; [done|by left|]. intros. left. by apply Hkeep. }
  exists d, until. cbn [relay_sessions with_denied].
  destruct (relay_sessions (w_relay w) !! id) as [i|] eqn:Ei.
  2: { split_and!; try done; [|apply rooms_grow_refl]. intros j room' E. exists room'. naive_solver. }
  destruct (Hs i eq_refl) as (room & Er & Eid).
  cbn [set_relay w_rooms set_conns set_rooms w_relay w_handlers w_clock w_conns]. rewrite Er.
  cbn [set_relay w_rooms set_conns set_rooms w_relay w_handlers w_clock w_conns].
  split_and!; try done.
  - intros j room'. destruct (decide (i = j)) as [<-|].
    + rewrite list_lookup_insert_eq by (by apply lookup_lt_Some in Er). intros [= <-].
      exists room. split; [done|]. right. split_and!; [done..|]. intros sd c P.
      apply (close_peers_closed _ _ sd); [done|]. by apply (ro_peers _ _ _ (ri_rooms _ I _ _ Er) sd).
    + rewrite list_lookup_insert_ne by done. intros E. exists room'. split; [done|]. left.
      split; [done|]. congruence.
  - intros j room0 E. destruct (decide (i = j)) as [<-|].
    + rewrite list_lookup_insert_eq by (by apply lookup_lt_Some in Er). eexists.
      split; [done|]. simplify_eq. done.
    + rewrite list_lookup_insert_ne by done. by exists room0.
Qed.

Lemma Revoke_inv w id : relay_inv w → relay_inv (Revoke w id).
Proof.
  intros I. pose proof (Revoke_conns_grow w id) as G.
  destruct (Revoke_spec w id I) as (d & until & E1 & E2 & E3 & D1 & _ & _ & R & RG).
  assert (∀ i room, w_rooms w !! i = Some room → room_ok (Revoke w id) i room) as Ok_.
  { intros i room Er. apply (room_ok_mono w); rewrite ?E1, ?E3; try done.
    - by apply handlers_keep_same.
    - by apply (ri_rooms _ I). }
  apply (relay_inv_rooms w); rewrite ?E1; try done.
  - intros i room' E'. destruct (R _ _ E') as (room & Er & [[-> _]|(Ei & -> & Cl)]); [by apply Ok_|].
    destruct (Ok_ _ _ Er) as [M Hg J P _]. split; try done. right. split; [by left|done].
  - intros id' i E'. destruct (ri_sessions _ I _ _ E') as (room & Er & <-).
    destruct (RG _ _ Er) as (room' & Er' & Es & _). exists room'. split; [done|].
    unfold room_id. by rewrite Es.
  - apply (ri_size _ I).
Qed.

Lemma close_room_grow w e cs : conns_grow cs (close_room w e cs).
Proof.
  destruct e as [id i]. unfold close_room. destruct (w_rooms w !! i); [|done].
  apply conns_grow_close_peers.
Qed.

Lemma close_rooms_grow w l cs : conns_grow cs (foldr (close_room w) cs l).
Proof. induction l as [|e l IH]; cbn; [done|]. etrans; [exact IH|apply close_room_grow]. Qed.

Lemma close_rooms_closed w l cs id i room sd c : (id, i) ∈ l → w_rooms w !! i = Some room →
  at_side (room_peers room) sd = Some c → is_Some (cs !! c) →
  is_closed (foldr (close_room w) cs l) c.
Proof.
  intros H Er P I. induction l as [|e l IH]; [by apply not_elem_of_nil in H|].
  apply elem_of_cons in H as [<-|H]; cbn [foldr].
  - unfold close_room at 1. rewrite Er. apply (close_peers_closed _ _ sd); [done|].
    by apply close_rooms_grow.
  - apply close_room_grow. by apply IH.
Qed.

(** The registered rooms that are over are dropped, with their connections closed. *)
Lemma drop_inactive_spec w : relay_inv w →
  conns_grow (w_conns w) (w_conns (drop_inactive w)) ∧
  (∀ id i, relay_sessions (w_relay (drop_inactive w)) !! id = Some i ↔
     relay_sessions (w_relay w) !! id = Some i ∧ room_live w (w_clock w) i = true) ∧
  (∀ id i room sd c, relay_sessions (w_relay w) !! id = Some i → w_rooms w !! i = Some room →
     active (room_session room) (w_clock w) = false → at_side (room_peers room) sd = Some c →
     is_closed (w_conns (drop_inactive w)) c).
Proof.
  intros I. unfold drop_inactive. cbn [set_conns set_relay w_conns w_relay relay_sessions with_sessions].
  split_and!.
  - apply (close_rooms_grow w).
  - intros id i. by rewrite map_lookup_filter_Some.
  - intros id i room sd c Ei Er A P. apply (close_rooms_closed w _ _ id i room sd); try done.
    + apply elem_of_map_to_list, map_lookup_filter_Some. split; [done|]. unfold room_live.
      by rewrite Er.
    + by apply (ro_peers _ _ _ (ri_rooms _ I _ _ Er) sd).
Qed.

Lemma drop_inactive_inv w : relay_inv w → relay_inv (drop_inactive w).
Proof.
  intros I. destruct (drop_inactive_spec w I) as (G & S & C).
  apply (relay_inv_rooms w); try done.
  - apply rooms_grow_refl.
  - intros i room E. destruct (ri_rooms _ I _ _ E) as [M Hg J P R]. split; try done.
    + intros sd c Hp. destruct (P _ _ Hp) as [? [?|?]]; (split; [by apply G|]).
      * left. by apply G.
      * by right.
    + destruct R as [[R1 R2]|[R1 R2]].
      * destruct (active (room_session room) (w_clock w)) eqn:A; [left|right].
        -- split; [|done]. apply S. split; [done|]. unfold room_live.
           change (w_rooms (drop_inactive w)) with (w_rooms w) in E. by rewrite E.
        -- split; [by right|]. intros sd c Hp. by eapply C.
      * right. split; [done|]. intros sd c Hp. apply G. eauto.
  - intros id i [E _]%S. by apply (ri_sessions _ I).
  - pose proof (ri_size _ I).
    assert (relay_sessions (w_relay (drop_inactive w)) ⊆ relay_sessions (w_relay w)) as Hsub
      by apply map_filter_subseteq.
    apply map_subseteq_size in Hsub. lia.
  - apply (ri_denied _ I).
Qed.

(** The room made for a session that has none. *)
Definition add_room w (s : Session) : world :=
  set_rooms
    (set_relay w (with_sessions (w_relay w)
       (<[Grant_SessionID (session_grant s) := length (w_rooms w)]> (relay_sessions (w_relay w)))))
    (w_rooms w ++ [mkRoom s (sha256 (session_ticket s)) (None, None) (false, false) false]).

Lemma add_room_inv w s : relay_inv w →
  relay_sessions (w_relay w) !! Grant_SessionID (session_grant s) = None →
  Z.of_nat (size (relay_sessions (w_relay w))) < maxRooms → session_managed s = false →
  (∃ t, t <= w_clock w ∧ grant_wf (session_grant s) t) → relay_inv (add_room w s).
Proof.
  intros I N L M Hg. pose proof (ri_size _ I). apply (relay_inv_rooms w); try done;
    cbn [add_room set_rooms set_relay w_rooms w_relay relay_sessions relay_denied with_sessions].
  - intros i room E. exists room. split; [by apply lookup_app_l_Some|done].
  - intros i room [E|[Li E]]%lookup_app_Some.
    + destruct (ri_rooms _ I _ _ E) as [M' Hg' J P R]. split; try done.
      destruct R as [[R1 R2]|R]; [left|by right]. split; [|done].
      cbn [add_room set_rooms set_relay w_rooms w_relay relay_sessions with_sessions].
      rewrite lookup_insert_ne; [done|]. congruence.
    + apply list_lookup_singleton_Some in E as [E <-].
      assert (i = length (w_rooms w)) as -> by lia.
      split; [done..|by intros []|by intros [] ?|left]. split; [|done]. cbn. by rewrite lookup_insert_eq.
  - intros id i. destruct (decide (Grant_SessionID (session_grant s) = id)) as [<-|].
    + rewrite lookup_insert_eq. intros [= <-]. eexists. by rewrite lookup_app_r, Nat.sub_diag by lia.
    + rewrite lookup_insert_ne by done. intros E. destruct (ri_sessions _ I _ _ E) as (room & Er & Eid).
      exists room. split; [by apply lookup_app_l_Some|done].
  - rewrite map_size_insert, N. cbn. lia.
  - apply (ri_denied _ I).
Qed.

Definition join_peer (room : relaySession) (sd : Side) (c : nat) : relaySession :=
  mkRoom (room_session room) (room_hash room) (set_side (room_peers room) sd (Some c))
    (set_side (room_joined room) sd true) (room_revoked room).

Lemma join_room_Some w i hash sd c w' i' : join_room w i hash sd c = (w', Some i') →
  i' = i ∧ ∃ room, w_rooms w !! i = Some room ∧ room_hash room = hash ∧
    room_revoked room = false ∧ at_side (room_joined room) sd = false ∧
    w' = set_rooms w (<[i := join_peer room sd c]> (w_rooms w)).
Proof.
  unfold join_room. destruct (w_rooms w !! i) as [room|]; [|done].
  destruct (_ || _) eqn:E; [done|]. intros [= <- <-]. guards. destruct E as [[E1 E2] E3].
  split; [done|]. by exists room.
Qed.

Lemma join_room_None w i hash sd c w' : join_room w i hash sd c = (w', None) → w' = w.
Proof. unfold join_room. destruct (w_rooms w !! i); [destruct (_ || _)|]; by intros [=]. Qed.

Lemma join_inv w c h i sd s w' : relay_inv w → w_handlers w !! c = Some h →
  h_phase h = Challenged → authenticated (w_relay w) h sd s →
  relay_sessions (w_relay w) !! Grant_SessionID (session_grant s) = Some i →
  join_room w i (sha256 (session_ticket s)) sd c = (w', Some i) →
  relay_inv (set_phase w' c h (Joined i sd s Acking)).
Proof.
  intros I Eh Ph A Es (_ & room & Er & Hh & Rv & Jn & ->)%join_room_Some.
  pose proof (lookup_lt_Some _ _ _ Er) as Li. pose proof (ri_rooms _ I _ _ Er) as Ro.
  destruct (ri_sessions _ I _ _ Es) as (room0 & Er0 & Eid). simplify_eq.
  assert (rooms_grow (w_rooms w) (<[i := join_peer room sd c]> (w_rooms w))) as RG.
  { intros j room0 Ej. destruct (decide (i = j)) as [<-|].
    - rewrite list_lookup_insert_eq by done. eexists. split; [done|]. simplify_eq. split_and!; [done..|].
      intros sd' d Hd. cbn. rewrite at_set_side. destruct (decide (sd = sd')) as [<-|]; [|done].
      rewrite (ro_joined _ _ _ Ro sd Jn) in Hd. done.
    - rewrite list_lookup_insert_ne by done. by exists room0. }
  set (w2 := set_phase _ _ _ _).
  assert (w_handlers w2 !! c = Some (mkHandler (h_challenge h) (h_binding h) (Joined i sd s Acking)))
    as E2 by (cbn; by rewrite lookup_insert_eq).
  assert (handlers_keep w w2) as K.
  { intros d j sd' (h1 & s1 & st1 & E1 & P1). left. destruct (decide (c = d)) as [<-|]; [congruence|].
    exists h1, s1, st1. cbn. by rewrite lookup_insert_ne. }
  assert (∀ j room, w_rooms w !! j = Some room → room_ok w2 j room) as Ok_.
  { intros j room1 E1. apply (room_ok_mono w); try done. by apply (ri_rooms _ I). }
  destruct I as [I1 I2 I3 I4 I5 I6 I7]. split; try done.
  - intros d. destruct (decide (c = d)) as [<-|]; [intros _; apply I1; eauto|].
    cbn. rewrite lookup_insert_ne by done. apply I1.
  - intros d h1. destruct (decide (c = d)) as [<-|].
    + rewrite E2. intros [= <-]. cbn. split; [done|]. exists (join_peer room sd c).
      rewrite list_lookup_insert_eq by done. cbn. rewrite at_set_side, decide_True by done. done.
    + cbn. rewrite lookup_insert_ne by done. intros E1. apply (handler_ok_mono w); [done..|].
      by apply I2.
  - intros j room1. cbn. destruct (decide (i = j)) as [<-|].
    2: { rewrite list_lookup_insert_ne by done. apply Ok_. }
    rewrite list_lookup_insert_eq by done. intros [= <-].
    destruct (Ok_ _ _ Er) as [M Hg J P R]. split; cbn; try done.
    + intros sd'. rewrite !at_set_side. destruct (decide (sd = sd')); [done|]. apply J.
    + intros sd' d. rewrite at_set_side. destruct (decide (sd = sd')) as [<-|]; [|apply P].
      intros [= <-]. split; [apply I1; eauto|]. right. by eexists _, _, _.
    + left. split; [|done]. change (room_id _) with (room_id room). by rewrite Eid.
  - intros id j E. destruct (I4 _ _ E) as (room1 & E1 & Eid1).
    destruct (RG _ _ E1) as (room' & E' & Es' & _). exists room'. split; [done|].
    unfold room_id. by rewrite Es'.
  - cbn. rewrite map_size_insert, Eh. done.
Qed.

(** [attach] either refuses, with an invariant world whose handlers are the same, or
    joins a registered room. *)
Lemma attach_spec w s sd c w' o : relay_inv w → session_managed s = false →
  (∃ t, t <= w_clock w ∧ grant_wf (session_grant s) t) → attach w s sd c = (w', o) →
  match o with
  | None => relay_inv w' ∧ w_handlers w' = w_handlers w
  | Some i => ∃ w1, relay_inv w1 ∧ w_handlers w1 = w_handlers w ∧
      same_trust (w_relay w) (w_relay w1) ∧
      relay_sessions (w_relay w1) !! Grant_SessionID (session_grant s) = Some i ∧
      join_room w1 i (sha256 (session_ticket s)) sd c = (w', Some i)
  end.
Proof.
  intros I M Hg E. unfold attach in E. destruct (_ || _); [by injection E as <- <-|].
  pose proof (drop_inactive_inv w I) as I1. set (w1 := drop_inactive w) in *.
  assert (∀ w2 i, relay_inv w2 → w_handlers w2 = w_handlers w →
    same_trust (w_relay w) (w_relay w2) →
    relay_sessions (w_relay w2) !! Grant_SessionID (session_grant s) = Some i →
    join_room w2 i (sha256 (session_ticket s)) sd c = (w', o) →
    match o with
    | None => relay_inv w' ∧ w_handlers w' = w_handlers w
    | Some i => ∃ w1, relay_inv w1 ∧ w_handlers w1 = w_handlers w ∧
        same_trust (w_relay w) (w_relay w1) ∧
        relay_sessions (w_relay w1) !! Grant_SessionID (session_grant s) = Some i ∧
        join_room w1 i (sha256 (session_ticket s)) sd c = (w', Some i)
    end) as Join.
  { intros w2 i I2 H2 T2 S2 E2. destruct o as [j|].
    - pose proof (join_room_Some _ _ _ _ _ _ _ E2) as [-> _]. by exists w2.
    - apply join_room_None in E2 as ->. done. }
  destruct (relay_sessions (w_relay w1) !! _) as [i|] eqn:Ei.
  - by apply (Join w1 i).
  - destruct (Z.leb_spec maxRooms (Z.of_nat (size (relay_sessions (w_relay w1))))) as [|L].
    { injection E as <- <-. done. }
    apply (Join (add_room w1 s) (length (w_rooms w1))); try done.
    + by apply add_room_inv.
    + cbn. by rewrite lookup_insert_eq.
Qed.

Lemma authenticate_Some r h stream t s sd : authenticate r h stream t = Some (s, sd) →
  authenticated r h sd s ∧ session_managed s = false ∧ grant_wf (session_grant s) t.
Proof.
  unfold authenticate. destruct (readFrame _ _) as [[raw ?]| |]; try done.
  destruct (decode_auth raw) as [auth|]; [|done]. destruct (side_of _) as [sd0|]; [|done].
  destruct (VerifyGrant _ _ _ _ _) as [s0| |] eqn:V; try done.
  destruct (ed_verify _ _ _) eqn:Pf; [|done]. intros [= -> ->].
  pose proof (VerifyGrant_Ok _ _ _ _ _ _ V) as (_ & _ & _ & _ & _ & G & _ & _ & Es).
  assert (session_ticket s = Auth_Ticket auth) as Et by (by rewrite Es).
  split_and!; [|by rewrite Es|done]. exists t, (Auth_Proof auth). by rewrite Et.
Qed.

Lemma handle_auth_inv w c h stream t : relay_inv w → w_handlers w !! c = Some h →
  h_phase h = Challenged → t <= w_clock w → relay_inv (handle_auth w c h stream t).
Proof.
  intros I Eh Ph L. unfold handle_auth.
  assert (∀ w', relay_inv w' → w_handlers w' = w_handlers w → relay_inv (set_phase w' c h Failed))
    as Fl.
  { intros w' I' H'. apply set_phase_inv; [done|rewrite H'; eauto|done|].
    intros i sd (h1 & s & st & E1 & P1). rewrite H' in E1. congruence. }
  destruct (authenticate _ _ _ _) as [[s sd]|] eqn:A; [|by apply Fl].
  apply authenticate_Some in A as (A & M & G).
  destruct (attach w s sd c) as [w' o] eqn:At.
  pose proof (attach_spec w s sd c w' o I M ltac:(eauto) At) as H. destruct o as [i|].
  - destruct H as (w1 & I1 & H1 & (T1 & T2 & T3) & S1 & J). apply (join_inv w1); try done.
    + by rewrite H1.
    + unfold authenticated. by rewrite T1, T2, T3.
  - destruct H. by apply Fl.
Qed.

Lemma accept_inv w c out exported : relay_inv w → w_conns w !! c = None →
  (∀ binding challenge, exported = Some (binding, challenge) → zlen challenge = 32) →
  relay_inv (serve_accept w c out exported).
Proof.
  intros I Ec L.
  assert (w_handlers w !! c = None) as Eh.
  { apply eq_None_not_Some. intros H%(ri_conns _ I). rewrite Ec in H. by destruct H. }
  assert (∀ w' h, relay_inv w' → w_handlers w' = w_handlers w → is_Some (w_conns w' !! c) →
    Z.of_nat (size (w_handlers w)) < relay_slots →
    ∀ p, match p with Joined _ _ _ _ => False | _ => True end → relay_inv (set_phase w' c h p)) as Ph.
  { intros w' h I' H' C' N p P. apply (relay_inv_frame w'); try done; cbn.
    - intros d i sd (h1 & s & st & E1 & P1). left. exists h1, s, st. cbn.
      rewrite lookup_insert_ne; [done|]. rewrite H' in E1. congruence.
    - intros d h1. destruct (decide (c = d)) as [<-|].
      + rewrite lookup_insert_eq. intros [= <-]. right. split; [done|]. by destruct p.
      + rewrite lookup_insert_ne by done. by left.
    - rewrite map_size_insert, H', Eh. cbn. lia. }
  assert (∀ k, relay_inv (set_conns w (<[c := k]> (w_conns w)))) as Ic.
  { intros k. apply (relay_inv_frame w); try done; [by apply conns_grow_fresh|by apply handlers_keep_same|by left|apply (ri_slots _ I)]. }
  unfold serve_accept. destruct (Z.leb_spec relay_slots (Z.of_nat (size (w_handlers w)))); [done|].
  destruct exported as [[binding challenge]|].
  - destruct (send_frame _ _ _) as [w' sent] eqn:E.
    assert (0 < zlen challenge <= maxTicket * 2) as Hl
      by (rewrite (L _ _ eq_refl); unfold maxTicket; lia).
    pose proof (send_frame_spec _ _ _ _ _ E Hl) as (_ & _ & E3 & _ & G' & _).
    apply Ph; [exact (send_frame_inv _ _ _ _ _ (Ic _) Hl E)|done| |done|by destruct sent].
    apply G'. cbn. rewrite lookup_insert_eq. eauto.
  - apply Ph; try done. cbn. rewrite lookup_insert_eq. eauto.
Qed.

Lemma joined_phase w c h i sd s st st' : w_handlers w !! c = Some h →
  h_phase h = Joined i sd s st →
  ∀ i' sd', joined_at w c i' sd' → ∃ s0 st0, Joined i sd s st' = Joined i' sd' s0 st0.
Proof. intros E P i' sd' (h1 & s1 & st1 & H1 & P1). simplify_eq. rewrite P in P1. simplify_eq. eauto. Qed.

Lemma handle_ready_inv w c h i sd s : relay_inv w → w_handlers w !! c = Some h →
  h_phase h = Joined i sd s Acking → relay_inv (handle_ready w c h i sd s).
Proof.
  intros I Eh Ph. unfold handle_ready. destruct (send_frame w c ready) as [w' sent] eqn:E.
  pose proof ready_size as Hl.
  pose proof (send_frame_spec _ _ _ _ _ E Hl) as (E1 & E2 & E3 & _).
  pose proof (ri_handlers _ I _ _ Eh) as H. unfold handler_ok in H. rewrite Ph in H.
  apply set_phase_inv; [exact (send_frame_inv _ _ _ _ _ I Hl E)|rewrite E3; eauto| |].
  - unfold handler_ok. cbn. rewrite E1, E2. destruct H as (A & room & ? & ? & ? & ? & _).
    split; [done|]. exists room. by destruct sent.
  - eapply joined_phase; [by rewrite E3|done].
Qed.

Lemma handle_packet_inv w c h i sd s stream : relay_inv w → w_handlers w !! c = Some h →
  h_phase h = Joined i sd s Reading → relay_inv (handle_packet w c h i sd s stream).
Proof.
  intros I Eh Ph. pose proof (ri_handlers _ I _ _ Eh) as H. unfold handler_ok in H. rewrite Ph in H.
  destruct H as (A & room & Er & P & Eid & Hh & _).
  assert (relay_inv (set_phase w c h (Joined i sd s Leaving))) as Lv.
  { apply set_phase_inv; [done|eauto| |by eapply joined_phase]. split; [done|]. by exists room. }
  unfold handle_packet. destruct (readFrame _ _) as [[packet ?]| |]; try done. rewrite Er.
  destruct (negb (_ && _)); [done|]. destruct (wireGuardPacket packet) eqn:Wg; cbn [negb]; [|done].
  destruct (at_side (room_peers room) (other sd)) as [target|] eqn:Tg; [|done].
  apply set_phase_inv; [done|eauto| |by eapply joined_phase].
  split; [done|]. by exists room.
Qed.

Lemma handle_send_inv w c h i sd s target packet : relay_inv w → w_handlers w !! c = Some h →
  h_phase h = Joined i sd s (Sending target packet) →
  relay_inv (handle_send w c h i sd s target packet).
Proof.
  intros I Eh Ph. pose proof (ri_handlers _ I _ _ Eh) as H. unfold handler_ok in H. rewrite Ph in H.
  destruct H as (A & room & Er & P & Eid & Hh & Tg & Wg). unfold handle_send.
  destruct (send_frame w target packet) as [w' sent] eqn:E.
  pose proof (wireGuardPacket_frame _ Wg) as Hl.
  pose proof (send_frame_spec _ _ _ _ _ E Hl) as (E1 & E2 & E3 & _).
  pose proof (send_frame_inv _ _ _ _ _ I Hl E) as I'. destruct sent.
  - apply set_phase_inv.
    + apply (relay_inv_frame w'); try done; [by apply handlers_keep_same|by left|apply (ri_slots _ I')].
    + cbn. rewrite E3. eauto.
    + split; [cbn; by rewrite E1|]. exists room. cbn. by rewrite E2.
    + eapply joined_phase; [|done]. cbn. by rewrite E3.
  - apply set_phase_inv; [done|rewrite E3; eauto| |].
    + split; [by rewrite E1|]. exists room. by rewrite E2.
    + eapply joined_phase; [by rewrite E3|done].
Qed.

Lemma serve_release_inv w c : relay_inv w → is_Some (w_handlers w !! c) →
  relay_inv (serve_release w c).
Proof.
  intros I Eh. pose proof (ri_conns _ I _ Eh) as Ec.
  apply (relay_inv_frame w); try done; cbn [serve_release set_conns set_handlers w_conns w_handlers].
  - apply conns_grow_close.
  - intros d i sd (h1 & s & st & E1 & P1). destruct (decide (c = d)) as [<-|].
    + right. by apply close_one_closed.
    + left. exists h1, s, st. cbn. by rewrite lookup_delete_ne.
  - intros d h1 [? ?]%lookup_delete_Some. by left.
  - pose proof (ri_slots _ I). rewrite map_size_delete. destruct (w_handlers w !! c); cbn; lia.
Qed.

Lemma handle_return_inv w c h : relay_inv w → w_handlers w !! c = Some h →
  relay_inv (handle_return w c h).
Proof.
  intros I Eh. unfold handle_return. destruct (h_phase h); try (apply serve_release_inv; eauto).
  - by apply Revoke_inv.
  - destruct (Revoke_spec w (Grant_SessionID (session_grant session)) I) as (? & ? & _ & -> & _).
    eauto.
Qed.

Lemma relay_step_inv w w' : relay_step w w' → relay_inv w → relay_inv w'.
Proof.
  intros [] I.
  - apply (relay_inv_frame w0); try done; [by apply handlers_keep_same|by left|apply (ri_slots _ I)].
  - by apply accept_inv.
  - by apply handle_auth_inv.
  - by apply handle_ready_inv.
  - by apply handle_packet_inv.
  - by apply handle_send_inv.
  - by apply handle_return_inv.
  - by apply Revoke_inv.
Qed.

Lemma relay_steps_inv w w' : rtc relay_step w w' → relay_inv w → relay_inv w'.
Proof. induction 1; eauto using relay_step_inv. Qed.

Lemma relay_reach_inv w : relay_reach w → relay_inv w.
Proof.
  intros (issuer & cluster & revision & r & t & N & R). apply (relay_steps_inv _ _ R).
  unfold NewRelay in N. apply check_then in N as [_ [= <-]].
  split; cbn; rewrite ?map_size_empty; try done.
  - intros c []. by rewrite lookup_empty in *.
Qed.

(** ** A revoked session

    [id] was revoked at [t]: until [t + MaxLease] it is refused, and its rooms are
    closed or were made later, where a grant issued before [t] no longer carries a
    packet. *)

Definition denies w (id : string) (until : Z) : Prop :=
  until <= relay_denyUntil (w_relay w) ∨
  ∃ v, relay_denied (w_relay w) !! id = Some v ∧ until <= v.

Definition is_sending w (i : nat) : Prop :=
  ∃ c h sd s target packet, w_handlers w !! c = Some h ∧
    h_phase h = Joined i sd s (Sending target packet).

Record revoked_at w (id : string) (t : Z) : Prop := {
  rv_time : t <= w_clock w;
  rv_denied : w_clock w < t + MaxLease → denies w id (t + MaxLease);
  rv_rooms : ∀ i room, w_rooms w !! i = Some room → room_id room = id →
    (∀ sd c, at_side (room_peers room) sd = Some c → is_closed (w_conns w) c) ∨
    t + MaxLease <= w_clock w ∧
    (Grant_IssuedAt (session_grant (room_session room)) <= time_unix t → ¬ is_sending w i);
}.

Lemma revoked_frame w w' id t : revoked_at w id t → w_clock w <= w_clock w' →
  (w_clock w' < t + MaxLease → denies w id (t + MaxLease) → denies w' id (t + MaxLease)) →
  conns_grow (w_conns w) (w_conns w') →
  (∀ i room', w_rooms w' !! i = Some room' → ∃ room, w_rooms w !! i = Some room ∧
     room_session room' = room_session room ∧ room_peers room' = room_peers room) →
  (∀ i, is_sending w' i → is_sending w i) → revoked_at w' id t.
Proof.
  intros [T D R] C D' G Rs H. split.
  - lia.
  - intros L. apply D'; [done|]. apply D. lia.
  - intros i room' E Eid. destruct (Rs _ _ E) as (room & Er & Es & Ep). unfold room_id in Eid.
    rewrite Es in Eid. rewrite Es, Ep. destruct (R _ _ Er Eid) as [Cl|[L N]]; [left|right].
    + intros sd c P. apply G. eauto.
    + split; [lia|]. intros Hi S. apply N; eauto.
Qed.

Lemma rooms_same w w' : w_rooms w' = w_rooms w →
  ∀ i room', w_rooms w' !! i = Some room' → ∃ room, w_rooms w !! i = Some room ∧
    room_session room' = room_session room ∧ room_peers room' = room_peers room.
Proof. intros -> i room' E. by exists room'. Qed.

Lemma is_sending_phase w w' c h p : (∀ i sd s target packet, p ≠ Joined i sd s (Sending target packet)) →
  w_handlers w' = w_handlers w →
  ∀ i, is_sending (set_phase w' c h p) i → is_sending w i.
Proof.
  intros N Eh i (d & h1 & sd & s & tg & pk & E & P). cbn in E. destruct (decide (c = d)) as [<-|].
  - rewrite lookup_insert_eq in E. injection E as <-. by destruct (N i sd s tg pk).
  - rewrite lookup_insert_ne, Eh in E by done. by exists d, h1, sd, s, tg, pk.
Qed.

Lemma Revoke_revoked w id id' t : relay_inv w → revoked_at w id t → revoked_at (Revoke w id') id t.
Proof.
  intros I R. destruct (Revoke_spec w id' I) as (d & until & E1 & E2 & E3 & _ & D2 & D3 & Rr & _).
  apply (revoked_frame w); rewrite ?E3; try done.
  - intros L [Hu|(v & Ev & Hv)]; unfold denies; rewrite E1; cbn.
    + left. destruct D2 as [<-|[-> _]]; [|done]. pose proof (rv_time _ _ _ R). lia.
    + right. destruct (D3 id v Ev) as [?|[-> ?]]; [lia|by exists v|]. eexists. split; [done|].
      pose proof (rv_time _ _ _ R). lia.
  - apply Revoke_conns_grow.
  - intros i room' E. destruct (Rr _ _ E) as (room & Er & [[-> _]|(_ & -> & _)]); by exists room.
  - intros i. unfold is_sending. by rewrite E2.
Qed.

(** Every room of a session is closed when it is revoked. *)
Lemma Revoke_revokes w id : relay_inv w → revoked_at (Revoke w id) id (w_clock w).
Proof.
  intros I. destruct (Revoke_spec w id I) as (d & until & E1 & E2 & E3 & _ & D2 & _ & Rr & _).
  split; rewrite ?E3; [lia| |].
  - intros _. unfold denies. rewrite E1. cbn. destruct D2 as [<-|[_ D]]; [by left|right]. by eexists.
  - intros i room' E Eid. left. intros sd c P.
    destruct (Rr _ _ E) as (room & Er & [[-> N]|(_ & -> & Cl)]); [|by eauto].
    apply Revoke_conns_grow. destruct (ro_state _ _ _ (ri_rooms _ I _ _ Er)) as [[R _]|[_ R]]; [|eauto].
    congruence.
Qed.

(** *** Admission *)

Lemma attach_rooms w s sd c w' o : relay_inv w → attach w s sd c = (w', o) →
  conns_grow (w_conns w) (w_conns w') ∧ w_clock w' = w_clock w ∧ w_handlers w' = w_handlers w ∧
  relay_denied (w_relay w') = relay_denied (w_relay w) ∧
  relay_denyUntil (w_relay w') = relay_denyUntil (w_relay w) ∧
  (∀ until, w_clock w < until → denies w (Grant_SessionID (session_grant s)) until → o = None) ∧
  (∀ j room', w_rooms w' !! j = Some room' → w_rooms w !! j = Some room' ∨
     o = Some j ∧ room_id room' = Grant_SessionID (session_grant s) ∧
     ((length (w_rooms w) <= j)%nat ∨ active (room_session room') (w_clock w) = true ∧
      ∃ room, w_rooms w !! j = Some room ∧ room_session room' = room_session room)).
Proof.
  intros I E. unfold attach in E. destruct (_ || _) eqn:Dn.
  { injection E as <- <-. split_and!; try done. by left. }
  guards. destruct Dn as [Dn1 Dn2]. destruct (drop_inactive_spec w I) as (G & S & _).
  assert (∀ until, w_clock w < until → denies w (Grant_SessionID (session_grant s)) until → False) as Nd.
  { intros u L [H|(v & Ev & H)]; [lia|]. rewrite Ev in Dn2. cbn in Dn2. lia. }
  set (w1 := drop_inactive w) in *. set (id := Grant_SessionID (session_grant s)) in *.
  destruct (relay_sessions (w_relay w1) !! id) as [i|] eqn:Ei.
  - apply S in Ei as [Ei Lv]. destruct (ri_sessions _ I _ _ Ei) as (room & Er & Eid).
    unfold room_live in Lv. rewrite Er in Lv. destruct o as [j|].
    2: { apply join_room_None in E as ->. split_and!; try done. by left. }
    apply join_room_Some in E as (-> & room0 & Er0 & _ & _ & _ & ->).
    change (w_rooms w1) with (w_rooms w) in Er0. rewrite Er in Er0. injection Er0 as <-.
    split_and!; try done; [intros u ? ?; by destruct (Nd u)|]. intros j room'. cbn.
    destruct (decide (i = j)) as [<-|].
    + rewrite list_lookup_insert_eq by (by apply lookup_lt_Some in Er). intros [= <-]. right.
      split_and!; [done..|right]. split; [done|]. by exists room.
    + rewrite list_lookup_insert_ne by done. by left.
  - destruct (maxRooms <=? _). { injection E as <- <-. split_and!; try done. by left. }
    set (i := length (w_rooms w1)) in *. unfold join_room in E at 1. cbn [set_rooms w_rooms set_relay] in E.
    rewrite lookup_app_r, Nat.sub_diag in E by done. cbn [lookup list_lookup] in E.
    cbn [room_hash room_revoked room_joined] in E. rewrite bool_decide_true in E by done.
    replace (at_side (false, false) sd) with false in E by (by destruct sd). cbn [negb orb] in E.
    injection E as <- <-. cbn [set_rooms w_rooms set_relay w_conns w_clock w_handlers w_relay].
    split_and!; try done; [intros u ? ?; by destruct (Nd u)|]. intros j room'.
    destruct (decide (i = j)) as [<-|].
    + rewrite list_lookup_insert_eq by (rewrite length_app; cbn; unfold i; lia). intros [= <-].
      right. split_and!; [done..|]. left. unfold i. done.
    + rewrite list_lookup_insert_ne by done. intros [?|[Lj Ej]]%lookup_app_Some; [by left|].
      apply list_lookup_singleton_Some in Ej as [Ej _].
      change (j - i = 0)%nat in Ej. change (i <= j)%nat in Lj. lia.
Qed.

(** A grant issued by [t] has expired at [t + MaxLease]. *)
Lemma grant_expired s t t0 now : grant_wf (session_grant s) t0 → session_managed s = false →
  Grant_IssuedAt (session_grant s) <= time_unix t → t + MaxLease <= now → active s now = false.
Proof.
  intros G M Hi L. apply not_true_is_false. intros A. unfold active in A. rewrite M in A. guards.
  destruct A as [[_ A] _]. pose proof (gw_expires _ _ G) as [_ He].
  assert (time_unix t + 60 <= time_unix now); [|lia]. unfold time_unix, MaxLease in *.
  replace (t + 60 * second) with (60 * second + t) in L by lia.
  apply (Z.div_le_mono _ _ second) in L; [|done]. rewrite Z.div_add_l in L by done. lia.
Qed.

Lemma handle_auth_revoked w c h stream t0 id t : relay_inv w → w_handlers w !! c = Some h →
  revoked_at w id t → revoked_at (handle_auth w c h stream t0) id t.
Proof.
  intros I Eh R. unfold handle_auth.
  destruct (authenticate _ _ _ _) as [[s sd]|].
  2: { apply (revoked_frame w); try done; [by apply rooms_same|]. by apply is_sending_phase. }
  destruct (attach w s sd c) as [w1 o] eqn:At.
  destruct (attach_rooms w s sd c w1 o I At) as (G & Ec & Eh1 & Ed & Eu & Dn & Rm).
  assert (∀ p, (∀ i sd s target packet, p ≠ Joined i sd s (Sending target packet)) →
    revoked_at (set_phase w1 c h p) id t) as Go.
  2: { destruct o; apply Go; done. }
  intros p Np. pose proof (is_sending_phase w w1 c h p Np Eh1) as Sd.
  destruct R as [T D R]. split; cbn.
  - by rewrite Ec.
  - unfold denies. cbn. by rewrite Ec, Ed, Eu.
  - intros j room' E Eid. rewrite Ec. destruct (Rm _ _ E) as [E0|(Eo & Eid' & Nw)].
    + destruct (R _ _ E0 Eid) as [Cl|[L N]]; [left|right].
      * intros sd' d P. apply G. eauto.
      * split; [done|]. intros Hi S. apply N; eauto.
    + right. assert (t + MaxLease <= w_clock w) as L.
      { destruct (Z.le_gt_cases (t + MaxLease) (w_clock w)) as [|L]; [done|].
        rewrite (Dn (t + MaxLease)) in Eo; [done|lia|]. rewrite <- Eid', Eid. apply D. lia. }
      split; [done|]. intros Hi (d & h1 & sd1 & s1 & tg & pk & E1 & P1)%Sd.
      pose proof (ri_handlers _ I _ _ E1) as H1. unfold handler_ok in H1. rewrite P1 in H1.
      destruct H1 as (_ & room & Er & _). destruct Nw as [Nw|(Ac & room0 & Er0 & Es)].
      { apply lookup_lt_Some in Er. lia. }
      destruct (ri_rooms _ I _ _ Er0) as [M (t1 & _ & Wf) _ _ _]. rewrite Es in Hi, Ac.
      rewrite (grant_expired _ t t1) in Ac; done.
Qed.

Lemma send_frame_revoked w w' c p b id t : send_frame w c p = (w', b) →
  0 < zlen p <= maxTicket * 2 → revoked_at w id t → revoked_at w' id t.
Proof.
  intros E Hp R. destruct (send_frame_spec _ _ _ _ _ E Hp) as (E1 & E2 & E3 & E4 & G & _).
  apply (revoked_frame w); rewrite ?E4; try done.
  - intros _. unfold denies. by rewrite E1.
  - by apply rooms_same.
  - intros i. unfold is_sending. by rewrite E3.
Qed.

Lemma set_phase_revoked w c h p id t :
  (∀ i sd s target packet, p ≠ Joined i sd s (Sending target packet)) →
  revoked_at w id t → revoked_at (set_phase w c h p) id t.
Proof.
  intros N R. apply (revoked_frame w); try done; [by apply rooms_same|]. by apply is_sending_phase.
Qed.

Lemma serve_release_revoked w c id t : revoked_at w id t → revoked_at (serve_release w c) id t.
Proof.
  intros R. apply (revoked_frame w); try done; [apply conns_grow_close|by apply rooms_same|].
  intros i (d & h1 & sd & s & tg & pk & E & P).
  cbn [serve_release set_conns set_handlers w_handlers] in E. apply lookup_delete_Some in E as [_ E].
  by exists d, h1, sd, s, tg, pk.
Qed.

Lemma serve_accept_revoked w c out exported id t : w_conns w !! c = None →
  (∀ binding challenge, exported = Some (binding, challenge) → zlen challenge = 32) →
  revoked_at w id t → revoked_at (serve_accept w c out exported) id t.
Proof.
  intros Ec L R. unfold serve_accept.
  assert (∀ k, revoked_at (set_conns w (<[c := k]> (w_conns w))) id t) as Rc.
  { intros k. apply (revoked_frame w); try done; [by apply conns_grow_fresh|by apply rooms_same]. }
  destruct (relay_slots <=? _); [done|].
  destruct exported as [[binding challenge]|]; [|by apply set_phase_revoked].
  destruct (send_frame _ _ _) as [w' sent] eqn:E. apply set_phase_revoked; [by destruct sent|].
  apply (send_frame_revoked _ _ _ _ _ _ _ E); [|done]. rewrite (L _ _ eq_refl). unfold maxTicket. lia.
Qed.

Lemma handle_packet_revoked w c h i sd s stream id t : relay_inv w → revoked_at w id t →
  revoked_at (handle_packet w c h i sd s stream) id t.
Proof.
  intros I R. unfold handle_packet.
  destruct (readFrame _ _) as [[packet ?]| |]; try (by apply set_phase_revoked).
  destruct (w_rooms w !! i) as [room|] eqn:Er; [|done].
  destruct (room_revoked room) eqn:Rv, (active (room_session room) (w_clock w)) eqn:Ac;
    cbn [negb andb]; try (by apply set_phase_revoked).
  destruct (wireGuardPacket packet); [|done].
  destruct (at_side (room_peers room) (other sd)) as [target|]; [|done].
  destruct R as [T D R]. split; try done. intros j room' E Eid. cbn in E.
  destruct (R _ _ E Eid) as [Cl|[Lt N]]; [by left|right]. split; [done|].
  intros Hi (d & h1 & sd1 & s1 & tg & pk & E1 & P1). cbn in E1. destruct (decide (c = d)) as [<-|].
  - rewrite lookup_insert_eq in E1. injection E1 as <-. injection P1 as <- _ _ _ _.
    rewrite Er in E. injection E as <-. destruct (ri_rooms _ I _ _ Er) as [M (t1 & _ & Wf) _ _ _].
    rewrite (grant_expired _ t t1) in Ac; done.
  - rewrite lookup_insert_ne in E1 by done. apply (N Hi). by exists d, h1, sd1, s1, tg, pk.
Qed.

Lemma relay_step_revoked w w' id t : relay_step w w' → relay_inv w → revoked_at w id t →
  revoked_at w' id t.
Proof.
  intros St I R. destruct St as [w u L|w c out exported Ec _ L|w c h stream u Eh P L
    |w c h i sd s Eh P|w c h i sd s stream Eh P|w c h i sd s target packet Eh P _|w c h Eh P|w id'].
  - apply (revoked_frame w); try done. by apply rooms_same.
  - by apply serve_accept_revoked.
  - by apply handle_auth_revoked.
  - unfold handle_ready. destruct (send_frame w c ready) as [w' sent] eqn:E.
    apply set_phase_revoked; [by destruct sent|]. apply (send_frame_revoked _ _ _ _ _ _ _ E); [|done].
    apply ready_size.
  - by apply handle_packet_revoked.
  - pose proof (ri_handlers _ I _ _ Eh) as H. unfold handler_ok in H. rewrite P in H.
    destruct H as (_ & _ & _ & _ & _ & _ & _ & Wg%wireGuardPacket_frame).
    unfold handle_send. destruct (send_frame w target packet) as [w' sent] eqn:E.
    pose proof (send_frame_revoked _ _ _ _ _ _ _ E Wg R) as R'.
    destruct sent; apply set_phase_revoked; try done.
    apply (revoked_frame w'); try done. by apply rooms_same.
  - unfold handle_return. destruct (h_phase h); apply serve_release_revoked; try done.
    by apply Revoke_revoked.
  - by apply Revoke_revoked.
Qed.

(** ** Theorems *)

(** Frames are exact: a frame is read exactly when the stream starts with the
    encoding of a payload within the limit, the reader consumes nothing else, and
    no stream makes it panic. *)
Lemma readFrame_exact stream limit payload rest : limit < 2 ^ 32 →
  readFrame stream limit ≠ Panic ∧
  (readFrame stream limit = Ok (payload, rest) ↔
   stream = tcp_frame payload ++ rest ∧ 0 < zlen payload <= limit).
Proof.
  intros Hl. unfold readFrame. split.
  { apply bind_no_panic; [apply read_exact_no_panic|]. intros [header st] _.
    apply check_bind_no_panic. intros _. apply read_exact_no_panic. }
  split.
  - intros ([header st] & E1 & E2)%bind_Ok. apply read_exact_Ok in E1 as [-> L4]; [|lia].
    apply check_then in E2 as [G E2]. guards. pose proof (be_decode_range header) as Hr.
    apply read_exact_Ok in E2 as [-> Lp]; [|lia]. unfold tcp_frame. rewrite Lp.
    assert (length header = 4%nat) as Hh by (unfold zlen in L4; lia).
    rewrite <- Hh at 1. rewrite be_encode_decode, <- app_assoc. split; [done|lia].
  - intros [-> Hp]. unfold tcp_frame. rewrite <- app_assoc.
    rewrite (proj2 (read_exact_Ok _ 4 (be_encode 4 (zlen payload)) (payload ++ rest) ltac:(lia)))
      by (split; [done|by rewrite zlen_be_encode]).
    cbn [mbind result_bind]. rewrite be_decode_encode_small by (cbn; lia).
    destruct (Z.eqb_spec (zlen payload) 0); [lia|]. destruct (Z.ltb_spec limit (zlen payload)); [lia|].
    cbn [orb check mbind result_bind]. apply read_exact_Ok; [lia|done].
Qed.

(** C14. The relay keeps its bounds whatever connects to it: at most 128 handlers, 64
    registered rooms and 4096 tombstones; every registered room is in the table
    under its own session, and every open connection of a room is driven by a
    handler that authenticated that side of it. *)
Theorem relay_bounds w : relay_reach w →
  Z.of_nat (size (w_handlers w)) <= relay_slots ∧
  Z.of_nat (size (relay_sessions (w_relay w))) <= maxRooms ∧
  Z.of_nat (size (relay_denied (w_relay w))) <= maxTombstones ∧
  (∀ id i, relay_sessions (w_relay w) !! id = Some i →
     ∃ room, w_rooms w !! i = Some room ∧ room_id room = id) ∧
  ∀ i room sd c k, w_rooms w !! i = Some room → at_side (room_peers room) sd = Some c →
    w_conns w !! c = Some k → conn_closed k = false →
    room_registered w i room ∧
    ∃ h s st, w_handlers w !! c = Some h ∧ h_phase h = Joined i sd s st ∧
      authenticated (w_relay w) h sd s.
Proof.
  intros I%relay_reach_inv. split_and!; try apply I.
  intros i room sd c k Er P Ek Cl. destruct (ri_rooms _ I _ _ Er) as [_ _ _ Pe R].
  assert (¬ is_closed (w_conns w) c) as NC by (intros (k' & E' & C'); congruence).
  split.
  - destruct R as [R|[_ R]]; [done|]. destruct NC. eauto.
  - destruct (Pe _ _ P) as [_ [?|(h & s & st & E & Ph)]]; [done|].
    pose proof (ri_handlers _ I _ _ E) as H. unfold handler_ok in H. rewrite Ph in H.
    destruct H as [A _]. by exists h, s, st.
Qed.


End relay.
