(* ===== verification/P2pEndpoint.v ===== *)
(** * The Device's end of a relayed session ([internal/p2p/managed_endpoint.go] and
    [DialRelay], [RunEndpoint] of [internal/p2p/relay.go])

    [RunManagedEndpoint] puts the authority, the adapter, the packet policy and the
    relay connection of one session together.  Its deferred calls are a list that is
    run backwards when it returns.  What the outside world answers (the Controller,
    the operating system, the embedded WireGuard device, the relay) is the
    environment; what other goroutines do to the shared objects between two
    statements is its function [meanwhile]. *)

From Stdlib Require Import Strings.Byte Strings.Ascii.
From S2P Require Import Prelude GoLib GoStrings GoEncoding Netip Crypto ControlStore GoNet.
From S2P Require Import P2pGrant P2pPolicy P2pAuthority P2pMux P2pRelay.

(** [curve25519.X25519] with the base point. *)
Class X25519 := { x25519_base : bytes → option bytes }.

Record EndpointConfig := mkConfig {
  Cfg_Ticket : bytes;
  Cfg_DeviceID : string;
  Cfg_Identity : bytes;
  Cfg_WireGuardPrivate : string;
  Cfg_Address : option Z;
  Cfg_RelayAddress : string;
  (** TLS is configured, verifies the relay and names it. *)
  Cfg_TLS : bool;
}.

Section endpoint.
Context `{ED : Ed25519} `{GJ : GrantJson} `{HS : Hashes} `{RJ : RelayJson} `{XC : X25519}.

(** The loop of [BindEndpoint] over the participants. *)
Fixpoint bind_side (g : Grant) (c : EndpointConfig) (public : bytes) (sides : list Side)
    : result Side :=
  match sides with
  | [] => Err "P2P grant belongs to another Device"
  | sd :: rest =>
      let peer := participant g sd in
      if negb (String.eqb (DeviceID peer) (Cfg_DeviceID c)) then bind_side g c public rest
      else
        let identity := default [] (base64_decode (IdentityKey peer)) in
        check (negb (bool_decide (identity = ed_public (Cfg_Identity c)))
               || negb (String.eqb (WireGuardKey peer) (base64_encode public))
               || negb (bool_decide (Address peer = Cfg_Address c)))
          "P2P grant does not match enrolled local keys/address" ;;
        Ok sd
  end.

Definition BindEndpoint (s : option Session) (c : EndpointConfig) : result Side :=
  match s with
  | None => Err "P2P local identity required"
  | Some s =>
      check (negb (zlen (Cfg_Identity c) =? 64)) "P2P local identity required" ;;
      match ParseWGKey (Cfg_WireGuardPrivate c) false with
      | Ok key =>
          match x25519_base key with
          | None => Err "crypto/ecdh: bad X25519 remote ECDH input: low order point"
          | Some public => bind_side (session_grant s) c public [Initiator; Host]
          end
      | _ => Err "P2P local WireGuard key required"
      end
  end.

(** ** The connection to the relay *)

(** What the Device proves to the relay. *)
Definition dial_auth (s : Session) (sd : Side) (identity challenge binding : bytes) : bytes :=
  marshal_auth (mkAuth (session_ticket s) (side_number sd)
    (ed_sign identity (proofMessage challenge (session_ticket s) sd binding))).

Context {W : Type} `{WR : Writer W}.

(** [DialRelay] on a dialled connection, with the TLS exporter and everything the
    relay sends: the connection, and what is left of the stream. *)
Definition DialRelay (trusted : bool) (s : Session) (sd : Side) (identity : bytes) (now : Z)
    (k : conn (W := W)) (binding : option bytes) (stream : bytes) : conn (W := W) * result bytes :=
  let refuse k e := (close_one k, Err e) in
  if negb trusted || negb (zlen identity =? 64) || negb (active s now)
  then (k, Err "invalid P2P relay client trust")
  else
    let expected := default [] (base64_decode (IdentityKey (participant (session_grant s) sd))) in
    if negb (bool_decide (ed_public identity = expected))
    then (k, Err "P2P Device identity mismatch")
    else match binding with
    | None => refuse k "tls handshake"
    | Some binding =>
        match readFrame stream 32 with
        | Ok (challenge, stream) =>
            if negb (zlen challenge =? 32) then refuse k "invalid P2P challenge"
            else match writeFrame k (dial_auth s sd identity challenge binding) with
            | Some (k, Ok _) =>
                match readFrame stream 32 with
                | Ok (answer, stream) =>
                    if negb (bool_decide (answer = ready)) then refuse k "invalid P2P acknowledgement"
                    else (k, Ok stream)
                | Err e => refuse k e
                | Panic => (k, Panic)
                end
            | Some (k, Err e) => refuse k e
            | Some (k, Panic) => (k, Panic)
            | None => (k, Panic)
            end
        | Err e => refuse k e
        | Panic => (k, Panic)
        end
    end.

(** ** The bridge *)

(** A UDP address: IPv4 address and port. *)
Abbreviation udp_addr := (Z * Z)%type.

Definition ip_is_loopback (a : Z) : bool := Z.shiftr a 24 =? 127.

(** The guards of [RunEndpoint]. *)
Definition endpoint_addresses (bound target : udp_addr) : result unit :=
  check (negb (ip_is_loopback target.1) || (target.2 <=? 0))
    "P2P bridge requires fixed loopback endpoints" ;;
  check (negb (ip_is_loopback bound.1)) "P2P bridge must bind loopback".

(** One iteration of the loop that reads the local socket: the buffer takes one byte
    more than the longest packet.  [None] is [continue]. *)
Definition endpoint_out (target source : udp_addr) (datagram : bytes) : option bytes :=
  let packet := take (Z.to_nat (maxDatagram + 1)) datagram in
  if negb (source.2 =? target.2) || negb (source.1 =? target.1) || negb (wireGuardPacket packet)
  then None else Some packet.

Definition bridge_send (k : conn (W := W)) (target source : udp_addr) (datagram : bytes)
    : conn (W := W) * result unit :=
  match endpoint_out target source datagram with
  | None => (k, Ok tt)
  | Some packet => match writeFrame k packet with Some r => r | None => (k, Panic) end
  end.

(** One iteration of the loop that reads the relay: the packet for the local socket,
    and the rest of the stream. *)
Definition endpoint_in (stream : bytes) : result (option bytes * bytes) :=
  '(packet, rest) ← readFrame stream maxDatagram;
  Ok (if wireGuardPacket packet then Some packet else None, rest).
End endpoint.

(** ** Managed endpoints *)

(** [strconv.Atoi]: the value it returns, also when it fails. *)
Definition atoi (s : string) : Z :=
  let '(sign, digits) :=
    match s with
    | String "-"%char rest => (-1, rest)
    | String "+"%char rest => (1, rest)
    | _ => (1, s)
    end in
  match digits with
  | "" => 0
  | _ => match parse_digits 0 digits with
         | Some n => Z.max (- 2 ^ 63) (Z.min (2 ^ 63 - 1) (sign * n))
         | None => 0
         end
  end.

Fixpoint split_lines (s : string) : list string :=
  match s with
  | "" => [""]
  | String c rest =>
      if Ascii.eqb c "010"%char then "" :: split_lines rest
      else match split_lines rest with
           | [] => [String c ""]
           | line :: lines => String c line :: lines
           end
  end.

(** The port in the answer of [IpcGet]: the last line wins. *)
Definition listen_port (raw : string) : Z :=
  fold_left (λ port line, if has_prefix line "listen_port="
                          then atoi (trim_prefix line "listen_port=") else port)
    (split_lines raw) 0.

Section managed.
Context `{ED : Ed25519} `{GJ : GrantJson} `{PJ : PolicyJson} `{HS : Hashes} `{GS : GoSort} `{XC : X25519}.
Context {B : Type} `{BB : BoltBucket B} {D : Type} `{TD : TunDevice D}.

(** The shared objects, and what the call creates: its policy, its endpoint of the
    adapter, and whether the bridge, the WireGuard device and the relay connection
    are open; [ep_pending] and [ep_updates] are the variables of the polling loop. *)
Record endpoint := mkEndpoint {
  ep_clock : Z;
  ep_store : PolicyStore B;
  ep_mux : MuxTUN D;
  ep_policy : option Policy;
  ep_input : option nat;
  ep_bridge : bool;
  ep_device : bool;
  ep_relay : bool;
  ep_pending : bool;
  ep_updates : option (result unit);
}.
Implicit Types e : endpoint.

Definition set_store e p := mkEndpoint (ep_clock e) p (ep_mux e) (ep_policy e) (ep_input e)
  (ep_bridge e) (ep_device e) (ep_relay e) (ep_pending e) (ep_updates e).
Definition set_mux e m := mkEndpoint (ep_clock e) (ep_store e) m (ep_policy e) (ep_input e)
  (ep_bridge e) (ep_device e) (ep_relay e) (ep_pending e) (ep_updates e).
Definition set_policy e p := mkEndpoint (ep_clock e) (ep_store e) (ep_mux e) p (ep_input e)
  (ep_bridge e) (ep_device e) (ep_relay e) (ep_pending e) (ep_updates e).
Definition set_input e i := mkEndpoint (ep_clock e) (ep_store e) (ep_mux e) (ep_policy e) i
  (ep_bridge e) (ep_device e) (ep_relay e) (ep_pending e) (ep_updates e).
Definition set_open e bridge device relay := mkEndpoint (ep_clock e) (ep_store e) (ep_mux e)
  (ep_policy e) (ep_input e) bridge device relay (ep_pending e) (ep_updates e).
Definition set_loop e pending updates := mkEndpoint (ep_clock e) (ep_store e) (ep_mux e)
  (ep_policy e) (ep_input e) (ep_bridge e) (ep_device e) (ep_relay e) pending updates.

(** The deferred calls, in the order of the source. *)
Inductive deferred := DFailClosed | DStop (id : string) | DRevoke | DInput | DBridge | DDevice
  | DRelay | DCleanup (id : string).

(** A call that may return early: the state and the deferred calls so far. *)
Definition call (A : Type) : Type := endpoint * list deferred → (endpoint * list deferred) * result A.

#[export] Instance call_ret : MRet call := λ A a x, (x, Ok a).
#[export] Instance call_bind : MBind call := λ A B' f c x,
  let '(x, r) := c x in
  match r with Ok a => f a x | Err e => (x, Err e) | Panic => (x, Panic) end.

Definition defer (d : deferred) : call unit := λ x, ((x.1, d :: x.2), Ok tt).
Definition modify (f : endpoint → endpoint) : call unit := λ x, ((f x.1, x.2), Ok tt).
Definition on_store {A} (f : PolicyStore B → Z → PolicyStore B * result A) : call A := λ x,
  let '(p, r) := f (ep_store x.1) (ep_clock x.1) in ((set_store x.1 p, x.2), r).
Definition on_mux {A} (f : MuxTUN D → MuxTUN D * result A) : call A := λ x,
  let '(m, r) := f (ep_mux x.1) in ((set_mux x.1 m, x.2), r).
Definition read {A} (f : endpoint → result A) : call A := λ x, (x, f x.1).
Definition require (b : bool) (e : string) : call unit := read (λ _, check (negb b) e).

(** What the world answers. *)
Record environment := mkEnvironment {
  env_sync : option bytes;
  env_route : option bool;
  env_listen : bool;
  env_configure : bool;
  env_up : bool;
  env_ipc : option string;
  env_dial : bool;
  env_late : option bytes;
  meanwhile : nat → endpoint → endpoint;
}.

(** The session object [s], which [Track] leaves in the store. *)
Definition session_active (id : string) e : bool :=
  match ps_sessions (ep_store e) !! id with
  | Some s => active s (ep_clock e)
  | None => false
  end.

(** The closure [reconcile] on the answer of the Controller. *)
Definition reconcile (id : string) (answer : option bytes) : call unit :=
  match answer with
  | None =>
      modify (λ e, set_store e (FailClosed (ep_store e))) ;;
      read (λ _, Err "P2P Controller policy unavailable")
  | Some cp =>
      on_store (λ p t, Apply p cp t) ;;
      read (λ e, check (negb (session_active id e)) "P2P policy denied or expired")
  end.

(** [RunManagedEndpoint] up to its loop: the session. *)
Definition open_endpoint (c : EndpointConfig) (env : environment) : call Session :=
  let pause n := modify (meanwhile env n) in
  require (Cfg_TLS c) "P2P Controller, mux and relay trust required" ;;
  defer DFailClosed ;;
  s ← on_store (λ p t, Track p (Cfg_Ticket c) t);
  let id := Grant_SessionID (session_grant s) in
  defer (DStop id) ;;
  sd ← read (λ _, BindEndpoint (Some s) c);
  let peer := participant (session_grant s) (other sd) in
  on_mux (λ m, Reserve m (Address peer)) ;;
  pause 0%nat ;;
  reconcile id (env_sync env) ;;
  pause 1%nat ;;
  policy ← read (λ e, NewPolicy (ps_sessions (ep_store e) !! id) sd (ep_clock e));
  modify (λ e, set_policy e (Some policy)) ;;
  defer DRevoke ;;
  require (default true (env_route env)) "route" ;;
  pause 2%nat ;;
  input ← on_mux (λ m, Attach m (Address peer) (Address peer));
  modify (λ e, set_input e (Some input)) ;;
  defer DInput ;;
  require (env_listen env) "listen" ;;
  modify (λ e, set_open e true (ep_device e) (ep_relay e)) ;;
  defer DBridge ;;
  modify (λ e, set_open e (ep_bridge e) true (ep_relay e)) ;;
  defer DDevice ;;
  require (env_configure env) "configure P2P WireGuard failed" ;;
  require (env_up env) "up" ;;
  raw ← read (λ _, match env_ipc env with Some raw => Ok raw | None => Err "ipc" end);
  require (0 <? listen_port raw) "P2P WireGuard socket unavailable" ;;
  pause 3%nat ;;
  require (env_dial env) "P2P relay authentication failed" ;;
  modify (λ e, set_open e (ep_bridge e) (ep_device e) true) ;;
  defer DRelay ;;
  defer (DCleanup id) ;;
  mret s.

(** ** The loop *)

(** What the [select] receives; [Reconciled] is the polling goroutine, which runs
    [reconcile] beside the loop. *)
Inductive event :=
| Cancelled | AdapterStopped | RelayStopped | Poll | Reconciled (answer : option bytes)
| Updated | Expiry.

(** One event: the state, and the error with which the loop returns. *)
Definition loop_event (id : string) (ev : event) e : endpoint * option string :=
  match ev with
  | Cancelled => (e, Some "context canceled")
  | AdapterStopped => (e, if mux_closed (ep_mux e) then Some "owned BPC adapter stopped" else None)
  | RelayStopped => (e, Some "P2P relay stopped")
  | Poll => (if ep_pending e then e else set_loop e true (ep_updates e), None)
  | Reconciled answer =>
      if ep_pending e && bool_decide (ep_updates e = None) then
        let '((e, _), r) := reconcile id answer (e, []) in (set_loop e true (Some r), None)
      else (e, None)
  | Updated =>
      match ep_updates e with
      | None => (e, None)
      | Some r =>
          (set_loop e false None,
           match r with Ok _ => None | Err err => Some err | Panic => Some "panic" end)
      end
  | Expiry => (e, if session_active id e then None else Some "P2P lease expired")
  end.

(** The loop on a sequence of events, before each of which other goroutines run; at
    its end the caller cancels. *)
Fixpoint run_loop (id : string) (env : environment) (n : nat) (events : list event) e
    : endpoint * string :=
  let e := meanwhile env n e in
  match events with
  | [] => (e, "context canceled")
  | ev :: events =>
      match loop_event id ev e with
      | (e, Some err) => (e, err)
      | (e, None) => run_loop id env (S n) events e
      end
  end.

(** ** The return *)

Definition revoke_policy e : endpoint := set_policy e (P2pPolicy.Revoke <$> ep_policy e).

(** The polling goroutine, if it still runs, ends before [syncWorkers.Wait] returns. *)
Definition join_worker (id : string) (env : environment) e : endpoint :=
  if ep_pending e && bool_decide (ep_updates e = None)
  then (reconcile id (env_late env) (e, [])).1.1 else e.

(** A deferred call, and the error it joins to the result. *)
Definition run_deferred (env : environment) (d : deferred) e : endpoint * list string :=
  match d with
  | DFailClosed => (set_store e (FailClosed (ep_store e)), [])
  | DStop id =>
      let '(p, r) := Stop (ep_store e) id (ep_clock e) in
      (set_store e p, if is_ok r then [] else ["P2P terminal denial could not be persisted"])
  | DRevoke => (revoke_policy e, [])
  | DInput =>
      (match ep_input e with Some i => set_mux e (Peer_Close (ep_mux e) i) | None => e end, [])
  | DBridge => (set_open e false (ep_device e) (ep_relay e), [])
  | DDevice => (set_open e (ep_bridge e) false (ep_relay e), [])
  | DRelay => (set_open e (ep_bridge e) (ep_device e) false, [])
  | DCleanup id =>
      let e := join_worker id env (set_open (revoke_policy e) false (ep_device e) false) in
      (set_store e (FailClosed (ep_store e)), [])
  end.

Fixpoint run_deferreds (env : environment) (n : nat) (ds : list deferred) e
    : endpoint * list string :=
  match ds with
  | [] => (e, [])
  | d :: ds =>
      let '(e, errs) := run_deferred env d (meanwhile env n e) in
      let '(e, errs') := run_deferreds env (S n) ds e in
      (e, errs ++ errs')
  end.

(** [RunManagedEndpoint]: the state it leaves and the errors it returns joined. *)
Definition RunManagedEndpoint (c : EndpointConfig) (env : environment) (events : list event) e
    : endpoint * list string :=
  let '((e, ds), r) := open_endpoint c env (e, []) in
  let '(e, err) :=
    match r with
    | Ok s => run_loop (Grant_SessionID (session_grant s)) env 4 events e
    | Err err => (e, err)
    | Panic => (e, "panic")
    end in
  let '(e, errs) := run_deferreds env (5 + length events) ds e in
  (e, err :: errs).
End managed.

(** ** The relay and its endpoints *)

Section bridge.
Context `{ED : Ed25519} `{GJ : GrantJson} `{HS : Hashes} `{RJ : RelayJson}.
Context {W : Type} `{WR : Writer W}.
Implicit Types (k : conn (W := W)) (w : world (W := W)).

Lemma writeFrame_Ok k p k' : writeFrame k p = Some (k', Ok tt) →
  0 < zlen p <= maxTicket * 2 ∧ written k' = written k ++ tcp_frame p.
Proof.
  intros E. assert (0 < zlen p <= maxTicket * 2) as Hp.
  { unfold writeFrame in E. destruct (_ || _) eqn:G; [done|]. guards. destruct G.
    pose proof (zlen_nonneg p). lia. }
  split; [done|]. destruct (writeFrame_spec k p Hp) as (k1 & r & sent & rest & E1 & Ef & Ew & _ & Er).
  rewrite E1 in E. injection E as <- ->. rewrite Er, app_nil_r in Ef by done. by rewrite Ew, Ef.
Qed.

Lemma side_of_number sd : side_of (side_number sd) = Some sd.
Proof. by destruct sd. Qed.

Lemma DialRelay_Ok trusted s sd identity now k binding stream k' rest :
  DialRelay trusted s sd identity now k binding stream = (k', Ok rest) →
  trusted = true ∧ length identity = 64%nat ∧ active s now = true ∧
  ed_public identity = default [] (base64_decode (IdentityKey (participant (session_grant s) sd))) ∧
  ∃ b challenge, binding = Some b ∧ zlen challenge = 32 ∧
    stream = tcp_frame challenge ++ tcp_frame ready ++ rest ∧
    writeFrame k (dial_auth s sd identity challenge b) = Some (k', Ok tt).
Proof.
  unfold DialRelay. destruct (_ || _) eqn:G; [done|]. destruct (negb (bool_decide _)) eqn:G2; [done|].
  guards. destruct G as [[G1 Gi] Ga]. intros E. split; [done|]. split; [unfold zlen in Gi; lia|].
  split_and!; [done..|]. destruct binding as [b|]; [|done].
  destruct (readFrame stream 32) as [[challenge st]| |] eqn:R1; try done.
  destruct (Z.eqb_spec (zlen challenge) 32); cbn [negb] in E; [|done].
  destruct (writeFrame k _) as [[k1 [[]| |]]|] eqn:Wf; try done.
  destruct (readFrame st 32) as [[answer st']| |] eqn:R2; try done.
  destruct (decide (answer = ready)) as [->|]; [|by rewrite bool_decide_false in E].
  rewrite bool_decide_true in E by done. injection E as <- <-.
  apply readFrame_exact in R1 as [-> _]; [|done]. apply readFrame_exact in R2 as [-> _]; [|done].
  by exists b, challenge.
Qed.

(** The handshake of a Device convinces the relay: whenever [DialRelay] succeeds
    on a connection whose challenge and TLS channel are those of a relay handler, it
    wrote exactly one frame, from which that handler authenticates the Device as its
    side of the session, provided the ticket still verifies with the relay's trust. *)
Lemma handshake_authenticates trusted s sd identity now k stream k' rest r h rest' t s' :
  DialRelay trusted s sd identity now k (Some (h_binding h)) stream = (k', Ok rest) →
  stream = tcp_frame (h_challenge h) ++ rest' → zlen (h_challenge h) = 32 →
  VerifyGrant (session_ticket s) (relay_issuer r) (relay_cluster r) (relay_revision r) t = Ok s' →
  session_grant s' = session_grant s →
  ∃ frame, written k' = written k ++ frame ∧ authenticate r h frame t = Some (s', sd).
Proof.
  intros (_ & Li & _ & Ei & b & challenge & [= <-] & Lc & Es & Wf)%DialRelay_Ok Es' Lh V Eg.
  assert (challenge = h_challenge h) as ->.
  { rewrite Es in Es'. unfold tcp_frame in Es' at 1 3. rewrite Lc, Lh, <- !app_assoc in Es'.
    apply app_inv_head in Es'. apply app_inj_1 in Es' as [? _]; [done|]. unfold zlen in *. lia. }
  apply writeFrame_Ok in Wf as [Ls Ew]. exists (tcp_frame (dial_auth s sd identity (h_challenge h) (h_binding h))).
  split; [done|]. unfold authenticate.
  rewrite (proj2 (proj2 (readFrame_exact _ (maxTicket * 2)
    (dial_auth s sd identity (h_challenge h) (h_binding h)) [] ltac:(done))))
    by (split; [by rewrite app_nil_r|done]).
  unfold dial_auth. rewrite decode_marshal_auth. cbn [Auth_Ticket Auth_Side Auth_Proof].
  rewrite side_of_number, V, Eg, <- Ei, ed_verify_sign by done. done.
Qed.

(** C15. A datagram crosses a live session unchanged: what the local WireGuard socket
    of one Device sends is written to its relay connection as one frame, the handler
    of that connection passes it to the connection of the other Device, and there it
    arrives as the same datagram; a datagram from any other local socket, one that is
    not a WireGuard message, or one longer than the limit, is never sent. *)
Theorem datagram_end_to_end w c h i sd s room target src local datagram packet w1 w2 k :
  endpoint_out local src datagram = Some packet →
  w_handlers w !! c = Some h → h_phase h = Joined i sd s Reading →
  w_rooms w !! i = Some room → room_revoked room = false →
  active (room_session room) (w_clock w) = true →
  at_side (room_peers room) (other sd) = Some target → w_conns w !! target = Some k →
  w1 = handle_packet w c h i sd s (tcp_frame packet) → send_frame w1 target packet = (w2, true) →
  src = local ∧ packet = datagram ∧ wireGuardPacket datagram = true ∧
  ∃ k', w_conns w2 !! target = Some k' ∧
    ∃ received, written k' = written k ++ received ∧ endpoint_in received = Ok (Some datagram, []).
Proof.
  unfold endpoint_out. intros E Eh Ph Er Rv Ac Tg Ek E1 E2.
  destruct (_ || _) eqn:G; [done|]. injection E as E. guards. rewrite E in G.
  destruct G as [[G1 G2] G3].
  assert (packet = datagram) as ->.
  { rewrite <- E in G3 |- *. apply wireGuardPacket_size in G3 as [_ G3]. unfold zlen in G3.
    rewrite length_take in G3. rewrite take_ge; [done|]. unfold maxDatagram in *. lia. }
  assert (∀ rest, readFrame (tcp_frame datagram ++ rest) maxDatagram = Ok (datagram, rest)) as Rd.
  { intros rest. apply readFrame_exact; [done|]. split; [done|].
    apply wireGuardPacket_size in G3. lia. }
  split; [destruct src, local; cbn in *; congruence|]. split_and!; [done..|].
  assert (w1 = set_phase w c h (Joined i sd s (Sending target datagram))) as Hw1.
  { rewrite E1. unfold handle_packet. rewrite <- (app_nil_r (tcp_frame datagram)), Rd, Er, Rv, Ac, G3, Tg.
    done. }
  destruct (send_frame_spec _ _ _ _ _ E2 (wireGuardPacket_frame _ G3))
    as (_ & _ & _ & _ & _ & _ & Wr & _).
  destruct (Wr k) as (k' & sent & rest & Ek' & _ & Ef & Ew & Hb); [by rewrite Hw1|].
  destruct (Hb eq_refl) as [-> _]. rewrite app_nil_r in Ef. subst sent.
  exists k'. split; [done|]. exists (tcp_frame datagram). split; [done|].
  unfold endpoint_in. rewrite <- (app_nil_r (tcp_frame datagram)), Rd. cbn [mbind result_bind].
  by rewrite G3.
Qed.
End bridge.

(** ** The shared objects while a managed endpoint runs *)

Section shared_objects.
Context {D : Type} `{TD : TunDevice D}.
Implicit Types m : MuxTUN D.

(** An endpoint of the adapter keeps its address, and once it is stopped or detached
    it stays so. *)
Definition object_kept m m' (i : nat) (o : peerTUN) : Prop :=
  (∃ o', mux_objects m' !! i = Some o' ∧ pt_peer o' = pt_peer o ∧
     (pt_stopped o = true → pt_stopped o' = true)) ∧
  ∀ a, mux_peers m' !! a = Some (Some i) → mux_peers m !! a = Some (Some i).

Lemma object_kept_same m m' i o : mux_objects m !! i = Some o →
  mux_objects m' = mux_objects m → mux_peers m' = mux_peers m → object_kept m m' i o.
Proof. intros H E1 E2. split; [|by rewrite E2]. exists o. by rewrite E1. Qed.

Lemma Reserve_kept m peer i o : mux_objects m !! i = Some o → object_kept m (Reserve m peer).1 i o.
Proof.
  intros H. unfold Reserve. destruct (mux_closed m); [by apply object_kept_same|].
  destruct peer as [a|]; [|by apply object_kept_same].
  destruct (negb _); [by apply object_kept_same|].
  destruct (mux_peers m !! a) eqn:Ea; [by apply object_kept_same|].
  destruct (_ <=? _); [by apply object_kept_same|]. split; [by exists o|].
  intros b. cbn. intros [[_ ?]|[_ ?]]%lookup_insert_Some; done.
Qed.

Lemma Attach_kept m peer bound i o : mux_objects m !! i = Some o →
  object_kept m (Attach m peer bound).1 i o.
Proof.
  intros H. pose proof (Reserve_kept m peer i o H) as K. unfold Attach.
  destruct (Reserve m peer) as [m1 res]. cbn in K. destruct res as [[]| |]; [|done..].
  destruct peer as [a|]; [|done]. destruct (mux_peers m1 !! a) as [[j|]|]; [done| |];
    (destruct (negb _); [done|]; destruct K as [(o' & Ho & Hp) Hd]; split; cbn;
     [exists o'; split; [by apply lookup_app_l_Some|done]|
      intros b [[_ E]|[_ ?]]%lookup_insert_Some; [|by apply Hd]; injection E as <-;
      apply lookup_lt_Some in Ho; lia]).
Qed.

Lemma gateway_read_same m room q :
  mux_objects (gateway_read m room q).1 = mux_objects m ∧
  mux_peers (gateway_read m room q).1 = mux_peers m.
Proof.
  induction q as [|packet q IH]; [done|]. cbn [gateway_read]. destruct (_ <? _); [done|].
  destruct (reserved m snd packet) as [[]| |]; done.
Qed.

Lemma insert_kept m j o1 o1' i o : mux_objects m !! j = Some o1 → pt_peer o1' = pt_peer o1 →
  (pt_stopped o1 = true → pt_stopped o1' = true) → mux_objects m !! i = Some o →
  object_kept m (set_objects m (<[j := o1']> (mux_objects m))) i o.
Proof.
  intros Hj P S H. split; [|done]. cbn. destruct (decide (j = i)) as [<-|].
  - exists o1'. rewrite list_lookup_insert_eq by (by apply lookup_lt_Some in H). simplify_eq. done.
  - exists o. by rewrite list_lookup_insert_ne.
Qed.

Lemma mux_step_kept m m' i o : mux_step m m' → mux_objects m !! i = Some o → object_kept m m' i o.
Proof.
  intros S H. destruct S.
  - by apply Reserve_kept.
  - by apply Attach_kept.
  - unfold dispatch_packet in H0. apply bind_Ok in H0 as (addrs & _ & E).
    destruct (match addrs with Some (_, dst) => mux_peers m !! dst | None => None end) as [[j|]|];
      injection E as <-; try by apply object_kept_same.
    split; [|done]. cbn. destruct (decide (j = i)) as [->|].
    + eexists. rewrite list_lookup_alter_eq, H. done.
    + exists o. by rewrite list_lookup_alter_ne.
  - unfold Mux_Read. destruct (mux_closed m); [by apply object_kept_same|].
    destruct (gateway_read_same m room (mux_gateway m)). by apply object_kept_same.
  - destruct (Mux_Write m bufs offset) as [m' res] eqn:E. apply Mux_Write_spec in E as [[d ->] _].
    by apply object_kept_same.
  - unfold Peer_Read. destruct (mux_objects m !! i0) as [o1|] eqn:E1; [|by apply object_kept_same].
    destruct (pt_stopped o1) eqn:St; [by apply object_kept_same|].
    destruct (pt_queue o1); [by apply object_kept_same|]. eapply insert_kept; [done|done|by rewrite St|done].
  - unfold Peer_Write. destruct (mux_objects m !! i0) as [o1|]; [|by apply object_kept_same].
    destruct (pt_stopped o1); [by apply object_kept_same|]. destruct (dev_write _ _).
    by apply object_kept_same.
  - unfold Peer_Close. destruct (mux_objects m !! i0) as [o1|] eqn:E1; [|by apply object_kept_same].
    destruct (insert_kept m i0 o1 (stop o1) i o E1 eq_refl ltac:(done) H) as [Ho Hp].
    case_bool_decide; [|by split]. split; [done|]. cbn. intros a [[_ ?]|[_ ?]]%lookup_insert_Some; done.
  - unfold Mux_Close. destruct (mux_closed m); [by apply object_kept_same|]. split; [|done]. cbn.
    eexists. rewrite list_lookup_imap, H. cbn. split; [done|]. by case_bool_decide.
Qed.

(** An endpoint whose address is reserved; one that is closed as well. *)
Definition input_open m (i : nat) : Prop :=
  ∃ o, mux_objects m !! i = Some o ∧ is_Some (mux_peers m !! pt_peer o).
Definition input_closed m (i : nat) : Prop :=
  (∃ o, mux_objects m !! i = Some o ∧ is_Some (mux_peers m !! pt_peer o) ∧ pt_stopped o = true) ∧
  ∀ a, mux_peers m !! a ≠ Some (Some i).

Lemma mux_run_open m m' i : rtc mux_step m m' → mux_inv m → input_open m i → input_open m' i.
Proof.
  induction 1 as [|m m1 m2 S R IH]; [done|]. intros I (o & Ho & Hr).
  destruct (mux_step_inv _ _ S I) as [I1 K]. apply IH; [done|].
  destruct (mux_step_kept _ _ _ _ S Ho) as [(o' & Ho' & Hp & _) _]. exists o'.
  split; [done|]. rewrite Hp. by apply K.
Qed.

Lemma mux_run_closed m m' i : rtc mux_step m m' → mux_inv m → input_closed m i → input_closed m' i.
Proof.
  induction 1 as [|m m1 m2 S R IH]; [done|]. intros I [(o & Ho & Hr & St) N].
  destruct (mux_step_inv _ _ S I) as [I1 K]. apply IH; [done|].
  destruct (mux_step_kept _ _ _ _ S Ho) as [(o' & Ho' & Hp & Hs) Hd]. split.
  - exists o'. rewrite Hp. split_and!; [done|by apply K|by apply Hs].
  - intros a Ha. by apply (N a), Hd.
Qed.

Lemma Peer_Close_closed m i : mux_inv m → input_open m i → input_closed (Peer_Close m i) i.
Proof.
  intros I (o & Ho & Hr). unfold Peer_Close. rewrite Ho.
  assert (mux_objects (set_objects m (<[i := stop o]> (mux_objects m))) !! i = Some (stop o)) as E.
  { cbn. by rewrite list_lookup_insert_eq by (by apply lookup_lt_Some in Ho). }
  case_bool_decide as Hb; cbn in Hb.
  - split.
    + exists (stop o). split; [done|]. cbn. by rewrite lookup_insert_eq.
    + cbn. intros a [[_ ?]|[Ne Ha]]%lookup_insert_Some; [done|].
      destruct (mx_attached _ I _ _ Ha) as (o1 & H1 & <-). congruence.
  - split; [by exists (stop o)|]. cbn. intros a Ha.
    destruct (mx_attached _ I _ _ Ha) as (o1 & H1 & <-). congruence.
Qed.
End shared_objects.

Section managed_facts.
Context `{ED : Ed25519} `{GJ : GrantJson} `{PJ : PolicyJson} `{HS : Hashes} `{GS : GoSort} `{XC : X25519}.
Context {B : Type} `{BB : BoltBucket B} {D : Type} `{TD : TunDevice D}.
Abbreviation run_state := (endpoint (B := B) (D := D)).
Implicit Types (e : run_state) (p : PolicyStore B) (x : run_state * list deferred).

(** What other sessions of the process do to the store: all of its operations, but no
    restart. *)
Inductive process_step : Z * PolicyStore B → Z * PolicyStore B → Prop :=
| process_track t p ticket : process_step (t, p) (t, (Track p ticket t).1)
| process_apply t p ticket : process_step (t, p) (t, (Apply p ticket t).1)
| process_stop t p id : process_step (t, p) (t, (Stop p id t).1)
| process_fail t p : process_step (t, p) (t, FailClosed p)
| process_close t p : process_step (t, p) (t, Close p)
| process_later t t' p : t <= t' → process_step (t, p) (t', p).

Lemma process_store_step a b : process_step a b → store_step a b.
Proof. by intros []; constructor. Qed.

Lemma process_run a b : rtc process_step a b → rtc store_step a b.
Proof. induction 1; [done|]. eapply rtc_l; eauto using process_store_step. Qed.

(** A session stays in the store until it expires. *)
Definition session_kept t (p' : PolicyStore B) (id : string) (g : Grant) : Prop :=
  (∃ s', ps_sessions p' !! id = Some s' ∧ session_grant s' = g) ∨ Grant_ExpiresAt g <= time_unix t.

Lemma failClosed_kept t p id g : session_kept t p id g → session_kept t (failClosed p) id g.
Proof.
  intros [(s & H & Hg)|H]; [left|by right]. exists (set_authorization s None).
  cbn. rewrite lookup_fmap, H. done.
Qed.

Lemma Track_kept t p ticket id g : session_kept t p id g → session_kept t (Track p ticket t).1 id g.
Proof.
  intros K. unfold Track. destruct (negb (ps_open p)); [done|].
  destruct (VerifyGrant _ _ _ _ _) as [s0| |]; [|done..]. destruct (_ && _); [done|].
  destruct (track_tx _ _ _ _) as [b| |]; [|done..]. set (live := filter _ _).
  assert ((∃ s', live !! id = Some s' ∧ session_grant s' = g) ∨ Grant_ExpiresAt g <= time_unix t) as L.
  { destruct K as [(s & H & Hg)|K]; [|by right].
    destruct (Z.le_gt_cases (Grant_ExpiresAt g) (time_unix t)); [by right|left]. exists s.
    split; [|done]. apply map_lookup_filter_Some. rewrite Hg. split; [done|lia]. }
  destruct (live !! Grant_SessionID (session_grant s0)) as [old|] eqn:El.
  { destruct (negb _); exact L. }
  destruct (_ <=? _); [exact L|]. destruct L as [(s & H & Hg)|L]; [left|by right].
  exists s. cbn. split; [|done]. rewrite lookup_insert_ne; [done|]. congruence.
Qed.

Lemma Apply_kept t p cp id g : session_kept t p id g → session_kept t (Apply p cp t).1 id g.
Proof.
  intros K. unfold Apply.
  destruct (_ ≫= _) as [[[c allowed] b]| |]; [|by apply failClosed_kept|done].
  destruct K as [(s & H & Hg)|K]; [left|by right].
  eexists. cbn. rewrite map_lookup_imap, H. cbn. split; [done|]. exact Hg.
Qed.

Lemma Stop_kept t p id' id g : session_kept t p id g → session_kept t (Stop p id' t).1 id g.
Proof.
  intros K%failClosed_kept. unfold Stop. destruct (negb _); [done|].
  destruct (ps_sessions _ !! id'); [|done]. by destruct (stop_tx _ _ _ _ _).
Qed.

Lemma process_kept a b id g : process_step a b →
  session_kept a.1 a.2 id g → session_kept b.1 b.2 id g.
Proof.
  intros []; cbn; intros K.
  - by apply Track_kept.
  - by apply Apply_kept.
  - by apply Stop_kept.
  - by apply failClosed_kept.
  - by apply failClosed_kept in K.
  - destruct K as [?|K]; [by left|right]. apply time_unix_mono in H. lia.
Qed.

(** What may happen while the call is between two statements. *)
Record shared e e' : Prop := {
  sh_store : rtc process_step (ep_clock e, ep_store e) (ep_clock e', ep_store e');
  sh_mux : rtc mux_step (ep_mux e) (ep_mux e');
  sh_policy : match ep_policy e, ep_policy e' with
              | Some p, Some p' => revoked p = true → revoked p' = true
              | None, None => True
              | _, _ => False
              end;
  sh_local : ep_input e' = ep_input e ∧ ep_bridge e' = ep_bridge e ∧ ep_device e' = ep_device e ∧
    ep_relay e' = ep_relay e ∧ ep_pending e' = ep_pending e ∧ ep_updates e' = ep_updates e;
}.

(** ** What holds throughout the call *)

Record sound e : Prop := {
  sd_store : store_inv (ep_clock e) (ep_store e);
  sd_mux : mux_inv (ep_mux e);
  sd_input : ∀ i, ep_input e = Some i → input_open (ep_mux e) i;
}.

Lemma shared_sound e e' : shared e e' → sound e → sound e'.
Proof.
  intros [S M _ (E1 & _)] [I1 I2 I3].
  apply process_run, run_inv in S as (_ & S & _); [|done].
  destruct (mux_run_inv _ _ M I2) as [M' _]. split; [done..|].
  rewrite E1. intros i H. eapply mux_run_open; eauto.
Qed.

Lemma sound_store e p : sound e → store_inv (ep_clock e) p → sound (set_store e p).
Proof. intros [] ?. by split. Qed.

Lemma sound_mux e m : sound e → rtc mux_step (ep_mux e) m → sound (set_mux e m).
Proof.
  intros [I1 I2 I3] M. destruct (mux_run_inv _ _ M I2) as [M' _]. split; [done..|].
  intros i H. eapply mux_run_open; eauto.
Qed.

(** The resources of the call are released by a deferred call. *)
Record covered (e : run_state) (ds : list deferred) : Prop := {
  cv_last : last ds = Some DFailClosed;
  cv_policy : ep_policy e = None ∨ DRevoke ∈ ds;
  cv_input : ep_input e = None ∨ DInput ∈ ds;
  cv_bridge : ep_bridge e = false ∨ DBridge ∈ ds;
  cv_device : ep_device e = false ∨ DDevice ∈ ds;
  cv_relay : ep_relay e = false ∨ DRelay ∈ ds;
}.

Lemma covered_defer e ds d : covered e ds → covered e (d :: ds).
Proof.
  intros [L ? ? ? ? ?]. split; try (rewrite elem_of_cons; tauto).
  destruct ds; [done|]. by rewrite last_cons_cons.
Qed.

Lemma covered_same e e' ds : ep_policy e' = None ∨ is_Some (ep_policy e) → ep_input e' = ep_input e →
  ep_bridge e' = ep_bridge e → ep_device e' = ep_device e → ep_relay e' = ep_relay e →
  covered e ds → covered e' ds.
Proof.
  intros P E1 E2 E3 E4 [L C1 C2 C3 C4 C5]. split; rewrite ?E1, ?E2, ?E3, ?E4; try done.
  destruct P as [->|[q Eq]]; [by left|]. destruct C1 as [C1|]; [congruence|by right].
Qed.

Lemma covered_eq e e' ds : ep_policy e' = ep_policy e → ep_input e' = ep_input e →
  ep_bridge e' = ep_bridge e → ep_device e' = ep_device e → ep_relay e' = ep_relay e →
  covered e ds → covered e' ds.
Proof. intros E. apply covered_same. rewrite E. destruct (ep_policy e); [right; eauto|by left]. Qed.

(** A call that keeps a property of the state and the deferred calls. *)
Definition safe (I : run_state * list deferred → Prop) {A} (c : call A) : Prop := ∀ x, I x → I (c x).1.

Lemma safe_bind I {A A'} (c : call A) (f : A → call A') :
  safe I c → (∀ a, safe I (f a)) → safe I (a ← c; f a).
Proof.
  intros Hc Hf x Hx. specialize (Hc x Hx). unfold mbind, call_bind.
  destruct (c x) as [y [a| |]]; cbn in *; [|done..]. by apply Hf.
Qed.

Lemma safe_ret I {A} (a : A) : safe I (mret a).
Proof. by intros x Hx. Qed.
Lemma safe_read I {A} (f : run_state → result A) : safe I (read f).
Proof. by intros x Hx. Qed.
Lemma safe_require I b err : safe I (require b err).
Proof. apply safe_read. Qed.

(** A resource is created and its release deferred in one go. *)
Lemma safe_create I {A} f d (c : call A) :
  (∀ x, I x → I (f x.1, d :: x.2)) → safe I c → safe I (modify f ;; defer d ;; c).
Proof. intros H Hc x Hx. by apply Hc, (H x). Qed.

(** ** Opening *)

Definition released (x : run_state * list deferred) : Prop := sound x.1 ∧ covered x.1 x.2.

Lemma shared_covered e e' ds : shared e e' → covered e ds → covered e' ds.
Proof.
  intros [_ _ P (E1 & E2 & E3 & E4 & _)] C. apply (covered_same e); try done.
  destruct (ep_policy e), (ep_policy e'); naive_solver.
Qed.

Lemma safe_shared f : (∀ e, shared e (f e)) → safe released (modify f).
Proof.
  intros H [e ds] [S C]. specialize (H e).
  split; cbn in *; [by eapply shared_sound|by eapply shared_covered].
Qed.

Lemma safe_defer d : safe released (defer d).
Proof. intros [e ds] [S C]. split; [done|]. by apply covered_defer. Qed.

Lemma safe_on_store {A} (f : PolicyStore B → Z → PolicyStore B * result A) :
  (∀ p t, store_inv t p → store_inv t (f p t).1) → safe released (on_store f).
Proof.
  intros H [e ds] [S C]. specialize (H _ _ (sd_store _ S)). unfold on_store. cbn in *.
  destruct (f _ _) as [p r]. split; cbn in *; [by apply sound_store|].
  by apply (covered_eq e).
Qed.

Lemma safe_on_mux {A} (f : MuxTUN D → MuxTUN D * result A) :
  (∀ m, rtc mux_step m (f m).1) → safe released (on_mux f).
Proof.
  intros H [e ds] [S C]. specialize (H (ep_mux e)). unfold on_mux. cbn in *.
  destruct (f _) as [m r]. split; cbn in *; [by apply sound_mux|].
  by apply (covered_eq e).
Qed.

Lemma Apply_store_inv p cp t : store_inv t p → store_inv t (Apply p cp t).1.
Proof. intros I. destruct (Apply p cp t) as [p' r] eqn:E. by apply Apply_step in E as (? & _). Qed.

Lemma Track_store_inv p ticket t : store_inv t p → store_inv t (Track p ticket t).1.
Proof. intros I. destruct (Track p ticket t) as [p' r] eqn:E. by apply Track_step in E as (? & _). Qed.

Lemma Stop_store_inv p id t : store_inv t p → store_inv t (Stop p id t).1.
Proof. intros I. destruct (Stop p id t) as [p' r] eqn:E. by apply Stop_step in E as (? & _). Qed.

Lemma safe_reconcile id answer : safe released (reconcile id answer).
Proof.
  unfold reconcile. destruct answer as [cp|].
  - apply safe_bind; [|intros; apply safe_read]. apply safe_on_store. intros. by apply Apply_store_inv.
  - apply safe_bind; [|intros; apply safe_read]. intros [e ds] [S C]. split; cbn in *.
    + apply sound_store; [done|]. apply failClosed_inv, (sd_store _ S).
    + by apply (covered_eq e).
Qed.

Lemma Attach_Ok_open (m : MuxTUN D) peer bound m' i : mux_inv m → Attach m peer bound = (m', Ok i) →
  input_open m' i.
Proof.
  unfold Attach. intros I E. destruct (Reserve m peer) as [m1 [[]| |]]; try done.
  destruct peer as [a|]; [|done].
  destruct (mux_peers m1 !! a) as [[j|]|]; [done| |]; (destruct (negb _); [done|];
    injection E as <- <-; exists (mkPeerTUN a [] false); cbn; split;
    [by rewrite lookup_app_r, Nat.sub_diag by done|by rewrite lookup_insert_eq]).
Qed.

(** The endpoint of the adapter is attached and its closing deferred. *)
Lemma safe_attach {A} peer bound (c : call A) : safe released c →
  safe released (input ← on_mux (λ m, Attach m peer bound);
                 modify (λ e, set_input e (Some input)) ;; defer DInput ;; c).
Proof.
  intros Hc [e ds] [S C]. pose proof (sound_mux e (Attach (ep_mux e) peer bound).1 S) as S'.
  specialize (S' (rtc_once _ _ (step_attach _ _ _))).
  assert (covered (set_mux e (Attach (ep_mux e) peer bound).1) ds) as C'.
  { by apply (covered_eq e). }
  unfold mbind at 1, call_bind at 1, on_mux. cbn [fst snd].
  destruct (Attach (ep_mux e) peer bound) as [m' [i| |]] eqn:E; cbn [fst snd] in *; [|by split..].
  apply Hc. split; cbn.
  - destruct S' as [S1 S2 S3]. split; [done..|]. intros j [= <-]. cbn.
    eapply Attach_Ok_open; [|done]. apply S.
  - apply (covered_defer _ _ DInput) in C' as [L C1 C2 C3 C4 C5]. split; try done.
    right. by left.
Qed.

Ltac keep_released :=
  intros [e0 ds] [[S1 S2 S3] C]; split; cbn in *;
  [by split|
   match goal with |- covered _ (?d :: _) =>
     apply (covered_defer _ _ d) in C as [L C1 C2 C3 C4 C5]; split; cbn; try done; right; by left
   end].

(** The rest of the call behind the first deferred call. *)
Lemma open_endpoint_released c env e : Cfg_TLS c = true → (∀ n e, shared e (meanwhile env n e)) →
  sound e → ep_policy e = None → ep_input e = None → ep_bridge e = false → ep_device e = false →
  ep_relay e = false → released (open_endpoint c env (e, [])).1.
Proof.
  intros T Sh S E1 E2 E3 E4 E5. unfold open_endpoint. rewrite T.
  match goal with |- released ((require true ?er ≫= (λ _, defer ?d ≫= ?k)) (e, [])).1 =>
    change (released (k tt (e, [d])).1); enough (safe released (k tt)) as Hk by
      (apply Hk; split; [done|split; [done|by left..]])
  end.
  cbn beta.
  apply safe_bind; [apply safe_on_store; intros; by apply Track_store_inv|intros s].
  apply safe_bind; [apply safe_defer|intros _]. apply safe_bind; [apply safe_read|intros sd].
  apply safe_bind; [apply safe_on_mux; intros; apply rtc_once, step_reserve|intros _].
  apply safe_bind; [by apply safe_shared|intros _]. apply safe_bind; [apply safe_reconcile|intros _].
  apply safe_bind; [by apply safe_shared|intros _]. apply safe_bind; [apply safe_read|intros policy].
  apply safe_create; [keep_released|].
  apply safe_bind; [apply safe_require|intros _]. apply safe_bind; [by apply safe_shared|intros _].
  apply safe_attach. apply safe_bind; [apply safe_require|intros _].
  apply safe_create; [keep_released|]. apply safe_create; [keep_released|].
  do 2 (apply safe_bind; [apply safe_require|intros _]). apply safe_bind; [apply safe_read|intros raw].
  apply safe_bind; [apply safe_require|intros _]. apply safe_bind; [by apply safe_shared|intros _].
  apply safe_bind; [apply safe_require|intros _]. apply safe_create; [keep_released|].
  apply safe_bind; [apply safe_defer|intros _]. apply safe_ret.
Qed.

(** ** The session of the call stays in the store *)

Definition kept (id : string) (g : Grant) e : Prop := session_kept (ep_clock e) (ep_store e) id g.
Definition stopping (id : string) (g : Grant) (x : run_state * list deferred) : Prop :=
  DStop id ∈ x.2 ∧ kept id g x.1.

Lemma shared_kept e e' id g : shared e e' → kept id g e → kept id g e'.
Proof.
  intros [S _ _ _]. unfold kept.
  change (session_kept (ep_clock e, ep_store e).1 (ep_clock e, ep_store e).2 id g →
          session_kept (ep_clock e', ep_store e').1 (ep_clock e', ep_store e').2 id g).
  induction S; [done|]. eauto using process_kept.
Qed.

Lemma safe_stopping_modify id g f :
  (∀ e, kept id g e → kept id g (f e)) → safe (stopping id g) (modify f).
Proof. intros H [e ds] [E K]. split; [done|]. by apply H. Qed.

Lemma safe_stopping_defer id g d : safe (stopping id g) (defer d).
Proof. intros [e ds] [E K]. split; [by right|done]. Qed.

Lemma safe_stopping_mux {A} id g (f : MuxTUN D → MuxTUN D * result A) : safe (stopping id g) (on_mux f).
Proof. intros [e ds] [E K]. unfold on_mux. by destruct (f _). Qed.

Lemma safe_stopping_reconcile id g id' answer : safe (stopping id g) (reconcile id' answer).
Proof.
  unfold reconcile. destruct answer as [cp|]; (apply safe_bind; [|intros; apply safe_read]).
  - intros [e ds] [E K]. pose proof (Apply_kept (ep_clock e) (ep_store e) cp id g K) as K'.
    unfold on_store. cbn. by destruct (Apply _ _ _).
  - apply safe_stopping_modify. intros e K. by apply failClosed_kept.
Qed.

Lemma Track_stored p ticket t p' s : store_inv t p → Track p ticket t = (p', Ok s) →
  ps_sessions p' !! Grant_SessionID (session_grant s) = Some s.
Proof.
  intros I E. unfold Track in E. destruct (negb _); [done|].
  destruct (VerifyGrant _ _ _ _ _) as [s0| |]; [|done..]. destruct (_ && _); [done|].
  destruct (track_tx _ _ _ _) as [b| |]; [|done..].
  destruct (filter _ _ !! Grant_SessionID (session_grant s0)) as [old|] eqn:El.
  - destruct (negb _); [done|]. injection E as <- <-. cbn.
    pose proof El as [Eo _]%map_lookup_filter_Some. apply (si_sessions _ _ I) in Eo as [Eo _].
    by rewrite Eo.
  - destruct (_ <=? _); [done|]. injection E as <- <-. cbn. by rewrite lookup_insert_eq.
Qed.

Lemma open_endpoint_stopping c env e p s : Cfg_TLS c = true → (∀ n e, shared e (meanwhile env n e)) →
  sound e → Track (ep_store e) (Cfg_Ticket c) (ep_clock e) = (p, Ok s) →
  stopping (Grant_SessionID (session_grant s)) (session_grant s) (open_endpoint c env (e, [])).1.
Proof.
  intros T Sh S Tk. pose proof (Track_stored _ _ _ _ _ (sd_store _ S) Tk) as St.
  unfold open_endpoint. rewrite T. unfold mbind at 1 2 3, call_bind at 1 2 3.
  unfold require at 1, read at 1, defer at 1, on_store at 1. cbn [negb check fst snd]. rewrite Tk.
  cbn [fst snd].
  match goal with |- stopping ?id ?g ((defer ?d ≫= ?k) ?x).1 =>
    change (stopping id g (k tt (x.1, d :: x.2)).1); enough (safe (stopping id g) (k tt)) as Hk by
      (apply Hk; split; [by left|left; by exists s])
  end.
  cbn beta. apply safe_bind; [apply safe_read|intros sd].
  apply safe_bind; [apply safe_stopping_mux|intros _].
  apply safe_bind; [apply safe_stopping_modify; eauto using shared_kept|intros _].
  apply safe_bind; [apply safe_stopping_reconcile|intros _].
  apply safe_bind; [apply safe_stopping_modify; eauto using shared_kept|intros _].
  apply safe_bind; [apply safe_read|intros policy].
  apply safe_bind; [by apply safe_stopping_modify|intros _].
  apply safe_bind; [apply safe_stopping_defer|intros _].
  apply safe_bind; [apply safe_require|intros _].
  apply safe_bind; [apply safe_stopping_modify; eauto using shared_kept|intros _].
  apply safe_bind; [apply safe_stopping_mux|intros input].
  apply safe_bind; [by apply safe_stopping_modify|intros _].
  apply safe_bind; [apply safe_stopping_defer|intros _].
  apply safe_bind; [apply safe_require|intros _].
  do 2 (apply safe_bind; [by apply safe_stopping_modify|intros _];
        apply safe_bind; [apply safe_stopping_defer|intros _]).
  do 2 (apply safe_bind; [apply safe_require|intros _]). apply safe_bind; [apply safe_read|intros raw].
  apply safe_bind; [apply safe_require|intros _].
  apply safe_bind; [apply safe_stopping_modify; eauto using shared_kept|intros _].
  apply safe_bind; [apply safe_require|intros _].
  apply safe_bind; [by apply safe_stopping_modify|intros _].
  do 2 (apply safe_bind; [apply safe_stopping_defer|intros _]). apply safe_ret.
Qed.

(** ** The loop *)

Lemma reconcile_deferred id answer e ds :
  reconcile id answer (e, ds) =
  (((reconcile id answer (e, [])).1.1, ds), (reconcile id answer (e, [])).2).
Proof.
  destruct answer as [cp|]; unfold reconcile, mbind, call_bind, on_store, modify, read; cbn; [|done].
  by destruct (Apply _ _ _) as [p [r| |]].
Qed.

Lemma safe_reconciled I id answer e ds : safe I (reconcile id answer) →
  I (e, ds) → I ((reconcile id answer (e, [])).1.1, ds).
Proof. intros S H. specialize (S _ H). by rewrite reconcile_deferred in S. Qed.

Lemma loop_event_safe (I : run_state * list deferred → Prop) id ev e ds :
  (∀ answer, safe I (reconcile id answer)) →
  (∀ e pending updates, I (e, ds) → I (set_loop e pending updates, ds)) →
  I (e, ds) → I ((loop_event id ev e).1, ds).
Proof.
  intros S L H. destruct ev; cbn; try done.
  - destruct (ep_pending e); [done|]. by apply L.
  - destruct (_ && _); [|done]. pose proof (safe_reconciled I id answer e ds (S answer) H) as H'.
    destruct (reconcile id answer (e, [])) as [[e1 d1] r]. cbn in *. by apply L.
  - destruct (ep_updates e); [|done]. by apply L.
Qed.

Lemma run_loop_safe (I : run_state * list deferred → Prop) id env n events e ds :
  (∀ n e, I (e, ds) → I (meanwhile env n e, ds)) →
  (∀ answer, safe I (reconcile id answer)) →
  (∀ e pending updates, I (e, ds) → I (set_loop e pending updates, ds)) →
  I (e, ds) → I ((run_loop id env n events e).1, ds).
Proof.
  intros M S L. revert n e. induction events as [|ev events IH]; intros n e H; cbn; [by apply M|].
  pose proof (loop_event_safe I id ev (meanwhile env n e) ds S L (M _ _ H)) as H'.
  destruct (loop_event id ev (meanwhile env n e)) as [e1 [err|]]; cbn in *; [done|]. by apply IH.
Qed.

(** ** The return *)

Lemma join_worker_cases (I : run_state → Prop) id env e :
  I e → I (reconcile id (env_late env) (e, [])).1.1 → I (join_worker id env e).
Proof. intros. unfold join_worker. by destruct (_ && _). Qed.

Lemma reconcile_store id answer e :
  (reconcile id answer (e, [])).1.1 = set_store e (match answer with
    | Some cp => (Apply (ep_store e) cp (ep_clock e)).1 | None => FailClosed (ep_store e) end).
Proof.
  destruct answer as [cp|]; unfold reconcile, mbind, call_bind, on_store, modify, read; cbn; [|done].
  by destruct (Apply _ _ _) as [p [r| |]].
Qed.

(** What the store of a deferred call is, and that it keeps what is denied. *)
Lemma deferred_store env d e : sound e →
  store_inv (ep_clock e) (ep_store (run_deferred env d e).1) ∧
  grows (ep_clock e) (ep_store e) (ep_store (run_deferred env d e).1) ∧
  ep_clock (run_deferred env d e).1 = ep_clock e.
Proof.
  intros S. pose proof (sd_store _ S) as I.
  assert (store_inv (ep_clock e) (FailClosed (ep_store e)) ∧
          grows (ep_clock e) (ep_store e) (FailClosed (ep_store e))) as [F G]
    by (split; [by apply failClosed_inv|by apply grows_refl]).
  assert (store_inv (ep_clock e) (ep_store e) ∧ grows (ep_clock e) (ep_store e) (ep_store e))
    as [I0 G0] by (split; [done|by apply grows_refl]).
  destruct d; cbn; try done.
  - destruct (Stop _ _ _) as [p r] eqn:E. apply Stop_step in E as (? & ? & _); [|done]. done.
  - by destruct (ep_input e).
  - apply (join_worker_cases (λ e1, store_inv (ep_clock e) (FailClosed (ep_store e1)) ∧
      grows (ep_clock e) (ep_store e) (FailClosed (ep_store e1)) ∧ ep_clock e1 = ep_clock e)); [done|].
    rewrite reconcile_store. cbn. destruct (env_late env) as [cp|].
    + destruct (Apply _ _ _) as [p r] eqn:E. apply Apply_step in E as (I1 & G1 & _); [|done]. cbn.
      split_and!; [by apply failClosed_inv| |done]. eapply grows_trans; [exact G1|by apply grows_refl].
    + split_and!; [by apply failClosed_inv| |done]. eapply grows_trans; [exact G|by apply grows_refl].
Qed.

Lemma join_worker_local id env e :
  ep_mux (join_worker id env e) = ep_mux e ∧ ep_policy (join_worker id env e) = ep_policy e ∧
  ep_input (join_worker id env e) = ep_input e ∧ ep_bridge (join_worker id env e) = ep_bridge e ∧
  ep_device (join_worker id env e) = ep_device e ∧ ep_relay (join_worker id env e) = ep_relay e.
Proof.
  apply (join_worker_cases (λ e1, ep_mux e1 = ep_mux e ∧ ep_policy e1 = ep_policy e ∧
    ep_input e1 = ep_input e ∧ ep_bridge e1 = ep_bridge e ∧ ep_device e1 = ep_device e ∧
    ep_relay e1 = ep_relay e)); [done|]. by rewrite reconcile_store.
Qed.

(** What a deferred call leaves of the resources: it closes or keeps each of them. *)
Lemma deferred_local env d e :
  (ep_policy (run_deferred env d e).1 = ep_policy e ∨
   ep_policy (run_deferred env d e).1 = P2pPolicy.Revoke <$> ep_policy e) ∧
  ep_input (run_deferred env d e).1 = ep_input e ∧
  (ep_mux (run_deferred env d e).1 = ep_mux e ∨
   ∃ i, ep_input e = Some i ∧ ep_mux (run_deferred env d e).1 = Peer_Close (ep_mux e) i) ∧
  (ep_bridge e = false → ep_bridge (run_deferred env d e).1 = false) ∧
  (ep_device e = false → ep_device (run_deferred env d e).1 = false) ∧
  (ep_relay e = false → ep_relay (run_deferred env d e).1 = false).
Proof.
  destruct d; cbn; try (split_and!; auto; fail).
  - destruct (Stop _ _ _). cbn. split_and!; auto.
  - destruct (ep_input e) eqn:E; cbn; rewrite E; split_and!; eauto.
  - destruct (join_worker_local id env (set_open (revoke_policy e) false (ep_device e) false))
      as (-> & -> & -> & -> & -> & ->). cbn. split_and!; auto.
Qed.

Lemma run_deferred_sound env d e : sound e → sound (run_deferred env d e).1.
Proof.
  intros S. destruct (deferred_store env d e S) as (I & _ & C).
  destruct (deferred_local env d e) as (_ & Ei & M & _).
  assert (rtc mux_step (ep_mux e) (ep_mux (run_deferred env d e).1)) as R.
  { destruct M as [->|(i & _ & ->)]; [done|]. apply rtc_once, step_peer_close. }
  destruct (sound_mux e _ S R) as [_ M1 M2]. split; [by rewrite C|done|]. rewrite Ei. exact M2.
Qed.

(** *** What stays true until the call returns *)

Record stable (env : environment) (P : run_state → Prop) : Prop := {
  sb_shared : ∀ e e', shared e e' → sound e → P e → P e';
  sb_deferred : ∀ d e, sound e → P e → P (run_deferred env d e).1;
}.

Section run_deferreds.
Context (env : environment) (Sh : ∀ n e, shared e (meanwhile env n e)).

Lemma run_deferreds_stable P n ds e : stable env P → sound e → P e →
  P (run_deferreds env n ds e).1.
Proof.
  intros SB. revert n e. induction ds as [|d ds IH]; intros n e S H; cbn; [done|].
  pose proof (shared_sound _ _ (Sh n e) S) as S1.
  pose proof (sb_deferred _ _ SB d _ S1 (sb_shared _ _ SB _ _ (Sh n e) S H)) as H1.
  pose proof (run_deferred_sound env d _ S1) as S2.
  destruct (run_deferred env d _) as [e1 errs]. cbn in *. specialize (IH (Datatypes.S n) e1 S2 H1).
  by destruct (run_deferreds env _ ds e1).
Qed.

Lemma run_deferreds_reaches P n ds e d : stable env P → sound e → d ∈ ds →
  (∀ e, sound e → P (run_deferred env d e).1) → P (run_deferreds env n ds e).1.
Proof.
  intros SB. revert n e. induction ds as [|d1 ds IH]; intros n e S Hd H; [by apply not_elem_of_nil in Hd|].
  cbn. pose proof (shared_sound _ _ (Sh n e) S) as S1. pose proof (run_deferred_sound env d1 _ S1) as S2.
  apply elem_of_cons in Hd as [<-|Hd].
  - specialize (H _ S1). destruct (run_deferred env d _) as [e1 errs]. cbn in *.
    pose proof (run_deferreds_stable P (Datatypes.S n) ds e1 SB S2 H). by destruct (run_deferreds env _ ds e1).
  - destruct (run_deferred env d1 _) as [e1 errs]. cbn in *. specialize (IH (Datatypes.S n) e1 S2 Hd H).
    by destruct (run_deferreds env _ ds e1).
Qed.

Lemma run_deferreds_last P n ds e d : sound e → last ds = Some d →
  (∀ e, sound e → P (run_deferred env d e).1) → P (run_deferreds env n ds e).1.
Proof.
  revert n e. induction ds as [|d1 ds IH]; intros n e S L H; [done|]. cbn.
  pose proof (shared_sound _ _ (Sh n e) S) as S1. pose proof (run_deferred_sound env d1 _ S1) as S2.
  destruct ds as [|d2 ds].
  - injection L as ->. specialize (H _ S1). by destruct (run_deferred env d _).
  - rewrite last_cons_cons in L. destruct (run_deferred env d1 _) as [e1 errs]. cbn in *.
    specialize (IH (Datatypes.S n) e1 S2 L H).
    by destruct (run_deferred env d2 _) as [? ?]; destruct (run_deferreds env _ ds _).
Qed.
End run_deferreds.

Lemma stable_policy env : stable env (λ e, ∀ q, ep_policy e = Some q → revoked q = true).
Proof.
  split.
  - intros e e' Sh _ H q E. pose proof (sh_policy _ _ Sh) as Pm. rewrite E in Pm.
    destruct (ep_policy e) as [q'|]; [|done]. apply Pm. by apply H.
  - intros d e _ H q. destruct (deferred_local env d e) as ([->| ->] & _); [apply H|].
    destruct (ep_policy e); cbn; [|done]. by intros [= <-].
Qed.

Lemma stable_input env : stable env (λ e, ∀ i, ep_input e = Some i → input_closed (ep_mux e) i).
Proof.
  split.
  - intros e e' Sh S H i. destruct (sh_local _ _ Sh) as (-> & _). intros E.
    eapply mux_run_closed; [apply Sh|apply S|by apply H].
  - intros d e S H i. destruct (deferred_local env d e) as (_ & -> & M & _). intros E.
    eapply mux_run_closed; [|apply S|by apply H].
    destruct M as [->|(j & _ & ->)]; [done|]. apply rtc_once, step_peer_close.
Qed.

Lemma stable_closed env (f : run_state → bool) :
  (∀ e e', shared e e' → f e' = f e) → (∀ d e, f e = false → f (run_deferred env d e).1 = false) →
  stable env (λ e, f e = false).
Proof. intros H1 H2. split; [|by intros; apply H2]. intros e e' Sh _ <-. by apply H1. Qed.

Definition denied (id : string) (expiry : Z) e : Prop :=
  time_unix (ep_clock e) < expiry → ∃ st, durable (ep_store e) st ∧ denied_of st !! id = Some expiry.

Lemma stable_denied env id expiry : stable env (denied id expiry).
Proof.
  split.
  - intros e e' Sh S H L. pose proof (sh_store _ _ Sh) as R. apply process_run, run_inv in R as (T & _ & G);
      [|apply S]. cbn in *. pose proof (time_unix_mono _ _ T).
    destruct H as (st & Dst & Hd); [lia|]. destruct (G _ Dst) as (st' & D' & _ & _ & _ & K). eauto.
  - intros d e S H. unfold denied. destruct (deferred_store env d e S) as (_ & G & ->). intros L.
    destruct (H L) as (st & Dst & Hd). destruct (G _ Dst) as (st' & D' & _ & _ & _ & K). eauto.
Qed.

Lemma stable_kept env id g : stable env (kept id g).
Proof.
  split; [intros e e' Sh _; by apply shared_kept|]. intros d e _ K. unfold kept in *.
  destruct d; cbn; try done; try by apply failClosed_kept.
  - pose proof (Stop_kept _ _ id0 _ _ K) as K'. by destruct (Stop _ _ _).
  - by destruct (ep_input e).
  - apply (join_worker_cases (λ e1, session_kept (ep_clock e1) (FailClosed (ep_store e1)) id g)).
    + by apply failClosed_kept.
    + rewrite reconcile_store. cbn. destruct (env_late env); apply failClosed_kept;
        [by apply Apply_kept|by apply failClosed_kept].
Qed.

Definition not_persisted : string := "P2P terminal denial could not be persisted".

Lemma Stop_denies e id g env : sound e → kept id g e →
  not_persisted ∈ (run_deferred env (DStop id) e).2 ∨
  denied id (Grant_ExpiresAt g) (run_deferred env (DStop id) e).1.
Proof.
  intros S [(s & Hs & Hg)|K].
  2: { right. intros L. destruct (deferred_store env (DStop id) e S) as (_ & _ & C). rewrite C in L. lia. }
  cbn. destruct (Stop (ep_store e) id (ep_clock e)) as [p' r] eqn:E. cbn.
  destruct r as [[]|err|]; [right|left; by left..]. intros _. cbn.
  pose proof (failClosed_inv _ _ (sd_store _ S)) as I. destruct (si_state _ _ I) as [st Dst].
  unfold Stop in E. destruct (negb _); [done|].
  assert (ps_sessions (failClosed (ep_store e)) !! id = Some (set_authorization s None)) as Hf
    by (cbn; by rewrite lookup_fmap, Hs).
  rewrite Hf in E. destruct (stop_tx _ _ _ _ _) as [b| |] eqn:Tx; try done. injection E as <-.
  eexists. split; [exact (stop_tx_Ok _ _ _ _ _ _ I Hf Dst Tx)|]. cbn. by rewrite lookup_insert_eq, Hg.
Qed.

Lemma run_deferreds_stop env n ds e id g : (∀ n e, shared e (meanwhile env n e)) →
  sound e → kept id g e → DStop id ∈ ds →
  not_persisted ∈ (run_deferreds env n ds e).2 ∨
  denied id (Grant_ExpiresAt g) (run_deferreds env n ds e).1.
Proof.
  intros Sh. revert n e. induction ds as [|d ds IH]; intros n e S K Hd; [by apply not_elem_of_nil in Hd|].
  cbn. pose proof (shared_sound _ _ (Sh n e) S) as S1. pose proof (run_deferred_sound env d _ S1) as S2.
  pose proof (shared_kept _ _ _ _ (Sh n e) K) as K1.
  apply elem_of_cons in Hd as [<-|Hd].
  - destruct (Stop_denies _ id g env S1 K1) as [Er|Dn]; destruct (run_deferred env (DStop id) _) as [e1 errs];
      cbn in *.
    + destruct (run_deferreds env _ ds e1). left. cbn. apply elem_of_app. by left.
    + pose proof (run_deferreds_stable env Sh _ (Datatypes.S n) ds e1 (stable_denied env id _) S2 Dn).
      destruct (run_deferreds env _ ds e1). by right.
  - pose proof (sb_deferred _ _ (stable_kept env id g) d _ S1 K1) as K2.
    destruct (run_deferred env d _) as [e1 errs]. cbn in *.
    destruct (IH (Datatypes.S n) e1 S2 K2 Hd); destruct (run_deferreds env _ ds e1); cbn in *; [left|by right].
    apply elem_of_app. by right.
Qed.

(** The call up to its return: the state at that point and the deferred calls. *)
Lemma managed_run c env events e e' errs :
  Cfg_TLS c = true → (∀ n e, shared e (meanwhile env n e)) → sound e →
  ep_policy e = None → ep_input e = None → ep_bridge e = false → ep_device e = false →
  ep_relay e = false → RunManagedEndpoint c env events e = (e', errs) →
  ∃ e2 ds err, sound e2 ∧ covered e2 ds ∧
    (∀ p s, Track (ep_store e) (Cfg_Ticket c) (ep_clock e) = (p, Ok s) →
       stopping (Grant_SessionID (session_grant s)) (session_grant s) (e2, ds)) ∧
    e' = (run_deferreds env (5 + length events) ds e2).1 ∧
    errs = err :: (run_deferreds env (5 + length events) ds e2).2.
Proof.
  intros T Sh S E1 E2 E3 E4 E5 Run.
  pose proof (open_endpoint_released c env e T Sh S E1 E2 E3 E4 E5) as R.
  pose proof (open_endpoint_stopping c env e) as St. unfold RunManagedEndpoint in Run.
  destruct (open_endpoint c env (e, [])) as [[e1 ds] r]. cbn in R, St.
  set (lp := match r with Ok _ => _ | Err _ => _ | Panic => _ end) in Run.
  assert (∀ I : run_state * list deferred → Prop, I (e1, ds) →
    (∀ n e, I (e, ds) → I (meanwhile env n e, ds)) → (∀ id answer, safe I (reconcile id answer)) →
    (∀ e pending updates, I (e, ds) → I (set_loop e pending updates, ds)) → I (lp.1, ds)) as Lp.
  { intros I H M Rc L. unfold lp. destruct r; [|done..]. apply run_loop_safe; auto. }
  assert (released (lp.1, ds)) as [S2 C2].
  { apply Lp; [done| |intros; apply safe_reconcile|].
    - intros n e0 [S0 C0]. split; [eapply shared_sound|eapply shared_covered]; eauto.
    - intros e0 pd up [[S01 S02 S03] C0]. by split; [|apply (covered_eq e0)]. }
  assert (∀ p s, Track (ep_store e) (Cfg_Ticket c) (ep_clock e) = (p, Ok s) →
    stopping (Grant_SessionID (session_grant s)) (session_grant s) (lp.1, ds)) as St2.
  { intros p s Tk. apply Lp; [by apply (St p)| |intros; apply safe_stopping_reconcile|done].
    intros n e0 [Hd K]. split; [done|]. apply (shared_kept e0); [apply Sh|done]. }
  destruct lp as [e2 err]. cbn in S2, C2, St2. exists e2, ds, err. split_and!; [done..| |];
    destruct (run_deferreds env _ ds e2); by injection Run as <- <-.
Qed.

Lemma run_deferreds_sound env n ds e : (∀ n e, shared e (meanwhile env n e)) → sound e →
  sound (run_deferreds env n ds e).1.
Proof.
  intros Sh. revert n e. induction ds as [|d ds IH]; intros n e S; cbn; [done|].
  pose proof (run_deferred_sound env d _ (shared_sound _ _ (Sh n e) S)) as S2.
  destruct (run_deferred env d _) as [e1 errs]. cbn in *. specialize (IH (Datatypes.S n) e1 S2).
  by destruct (run_deferreds env _ ds e1).
Qed.

(** No session of the store is authorised. *)
Definition nothing_authorised (p : PolicyStore B) : Prop :=
  ∀ id s now, ps_sessions p !! id = Some s → active s now = false.

Lemma FailClosed_nothing t p : store_inv t p → nothing_authorised (FailClosed p).
Proof.
  intros I id s now H. pose proof (si_sessions _ _ (failClosed_inv _ _ I) id s H) as (_ & M & _).
  apply failClosed_sessions in H as (s0 & _ & ->). unfold active. by rewrite M.
Qed.

(** The resources of a call are released. *)
Record released_all e : Prop := {
  ra_policy : ∀ q, ep_policy e = Some q → revoked q = true;
  ra_input : ∀ i, ep_input e = Some i → input_closed (ep_mux e) i;
  ra_bridge : ep_bridge e = false;
  ra_device : ep_device e = false;
  ra_relay : ep_relay e = false;
}.

(** The locals of a call that has not begun. *)
Record fresh_call e : Prop := {
  fc_policy : ep_policy e = None; fc_input : ep_input e = None; fc_bridge : ep_bridge e = false;
  fc_device : ep_device e = false; fc_relay : ep_relay e = false;
}.

Lemma managed_closes c env events e e' errs :
  Cfg_TLS c = true → (∀ n e, shared e (meanwhile env n e)) → sound e → fresh_call e →
  RunManagedEndpoint c env events e = (e', errs) →
  sound e' ∧ nothing_authorised (ep_store e') ∧ released_all e' ∧
  ∀ p s, Track (ep_store e) (Cfg_Ticket c) (ep_clock e) = (p, Ok s) →
    not_persisted ∈ errs ∨
    denied (Grant_SessionID (session_grant s)) (Grant_ExpiresAt (session_grant s)) e'.
Proof.
  intros T Sh S [E1 E2 E3 E4 E5] Run.
  destruct (managed_run c env events e e' errs T Sh S E1 E2 E3 E4 E5 Run)
    as (e2 & ds & err & S2 & [L C1 C2 C3 C4 C5] & St & -> & ->).
  assert (∀ P d, stable env P → P e2 ∨ d ∈ ds → (∀ e, sound e → P (run_deferred env d e).1) →
    P (run_deferreds env (5 + length events) ds e2).1) as Close_.
  { intros P d SB [H|H] F; [by apply run_deferreds_stable|by apply (run_deferreds_reaches env Sh P _ _ _ d)]. }
  split_and!; [by apply run_deferreds_sound| |split|].
  - apply (run_deferreds_last env Sh (λ e, nothing_authorised (ep_store e)) _ _ _ DFailClosed); [done..|].
    intros e0 S0. eapply FailClosed_nothing, (sd_store _ S0).
  - apply (Close_ _ DRevoke (stable_policy env)).
    + destruct C1 as [->|]; [by left|by right].
    + intros e0 _ q. cbn. destruct (ep_policy e0); [|done]. by intros [= <-].
  - apply (Close_ _ DInput (stable_input env)).
    + destruct C2 as [->|]; [by left|by right].
    + intros e0 S0 i. cbn. destruct (ep_input e0) as [j|] eqn:E; cbn; rewrite E; [|done].
      intros [= <-]. apply Peer_Close_closed; [apply S0|by apply S0].
  - apply (Close_ (λ e, ep_bridge e = false) DBridge); [|done|done]. apply stable_closed.
    + by intros ? ? [_ _ _ (_ & ? & _)].
    + intros. by apply deferred_local.
  - apply (Close_ (λ e, ep_device e = false) DDevice); [|done|done]. apply stable_closed.
    + by intros ? ? [_ _ _ (_ & _ & ? & _)].
    + intros. by apply deferred_local.
  - apply (Close_ (λ e, ep_relay e = false) DRelay); [|done|done]. apply stable_closed.
    + by intros ? ? [_ _ _ (_ & _ & _ & ? & _)].
    + intros. by apply deferred_local.
  - intros p s Tk. destruct (St p s Tk) as [Hd K].
    destruct (run_deferreds_stop env (5 + length events) ds e2 _ _ Sh S2 K Hd); [left; by right|by right].
Qed.

(** ** Theorem *)

(** C16. A managed endpoint fails closed: whatever the Controller, the operating
    system, the relay and the other sessions of the process do, and wherever the call
    returns, every authorisation of the store is gone, the policy of the session is
    revoked, its endpoint of the adapter is stopped and detached while the peer's
    address stays reserved (so that its traffic never reaches the gateway), and the
    bridge, the WireGuard device and the relay connection are closed; a session that
    was tracked is denied durably until it expires, or the call reports that the
    denial could not be persisted. *)
Theorem managed_endpoint_closes c env events e e' errs :
  Cfg_TLS c = true → (∀ n e, shared e (meanwhile env n e)) →
  store_reach (ep_clock e) (ep_store e) → (∃ base, rtc mux_step (NewMuxTUN base) (ep_mux e)) →
  ep_policy e = None → ep_input e = None → ep_bridge e = false → ep_device e = false →
  ep_relay e = false → RunManagedEndpoint c env events e = (e', errs) →
  (∀ id s now, ps_sessions (ep_store e') !! id = Some s → active s now = false) ∧
  (∀ q, ep_policy e' = Some q → revoked q = true) ∧
  (∀ i, ep_input e' = Some i → input_closed (ep_mux e') i) ∧
  ep_bridge e' = false ∧ ep_device e' = false ∧ ep_relay e' = false ∧
  ∀ p s, Track (ep_store e) (Cfg_Ticket c) (ep_clock e) = (p, Ok s) →
    not_persisted ∈ errs ∨
    denied (Grant_SessionID (session_grant s)) (Grant_ExpiresAt (session_grant s)) e'.
Proof.
  intros T Sh SR [base MR] E1 E2 E3 E4 E5 Run.
  assert (sound e) as S.
  { split; [by apply store_reach_inv| |by rewrite E2].
    by apply mux_run_inv in MR as [? _]; [|apply new_mux_inv]. }
  destruct (managed_closes c env events e e' errs T Sh S) as (_ & N & [R1 R2 R3 R4 R5] & K); [done..|].
  split_and!; done.
Qed.
End managed_facts.
