(* ===== verification/AgentConfig.v ===== *)
(** * The configuration of an agent ([internal/agentctl]: [path.go],
    [wireguard.go] and the validation of [control.go])

    [net/url] and the Unicode tables are classes; so are the parsers of IPv6 prefixes
    and of PEM and PKIX public keys, of which the code only uses the outcome. *)

From Stdlib Require Import Strings.Byte Strings.Ascii.
From S2P Require Import Prelude GoLib GoNet GoStrings GoEncoding Netip Crypto P2pGrant.

(** ** The standard library *)

(** [url.Parse]: the scheme and the host of a URL. *)
Class GoURL := { url_parse : string → option (string * string) }.

(** [strings.ToLower]. *)
Class UnicodeCase := { lower : string → string }.

(** Whether [netip.ParsePrefix] reads an IPv6 prefix. *)
Class Prefix6 := { prefix6_ok : string → bool }.

(** [pem.Decode] followed by [x509.ParsePKIXPublicKey]: the Ed25519 key, if it is one. *)
Class PublicKeys := { pkix_ed25519 : bytes → option bytes }.

Fixpoint split_on (sep : ascii) (s : string) : list string :=
  match s with
  | EmptyString => [EmptyString]
  | String c rest =>
      if Ascii.eqb c sep then EmptyString :: split_on sep rest
      else match split_on sep rest with
           | h :: t => String c h :: t
           | [] => [String c EmptyString]
           end
  end.

(** [strings.Cut] at a character. *)
Fixpoint cut (sep : ascii) (s : string) : option (string * string) :=
  match s with
  | EmptyString => None
  | String c rest =>
      if Ascii.eqb c sep then Some (EmptyString, rest)
      else '(a, b) ← cut sep rest; Some (String c a, b)
  end.

Fixpoint has_char (p : ascii → bool) (s : string) : bool :=
  match s with EmptyString => false | String c rest => p c || has_char p rest end.

Fixpoint str_rev (acc s : string) : string :=
  match s with EmptyString => acc | String c rest => str_rev (String c acc) rest end.

Fixpoint drop_char (sep : ascii) (s : string) : string :=
  match s with
  | String c rest => if Ascii.eqb c sep then drop_char sep rest else s
  | EmptyString => EmptyString
  end.

(** [strings.TrimRight] and [strings.TrimSuffix] with one character. *)
Definition trim_right (sep : ascii) (s : string) : string :=
  str_rev "" (drop_char sep (str_rev "" s)).
Definition trim_suffix_char (sep : ascii) (s : string) : string :=
  match str_rev "" s with
  | String c rest => if Ascii.eqb c sep then str_rev "" rest else s
  | EmptyString => s
  end.

(** [strconv.Atoi]. *)
Definition parse_int (s : string) : option Z :=
  let '(sign, digits) :=
    match s with
    | String "-"%char rest => (-1, rest)
    | String "+"%char rest => (1, rest)
    | _ => (1, s)
    end in
  if String.eqb digits "" then None
  else n ← parse_digits 0 digits;
       let v := sign * n in
       if (- 2 ^ 63 <=? v) && (v <=? 2 ^ 63 - 1) then Some v else None.

(** [net.SplitHostPort]: the part before the last colon, which must be bracketed when
    it has one itself. *)
Definition SplitHostPort (s : string) : option (string * string) :=
  '(port_rev, host_rev) ← cut ":"%char (str_rev "" s);
  let host := str_rev "" host_rev in
  let port := str_rev "" port_rev in
  let bracket c := Ascii.eqb c "["%char || Ascii.eqb c "]"%char in
  match host with
  | String "["%char rest =>
      '(inner, after) ← cut "]"%char rest;
      if String.eqb after "" && negb (has_char (Ascii.eqb "["%char) inner)
         && negb (has_char bracket port)
      then Some (inner, port) else None
  | _ => if has_char (Ascii.eqb ":"%char) host || has_char bracket s then None
         else Some (host, port)
  end.

(** ** Transport paths *)

Record TransportPath := mkPath { Path_Node : string; Path_Endpoint : string; Path_PeerPublicKey : string }.

Record WireGuardProfile := mkProfile {
  Wg_PrivateKey : string;
  Wg_Address : string;
  Wg_MTU : Z;
  Wg_PeerPublicKey : string;
  Wg_PresharedKey : string;
  Wg_AllowedIPs : list string;
  Wg_PersistentKeepalive : Z;
}.

Record RuntimeConfig := mkRuntimeConfig {
  Rc_Paths : list TransportPath;
  Rc_ConfigVersion : Z;
  Rc_Controllers : list string;
  Rc_WGShimServer : string;
  Rc_WGShimServers : list string;
  Rc_WGShimListen : string;
  Rc_WGShimTarget : string;
  Rc_WGShimPSK : string;
  Rc_PaddingMin : Z;
  Rc_PaddingMax : Z;
  Rc_LegacyTunnel : string;
  Rc_UpdateChannel : string;
  Rc_WireGuard : option WireGuardProfile;
}.

Definition TransportPaths (c : RuntimeConfig) : list TransportPath :=
  match Rc_Paths c with
  | [] =>
      let servers := match Rc_WGShimServers c with [] => [Rc_WGShimServer c] | l => l end in
      (λ endpoint, mkPath "" endpoint "") <$> servers
  | paths => paths
  end.

Section agent_config.
Context `{URL : GoURL} `{UC : UnicodeCase} `{P6 : Prefix6} `{PK : PublicKeys}.

(** The characters of [strings.ContainsAny(host, " /\\\t\r\n")]. *)
Definition host_char_bad (c : ascii) : bool :=
  bool_decide (nat_of_ascii c ∈ [32; 47; 92; 9; 13; 10]%nat).

Definition endpoint_ok (endpoint : string) : bool :=
  match SplitHostPort endpoint with
  | Some (host, port) =>
      negb (String.eqb host "") && negb (has_char host_char_bad host)
      && match parse_int port with Some n => (1 <=? n) && (n <=? 65535) | None => false end
  | None => false
  end.

Fixpoint validate_paths (wg : option WireGuardProfile) (seen : list string) (paths : list TransportPath)
    : result unit :=
  match paths with
  | [] => Ok tt
  | path :: rest =>
      check (negb (endpoint_ok (Path_Endpoint path))) "invalid transport path endpoint %q" ;;
      let key := lower (Path_Endpoint path) in
      check (bool_decide (key ∈ seen)) "duplicate transport path endpoint %q" ;;
      check (negb (String.eqb (Path_PeerPublicKey path) "")
             && match wg with
                | None => true
                | Some p => negb (String.eqb (Path_PeerPublicKey path) (Wg_PeerPublicKey p))
                end) "path %q terminates a different overlay peer" ;;
      validate_paths wg (key :: seen) rest
  end.

Definition ValidatePaths (c : RuntimeConfig) : result unit :=
  let paths := TransportPaths c in
  check ((zlen paths =? 0) || (16 <? zlen paths)) "runtime path count must be between 1 and 16" ;;
  validate_paths (Rc_WireGuard c) [] paths.

(** ** WireGuard profiles *)

Definition key_ok (allowZero : bool) (key : string) : bool := is_ok (ParseWGKey key allowZero).

Definition allowed_ip_ok (value : string) : bool :=
  match parse_prefix4 (trim_space value) with Some _ => true | None => prefix6_ok (trim_space value) end.

Definition validateWireGuardProfile (p : WireGuardProfile) (requirePrivate : bool) : result unit :=
  check (requirePrivate && negb (key_ok false (Wg_PrivateKey p))) "private key: %w" ;;
  check (negb (key_ok false (Wg_PeerPublicKey p))) "peer public key: %w" ;;
  check (negb (blank (Wg_PresharedKey p)) && negb (key_ok true (Wg_PresharedKey p)))
    "preshared key: %w" ;;
  check (match parse_prefix4 (trim_space (Wg_Address p)) with Some _ => false | None => true end)
    "address must be an IPv4 CIDR" ;;
  check ((Wg_MTU p <? 576) || (9000 <? Wg_MTU p)) "MTU must be between 576 and 9000" ;;
  check (zlen (Wg_AllowedIPs p) =? 0) "allowed IP list is empty" ;;
  for_each (λ value, check (negb (allowed_ip_ok value)) "invalid allowed IP %q") (Wg_AllowedIPs p) ;;
  check ((Wg_PersistentKeepalive p <? 0) || (65535 <? Wg_PersistentKeepalive p))
    "persistent keepalive is out of range".

Definition ValidateWireGuardProfile (p : WireGuardProfile) : result unit :=
  validateWireGuardProfile p true.
Definition ValidateWireGuardServerProfile (p : WireGuardProfile) : result unit :=
  validateWireGuardProfile p false.
Definition Complete (p : WireGuardProfile) : bool := is_ok (ValidateWireGuardProfile p).

Definition WGKeyHex (encoded : string) (allowZero : bool) : result string :=
  key ← ParseWGKey encoded allowZero; Ok (hex_encode key).

(** *** [ParseWireGuardShowConf] *)

Record show_state := mkShow { sh_section : string; sh_peers : Z; sh_profile : WireGuardProfile }.

Definition set_private p v := mkProfile v (Wg_Address p) (Wg_MTU p) (Wg_PeerPublicKey p)
  (Wg_PresharedKey p) (Wg_AllowedIPs p) (Wg_PersistentKeepalive p).
Definition set_peer_key p v := mkProfile (Wg_PrivateKey p) (Wg_Address p) (Wg_MTU p) v
  (Wg_PresharedKey p) (Wg_AllowedIPs p) (Wg_PersistentKeepalive p).
Definition set_preshared p v := mkProfile (Wg_PrivateKey p) (Wg_Address p) (Wg_MTU p)
  (Wg_PeerPublicKey p) v (Wg_AllowedIPs p) (Wg_PersistentKeepalive p).
Definition add_allowed p v := mkProfile (Wg_PrivateKey p) (Wg_Address p) (Wg_MTU p)
  (Wg_PeerPublicKey p) (Wg_PresharedKey p) (Wg_AllowedIPs p ++ v) (Wg_PersistentKeepalive p).
Definition set_keepalive p v := mkProfile (Wg_PrivateKey p) (Wg_Address p) (Wg_MTU p)
  (Wg_PeerPublicKey p) (Wg_PresharedKey p) (Wg_AllowedIPs p) v.

(** A [key = value] line of a section. *)
Definition show_value (st : show_state) (key value : string) : result show_state :=
  let p := sh_profile st in
  let with_profile p := Ok (mkShow (sh_section st) (sh_peers st) p) in
  if String.eqb (sh_section st) "interface" then
    if String.eqb key "privatekey" then with_profile (set_private p value) else Ok st
  else if String.eqb (sh_section st) "peer" then
    if String.eqb key "publickey" then with_profile (set_peer_key p value)
    else if String.eqb key "presharedkey" then with_profile (set_preshared p value)
    else if String.eqb key "allowedips" then
      with_profile (add_allowed p (filter (λ cidr, cidr ≠ "") (trim_space <$> split_on ","%char value)))
    else if String.eqb key "persistentkeepalive" then
      match parse_int value with
      | Some n => with_profile (set_keepalive p n)
      | None => Err "parse PersistentKeepalive: %w"
      end
    else Ok st
  else Ok st.

Definition line_feed : ascii := "010"%char.
Definition carriage_return : ascii := "013"%char.

(** [line[1 : len(line)-1]] is in range: a line with both brackets has two characters. *)
Definition show_line (st : show_state) (rawLine : string) : result show_state :=
  let line := trim_space (trim_suffix_char carriage_return rawLine) in
  if String.eqb line "" || has_prefix line "#" || has_prefix line ";" then Ok st
  else if has_prefix line "[" && has_prefix (str_rev "" line) "]" then
    let section := lower (trim_space (str_rev "" (str_drop 1 (str_rev "" (str_drop 1 line))))) in
    if String.eqb section "peer" then
      check (1 <? sh_peers st + 1) "legacy migration supports exactly one WireGuard peer" ;;
      Ok (mkShow section (sh_peers st + 1) (sh_profile st))
    else Ok (mkShow section (sh_peers st) (sh_profile st))
  else match cut "="%char line with
  | None => Ok st
  | Some (key, value) => show_value st (lower (trim_space key)) (trim_space value)
  end.

Fixpoint show_lines (st : show_state) (lines : list string) : result show_state :=
  match lines with
  | [] => Ok st
  | line :: rest => st ← show_line st line; show_lines st rest
  end.

Definition ParseWireGuardShowConf (text address : string) (mtu : Z) : result WireGuardProfile :=
  let start := mkShow "" 0 (mkProfile "" (trim_space address) mtu "" "" [] 0) in
  st ← show_lines start (split_on line_feed text);
  check (negb (sh_peers st =? 1)) "legacy migration expected one WireGuard peer, found %d" ;;
  ValidateWireGuardProfile (sh_profile st) ;;
  Ok (sh_profile st).

(** ** Controllers *)

Fixpoint normalize_urls (result_ : list string) (values : list string) : result (list string) :=
  match values with
  | [] => Ok result_
  | raw :: rest =>
      let baseURL := trim_right "/"%char (trim_space raw) in
      if String.eqb baseURL "" then normalize_urls result_ rest
      else match url_parse baseURL with
      | None => Err "parse control URL: %w"
      | Some (scheme, host) =>
          check (negb (String.eqb scheme "https") || String.eqb host "") "control URL must be HTTPS" ;;
          if bool_decide (baseURL ∈ result_) then normalize_urls result_ rest
          else normalize_urls (result_ ++ [baseURL]) rest
      end
  end.

Definition normalizeControlURLs (values : list string) : result (list string) :=
  urls ← normalize_urls [] values;
  check (zlen urls =? 0) "at least one HTTPS control URL is required" ;;
  check (16 <? zlen urls) "control URL pool is too large" ;;
  Ok urls.

(** ** Runtime configuration *)

Definition ValidateRuntimeConfig (cfg : RuntimeConfig) : result unit :=
  (if 0 <? zlen (Rc_Controllers cfg)
   then check (negb (is_ok (normalizeControlURLs (Rc_Controllers cfg)))) "runtime Controller pool: %w"
   else Ok tt) ;;
  check (blank (Rc_WGShimListen cfg) || blank (Rc_WGShimTarget cfg) || blank (Rc_WGShimPSK cfg))
    "runtime config field %s is empty" ;;
  ValidatePaths cfg ;;
  check (bool_decide (Rc_Paths cfg = []) && (0 <? zlen (Rc_WGShimServers cfg))
         && negb (bool_decide (Rc_WGShimServer cfg ∈ Rc_WGShimServers cfg)))
    "runtime WGShim server pool does not contain the primary endpoint" ;;
  check (match base64_decode (Rc_WGShimPSK cfg) with Some key => negb (zlen key =? 32) | None => true end)
    "runtime WGShim key is invalid" ;;
  check ((Rc_PaddingMin cfg <? 0) || (Rc_PaddingMax cfg <? Rc_PaddingMin cfg) || (255 <? Rc_PaddingMax cfg))
    "runtime padding range is invalid" ;;
  match Rc_WireGuard cfg with
  | Some profile => check (negb (is_ok (ValidateWireGuardServerProfile profile)))
                      "runtime WireGuard profile: %w"
  | None => Ok tt
  end.
End agent_config.
