(* ===== verification/AgentControl.v ===== *)
(** * The Controller client and the state of an agent ([internal/agentctl]:
    [control.go], [p2p.go])

    The network is a class: a request gets a reply or none.  [encoding/json] decodes
    into a variable that already has a value, and may change it although it fails;
    [JsonBody] says so. *)

From Stdlib Require Import Strings.Byte Strings.Ascii.
From S2P Require Import Prelude GoLib GoNet GoStrings GoEncoding Netip Crypto P2pGrant AgentConfig.

Definition BootstrapVersion : Z := 3.
Definition LegacyBootstrapVersion : Z := 2.
Definition StateVersion : Z := 2.
Definition LegacyStateVersion : Z := 1.

Record Bootstrap := mkBootstrap {
  Bs_Version : Z;
  Bs_Device : string;
  Bs_ControlURL : string;
  Bs_ControlURLs : list string;
  Bs_EnrollToken : string;
  Bs_UpdatePublicKey : string;
  Bs_LegacyTunnel : string;
}.

Record State := mkAgentState {
  As_Version : Z;
  As_DeviceID : string;
  As_DeviceName : string;
  As_AccessToken : string;
  As_AccessExpiresAt : Z;
  As_RefreshToken : string;
  As_RefreshExpiresAt : Z;
  As_DeviceToken : string;
  As_PublicKey : string;
  As_PrivateKey : string;
  As_ControlURL : string;
  As_ControlURLs : list string;
  As_UpdatePubKey : string;
  As_Config : RuntimeConfig;
  As_WireGuard : WireGuardProfile;
}.

(** What the client sends. *)
Inductive payload :=
| EnrollmentRequest (Token Device PublicKey WireGuardPublicKey Version : string)
| LoginRequest (Username Password : string)
| DeviceRegistrationRequest (DeviceID Name PublicKey WireGuardPublicKey Version Proof : string)
| RefreshRequest (RefreshToken Proof : string)
| LogoutRequest (RefreshToken : string)
| RevokeRequest (DeviceID : string)
| HeartbeatRequest (Version Transport Status : string)
| ConsentRequest (enabled : bool) (expected proof : string)
| HostRequest (host : string)
| TicketsRequest (tickets : list bytes)
| CapabilityRequest.

(** What the Controller answers. *)
Record EnrollmentResponse := mkEnrolled {
  En_DeviceID : string; En_DeviceToken : string; En_Config : RuntimeConfig; En_WireGuard : WireGuardProfile;
}.
Record LoginResponse := mkLogin { Lg_AccessToken : string; Lg_AccessExpiresAt : Z; Lg_UserID : string }.
Record DeviceRegistrationResponse := mkRegistered {
  Rg_DeviceID : string;
  Rg_AccessToken : string;
  Rg_AccessExpiresAt : Z;
  Rg_RefreshToken : string;
  Rg_RefreshExpiresAt : Z;
  Rg_Config : RuntimeConfig;
  Rg_WireGuard : WireGuardProfile;
}.
Record RefreshResponse := mkRefreshed {
  Rf_DeviceID : string;
  Rf_AccessToken : string;
  Rf_AccessExpiresAt : Z;
  Rf_RefreshToken : string;
  Rf_RefreshExpiresAt : Z;
}.
Record UpdateManifest := mkManifest {
  Mf_Version : string; Mf_URL : string; Mf_SHA256 : string; Mf_Signature : string;
}.
Record P2PInfo := mkInfo {
  Pi_Capabilities : list string;
  Pi_ClusterID : string;
  Pi_DeviceID : string;
  Pi_IssuerPublicKey : string;
  Pi_IssuerCertificateSHA256 : string;
  Pi_Enabled : bool;
  Pi_AccessSHA256 : string;
  Pi_AccountMode : bool;
}.
Record P2PPeer := mkPeer { Pp_ID : string; Pp_Name : string; Pp_Address : string }.
Record P2POffer := mkOffer { Of_Ticket : bytes; Of_Relay : string; Of_ExpiresAt : Z }.

(** [json.Decoder.Decode] into a variable of type [A]: its new value and whether it
    succeeded. *)
Class JsonBody (A : Type) := { body_zero : A; decode_into : A → bytes → A * bool }.

Class PayloadJson := { marshal_payload : payload → bytes }.

Record http_request := mkRequest {
  req_method : string; req_url : string; req_token : string; req_body : option bytes;
}.
Inductive http_reply := Unreachable | Reply (status : Z) (body : bytes).

(** [http.Client.Do]. *)
Class HttpClient (N : Type) := { http_do : N → http_request → N * http_reply }.

Record Client := mkClient { Cl_BaseURL : string; Cl_BaseURLs : list string; Cl_Token : string }.

Section client.
Context `{URL : GoURL} `{UC : UnicodeCase} `{P6 : Prefix6} `{PK : PublicKeys}.
Context `{PJ : PayloadJson} {N : Type} `{HC : HttpClient N}.

Definition NewMultiClient (baseURLs : list string) (token : string) : result Client :=
  normalized ← normalizeControlURLs baseURLs;
  match normalized with
  | first :: _ => Ok (mkClient first normalized (trim_space token))
  | [] => Panic
  end.

Definition NewClient (baseURL token : string) : result Client := NewMultiClient [baseURL] token.

(** ** Requests with failover *)

Definition retryable (status : Z) : bool := (status =? 502) || (status =? 503) || (status =? 504).
Definition decode_limit : Z := 1048576.

(** The loop of [doJSON] over the Controllers: the network, the Controller that
    answered, the decoded variable and the result.  [decode] is [None] when the caller
    wants no body. *)
Fixpoint try_controllers {A} (decode : option (A → bytes → A * bool)) (method path token : string)
    (body : option bytes) (endpoints : list string) (lastErr : string) (net : N) (base : string) (out : A)
    : N * string * A * result unit :=
  match endpoints with
  | [] => (net, base, out, Err lastErr)
  | baseURL :: rest =>
      match url_parse (baseURL +:+ path) with
      | None => (net, base, out, Err "parse request URL")
      | Some _ =>
          let '(net, reply) := http_do net (mkRequest method (baseURL +:+ path) token body) in
          match reply with
          | Unreachable => try_controllers decode method path token body rest "%s %s via %s: %w" net base out
          | Reply status raw =>
              if retryable status
              then try_controllers decode method path token body rest "%s %s via %s: HTTP %d: %s" net base out
              else if (status <? 200) || (300 <=? status) then (net, base, out, Err "%s %s: HTTP %d: %s")
              else match decode with
              | None => (net, baseURL, out, Ok tt)
              | Some d =>
                  let '(out, ok) := d out (limit_reader decode_limit raw) in
                  if (ok : bool) then (net, baseURL, out, Ok tt)
                  else try_controllers decode method path token body rest "decode %s %s response: %w" net
                         base out
              end
          end
      end
  end.

Definition set_base (c : Client) (base : string) : Client := mkClient base (Cl_BaseURLs c) (Cl_Token c).
Definition set_token (c : Client) (token : string) : Client := mkClient (Cl_BaseURL c) (Cl_BaseURLs c) token.

Definition controllers (c : Client) : list string :=
  match Cl_BaseURLs c with [] => [Cl_BaseURL c] | l => l end.

Definition doJSON {A} (decode : option (A → bytes → A * bool)) (zero : A) (c : Client) (net : N)
    (method path token : string) (body : option payload) : Client * N * result A :=
  let '(net, base, out, r) :=
    try_controllers decode method path token (marshal_payload <$> body) (controllers c)
      "%s %s: no Controller endpoints available" net (Cl_BaseURL c) zero in
  (set_base c base, net, r ;; Ok out).

Definition call_json {A} `{JB : JsonBody A} := doJSON (Some decode_into) body_zero.
Definition call_unit := doJSON (@None (unit → bytes → unit * bool)) tt.

(** A response that must satisfy a check. *)
Definition checked {A} (x : Client * N * result A) (bad : A → bool) (err : string)
    : Client * N * result A :=
  let '(c, net, r) := x in (c, net, out ← r; check (bad out) err ;; Ok out).

Context `{JEn : JsonBody EnrollmentResponse} `{JLg : JsonBody LoginResponse}.
Context `{JRg : JsonBody DeviceRegistrationResponse} `{JRf : JsonBody RefreshResponse}.
Context `{JRc : JsonBody RuntimeConfig} `{JMf : JsonBody UpdateManifest}.

Definition incomplete_profile (p : WireGuardProfile) : bool := blank (Wg_Address p) || blank (Wg_PeerPublicKey p).

Definition Enroll (c : Client) (net : N) (req : payload) : Client * N * result EnrollmentResponse :=
  checked (checked (call_json (A := EnrollmentResponse) c net "POST" "/v1/enroll" "" (Some req))
    (λ r, String.eqb (En_DeviceID r) "" || String.eqb (En_DeviceToken r) "")
    "control plane returned incomplete enrollment response")
    (λ r, incomplete_profile (En_WireGuard r)) "control plane returned incomplete WireGuard profile".

Definition Login (c : Client) (net : N) (username password : string) : Client * N * result LoginResponse :=
  checked (call_json c net "POST" "/v1/auth/login" "" (Some (LoginRequest username password)))
    (λ r, String.eqb (Lg_AccessToken r) "" || (Lg_AccessExpiresAt r =? 0) || String.eqb (Lg_UserID r) "")
    "control plane returned incomplete login response".

Definition registerDevice (c : Client) (net : N) (path accessToken : string) (req : payload)
    : Client * N * result DeviceRegistrationResponse :=
  checked (checked (call_json (A := DeviceRegistrationResponse) c net "POST" path accessToken (Some req))
    (λ r, String.eqb (Rg_DeviceID r) "" || String.eqb (Rg_AccessToken r) "" || String.eqb (Rg_RefreshToken r) "")
    "control plane returned incomplete device registration response")
    (λ r, incomplete_profile (Rg_WireGuard r)) "control plane returned incomplete WireGuard profile".

Definition RegisterDevice c net accessToken req := registerDevice c net "/v1/devices/register" accessToken req.

Definition ReauthenticateDevice (c : Client) (net : N) (token device : string) (req : payload)
    : Client * N * result DeviceRegistrationResponse :=
  if String.eqb device "" then (c, net, Err "existing device ID is required for sign-in recovery")
  else registerDevice c net "/v1/devices/reauthenticate" token req.

Definition Refresh (c : Client) (net : N) (refreshToken proof : string) : Client * N * result RefreshResponse :=
  checked (call_json c net "POST" "/v1/auth/refresh" "" (Some (RefreshRequest refreshToken proof)))
    (λ r, String.eqb (Rf_AccessToken r) "" || String.eqb (Rf_RefreshToken r) ""
          || (Rf_AccessExpiresAt r =? 0) || (Rf_RefreshExpiresAt r =? 0))
    "control plane returned incomplete refresh response".

Definition Logout (c : Client) (net : N) (accessToken refreshToken : string) : Client * N * result unit :=
  call_unit c net "POST" "/v1/auth/logout" accessToken (Some (LogoutRequest refreshToken)).

Definition RevokeDevice (c : Client) (net : N) (accessToken deviceID : string) : Client * N * result unit :=
  call_unit c net "POST" "/v1/devices/revoke" accessToken (Some (RevokeRequest deviceID)).

Definition FetchConfig (c : Client) (net : N) : Client * N * result RuntimeConfig :=
  call_json c net "GET" "/v1/config" (Cl_Token c) None.

Definition Heartbeat (c : Client) (net : N) (req : payload) : Client * N * result unit :=
  call_unit c net "POST" "/v1/heartbeat" (Cl_Token c) (Some req).

Definition FetchUpdateManifest (c : Client) (net : N) : Client * N * result UpdateManifest :=
  checked (call_json (A := UpdateManifest) c net "GET" "/v1/update/manifest" (Cl_Token c) None)
    (λ m, String.eqb (Mf_Version m) "") "update manifest does not contain a version".
End client.

(** ** Proofs of a Device *)

Section proofs.
Context `{ED : Ed25519}.

Definition SignDeviceProof (privateB64 : string) (message : bytes) : result string :=
  match base64_decode (trim_space privateB64) with
  | None => Err "decode device private key: %w"
  | Some raw =>
      check (negb (zlen raw =? 64)) "device private key has invalid length" ;;
      Ok (base64_encode (ed_sign raw message))
  end.

Definition newline : string := String "010"%char "".

Definition RegistrationSigningBytes (accessToken publicKey wireGuardPublicKey : string) : bytes :=
  str_bytes ("bpc-register-v1" +:+ newline +:+ trim_space accessToken +:+ newline
    +:+ trim_space publicKey +:+ newline +:+ trim_space wireGuardPublicKey +:+ newline).

Definition RefreshSigningBytes (refreshToken : string) : bytes :=
  str_bytes ("bpc-refresh-v1" +:+ newline +:+ trim_space refreshToken +:+ newline).
End proofs.

(** ** The state *)

Section state.
Context `{URL : GoURL} `{UC : UnicodeCase} `{P6 : Prefix6} `{PK : PublicKeys}.

Definition ControlCredential (s : State) : string :=
  if blank (As_AccessToken s) then trim_space (As_DeviceToken s) else trim_space (As_AccessToken s).

Definition ControlEndpoints (s : State) : list string :=
  match normalizeControlURLs ([As_ControlURL s] ++ As_ControlURLs s ++ Rc_Controllers (As_Config s)) with
  | Ok normalized => normalized
  | _ => [As_ControlURL s]
  end.

Definition Bootstrap_ControlEndpoints (b : Bootstrap) : list string :=
  match normalizeControlURLs ([Bs_ControlURL b] ++ Bs_ControlURLs b) with
  | Ok normalized => normalized
  | _ => [Bs_ControlURL b]
  end.

Definition NeedsRefresh (s : State) (now : Z) : bool :=
  if blank (As_RefreshToken s) then false
  else if blank (As_AccessToken s) then true
  else As_AccessExpiresAt s <=? time_unix (now + 60 * second).

Definition with_wireguard (c : RuntimeConfig) (wg : option WireGuardProfile) : RuntimeConfig :=
  mkRuntimeConfig (Rc_Paths c) (Rc_ConfigVersion c) (Rc_Controllers c) (Rc_WGShimServer c)
    (Rc_WGShimServers c) (Rc_WGShimListen c) (Rc_WGShimTarget c) (Rc_WGShimPSK c) (Rc_PaddingMin c)
    (Rc_PaddingMax c) (Rc_LegacyTunnel c) (Rc_UpdateChannel c) wg.

(** [State.ValidateRuntimeConfig] *)
Definition State_ValidateRuntimeConfig (s : State) : result unit :=
  let cfg := As_Config s in
  ValidateRuntimeConfig
    (match Rc_WireGuard cfg with
     | None => if String.eqb (Wg_PeerPublicKey (As_WireGuard s)) "" then cfg
               else with_wireguard cfg (Some (set_preshared (set_private (As_WireGuard s) "") ""))
     | Some _ => cfg
     end).

Definition ParseUpdatePublicKey (encoded : string) : result bytes :=
  match base64_decode (trim_space encoded) with
  | None => Err "illegal base64 data at input byte %d"
  | Some raw =>
      match pkix_ed25519 raw with
      | None => Err "public key PEM is invalid"
      | Some key => Ok key
      end
  end.

Definition ValidateBootstrap (b : Bootstrap) : result unit :=
  check (negb (Bs_Version b =? BootstrapVersion) && negb (Bs_Version b =? LegacyBootstrapVersion))
    "unsupported bootstrap version %d" ;;
  check (blank (Bs_Device b)) "bootstrap device is empty" ;;
  check ((Bs_Version b =? LegacyBootstrapVersion) && blank (Bs_EnrollToken b))
    "legacy bootstrap enrollment token is empty" ;;
  NewMultiClient (Bootstrap_ControlEndpoints b) "" ;;
  check (negb (is_ok (ParseUpdatePublicKey (Bs_UpdatePublicKey b)))) "bootstrap update public key: %w".
End state.

(** *** The state file *)

(** [json.MarshalIndent] and [json.Unmarshal] of a state whose strings are valid
    UTF-8. *)
Class StateJson := {
  state_json : State → bytes;
  state_of_json : bytes → option State;
  json_state : State → bool;
  state_json_roundtrip : ∀ s, json_state s = true → state_of_json (state_json s) = Some s;
}.

(** The file at the path, if there is one. *)
Abbreviation state_file := (option bytes).

Section state_file.
Context `{SJ : StateJson}.

(** [SaveState] writes a temporary file, which is removed unless it is renamed;
    [fault] is the step that fails. *)
Definition SaveState (file : state_file) (fault : option string) (s : State)
    : state_file * result unit :=
  match fault with
  | Some e => (file, Err e)
  | None => (Some (state_json s), Ok tt)
  end.

Definition LoadState (file : state_file) : result State :=
  match file with
  | None => Err "file does not exist"
  | Some raw =>
      match state_of_json raw with
      | None => Err "invalid state"
      | Some s =>
          check (negb (As_Version s =? StateVersion) && negb (As_Version s =? LegacyStateVersion))
            "unsupported agent state version %d" ;;
          Ok s
      end
  end.
End state_file.

(** ** Updates *)

Section updates.
Context `{ED : Ed25519} `{PK : PublicKeys} `{HS : Hashes} `{UC : UnicodeCase}.

Definition manifestSigningBytes (m : UpdateManifest) : bytes :=
  str_bytes (Mf_Version m +:+ newline +:+ lower (Mf_SHA256 m) +:+ newline +:+ Mf_URL m +:+ newline).

Definition VerifyUpdateManifest (m : UpdateManifest) (encodedPublicKey : string) : result unit :=
  check (String.eqb (Mf_Version m) "" || String.eqb (Mf_URL m) "" || String.eqb (Mf_SHA256 m) ""
         || String.eqb (Mf_Signature m) "") "update manifest is incomplete" ;;
  check (negb (bool_decide (is_Some (hex_decode (Mf_SHA256 m)))) || negb (str_len (Mf_SHA256 m) =? 64))
    "update manifest SHA256 is invalid" ;;
  publicKey ← ParseUpdatePublicKey encodedPublicKey;
  match base64_decode (Mf_Signature m) with
  | None => Err "update manifest signature is invalid base64"
  | Some signature =>
      check (negb (ed_verify publicKey (manifestSigningBytes m) signature))
        "update manifest signature verification failed"
  end.

(** [strings.EqualFold] with a lower-case hexadecimal string: no character outside
    ASCII folds to a hexadecimal digit. *)
Definition lower_ascii_byte (b : byte) : byte :=
  if (65 <=? byte_val b) && (byte_val b <=? 90) then byte_of (byte_val b + 32) else b.
Definition equal_fold_hex (hex s : string) : bool :=
  bool_decide (str_bytes hex = (lower_ascii_byte <$> str_bytes s)).

(** [VerifyFileSHA256] of a file's contents. *)
Definition VerifyFileSHA256 (file : option bytes) (expected : string) : result unit :=
  match file with
  | None => Err "open"
  | Some contents =>
      check (negb (equal_fold_hex (hex_encode (sha256 contents)) (trim_space expected)))
        "update SHA256 mismatch: expected %s, got %s"
  end.
End updates.

(** *** Versions *)

(** [fmt.Sprintf("%d", n)], the digits of a natural number and its sign. *)
Fixpoint print_digits (fuel : nat) (n : Z) (acc : string) : string :=
  match fuel with
  | O => acc
  | S fuel =>
      let acc := String (ascii_of_N (Z.to_N (48 + n mod 10))) acc in
      if n / 10 =? 0 then acc else print_digits fuel (n / 10) acc
  end.

Definition print_int (n : Z) : string :=
  if n <? 0 then String "-"%char (print_digits 20 (- n) "") else print_digits 20 n "".

(** A part of a version: [Sscanf] reads the number at its start, which must print as
    the whole part. *)
Definition version_part (part : string) : option Z :=
  n ← parse_int part; if String.eqb (print_int n) part then Some n else None.

Definition parseStableSemver (value : string) : option (list Z) :=
  let parts := split_on "."%char (trim_prefix (trim_space value) "v") in
  if zlen parts =? 3 then mapM version_part parts else None.

Fixpoint newer (a b : list Z) : bool :=
  match a, b with
  | x :: a, y :: b => if y <? x then true else if x <? y then false else newer a b
  | _, _ => false
  end.

Definition IsNewerVersion (candidate current : string) : bool :=
  match parseStableSemver candidate, parseStableSemver current with
  | Some a, Some b => newer a b
  | _, _ => false
  end.

(** ** P2P requests ([p2p.go]) *)

Definition P2PCapability : string := "p2p-session-v1".

Definition p2pHex (value : string) (len : Z) : bool :=
  match hex_decode value with
  | Some raw => (str_len value =? len) && String.eqb (hex_encode raw) value
  | None => false
  end.

Section p2p.
Context `{URL : GoURL} `{PJ : PayloadJson} {N : Type} `{HC : HttpClient N} `{HS : Hashes} `{ED : Ed25519}.
Context `{JPi : JsonBody P2PInfo} `{JTk : JsonBody bytes} `{JPs : JsonBody (list P2PPeer)}.
Context `{JOf : JsonBody (option P2POffer)}.

Definition info_bad (i : P2PInfo) : bool :=
  match base64_decode (Pi_IssuerPublicKey i) with
  | None => true
  | Some key => negb (zlen key =? 32) || negb (String.eqb (base64_encode key) (Pi_IssuerPublicKey i))
  end
  || String.eqb (Pi_ClusterID i) "" || negb (p2pHex (Pi_DeviceID i) 32)
  || negb (p2pHex (Pi_IssuerCertificateSHA256 i) 64)
  || negb (bool_decide (Pi_Capabilities i = [P2PCapability])).

Definition FetchP2PInfo (c : Client) (net : N) : Client * N * result P2PInfo :=
  checked (call_json c net "GET" "/v1/p2p/info" (Cl_Token c) None) info_bad
    "invalid P2P Controller capabilities/trust".

Definition P2PConsentSigningBytes (token device : string) (enabled : bool) (expected : string)
    : result bytes :=
  check (negb (p2pHex token 64) || negb (p2pHex device 32)
         || (negb (String.eqb expected "") && negb (p2pHex expected 64))) "invalid P2P consent context" ;;
  Ok (str_bytes ("BPC-P2P-CONSENT-v1" +:+ newline +:+ hex_encode (sha256 (str_bytes token)) +:+ newline
    +:+ device +:+ newline +:+ (if enabled then "true" else "false") +:+ newline +:+ expected)).

Definition SetP2PConsent (c : Client) (net : N) (info : P2PInfo) (enabled : bool) (devicePrivateKey : string)
    : Client * N * result unit :=
  match (message ← P2PConsentSigningBytes (Cl_Token c) (Pi_DeviceID info) enabled (Pi_AccessSHA256 info);
         SignDeviceProof devicePrivateKey message) with
  | Ok proof => call_unit c net "POST" "/v1/p2p/consent" (Cl_Token c)
                  (Some (ConsentRequest enabled (Pi_AccessSHA256 info) proof))
  | Err e => (c, net, Err e)
  | Panic => (c, net, Panic)
  end.

Definition ticket_bad (ticket : bytes) : bool := (zlen ticket =? 0) || (8192 <? zlen ticket).

Definition IssueP2PGrant (c : Client) (net : N) (hostDeviceID : string) : Client * N * result bytes :=
  if negb (p2pHex hostDeviceID 32) then (c, net, Err "invalid P2P host identifier")
  else checked (call_json c net "POST" "/v1/p2p/issue" (Cl_Token c) (Some (HostRequest hostDeviceID)))
         ticket_bad "invalid P2P grant response".

Definition SyncP2PPolicy (c : Client) (net : N) (tickets : list bytes) : Client * N * result bytes :=
  if 16 <? zlen tickets then (c, net, Err "too many P2P tickets")
  else if List.existsb ticket_bad tickets then (c, net, Err "invalid P2P ticket")
  else checked (call_json c net "POST" "/v1/p2p/sync" (Cl_Token c) (Some (TicketsRequest tickets)))
         ticket_bad "invalid P2P checkpoint response".

Definition P2PPeers (c : Client) (net : N) : Client * N * result (list P2PPeer) :=
  checked (checked (call_json (A := list P2PPeer) c net "POST" "/v1/p2p/peers" (Cl_Token c)
                      (Some CapabilityRequest))
    (λ peers, 128 <? zlen peers) "too many P2P peers")
    (λ peers, List.existsb (λ peer, negb (p2pHex (Pp_ID peer) 32)) peers) "invalid P2P peer".

Definition ConnectP2P (c : Client) (net : N) (host : string) : Client * N * result unit :=
  if negb (p2pHex host 32) then (c, net, Err "invalid P2P host")
  else call_unit c net "POST" "/v1/p2p/connect" (Cl_Token c) (Some (HostRequest host)).

Definition P2PInbox (c : Client) (net : N) : Client * N * result (option P2POffer) :=
  checked (call_json (A := option P2POffer) c net "POST" "/v1/p2p/inbox" (Cl_Token c)
             (Some CapabilityRequest))
    (λ offer, match offer with
              | Some o => ticket_bad (Of_Ticket o) || (260 <? str_len (Of_Relay o))
              | None => false
              end) "invalid P2P delivery".
End p2p.

(** ** Facts *)

(** *** Versions *)

(** The reference: versions are ordered lexicographically. *)
Definition version_lt (a b : list Z) : Prop :=
  match a, b with
  | [x1; x2; x3], [y1; y2; y3] => x1 < y1 ∨ x1 = y1 ∧ (x2 < y2 ∨ x2 = y2 ∧ x3 < y3)
  | _, _ => False
  end.

Lemma parseStableSemver_length v l : parseStableSemver v = Some l → ∃ x y z, l = [x; y; z].
Proof.
  unfold parseStableSemver. destruct (Z.eqb_spec (zlen (split_on "."%char (trim_prefix (trim_space v) "v"))) 3)
    as [E|]; [|done]. intros H. apply length_mapM in H. unfold zlen in E.
  destruct l as [|x [|y [|z [|u l]]]]; cbn in H; try lia. by exists x, y, z.
Qed.

Lemma newer_lt x y z x' y' z' : newer [x; y; z] [x'; y'; z'] = true ↔ version_lt [x'; y'; z'] [x; y; z].
Proof.
  cbn. destruct (Z.ltb_spec x' x), (Z.ltb_spec x x'), (Z.ltb_spec y' y), (Z.ltb_spec y y'),
    (Z.ltb_spec z' z), (Z.ltb_spec z z'); split; intros; try done; lia.
Qed.

(** The version test of updates is the lexicographic order of stable versions: an
    update is newer exactly when both versions are three decimal numbers and the new
    one is greater; so no version is newer than itself, updates that are newer step by
    step are newer than where they started, and of two different stable versions
    exactly one is newer. *)
Lemma IsNewerVersion_order a b c :
  (IsNewerVersion a b = true ↔
   ∃ x y, parseStableSemver a = Some x ∧ parseStableSemver b = Some y ∧ version_lt y x) ∧
  IsNewerVersion a a = false ∧
  (IsNewerVersion a b = true → IsNewerVersion b c = true → IsNewerVersion a c = true) ∧
  (∀ x y, parseStableSemver a = Some x → parseStableSemver b = Some y → x ≠ y →
     IsNewerVersion a b = negb (IsNewerVersion b a)).
Proof.
  assert (∀ a b, IsNewerVersion a b = true ↔
    ∃ x y, parseStableSemver a = Some x ∧ parseStableSemver b = Some y ∧ version_lt y x) as Iff.
  { intros u v. unfold IsNewerVersion. split.
    - destruct (parseStableSemver u) as [x|] eqn:Ea; [|done].
      destruct (parseStableSemver v) as [y|] eqn:Eb; [|done].
      apply parseStableSemver_length in Ea as (? & ? & ? & ->).
      apply parseStableSemver_length in Eb as (? & ? & ? & ->). rewrite newer_lt. eauto.
    - intros (x & y & Ea & Eb & L). rewrite Ea, Eb.
      apply parseStableSemver_length in Ea as (? & ? & ? & ->).
      apply parseStableSemver_length in Eb as (? & ? & ? & ->). by rewrite newer_lt. }
  split_and!; [apply Iff| | |].
  - apply not_true_iff_false. rewrite Iff. intros (x & y & Ea & Eb & L). simplify_eq.
    apply parseStableSemver_length in Ea as (? & ? & ? & ->). cbn in L. lia.
  - rewrite !Iff. intros (x & y & Ea & Eb & L1) (y' & z & Eb' & Ec & L2).
    rewrite Eb in Eb'. injection Eb' as <-. exists x, z. split_and!; [done..|].
    apply parseStableSemver_length in Ea as (? & ? & ? & ->).
    apply parseStableSemver_length in Eb as (? & ? & ? & ->).
    apply parseStableSemver_length in Ec as (? & ? & ? & ->). cbn in *. lia.
  - intros x y Ea Eb Ne. unfold IsNewerVersion. rewrite Ea, Eb.
    apply parseStableSemver_length in Ea as (x1 & x2 & x3 & ->).
    apply parseStableSemver_length in Eb as (y1 & y2 & y3 & ->). cbn.
    destruct (Z.lt_trichotomy x1 y1) as [|[->|]], (Z.lt_trichotomy x2 y2) as [|[->|]],
      (Z.lt_trichotomy x3 y3) as [|[->|]];
      repeat match goal with |- context [?p <? ?q] => destruct (Z.ltb_spec p q); try lia end; done.
Qed.

(** *** Failover *)

(** A network that gives fixed replies and records the requests. *)
Definition scripted (f : http_request → http_reply) : HttpClient (list http_request) :=
  {| http_do log req := (log ++ [req], f req) |}.

Definition accepted (status : Z) : bool := (200 <=? status) && (status <? 300).

(** The bodies that are decoded, in the order of the requests. *)
Definition accepted_body (f : http_request → http_reply) (req : http_request) : list bytes :=
  match f req with
  | Reply status raw => if accepted status then [limit_reader decode_limit raw] else []
  | Unreachable => []
  end.

Lemma retryable_not_accepted status : retryable status = true → accepted status = false.
Proof. unfold retryable, accepted. intros. guards. lia. Qed.

Section failover.
Context `{URL : GoURL} `{PJ : PayloadJson}.
Context {A : Type} (decode : A → bytes → A * bool) (f : http_request → http_reply).
Context (method path token : string) (body : option bytes).
#[local] Existing Instance scripted.

Definition request_to (url : string) : http_request := mkRequest method (url +:+ path) token body.

(** The variable after the replies of the Controllers [tried]. *)
Definition decoded (out : A) (tried : list string) : A :=
  foldl (λ o b, (decode o b).1) out (tried ≫= λ url, accepted_body f (request_to url)).

(** A Controller was passed over: it did not answer, it answered that it is not
    available, or it answered with a body that does not decode. *)
Definition passed_over (out : A) (url : string) : Prop :=
  match f (request_to url) with
  | Unreachable => True
  | Reply status raw => retryable status = true ∨
      accepted status = true ∧ (decode out (limit_reader decode_limit raw)).2 = false
  end.

(** All Controllers of a list were passed over, one after the other. *)
Fixpoint all_passed (out : A) (urls : list string) : Prop :=
  match urls with
  | [] => True
  | url :: urls => passed_over out url ∧ all_passed (decoded out [url]) urls
  end.

(** What a request with failover does: the Controllers that were asked, and how it
    ended: with a success, a final refusal, an address that does not parse, or because
    no Controller is left. *)
Record failed_over (endpoints : list string) log (base : string) (out : A) log' base' out'
    (r : result unit) (tried rest : list string) : Prop := {
  fo_order : endpoints = tried ++ rest;
  fo_log : log' = log ++ (request_to <$> tried);
  fo_result : r ≠ Panic;
  fo_value : out' = decoded out tried;
  fo_ok : r = Ok tt → ∃ pre url status raw, tried = pre ++ [url] ∧ all_passed out pre ∧
    f (request_to url) = Reply status raw ∧ accepted status = true ∧
    decode (decoded out pre) (limit_reader decode_limit raw) = (out', true) ∧ base' = url;
  fo_err : r ≠ Ok tt → base' = base ∧
    (rest = [] ∧ all_passed out tried ∨
     (∃ url rest', rest = url :: rest' ∧ url_parse (url +:+ path) = None ∧ all_passed out tried) ∨
     ∃ pre url status raw, tried = pre ++ [url] ∧ all_passed out pre ∧
       f (request_to url) = Reply status raw ∧ retryable status = false ∧ accepted status = false);
}.

Lemma decoded_cons out url urls : decoded out (url :: urls) = decoded (decoded out [url]) urls.
Proof. unfold decoded. cbn [mbind list_bind]. by rewrite app_nil_r, foldl_app. Qed.

Lemma failed_over_next url endpoints log base out log' base' out' r tried rest :
  passed_over out url →
  failed_over endpoints (log ++ [request_to url]) base (decoded out [url]) log' base' out' r tried rest →
  failed_over (url :: endpoints) log base out log' base' out' r (url :: tried) rest.
Proof.
  intros Pass [-> -> Np -> Ok1 Er1].
  split; [done|by rewrite fmap_cons, <- app_assoc|done|by rewrite (decoded_cons out url tried)|..].
  - intros Hr. destruct (Ok1 Hr) as (pre & v & st & raw & -> & Ap & H). exists (url :: pre), v, st, raw.
    split; [done|]. split; [by split|]. by rewrite (decoded_cons out url pre).
  - intros Hr. destruct (Er1 Hr) as [-> Er]. split; [done|].
    destruct Er as [[-> Ap]|[(v & rest' & -> & U & Ap)|(pre & v & st & raw & -> & Ap & H)]].
    + by left.
    + right. left. exists v, rest'. by split_and!.
    + right. right. exists (url :: pre), v, st, raw. split; [done|]. split; [by split|]. exact H.
Qed.

Lemma failed_over_stop url endpoints log base out base' out' r status raw :
  f (request_to url) = Reply status raw → retryable status = false → r ≠ Panic →
  out' = decoded out [url] →
  (r = Ok tt → accepted status = true ∧ base' = url ∧
     decode out (limit_reader decode_limit raw) = (out', true)) →
  (r ≠ Ok tt → base' = base ∧ accepted status = false) →
  failed_over (url :: endpoints) log base out (log ++ [request_to url]) base' out' r [url] endpoints.
Proof.
  intros F Rt Np Eo Ho He. split; try done.
  - intros Hr. destruct (Ho Hr) as (? & ? & ?). by exists [], url, status, raw.
  - intros Hr. destruct (He Hr) as [-> Ha]. split; [done|]. right. right. by exists [], url, status, raw.
Qed.

Lemma failed_over_none endpoints log base out e :
  (endpoints = [] ∨ ∃ url rest', endpoints = url :: rest' ∧ url_parse (url +:+ path) = None) →
  failed_over endpoints log base out log base out (Err e) [] endpoints.
Proof.
  intros Why. split; [done|by rewrite app_nil_r|done..|]. intros _. split; [done|].
  destruct Why as [->|(url & rest' & -> & U)]; [by left|]. right. left.
  exists url, rest'. split; [done|]. by split.
Qed.

Lemma try_controllers_spec endpoints lastErr log base out log' base' out' r :
  try_controllers (HC := scripted f) (Some decode) method path token body endpoints lastErr log base out
    = (log', base', out', r) →
  ∃ tried rest, failed_over endpoints log base out log' base' out' r tried rest.
Proof.
  revert lastErr log out. induction endpoints as [|url endpoints IH]; intros lastErr log out; cbn.
  { intros [= <- <- <- <-]. exists [], []. apply failed_over_none. by left. }
  destruct (url_parse (url +:+ path)) as [u|] eqn:U.
  2: { intros [= <- <- <- <-]. exists [], (url :: endpoints). apply failed_over_none. right. eauto. }
  fold (request_to url).
  assert (∀ lastErr out1, out1 = decoded out [url] → passed_over out url →
    try_controllers (HC := scripted f) (Some decode) method path token body endpoints lastErr
      (log ++ [request_to url]) base out1 = (log', base', out', r) →
    ∃ tried rest, failed_over (url :: endpoints) log base out log' base' out' r tried rest) as Next.
  { intros lastErr' out1 -> Pass E. destruct (IH _ _ _ E) as (tried & rest & H).
    exists (url :: tried), rest. by apply failed_over_next. }
  assert (decoded out [url] = foldl (λ o b, (decode o b).1) out (accepted_body f (request_to url))) as De
    by (unfold decoded; cbn [mbind list_bind]; by rewrite app_nil_r).
  destruct (f (request_to url)) as [|status raw] eqn:F.
  { apply (Next _ out); [rewrite De; unfold accepted_body|unfold passed_over]; by rewrite F. }
  assert (accepted_body f (request_to url) =
    if accepted status then [limit_reader decode_limit raw] else []) as Ab
    by (unfold accepted_body; by rewrite F).
  destruct (retryable status) eqn:Rt.
  { apply (Next _ out); [by rewrite De, Ab, retryable_not_accepted|]. unfold passed_over. rewrite F. by left. }
  destruct (accepted status) eqn:Ac.
  - replace ((status <? 200) || (300 <=? status)) with false
      by (unfold accepted in Ac; guards; symmetry; guards; lia).
    destruct (decode out _) as [out1 ok] eqn:Dc. destruct ok.
    + intros [= <- <- <- <-]. exists [url], endpoints.
      apply (failed_over_stop _ _ _ _ _ _ _ _ status raw); try done. rewrite De, Ab. cbn. by rewrite Dc.
    + apply (Next _ out1); [rewrite De, Ab; cbn; by rewrite Dc|].
      unfold passed_over. rewrite F. right. by rewrite Dc.
  - replace ((status <? 200) || (300 <=? status)) with true
      by (unfold accepted in Ac; symmetry; guards; lia).
    intros [= <- <- <- <-]. exists [url], endpoints.
    apply (failed_over_stop _ _ _ _ _ _ _ _ status raw); try done. by rewrite De, Ab.
Qed.
End failover.

(** A request fails over in order and stops at the first answer: the Controllers
    are asked one after the other, one request each, up to the first that gives a
    decodable success or a final refusal; those before it did not answer, answered
    502, 503 or 504, or gave a body that does not decode.  The client remembers a
    Controller only when it succeeded.  The value returned is built from the bodies of
    every Controller that answered with a success, not of the last one alone. *)
Lemma doJSON_failover `{URL : GoURL} `{PJ : PayloadJson} {A} (decode : A → bytes → A * bool) zero f c log
    method path token body c' log' r :
  doJSON (HC := scripted f) (Some decode) zero c log method path token body = (c', log', r) →
  ∃ out tried rest u,
    failed_over decode f method path token (marshal_payload <$> body) (controllers c) log (Cl_BaseURL c)
      zero log' (Cl_BaseURL c') out u tried rest ∧
    r = (u ;; Ok out) ∧ Cl_BaseURLs c' = Cl_BaseURLs c ∧ Cl_Token c' = Cl_Token c.
Proof.
  unfold doJSON. destruct (try_controllers _ _ _ _ _ _ _ _ _ _) as [[[log1 base] out] u] eqn:E.
  intros [= <- <- <-]. destruct (try_controllers_spec _ _ _ _ _ _ _ _ _ _ _ _ _ _ _ E)
    as (tried & rest & H). by exists out, tried, rest, u.
Qed.

(** *** What a signature binds *)

Lemma str_bytes_app a b : str_bytes (a +:+ b) = str_bytes a ++ str_bytes b.
Proof.
  unfold str_bytes, String.list_byte_of_string. induction a as [|c a IH]; [done|].
  change (String c a +:+ b) with (String c (a +:+ b)). cbn. by rewrite IH.
Qed.

Lemma str_bytes_inj a b : str_bytes a = str_bytes b → a = b.
Proof. intros E. by rewrite <- (bytes_str_bytes a), E, bytes_str_bytes. Qed.

Lemma split_unique {X} (x : X) l1 l2 r1 r2 : x ∉ l1 → x ∉ l2 →
  l1 ++ x :: r1 = l2 ++ x :: r2 → l1 = l2 ∧ r1 = r2.
Proof.
  revert l2. induction l1 as [|a l1 IH]; intros [|b l2] N1 N2 E; cbn in E; simplify_eq; try set_solver.
  destruct (IH l2) as [-> ->]; set_solver.
Qed.

(** The manifest has no line feed inside its fields. *)
Definition plain_manifest `{UC : UnicodeCase} (m : UpdateManifest) : Prop :=
  x0a ∉ str_bytes (Mf_Version m) ∧ x0a ∉ str_bytes (lower (Mf_SHA256 m)) ∧ x0a ∉ str_bytes (Mf_URL m).

Lemma filter_nil_not_in {X} `{EqDecision X} (x : X) l : length (filter (eq x) l) = 0%nat → x ∉ l.
Proof.
  intros L H. apply length_zero_iff_nil in L.
  assert (x ∈ filter (eq x) l) as H' by (by apply list_elem_of_filter). rewrite L in H'. set_solver.
Qed.

(** The signed bytes determine the manifest they were made from. *)
Lemma manifest_bytes_inj `{UC : UnicodeCase} m m' : plain_manifest m →
  manifestSigningBytes m = manifestSigningBytes m' →
  Mf_Version m' = Mf_Version m ∧ lower (Mf_SHA256 m') = lower (Mf_SHA256 m) ∧ Mf_URL m' = Mf_URL m.
Proof.
  unfold plain_manifest, manifestSigningBytes, newline. intros (N1 & N2 & N3) E.
  rewrite !str_bytes_app in E. change (str_bytes (String "010"%char "")) with [x0a] in E.
  set (v := str_bytes (Mf_Version m)) in *. set (h := str_bytes (lower (Mf_SHA256 m))) in *.
  set (u := str_bytes (Mf_URL m)) in *. set (v' := str_bytes (Mf_Version m')) in *.
  set (h' := str_bytes (lower (Mf_SHA256 m'))) in *. set (u' := str_bytes (Mf_URL m')) in *.
  assert (∀ l : bytes, x0a ∉ l → length (filter (eq x0a) l) = 0%nat) as Z0.
  { intros l N. rewrite filter_none; [done|]. intros x Hx <-. done. }
  pose proof (f_equal (λ l, length (filter (eq x0a) l)) E) as C. cbn beta in C.
  rewrite !filter_app, !length_app in C. change (length (filter (eq x0a) [x0a])) with 1%nat in C.
  rewrite (Z0 v), (Z0 h), (Z0 u) in C by done.
  apply split_unique in E as [E1 E]; [|done|apply filter_nil_not_in; lia].
  apply split_unique in E as [E2 E]; [|done|apply filter_nil_not_in; lia].
  apply split_unique in E as [E3 _]; [|done|apply filter_nil_not_in; lia].
  split_and!; symmetry; by apply str_bytes_inj.
Qed.

Lemma hex_encode_length b : length (str_bytes (hex_encode b)) = (2 * length b)%nat.
Proof. unfold hex_encode. rewrite str_bytes_str. induction b as [|x b IH]; cbn in *; lia. Qed.

Lemma p2pHex_length v n : p2pHex v n = true → zlen (str_bytes v) = n.
Proof.
  unfold p2pHex. destruct (hex_decode v); [|done]. intros. guards. rewrite zlen_str_bytes. lia.
Qed.

(** A signed consent says one thing: two consents with the same signed bytes are
    for the same access token (up to its SHA-256), the same Device, the same decision
    and the same expected state; so a proof cannot be replayed for another Device, for
    the opposite decision or after the state has changed. *)
Lemma consent_binding `{HS : Hashes} token device enabled expected token' device' enabled' expected' message :
  P2PConsentSigningBytes token device enabled expected = Ok message →
  P2PConsentSigningBytes token' device' enabled' expected' = Ok message →
  sha256 (str_bytes token) = sha256 (str_bytes token') ∧ device = device' ∧ enabled = enabled' ∧
  expected = expected'.
Proof.
  unfold P2PConsentSigningBytes. intros [G E]%check_then [G' E']%check_then. guards.
  destruct G as [[_ D] _], G' as [[_ D'] _]. apply p2pHex_length in D, D'.
  rewrite <- E in E'. assert (∀ a b : bytes, Ok a = Ok b → a = b) as Inj by congruence.
  apply Inj in E'. rewrite !str_bytes_app in E'. apply app_inv_head, app_inv_head in E'.
  apply app_inj_1 in E' as [E1 E']; [|by rewrite !hex_encode_length, !sha256_length].
  apply app_inv_head in E'. apply app_inj_1 in E' as [E2 E']; [|unfold zlen in *; lia].
  apply app_inv_head in E'. apply str_bytes_inj, hex_encode_inj in E1. apply str_bytes_inj in E2.
  assert (enabled' = enabled) as ->.
  { destruct enabled, enabled'; try done; apply (f_equal (hd_error)) in E'; done. }
  apply app_inv_head, app_inv_head, str_bytes_inj in E'. done.
Qed.
