(* ===== verification/AgentRuntime.v ===== *)
(** * The agent ([cmd/bpc-agent]: [main.go], [session_recovery.go], [runtime.go])

    Enrolment, the refresh of credentials, the synchronisation of the configuration,
    the recovery of a session and the update of the agent, on the client and the state
    of [AgentControl].  The operating system's answers are arguments: which save fails,
    what a download and a probe of the new executable give. *)

From Stdlib Require Import Strings.Byte Strings.Ascii.
From S2P Require Import Prelude GoLib GoNet GoStrings GoEncoding Netip Crypto P2pGrant AgentConfig AgentControl.

Section agent.
Context `{URL : GoURL} `{UC : UnicodeCase} `{P6 : Prefix6} `{PK : PublicKeys} `{ED : Ed25519} `{HS : Hashes}.
Context `{PJ : PayloadJson} {N : Type} `{HC : HttpClient N} `{SJ : StateJson}.
Context `{JEn : JsonBody EnrollmentResponse} `{JLg : JsonBody LoginResponse}.
Context `{JRg : JsonBody DeviceRegistrationResponse} `{JRf : JsonBody RefreshResponse}.
Context `{JRc : JsonBody RuntimeConfig} `{JMf : JsonBody UpdateManifest}.
(** The version of the running agent. *)
Context (version : string).

(** The state in memory, the state file, the client and the network. *)
Record agent := mkAgent { ag_state : State; ag_file : state_file; ag_client : Client; ag_net : N }.

Definition with_tokens (s : State) (access : string) (accessExpires : Z) (refresh : string)
    (refreshExpires : Z) : State :=
  mkAgentState StateVersion (As_DeviceID s) (As_DeviceName s) access accessExpires refresh refreshExpires
    "" (As_PublicKey s) (As_PrivateKey s) (As_ControlURL s) (As_ControlURLs s) (As_UpdatePubKey s)
    (As_Config s) (As_WireGuard s).

Definition with_config (s : State) (base : string) (cfg : RuntimeConfig) (profile : WireGuardProfile) : State :=
  mkAgentState (As_Version s) (As_DeviceID s) (As_DeviceName s) (As_AccessToken s) (As_AccessExpiresAt s)
    (As_RefreshToken s) (As_RefreshExpiresAt s) (As_DeviceToken s) (As_PublicKey s) (As_PrivateKey s)
    base (Rc_Controllers cfg) (As_UpdatePubKey s) cfg profile.

Definition ensureControlCredential (a : agent) (now : Z) (fault : option string) : agent * result unit :=
  let s := ag_state a in
  let with_client token := mkAgent s (ag_file a) (set_token (ag_client a) token) (ag_net a) in
  if blank (As_RefreshToken s) then (with_client (ControlCredential s), Ok tt)
  else if negb (NeedsRefresh s now) then (with_client (As_AccessToken s), Ok tt)
  else match SignDeviceProof (As_PrivateKey s) (RefreshSigningBytes (As_RefreshToken s)) with
  | Ok proof =>
      let '(c, net, r) := Refresh (ag_client a) (ag_net a) (As_RefreshToken s) proof in
      match r with
      | Ok response =>
          if negb (String.eqb (Rf_DeviceID response) "")
             && negb (String.eqb (Rf_DeviceID response) (As_DeviceID s))
          then (mkAgent s (ag_file a) c net,
                Err "controller returned refresh credentials for another device")
          else
            let s := with_tokens s (Rf_AccessToken response) (Rf_AccessExpiresAt response)
                       (Rf_RefreshToken response) (Rf_RefreshExpiresAt response) in
            let '(file, r) := SaveState (ag_file a) fault s in
            (mkAgent s file (set_token c (Rf_AccessToken response)) net, r)
      | Err e => (mkAgent s (ag_file a) c net, Err e)
      | Panic => (mkAgent s (ag_file a) c net, Panic)
      end
  | Err e => (a, Err e)
  | Panic => (a, Panic)
  end.

(** The profile a synchronised configuration gives: the private key never comes from
    the Controller. *)
Definition synced_profile (s : State) (p : WireGuardProfile) : WireGuardProfile :=
  let profile := set_private p (Wg_PrivateKey (As_WireGuard s)) in
  if blank (Wg_PresharedKey profile) then set_preshared profile (Wg_PresharedKey (As_WireGuard s)) else profile.

(** [faults] are those of the two saves; the status file is [ui]. *)
Definition syncRuntimeState (a : agent) (now : Z) (faults : option string * option string) (ui : result unit)
    : agent * result unit :=
  let '(a, r) := ensureControlCredential a now faults.1 in
  match r with
  | Ok _ =>
      let '(c, net, r) := FetchConfig (ag_client a) (ag_net a) in
      let a := mkAgent (ag_state a) (ag_file a) c net in
      match (cfg ← r; ValidateRuntimeConfig cfg ;; Ok cfg) with
      | Ok cfg =>
          let s := ag_state a in
          let commit cfg profile :=
            let s := with_config s (Cl_BaseURL c) cfg profile in
            let '(file, r) := SaveState (ag_file a) faults.2 s in
            (mkAgent s file c net, r ;; ui) in
          match Rc_WireGuard cfg with
          | None => commit cfg (As_WireGuard s)
          | Some p =>
              let profile := synced_profile s p in
              match ValidateWireGuardProfile profile with
              | Ok _ => commit (with_wireguard cfg None) profile
              | Err e => (a, Err "synced WireGuard profile: %w")
              | Panic => (a, Panic)
              end
          end
      | Err e => (a, Err e)
      | Panic => (a, Panic)
      end
  | _ => (a, r)
  end.

(** ** Enrolment and recovery *)

(** [curve25519.X25519] of the stored private key, base64: the WireGuard public key. *)
Context (wg_public : string → option string).

Definition recoverDeviceSession (previous : State) (file : state_file) (net : N)
    (credentials : option (string * string)) (stopped : result unit) (fault : option string)
    : state_file * N * result State :=
  match NewMultiClient (ControlEndpoints previous) "", credentials with
  | Ok client, Some (username, password) =>
      let '(client, net, r) := Login client net username password in
      match r with
      | Ok login =>
          match wg_public (Wg_PrivateKey (As_WireGuard previous)) with
          | None => (file, net, Err "wireguard private key")
          | Some wgPublic =>
              match SignDeviceProof (As_PrivateKey previous)
                      (RegistrationSigningBytes (Lg_AccessToken login) (As_PublicKey previous) wgPublic) with
              | Ok proof =>
                  let '(client, net, r) :=
                    ReauthenticateDevice client net (Lg_AccessToken login) (As_DeviceID previous)
                      (DeviceRegistrationRequest (As_DeviceID previous) (As_DeviceName previous)
                         (As_PublicKey previous) wgPublic version proof) in
                  match r with
                  | Ok response =>
                      if negb (String.eqb (Rg_DeviceID response) (As_DeviceID previous))
                         || negb (String.eqb (Wg_Address (Rg_WireGuard response))
                                    (Wg_Address (As_WireGuard previous)))
                      then (file, net, Err "sign-in recovery returned a different Device or overlay address")
                      else
                        let wg := set_private (Rg_WireGuard response) (Wg_PrivateKey (As_WireGuard previous)) in
                        let wg := if String.eqb (Wg_PresharedKey wg) ""
                                  then set_preshared wg (Wg_PresharedKey (As_WireGuard previous)) else wg in
                        let t := with_tokens previous (Rg_AccessToken response) (Rg_AccessExpiresAt response)
                                   (Rg_RefreshToken response) (Rg_RefreshExpiresAt response) in
                        let next := mkAgentState (As_Version t) (As_DeviceID t) (As_DeviceName t)
                          (As_AccessToken t) (As_AccessExpiresAt t) (As_RefreshToken t)
                          (As_RefreshExpiresAt t) (As_DeviceToken t) (As_PublicKey t) (As_PrivateKey t)
                          (As_ControlURL t) (As_ControlURLs t) (As_UpdatePubKey t) (Rg_Config response) wg in
                        match (ValidateWireGuardProfile wg ;; State_ValidateRuntimeConfig next ;; stopped) with
                        | Ok _ =>
                            let '(file, r) := SaveState file fault next in (file, net, r ;; Ok next)
                        | Err e => (file, net, Err e)
                        | Panic => (file, net, Panic)
                        end
                  | Err e => (file, net, Err "restore existing device session (updated Controller required): %w")
                  | Panic => (file, net, Panic)
                  end
              | Err e => (file, net, Err e)
              | Panic => (file, net, Panic)
              end
          end
      | Err e => (file, net, Err "sign in again: %w")
      | Panic => (file, net, Panic)
      end
  | Ok _, None => (file, net, Err "credentials")
  | Err e, _ => (file, net, Err e)
  | Panic, _ => (file, net, Panic)
  end.

(** The identity a new Device generates. *)
Record identity := mkIdentity {
  id_public : string; id_private : string; id_wgPrivate : string; id_wgPublic : string;
}.

(** The provisioned profile, or the legacy one when it is not valid. *)
Definition enrolled_profile (wg : WireGuardProfile) (wgPrivate : string) (legacy : WireGuardProfile)
    : result WireGuardProfile :=
  let profile := set_private wg wgPrivate in
  match ValidateWireGuardProfile profile with
  | Ok _ => Ok profile
  | _ => if Complete legacy then Ok legacy else Err "provisioned WireGuard profile: %w"
  end.

Definition enrolled_state (b : Bootstrap) (id : identity) (device access : string) (accessExpires : Z)
    (refresh : string) (refreshExpires : Z) (token : string) (cfg : RuntimeConfig)
    (profile : WireGuardProfile) : State :=
  mkAgentState StateVersion device (Bs_Device b) access accessExpires refresh refreshExpires token
    (id_public id) (id_private id) (Bs_ControlURL b) (Rc_Controllers cfg) (Bs_UpdatePublicKey b) cfg profile.

(** The two enrolments of [enrollOrLoadState], once there is no state file. *)
Definition enroll_legacy (b : Bootstrap) (id : identity) (client : Client) (net : N)
    (legacy : WireGuardProfile) : N * result State :=
  let '(client, net, r) :=
    Enroll client net (EnrollmentRequest (Bs_EnrollToken b) (Bs_Device b) (id_public id) (id_wgPublic id)
                         version) in
  (net,
   response ← r;
   ValidateRuntimeConfig (En_Config response) ;;
   profile ← enrolled_profile (En_WireGuard response) (id_wgPrivate id) legacy;
   Ok (enrolled_state b id (En_DeviceID response) "" 0 "" 0 (En_DeviceToken response)
         (En_Config response) profile)).

Definition enroll_account (b : Bootstrap) (id : identity) (client : Client) (net : N)
    (username password : string) (legacy : WireGuardProfile) : N * result State :=
  let '(client, net, r) := Login client net username password in
  match r with
  | Ok login =>
      match SignDeviceProof (id_private id)
              (RegistrationSigningBytes (Lg_AccessToken login) (id_public id) (id_wgPublic id)) with
      | Ok proof =>
          let '(client, net, r) :=
            RegisterDevice client net (Lg_AccessToken login)
              (DeviceRegistrationRequest "" (Bs_Device b) (id_public id) (id_wgPublic id) version proof) in
          (net,
           response ← r;
           ValidateRuntimeConfig (Rg_Config response) ;;
           profile ← enrolled_profile (Rg_WireGuard response) (id_wgPrivate id) legacy;
           Ok (enrolled_state b id (Rg_DeviceID response) (Rg_AccessToken response)
                 (Rg_AccessExpiresAt response) (Rg_RefreshToken response) (Rg_RefreshExpiresAt response) ""
                 (Rg_Config response) profile))
      | Err e => (net, Err "sign device registration: %w")
      | Panic => (net, Panic)
      end
  | Err e => (net, Err "user login: %w")
  | Panic => (net, Panic)
  end.

Definition empty_profile : WireGuardProfile := mkProfile "" "" 0 "" "" [] 0.

(** [enrollOrLoadState]: a state file is used, or recovered when its session is over;
    only its absence leads to an enrolment. *)
Definition enrollOrLoadState (b : Bootstrap) (file : state_file) (net : N) (now : Z)
    (credentials : option (string * string)) (stopped : result unit) (capture : result WireGuardProfile)
    (id : identity) (fault : option string) : state_file * N * result State :=
  match file with
  | Some _ =>
      match LoadState file with
      | Ok s =>
          if negb (Bs_Version b =? LegacyBootstrapVersion) && NeedsRefresh s now
          then recoverDeviceSession s file net credentials stopped fault
          else (file, net, Ok s)
      | Err e => (file, net, Err e)
      | Panic => (file, net, Panic)
      end
  | None =>
      match (legacy ← (if String.eqb (Bs_LegacyTunnel b) "" then Ok empty_profile else capture);
             client ← NewMultiClient (Bootstrap_ControlEndpoints b) "";
             Ok (legacy, client)) with
      | Ok (legacy, client) =>
          let '(net, r) :=
            if Bs_Version b =? LegacyBootstrapVersion then enroll_legacy b id client net legacy
            else match credentials with
                 | Some (username, password) => enroll_account b id client net username password legacy
                 | None => (net, Err "credentials")
                 end in
          match r with
          | Ok s => let '(file, r) := SaveState file fault s in (file, net, r ;; Ok s)
          | Err e => (file, net, Err e)
          | Panic => (file, net, Panic)
          end
      | Err e => (file, net, Err e)
      | Panic => (file, net, Panic)
      end
  end.

(** ** Updates *)

Definition download_limit : Z := 128 * 1024 * 1024.

(** [Client.Download]: what is at the destination afterwards.  [contents] is the body
    of the response, [None] when the download fails. *)
Definition Download (rawURL : string) (contents : option bytes) : result bytes :=
  match url_parse rawURL with
  | None => Err "parse download URL: %w"
  | Some (scheme, _) =>
      check (negb (String.eqb scheme "https")) "update download URL must be HTTPS" ;;
      match contents with
      | None => Err "download update: %w"
      | Some raw => Ok (limit_reader download_limit raw)
      end
  end.

Definition validateUpdateVersionOutput (output expected : string) : result unit :=
  check (negb (String.eqb (trim_space output) ("bpc-agent " +:+ expected)))
    "update binary version does not match signed manifest %s".

(** [checkAndStageUpdate]: the client and the network, the file scheduled to replace
    the agent, and the result.  [probe] runs a verified file with the command
    [version]. *)
Definition checkAndStageUpdate (a : agent) (contents : option bytes) (probe : bytes → option string)
    (schedule : result unit) : agent * option bytes * result bool :=
  let '(c, net, r) := FetchUpdateManifest (ag_client a) (ag_net a) in
  let a := mkAgent (ag_state a) (ag_file a) c net in
  match (manifest ← r;
         VerifyUpdateManifest manifest (As_UpdatePubKey (ag_state a)) ;;
         Ok manifest) with
  | Ok manifest =>
      if negb (IsNewerVersion (Mf_Version manifest) version) then (a, None, Ok false)
      else
        match (next ← Download (Mf_URL manifest) contents;
               VerifyFileSHA256 (Some next) (Mf_SHA256 manifest) ;;
               (match probe next with
                | None => Err "probe verified update version: %w"
                | Some output => validateUpdateVersionOutput output (Mf_Version manifest)
                end) ;;
               schedule ;;
               Ok next) with
        | Ok next => (a, Some next, Ok true)
        | Err e => (a, None, Err e)
        | Panic => (a, None, Panic)
        end
  | Err e => (a, None, Err e)
  | Panic => (a, None, Panic)
  end.
End agent.

(** ** Node switches ([transportNodeTracker], [publishLatestPathSwitch]) *)

Record pathSwitchEvent := mkSwitch { Sw_PreserveSession : bool; Sw_FromNode : string; Sw_ToNode : string }.

(** [observe] on the fields of an [EndpointReport] it reads. *)
Definition observe (current : string) (selected : string) (switched preserve : bool)
    (nodeByEndpoint : gmap string string) : string * option pathSwitchEvent :=
  let node := default "" (nodeByEndpoint !! selected) in
  if String.eqb node "" then (current, None)
  else if negb switched || String.eqb current "" || String.eqb current node then (node, None)
  else (node, Some (mkSwitch preserve current node)).

(** The channel has room for one event; a stale one is replaced. *)
Definition publishLatestPathSwitch (mailbox : option pathSwitchEvent) (event : pathSwitchEvent)
    : option pathSwitchEvent * bool :=
  match mailbox with
  | None => (Some event, false)
  | Some _ => (Some event, true)
  end.

(** ** Facts *)

Section agent_facts.
Context `{URL : GoURL} `{UC : UnicodeCase} `{P6 : Prefix6} `{PK : PublicKeys} `{ED : Ed25519} `{HS : Hashes}.
Context `{PJ : PayloadJson} {N : Type} `{HC : HttpClient N} `{SJ : StateJson}.
Context `{JEn : JsonBody EnrollmentResponse} `{JLg : JsonBody LoginResponse}.
Context `{JRg : JsonBody DeviceRegistrationResponse} `{JRf : JsonBody RefreshResponse}.
Context `{JRc : JsonBody RuntimeConfig} `{JMf : JsonBody UpdateManifest}.
Context (version : string) (wg_public : string → option string).

(** *** Validation *)

(** The paths name no overlay peer, or the one of the profile. *)
Definition peer_of (wg : option WireGuardProfile) : option string := Wg_PeerPublicKey <$> wg.

Lemma validate_paths_peer wg wg' seen paths :
  (peer_of wg' = peer_of wg ∨ wg = None) →
  validate_paths wg seen paths = Ok tt → validate_paths wg' seen paths = Ok tt.
Proof.
  intros P. revert seen. induction paths as [|path paths IH]; intros seen; cbn; [done|].
  intros [E1 E]%check_then. apply check_then in E as [E2 E]. apply check_then in E as [E3 E].
  rewrite E1, E2. cbn [check mbind result_bind].
  assert (negb (String.eqb (Path_PeerPublicKey path) "") && match wg' with
    | None => true | Some p => negb (String.eqb (Path_PeerPublicKey path) (Wg_PeerPublicKey p)) end = false)
    as ->; [|by apply IH].
  destruct (String.eqb (Path_PeerPublicKey path) ""); [done|]. cbn in E3 |- *.
  destruct wg as [p|]; [|done]. destruct P as [P|]; [|done]. destruct wg' as [p'|]; [|done].
  cbn in P. by injection P as ->.
Qed.

Lemma ValidateRuntimeConfig_wireguard cfg wg :
  ValidateRuntimeConfig cfg = Ok tt → (peer_of wg = peer_of (Rc_WireGuard cfg) ∨ Rc_WireGuard cfg = None) →
  (∀ p, wg = Some p → ValidateWireGuardServerProfile p = Ok tt) →
  ValidateRuntimeConfig (with_wireguard cfg wg) = Ok tt.
Proof.
  unfold ValidateRuntimeConfig. intros E P V.
  cbn [with_wireguard Rc_Controllers Rc_WGShimListen Rc_WGShimTarget Rc_WGShimPSK Rc_Paths Rc_WGShimServers
       Rc_WGShimServer Rc_PaddingMin Rc_PaddingMax Rc_WireGuard].
  apply bind_unit_Ok in E as [E1 E]. rewrite E1. cbn [mbind result_bind].
  apply check_then in E as [E2 E]. rewrite E2. cbn [check mbind result_bind].
  apply bind_unit_Ok in E as [E3 E].
  assert (ValidatePaths (with_wireguard cfg wg) = Ok tt) as ->.
  { unfold ValidatePaths in *. apply check_then in E3 as [G E3]. change (TransportPaths (with_wireguard cfg wg))
      with (TransportPaths cfg). rewrite G. cbn [check mbind result_bind].
    by apply (validate_paths_peer (Rc_WireGuard cfg)). }
  cbn [mbind result_bind]. apply check_then in E as [E4 E]. rewrite E4. cbn [check mbind result_bind].
  apply check_then in E as [E5 E]. rewrite E5. cbn [check mbind result_bind].
  apply check_then in E as [E6 E]. rewrite E6. cbn [check mbind result_bind].
  destruct wg as [p|]; [|done]. by rewrite (V p eq_refl).
Qed.

(** A profile without its secrets. *)
Definition public_profile (p : WireGuardProfile) : WireGuardProfile := set_preshared (set_private p "") "".

Lemma profile_public p : ValidateWireGuardProfile p = Ok tt →
  ValidateWireGuardServerProfile (public_profile p) = Ok tt ∧ Wg_PeerPublicKey p ≠ "".
Proof.
  unfold ValidateWireGuardProfile, ValidateWireGuardServerProfile, validateWireGuardProfile, public_profile.
  intros [_ E]%check_then. apply check_then in E as [E1 E]. apply check_then in E as [_ E].
  cbn [andb check mbind result_bind Wg_PeerPublicKey set_preshared set_private Wg_PresharedKey].
  rewrite E1. cbn [check mbind result_bind]. replace (negb (blank "")) with false by done.
  cbn [andb check mbind result_bind]. split; [exact E|]. intros Ep. rewrite Ep in E1. done.
Qed.

(** *** The state of a Device *)

Record state_ok (s : State) : Prop := {
  so_config : State_ValidateRuntimeConfig s = Ok tt;
  so_profile : Wg_PeerPublicKey (As_WireGuard s) = "" ∨
    ValidateWireGuardServerProfile (public_profile (As_WireGuard s)) = Ok tt;
  so_version : As_Version s = LegacyStateVersion ∨ As_Version s = StateVersion;
}.

(** What never changes. *)
Record same_device (s s' : State) : Prop := {
  sm_device : As_DeviceID s' = As_DeviceID s;
  sm_name : As_DeviceName s' = As_DeviceName s;
  sm_public : As_PublicKey s' = As_PublicKey s;
  sm_private : As_PrivateKey s' = As_PrivateKey s;
  sm_update : As_UpdatePubKey s' = As_UpdatePubKey s;
  sm_wireguard : Wg_PrivateKey (As_WireGuard s') = Wg_PrivateKey (As_WireGuard s);
}.

#[export] Instance same_device_preorder : PreOrder same_device.
Proof. split; [by split|]. intros a b c [] []. split; congruence. Qed.

(** A configuration that was validated on its own is valid in a state. *)
Lemma state_valid cfg s : As_Config s = cfg → ValidateRuntimeConfig cfg = Ok tt →
  (Wg_PeerPublicKey (As_WireGuard s) = "" ∨
   ValidateWireGuardServerProfile (public_profile (As_WireGuard s)) = Ok tt) →
  State_ValidateRuntimeConfig s = Ok tt.
Proof.
  intros <- V P. unfold State_ValidateRuntimeConfig. destruct (Rc_WireGuard (As_Config s)) eqn:E; [done|].
  destruct (String.eqb_spec (Wg_PeerPublicKey (As_WireGuard s)) "") as [|Ne]; [done|].
  destruct P as [?|P]; [done|]. apply ValidateRuntimeConfig_wireguard; [done|by right|].
  by intros p [= <-].
Qed.

(** The file holds a valid state of the Device. *)
Definition file_ok (s0 : State) (file : state_file) : Prop :=
  ∃ s, file = Some (state_json s) ∧ state_ok s ∧ same_device s0 s.

Record agent_inv (s0 : State) (a : agent (N := N)) : Prop := {
  ai_state : state_ok (ag_state a);
  ai_device : same_device s0 (ag_state a);
  ai_file : file_ok s0 (ag_file a);
}.

Lemma SaveState_ok s0 file fault s file' r : file_ok s0 file → state_ok s → same_device s0 s →
  SaveState file fault s = (file', r) → file_ok s0 file'.
Proof. unfold SaveState. destruct fault; intros F S D [= <- <-]; [done|]. by exists s. Qed.

Lemma with_tokens_ok s0 s a b c d : state_ok s → same_device s0 s →
  state_ok (with_tokens s a b c d) ∧ same_device s0 (with_tokens s a b c d).
Proof. intros [V P _] [? ? ? ? ? ?]. split; split; try done. by right. Qed.

Lemma ensure_inv s0 a now fault : agent_inv s0 a → agent_inv s0 (ensureControlCredential a now fault).1.
Proof.
  intros [S D F]. unfold ensureControlCredential. destruct (blank _); [by split|].
  destruct (negb _); [by split|]. destruct (SignDeviceProof _ _); [|by split..].
  destruct (Refresh _ _ _ _) as [[c net] [response| |]]; [|by split..].
  destruct (_ && _); [by split|].
  destruct (with_tokens_ok s0 (ag_state a) (Rf_AccessToken response) (Rf_AccessExpiresAt response)
    (Rf_RefreshToken response) (Rf_RefreshExpiresAt response) S D) as [S' D'].
  destruct (SaveState _ _ _) as [file r] eqn:Sv. split; cbn; [done..|]. by eapply SaveState_ok.
Qed.

(** A synchronised configuration leaves a state that validates. *)
Lemma sync_state_ok s0 s base cfg : state_ok s → same_device s0 s → ValidateRuntimeConfig cfg = Ok tt →
  match Rc_WireGuard cfg with
  | None => state_ok (with_config s base cfg (As_WireGuard s)) ∧
            same_device s0 (with_config s base cfg (As_WireGuard s))
  | Some p => ValidateWireGuardProfile (synced_profile s p) = Ok tt →
      state_ok (with_config s base (with_wireguard cfg None) (synced_profile s p)) ∧
      same_device s0 (with_config s base (with_wireguard cfg None) (synced_profile s p))
  end.
Proof.
  intros [V P Vn] [? ? ? ? ? Dw] E. destruct (Rc_WireGuard cfg) as [p|] eqn:W.
  - intros Vp. destruct (profile_public _ Vp) as [Sp Pk].
    assert (Wg_PeerPublicKey (synced_profile s p) = Wg_PeerPublicKey p ∧
            Wg_PrivateKey (synced_profile s p) = Wg_PrivateKey (As_WireGuard s)) as [Ep Eq].
    { unfold synced_profile. by destruct (blank _). }
    split; split; try done; [|by right|by rewrite <- Dw].
    unfold State_ValidateRuntimeConfig. cbn. destruct (String.eqb_spec (Wg_PeerPublicKey (synced_profile s p)) "")
      as [|_]; [done|]. change (with_wireguard (with_wireguard cfg None) ?q) with (with_wireguard cfg q).
    apply ValidateRuntimeConfig_wireguard; [done|left; rewrite W; cbn; by rewrite Ep|]. by intros q [= <-].
  - split; split; try done. by apply (state_valid cfg).
Qed.

Lemma sync_inv s0 a now faults ui : agent_inv s0 a → agent_inv s0 (syncRuntimeState a now faults ui).1.
Proof.
  intros I. unfold syncRuntimeState. apply (ensure_inv _ _ now faults.1) in I.
  destruct (ensureControlCredential a now faults.1) as [a1 r1]. cbn in I.
  destruct r1 as [u| |]; [|done..]. destruct I as [S D F].
  destruct (FetchConfig _ _) as [[c net] r].
  destruct (cfg ← r; ValidateRuntimeConfig cfg ;; Ok cfg) as [cfg| |] eqn:E; [|by split..].
  apply bind_Ok in E as (cfg' & _ & E). apply bind_Ok in E as ([] & V & [= ->]).
  pose proof (sync_state_ok s0 _ (Cl_BaseURL c) cfg S D V) as H. cbn [ag_state ag_file].
  destruct (Rc_WireGuard cfg) as [p|].
  - destruct (ValidateWireGuardProfile _) as [[]| |]; [|by split..]. destruct (H eq_refl) as [S' D'].
    destruct (SaveState _ _ _) as [file r'] eqn:Sv. split; cbn; [done..|]. by eapply SaveState_ok.
  - destruct H as [S' D']. destruct (SaveState _ _ _) as [file r'] eqn:Sv. split; cbn; [done..|].
    by eapply SaveState_ok.
Qed.

(** A recovered session keeps the Device. *)
Lemma recover_ok s0 previous file net credentials stopped fault file' net' r :
  state_ok previous → same_device s0 previous → file_ok s0 file →
  recoverDeviceSession version wg_public previous file net credentials stopped fault = (file', net', r) →
  file_ok s0 file' ∧ ∀ s, r = Ok s → state_ok s ∧ same_device s0 s.
Proof.
  intros S D F. unfold recoverDeviceSession.
  assert (∀ n e, (file, n, @Err State e) = (file', net', r) →
    file_ok s0 file' ∧ ∀ s, r = Ok s → state_ok s ∧ same_device s0 s) as Fail1 by (intros n e [= <- <- <-]; done).
  assert (∀ n, (file, n, @Panic State) = (file', net', r) →
    file_ok s0 file' ∧ ∀ s, r = Ok s → state_ok s ∧ same_device s0 s) as Fail2 by (intros n [= <- <- <-]; done).
  destruct (NewMultiClient _ _) as [client| |]; [|by eauto..]. destruct credentials as [[u p]|]; [|by eauto].
  destruct (Login _ _ _ _) as [[client1 net1] [login| |]]; [|by eauto..].
  destruct (wg_public _) as [wgp|]; [|by eauto]. destruct (SignDeviceProof _ _) as [proof| |]; [|by eauto..].
  destruct (ReauthenticateDevice _ _ _ _ _) as [[client2 net2] [resp| |]]; [|by eauto..].
  destruct (_ || _); [by eauto|]. set (wg := if String.eqb _ "" then _ else _). set (next := mkAgentState _ _ _ _ _ _ _ _ _ _ _ _ _ _ wg).
  destruct (ValidateWireGuardProfile wg ;; State_ValidateRuntimeConfig next ;; stopped) as [u0| |] eqn:V;
    [|by eauto..].
  apply bind_Ok in V as ([] & V1 & V). apply bind_Ok in V as ([] & V2 & _).
  assert (state_ok next ∧ same_device s0 next) as [S' D'].
  { destruct (profile_public _ V1) as [Sp Pk]. destruct D. split.
    - split; [done|by right|by right].
    - split; try done. cbn. unfold wg. by destruct (String.eqb _ ""). }
  destruct (SaveState file fault next) as [file1 r1] eqn:Sv. intros [= <- <- <-].
  split; [by eapply SaveState_ok|]. intros s. by destruct r1 as [[]| |]; [intros [= <-]|..].
Qed.

(** *** Enrolment *)

Lemma enrolled_profile_ok wg priv legacy p : enrolled_profile wg priv legacy = Ok p →
  ValidateWireGuardProfile p = Ok tt.
Proof.
  unfold enrolled_profile. destruct (ValidateWireGuardProfile (set_private wg priv)) as [[]| |] eqn:V.
  1: by intros [= <-].
  all: unfold Complete; destruct (ValidateWireGuardProfile legacy) as [[]| |] eqn:L; cbn; by intros [= <-].
Qed.

Lemma enrolled_state_ok b id device a ae r re token cfg profile :
  ValidateRuntimeConfig cfg = Ok tt → ValidateWireGuardProfile profile = Ok tt →
  state_ok (enrolled_state b id device a ae r re token cfg profile).
Proof.
  intros V Vp. destruct (profile_public _ Vp) as [Sp Pk]. split; [|by right|by right].
  apply (state_valid cfg); [done..|by right].
Qed.

(** A new Device: its state is valid and is what the file holds. *)
Lemma enroll_ok b net now credentials stopped capture id fault file' net' s :
  enrollOrLoadState version wg_public b None net now credentials stopped capture id fault
    = (file', net', Ok s) → state_ok s ∧ file' = Some (state_json s).
Proof.
  unfold enrollOrLoadState.
  destruct (legacy ← _; client ← _; Ok (legacy, client)) as [[legacy client]| |]; [|done..].
  set (res := if Bs_Version b =? LegacyBootstrapVersion then _ else _).
  assert (∀ s, res.2 = Ok s → state_ok s) as H.
  { intros s1. unfold res. destruct (Bs_Version b =? _).
    - unfold enroll_legacy. destruct (Enroll _ _ _) as [[c1 n1] r1]. cbn. intros (resp & _ & E)%bind_Ok.
      apply bind_Ok in E as ([] & V & E). apply bind_Ok in E as (p & P & [= <-]).
      apply enrolled_state_ok; [done|]. by eapply enrolled_profile_ok.
    - destruct credentials as [[u pw]|]; [|done]. unfold enroll_account.
      destruct (Login _ _ _ _) as [[c1 n1] [login| |]]; [|done..].
      destruct (SignDeviceProof _ _) as [proof| |]; [|done..].
      destruct (RegisterDevice _ _ _ _) as [[c2 n2] r2]. cbn. intros (resp & _ & E)%bind_Ok.
      apply bind_Ok in E as ([] & V & E). apply bind_Ok in E as (p & P & [= <-]).
      apply enrolled_state_ok; [done|]. by eapply enrolled_profile_ok. }
  destruct res as [n1 [s1| |]]; [|done..]. cbn in H. unfold SaveState. destruct fault; [done|].
  intros [= <- <- <-]. split; [by apply H|done].
Qed.

(** *** The agent as a state machine

    Its periodic work (the credential, the heartbeat, the configuration), an update check, and a new process, which loads the file or signs
    in again, with the client it makes.  [readable] says that the strings of the saved
    state are valid UTF-8, which is what JSON can hold. *)
Definition readable (file : state_file) : Prop :=
  ∀ s, file = Some (state_json s) → json_state s = true.

Inductive agent_step : agent → agent → Prop :=
| step_ensure a now fault : agent_step a (ensureControlCredential a now fault).1
| step_heartbeat a req c net r :
    Heartbeat (ag_client a) (ag_net a) req = (c, net, r) →
    agent_step a (mkAgent (ag_state a) (ag_file a) c net)
| step_sync a now faults ui : agent_step a (syncRuntimeState a now faults ui).1
| step_update a contents probe schedule :
    agent_step a (checkAndStageUpdate version a contents probe schedule).1.1
| step_restart a s c net : readable (ag_file a) → LoadState (ag_file a) = Ok s → agent_step a (mkAgent s (ag_file a) c net)
| step_recover a credentials stopped fault file net s c :
    recoverDeviceSession version wg_public (ag_state a) (ag_file a) (ag_net a) credentials stopped fault
      = (file, net, Ok s) → agent_step a (mkAgent s file c net).

Lemma update_state a contents probe schedule :
  ag_state (checkAndStageUpdate version a contents probe schedule).1.1 = ag_state a ∧
  ag_file (checkAndStageUpdate version a contents probe schedule).1.1 = ag_file a.
Proof.
  unfold checkAndStageUpdate. destruct (FetchUpdateManifest _ _) as [[c net] r].
  destruct (manifest ← r; _) as [m| |]; [|done..]. destruct (negb _); [done|].
  by destruct (next ← _; _).
Qed.

Lemma load_ok s0 file : file_ok s0 file → readable file →
  ∃ s, LoadState file = Ok s ∧ state_ok s ∧ same_device s0 s.
Proof.
  intros (s & -> & S & D) R. exists s. split; [|done]. unfold LoadState.
  rewrite state_json_roundtrip by by apply R. by destruct (so_version _ S) as [-> | ->].
Qed.

Lemma agent_step_inv s0 a a' : agent_step a a' → agent_inv s0 a → agent_inv s0 a'.
Proof.
  intros [] I.
  - by apply ensure_inv.
  - destruct I. by split.
  - by apply sync_inv.
  - destruct (update_state a0 contents probe schedule) as [E1 E2]. destruct I.
    split; by rewrite ?E1, ?E2.
  - destruct I as [S D F]. destruct (load_ok _ _ F H) as (s' & E & S' & D'). rewrite E in H0. injection H0 as <-. by split.
  - destruct I as [S D F]. destruct (recover_ok s0 _ _ _ _ _ _ _ _ _ S D F H) as [F' Hs].
    destruct (Hs s eq_refl). by split.
Qed.

Lemma agent_run_inv s0 a a' : rtc agent_step a a' → agent_inv s0 a → agent_inv s0 a'.
Proof. induction 1; eauto using agent_step_inv. Qed.
End agent_facts.

(** ** Theorems *)

Section agent_theorems.
Context `{URL : GoURL} `{UC : UnicodeCase} `{P6 : Prefix6} `{PK : PublicKeys} `{ED : Ed25519} `{HS : Hashes}.
Context `{PJ : PayloadJson} {N : Type} `{HC : HttpClient N} `{SJ : StateJson}.
Context `{JEn : JsonBody EnrollmentResponse} `{JLg : JsonBody LoginResponse}.
Context `{JRg : JsonBody DeviceRegistrationResponse} `{JRf : JsonBody RefreshResponse}.
Context `{JRc : JsonBody RuntimeConfig} `{JMf : JsonBody UpdateManifest}.
Context (version : string) (wg_public : string → option string).

(** C27. An enrolled agent always restarts as the same Device: from the enrolment on,
    through credential refreshes, synchronised configurations, update checks, restarts
    and sign-ins, whichever of them fail at whichever save, the state file holds a
    complete state that the next start accepts and, its strings being valid UTF-8, reads
    back, and neither it nor the state
    in memory ever changes the Device, its keys, its WireGuard private key or the key
    that signs updates, whatever the Controllers answer. *)
Theorem agent_restarts b net now credentials stopped capture id fault file net' s c a :
  enrollOrLoadState version wg_public b None net now credentials stopped capture id fault
    = (file, net', Ok s) →
  rtc (agent_step version wg_public) (mkAgent s file c net') a →
  same_device s (ag_state a) ∧
  (∃ s', ag_file a = Some (state_json s') ∧ State_ValidateRuntimeConfig s' = Ok tt ∧ same_device s s') ∧
  (readable (ag_file a) →
   ∃ s', LoadState (ag_file a) = Ok s' ∧ State_ValidateRuntimeConfig s' = Ok tt ∧ same_device s s').
Proof.
  intros E R. destruct (enroll_ok version wg_public _ _ _ _ _ _ _ _ _ _ _ E) as [S ->].
  destruct (agent_run_inv version wg_public s _ _ R) as [_ D F].
  { split; [done..|]. by exists s. }
  split_and!; [done| |].
  - destruct F as (s' & F & S' & D'). exists s'. split_and!; [done|apply S'|done].
  - intros Rd. destruct (load_ok _ _ F Rd) as (s' & L & S' & D'). exists s'.
    split_and!; [done|apply S'|done].
Qed.

End agent_theorems.
