(* ===== verification/AgentP2p.v ===== *)
(** * The P2P pilot of the agent: files and commands ([cmd/bpc-agent]: [p2p.go],
    [p2p_inbox.go], [p2p_setup.go])

    The P2P directory of an installed agent, the trust pin it is initialised with, the
    requests that the commands and the inbox write there, and the commands themselves.
    What the operating system refuses is an argument of every operation; the
    Controller is the network of [AgentControl]; the policy store is [P2pAuthority]. *)

From Stdlib Require Import Strings.Byte Strings.Ascii.
From S2P Require Import Prelude GoLib GoStrings GoEncoding Netip Crypto ControlStore GoNet.
From S2P Require Import P2pGrant P2pPolicy P2pAuthority P2pMux P2pRelay P2pEndpoint.
From S2P Require Import AgentConfig AgentControl AgentRuntime.

Record p2pTrustFile := mkTrustFile { Tf_Version : Z; Tf_Trust : Trust }.
Record p2pRequest := mkP2pRequest {
  Rq_Version : Z;
  Rq_ID : string;
  Rq_Stop : bool;
  Rq_Ticket : bytes;
  Rq_Relay : string;
}.
#[export] Instance p2pTrustFile_eq_decision : EqDecision p2pTrustFile.
Proof. solve_decision. Defined.
#[export] Instance p2pRequest_eq_decision : EqDecision p2pRequest.
Proof. solve_decision. Defined.

(** A strict JSON decoder reads the first value; the flag says that only white space
    follows it.  [json.Marshal] writes strings that are valid UTF-8 so that they are
    read back; an escape has at most six bytes; an object is complete only with its
    closing brace. *)
Class P2pFileJson `{PJ : PolicyJson} := {
  decode_trust_file : bytes → option (p2pTrustFile * bool);
  decode_request : bytes → option (p2pRequest * bool);
  decode_raw_message : bytes → option (bytes * bool);
  marshal_trust_file : p2pTrustFile → bytes;
  marshal_request : p2pRequest → bytes;
  trust_file_roundtrip : ∀ f, utf8 (Trust_ClusterID (Tf_Trust f)) = true →
    utf8 (Trust_DeviceID (Tf_Trust f)) = true →
    decode_trust_file (marshal_trust_file f) = Some (f, true);
  trust_file_prefix : ∀ f n, (n < length (marshal_trust_file f))%nat →
    decode_trust_file (take n (marshal_trust_file f)) = None;
  request_roundtrip : ∀ r, utf8 (Rq_ID r) = true → utf8 (Rq_Relay r) = true →
    decode_request (marshal_request r) = Some (r, true);
  request_length : ∀ r, Rq_Version r = 1 → zlen (marshal_request r) <=
    96 + 6 * (str_len (Rq_ID r) + str_len (Rq_Relay r)) + 4 * ((zlen (Rq_Ticket r) + 2) / 3);
}.

(** ** System calls *)

(** The error of a system call, by its name; how much a failing write leaves; and the
    errors of the attempts to rename. *)
Record syscalls := mkSyscalls {
  sys_fails : string → option string;
  sys_written : nat;
  sys_rename : nat → option string;
}.

Definition sys (os : syscalls) (name : string) : result unit :=
  match sys_fails os name with None => Ok tt | Some e => Err e end.

(** [readP2PJSON]: [file] is [None] when it cannot be opened or read. *)
Definition readP2PJSON {A} (decode : bytes → option (A * bool)) (file : option bytes) (limit : Z)
    : result (A * bytes) :=
  match file with
  | None => Err "file does not exist"
  | Some contents =>
      let raw := take (Z.to_nat (limit + 1)) contents in
      check (limit <? zlen raw) "P2P file too large" ;;
      match decode raw with
      | None => Err "invalid P2P file"
      | Some (_, false) => Err "invalid P2P trailing data"
      | Some (out, true) => Ok (out, raw)
      end
  end.

(** [writeP2PJSON], exclusive: the file is created, or nothing happens when it exists. *)
Definition write_exclusive (os : syscalls) (file : option bytes) (raw : bytes)
    : option bytes * result unit :=
  match file with
  | Some _ => (file, Err "file exists")
  | None =>
      match sys os "create" with
      | Ok _ =>
          match sys os "write" with
          | Ok _ => (Some raw, sys os "sync" ;; sys os "close")
          | e => (Some (take (sys_written os) raw), e)
          end
      | e => (None, e)
      end
  end.

(** The loop over [os.Rename]: its last error, or [None] when an attempt succeeded. *)
Fixpoint rename_attempts (os : syscalls) (attempt more : nat) (err : option string)
    : option string :=
  match more with
  | O => err
  | S more =>
      match sys_rename os attempt with
      | None => None
      | Some e => rename_attempts os (S attempt) more (Some e)
      end
  end.

(** [writeP2PJSON], not exclusive: a temporary file replaces the old one. *)
Definition write_atomic (os : syscalls) (file : option bytes) (raw : bytes)
    : option bytes * result unit :=
  match (sys os "create temp" ;; sys os "chmod temp" ;; sys os "write temp" ;; sys os "sync temp" ;;
         sys os "close temp") with
  | Ok _ =>
      match rename_attempts os 0 5 None with
      | None => (Some raw, Ok tt)
      | Some e => (file, Err e)
      end
  | e => (file, e)
  end.

(** ** The directory *)

(** The files of the P2P directory; [policy.db] may lack its bucket. *)
Record p2p_dir (B : Type) := mkDir {
  pd_trust : option bytes;
  pd_policy : option (option B);
  pd_request : option bytes;
}.
Arguments mkDir {B}.
Arguments pd_trust {B}.
Arguments pd_policy {B}.
Arguments pd_request {B}.

(** What stands at its path. *)
Inductive p2p_entry (B : Type) := Absent | NotDirectory | Directory (d : p2p_dir B).
Arguments Absent {B}.
Arguments NotDirectory {B}.
Arguments Directory {B}.

Section directory.
Context `{ED : Ed25519} `{GJ : GrantJson} `{PJ : PolicyJson} `{HS : Hashes} `{GS : GoSort}.
Context `{PF : !P2pFileJson} `{SJ : StateJson} {B : Type} `{BB : BoltBucket B}.
Implicit Types d : p2p_dir B.

Definition with_trust d raw : p2p_dir B := mkDir raw (pd_policy d) (pd_request d).
Definition with_policy d p : p2p_dir B := mkDir (pd_trust d) p (pd_request d).
Definition with_request d raw : p2p_dir B := mkDir (pd_trust d) (pd_policy d) raw.

Definition loadP2PTrust d (device : string) : result Trust :=
  '(file, _) ← readP2PJSON decode_trust_file (pd_trust d) 4096;
  let trust := Tf_Trust file in
  check (negb (Tf_Version file =? 1) || negb (String.eqb (Trust_DeviceID trust) device)
         || String.eqb (Trust_ClusterID trust) "" || negb (zlen (Trust_Issuer trust) =? 32))
    "P2P trust subject mismatch" ;;
  Ok trust.

Definition trust_pin_bad (trust : Trust) : bool :=
  String.eqb (Trust_ClusterID trust) "" || String.eqb (Trust_DeviceID trust) ""
  || negb (zlen (Trust_Issuer trust) =? 32).

(** [CreatePolicyStore] and [OpenPolicyStore]: the file, then the transaction. *)
Definition CreatePolicyStore (os : syscalls) d (trust : Trust) : p2p_dir B * result (PolicyStore B) :=
  if trust_pin_bad trust then (d, Err "invalid P2P trust pin")
  else match pd_policy d with
  | Some _ => (d, Err "file exists")
  | None =>
      match sys os "create policy.db" with
      | Ok _ =>
          let d := with_policy d (Some None) in
          match (sys os "close policy.db" ;; sys os "bolt policy.db" ;; openPolicyStore bolt_empty trust true) with
          | Ok p => (with_policy d (Some (Some (ps_db p))), Ok p)
          | e => (d, e)
          end
      | Err e => (d, Err e)
      | Panic => (d, Panic)
      end
  end.

Definition OpenPolicyStore (os : syscalls) d (trust : Trust) : result (PolicyStore B) :=
  check (trust_pin_bad trust) "invalid P2P trust pin" ;;
  match pd_policy d with
  | None => Err "file does not exist"
  | Some db =>
      sys os "bolt policy.db" ;;
      match db with
      | None => Err "unowned P2P policy store"
      | Some b => openPolicyStore b trust false
      end
  end.

Definition initializeP2PTrust (os : syscalls) d (trust : Trust) : p2p_dir B * result unit :=
  if bool_decide (is_Some (pd_trust d)) || negb (is_ok (sys os "lstat trust.json"))
  then (d, Err "P2P trust already exists or cannot be checked; refusing bootstrap")
  else
    let '(d, created) := CreatePolicyStore os d trust in
    match (store ← created; sys os "close store") with
    | Ok _ =>
        let '(file, r) := write_exclusive os (pd_trust d) (marshal_trust_file (mkTrustFile 1 trust)) in
        (with_trust d file, r)
    | Err e => (d, Err e)
    | Panic => (d, Panic)
    end.

(** Whether P2P is enabled; then the store and its trust, if they can be opened. *)
Definition openP2PAuthority (os : syscalls) (entry : p2p_entry B) (file : state_file)
    : bool * result (option (PolicyStore B * Trust)) :=
  match entry with
  | Absent => (false, Ok None)
  | NotDirectory => (true, Err "invalid P2P state directory")
  | Directory d =>
      (true,
       sys os "lstat p2p" ;;
       state ← LoadState file;
       trust ← loadP2PTrust d (As_DeviceID state);
       store ← OpenPolicyStore os d trust;
       Ok (Some (store, trust)))
  end.

(** [secureP2PDirectory]: the directory is created when nothing stands there, and its
    access is restricted. *)
Definition secureP2PDirectory (os : syscalls) (entry : p2p_entry B) : p2p_entry B * result unit :=
  match entry with
  | Absent =>
      match sys os "mkdir p2p" with
      | Ok _ => (Directory (mkDir None None None), sys os "secure p2p")
      | e => (Absent, e)
      end
  | NotDirectory => (entry, Err "P2P state must be an owned directory")
  | Directory _ => (entry, sys os "secure p2p")
  end.

(** [writeP2PJSON(filepath.Join(dir, "request.json"), request, false)] *)
Definition write_request (os : syscalls) (entry : p2p_entry B) (r : p2pRequest)
    : p2p_entry B * result unit :=
  match entry with
  | Directory d =>
      let '(file, res) := write_atomic os (pd_request d) (marshal_request r) in
      (Directory (with_request d file), res)
  | _ => (entry, Err "create temp")
  end.
End directory.

(** ** The configuration of an endpoint *)

Definition relayHost (address : string) : result string :=
  match SplitHostPort address with
  | None => Err "relay must be host:port"
  | Some (host, port) =>
      check (String.eqb host "" || match parse_int port with
                                   | None => true
                                   | Some p => (p <? 1) || (65535 <? p)
                                   end) "relay must be host:port" ;;
      Ok host
  end.

Section config.
Context `{ED : Ed25519} `{GJ : GrantJson} `{PJ : PolicyJson} `{HS : Hashes} `{XC : X25519} `{P6 : Prefix6}.

(** [netip.ParsePrefix] and [Addr]. *)
Definition prefix_address (s : string) : result (option Z) :=
  match parse_prefix4 s with
  | Some p => Ok (Some (pfx_addr p))
  | None => if prefix6_ok s then Ok None else Err "netip.ParsePrefix(%s): %s"
  end.

(** The TLS configuration names the host of the relay and requires TLS 1.3. *)
Definition localP2PConfig (state : State) (profile : WireGuardProfile) (request : p2pRequest)
    : result EndpointConfig :=
  match base64_decode (As_PrivateKey state) with
  | None => Err "invalid enrolled Device identity"
  | Some key =>
      check (negb (zlen key =? 64)) "invalid enrolled Device identity" ;;
      address ← prefix_address (Wg_Address profile);
      host ← relayHost (Rq_Relay request);
      Ok (mkConfig (Rq_Ticket request) (As_DeviceID state) key (Wg_PrivateKey profile) address
            (Rq_Relay request) (negb (String.eqb host "")))
  end.

Definition verifiedP2POffer (state : State) (trust : Trust) (offer : P2POffer) (now : Z)
    : result p2pRequest :=
  session ← VerifyGrant (Of_Ticket offer) (Trust_Issuer trust) (Trust_ClusterID trust) 0 now;
  let request := mkP2pRequest 1 (Grant_SessionID (session_grant session)) false (Of_Ticket offer)
                   (Of_Relay offer) in
  cfg ← localP2PConfig state (As_WireGuard state) request;
  BindEndpoint (Some session) cfg ;;
  Ok request.
End config.

(** ** Commands *)

(** What [flag.Parse] reads of the arguments behind the command. *)
Record p2p_flags := mkFlags {
  fl_enabled : bool;
  fl_host : string;
  fl_out : string;
  fl_ticket : string;
  fl_relay : string;
  fl_nargs : Z;
}.

(** What a command prints. *)
Inductive output := Printed (message : string) | Peers (peers : list P2PPeer).

(** The machine of an agent: the P2P directory, the state file, other files, the
    network and whether the service runs. *)
Record machine (B N : Type) := mkMachine {
  mc_p2p : p2p_entry B;
  mc_state : state_file;
  mc_files : gmap string bytes;
  mc_net : N;
  mc_service : bool;
}.
Arguments mkMachine {B N}.
Arguments mc_p2p {B N}.
Arguments mc_state {B N}.
Arguments mc_files {B N}.
Arguments mc_net {B N}.
Arguments mc_service {B N}.

Section commands.
Context `{ED : Ed25519} `{GJ : GrantJson} `{PJ : PolicyJson} `{HS : Hashes} `{GS : GoSort} `{XC : X25519}.
Context `{PF : !P2pFileJson} `{SJ : StateJson} {B : Type} `{BB : BoltBucket B}.
Context `{URL : GoURL} `{UC : UnicodeCase} `{P6 : Prefix6} `{PL : PayloadJson} {N : Type} `{HC : HttpClient N}.
Context `{JPi : JsonBody P2PInfo} `{JTk : JsonBody bytes} `{JPs : JsonBody (list P2PPeer)}.
Context `{JOf : JsonBody (option P2POffer)}.
Implicit Types m : machine B N.

Definition set_entry m entry : machine B N := mkMachine entry (mc_state m) (mc_files m) (mc_net m) (mc_service m).
Definition set_files m files : machine B N := mkMachine (mc_p2p m) (mc_state m) files (mc_net m) (mc_service m).
Definition set_net m net : machine B N := mkMachine (mc_p2p m) (mc_state m) (mc_files m) net (mc_service m).
Definition set_service m on : machine B N := mkMachine (mc_p2p m) (mc_state m) (mc_files m) (mc_net m) on.

(** A command that may return early. *)
Definition cmd (A : Type) : Type := machine B N → machine B N * result A.

#[export] Instance cmd_ret : MRet cmd := λ A a m, (m, Ok a).
#[export] Instance cmd_bind : MBind cmd := λ A A' f c m,
  let '(m, r) := c m in
  match r with Ok a => f a m | Err e => (m, Err e) | Panic => (m, Panic) end.

Definition pure {A} (r : result A) : cmd A := λ m, (m, r).
Definition on_entry {A} (f : p2p_entry B → p2p_entry B * result A) : cmd A := λ m,
  let '(entry, r) := f (mc_p2p m) in (set_entry m entry, r).
Definition on_dir {A} (f : p2p_dir B → p2p_dir B * result A) : cmd A := on_entry (λ entry,
  match entry with
  | Directory d => let '(d, r) := f d in (Directory d, r)
  | _ => (entry, Err "file does not exist")
  end).
Definition on_net {A} (f : Client → N → Client * N * result A) (control : Client) : cmd A := λ m,
  let '(_, net, r) := f control (mc_net m) in (set_net m net, r).
Definition on_file (name : string) (f : option bytes → option bytes * result unit) : cmd unit := λ m,
  let '(file, r) := f (mc_files m !! name) in
  (set_files m (partial_alter (λ _, file) name (mc_files m)), r).

(** [loadP2PTrust(dir, device)] *)
Definition trust_of (device : string) : cmd Trust := on_dir (λ d, (d, loadP2PTrust d device)).

Definition p2p_init (os : syscalls) (state : State) (control : Client) : cmd output :=
  info ← on_net FetchP2PInfo control;
  pure (check (negb (String.eqb (Pi_DeviceID info) (As_DeviceID state)))
          "P2P Controller returned another Device") ;;
  let trust := mkTrust (Pi_ClusterID info) (Pi_DeviceID info)
                 (default [] (base64_decode (Pi_IssuerPublicKey info))) in
  on_entry (secureP2PDirectory os) ;;
  on_dir (λ d, initializeP2PTrust os d trust) ;;
  mret (Printed ("P2P Controller trust initialized; restart the Agent to activate the pilot. " +:+
                 "Consent remains unchanged.")).

Definition p2p_consent (state : State) (trust : Trust) (control : Client) (enabled : bool) : cmd output :=
  info ← on_net FetchP2PInfo control;
  pure (check (negb (String.eqb (Pi_DeviceID info) (Trust_DeviceID trust))
               || negb (String.eqb (Pi_ClusterID info) (Trust_ClusterID trust))
               || negb (String.eqb (Pi_IssuerPublicKey info) (base64_encode (Trust_Issuer trust))))
          "P2P Controller trust changed") ;;
  on_net (λ c net, SetP2PConsent c net info enabled (As_PrivateKey state)) control ;;
  mret (Printed "P2P Device consent: %t").

(** Verify local bindings of a ticket with the pinned trust. *)
Definition bound_ticket (state : State) (trust : Trust) (request : p2pRequest) (now : Z) : result Side :=
  session ← VerifyGrant (Rq_Ticket request) (Trust_Issuer trust) (Trust_ClusterID trust) 0 now;
  cfg ← localP2PConfig state (As_WireGuard state) request;
  BindEndpoint (Some session) cfg.

Definition p2p_request (os : syscalls) (state : State) (trust : Trust) (control : Client)
    (host out : string) (now : Z) : cmd output :=
  pure (check (String.eqb out "") "new ticket output path required") ;;
  ticket ← on_net (λ c net, IssueP2PGrant c net host) control;
  pure (bound_ticket state trust (mkP2pRequest 0 "" false ticket "localhost:1") now) ;;
  on_file out (λ file, write_exclusive os file ticket) ;;
  mret (Printed "Public P2P ticket written; maximum lease is 60 seconds.").

(** The order of the checks differs from [p2p_request]. *)
Definition p2p_start (os : syscalls) (state : State) (trust : Trust) (id ticketPath relay : string)
    (now : Z) : cmd output :=
  pure (check (String.eqb ticketPath "") "public ticket file required") ;;
  ticket ← (λ m, (m, '(_, ticket) ← readP2PJSON decode_raw_message (mc_files m !! ticketPath) 8192;
                     Ok ticket));
  let request := mkP2pRequest 1 id false ticket relay in
  cfg ← pure (localP2PConfig state (As_WireGuard state) request);
  session ← pure (VerifyGrant ticket (Trust_Issuer trust) (Trust_ClusterID trust) 0 now);
  pure (BindEndpoint (Some session) cfg) ;;
  on_entry (λ entry, write_request os entry request) ;;
  mret (Printed "P2P pilot requested; the running Agent enforces policy and lease expiry.").

(** The commands other than [prepare], behind the loading of the state. *)
Definition p2p_run (os : syscalls) (state : State) (command : string) (flags : option p2p_flags)
    (nonce : option bytes) (now : Z) : cmd output :=
  (if String.eqb command "init" then mret tt
   else
     (λ m, (m, check (match mc_p2p m with Absent => true | _ => negb (is_ok (sys os "lstat p2p")) end)
                 "initialize the P2P pilot first")) ;;
     on_entry (secureP2PDirectory os)) ;;
  match flags with
  | None => pure (Err "flag provided but not defined: -%s")
  | Some fl =>
      pure (check (negb (fl_nargs fl =? 0)) "unexpected P2P arguments") ;;
      match nonce with
      | None => pure (Err "random")
      | Some nonce =>
          let id := hex_encode nonce in
          let is_stop := String.eqb command "stop" in
          (if is_stop || (String.eqb command "consent" && negb (fl_enabled fl))
           then on_entry (λ entry, write_request os entry (mkP2pRequest 1 id true [] ""))
           else mret tt) ;;
          if is_stop then mret (Printed "P2P stop requested; gateway remains active.")
          else
            control ← pure (NewMultiClient (ControlEndpoints state) (ControlCredential state));
            if String.eqb command "init" then p2p_init os state control
            else
              trust ← trust_of (As_DeviceID state);
              if String.eqb command "peers-json" then
                peers ← on_net P2PPeers control; mret (Peers peers)
              else if String.eqb command "connect" then
                on_net (λ c net, ConnectP2P c net (fl_host fl)) control ;;
                mret (Printed ("P2P connection requested on both computers. Open Moonlight; the pilot expires " +:+
                               "within 60 seconds."))
              else if String.eqb command "consent" then p2p_consent state trust control (fl_enabled fl)
              else if String.eqb command "request" then
                p2p_request os state trust control (fl_host fl) (fl_out fl) now
              else if String.eqb command "start" then
                p2p_start os state trust id (fl_ticket fl) (fl_relay fl) now
              else pure (Err "unknown P2P pilot command")
      end
  end.

(** [stopP2PService] and [startP2PService]: the service of this installation reaches
    the wanted state, or the call fails. *)
Definition p2pServiceAction (os : syscalls) (start : bool) : cmd unit := λ m,
  match (sys os "service manager" ;; sys os "service open" ;; sys os "service config" ;;
         check (negb (is_ok (sys os "service owned")))
           "refusing to restart a service not owned by the installed BPC Agent" ;;
         sys os "service query") with
  | Ok _ =>
      if Bool.eqb (mc_service m) start then (m, Ok tt)
      else match sys os (if start then "service start" else "service stop") with
      | Ok _ => (set_service m start, sys os "service wait")
      | e => (m, e)
      end
  | e => (m, e)
  end.

Definition prepareP2P (os : syscalls) (initialize stop start : cmd unit) : cmd output :=
  (λ m, match mc_p2p m with
        | Absent => initialize m
        | _ => (m, sys os "lstat p2p")
        end) ;;
  stop ;;
  (λ m, (m, match openP2PAuthority os (mc_p2p m) (mc_state m) with
            | (_, Ok (Some _)) => sys os "close store"
            | (_, Ok None) => Err "P2P initialization incomplete; Agent remains stopped"
            | (_, Err e) => Err e
            | (_, Panic) => Panic
            end)) ;;
  start ;;
  mret (Printed "").

(** [p2pCommand] without [prepare]; [p2pCommand]. *)
Definition p2p_command (os : syscalls) (admin : bool) (command : string) (flags : option p2p_flags)
    (nonce : option bytes) (now : Z) : cmd output :=
  pure (check (negb admin) "P2P pilot requires an Administrator terminal") ;;
  state ← (λ m, (m, LoadState (mc_state m)));
  p2p_run os state command flags nonce now.

Definition no_flags : p2p_flags := mkFlags false "" "" "" "" 0.

Definition p2pCommand (os : syscalls) (admin : bool) (args : list string) (flags : option p2p_flags)
    (nonce : option bytes) (now : Z) : cmd output :=
  match args with
  | [] => pure (Err "P2P pilot: prepare | init | consent | request | start | stop")
  | command :: rest =>
      if String.eqb command "prepare" then
        pure (check (negb admin) "P2P pilot requires an Administrator terminal") ;;
        (λ m, (m, LoadState (mc_state m))) ;;
        pure (check (negb (zlen rest =? 0)) "unexpected P2P preparation arguments") ;;
        prepareP2P os
          (p2p_command os admin "init" (Some no_flags) nonce now ;; mret tt)
          (p2pServiceAction os false) (p2pServiceAction os true)
      else p2p_command os admin command flags nonce now
  end.

(** [initializeAccountP2P], which only a fresh enrolment calls. *)
Definition initializeAccountP2P (os : syscalls) (admin : bool) (state : State)
    (nonce1 nonce2 : option bytes) (now : Z) : cmd output :=
  control ← pure (NewMultiClient (ControlEndpoints state) (ControlCredential state));
  ((λ m,
    let '(_, net, r) := FetchP2PInfo control (mc_net m) in
    let m := set_net m net in
    match r with
    | Ok info =>
        if negb (Pi_AccountMode info) then (m, Ok (Printed ""))
        else
          (p2pCommand os admin ["init"] (Some no_flags) nonce1 now ;;
           p2pCommand os admin ["consent"; "--enabled=true"]
             (Some (mkFlags true "" "" "" "" 0)) nonce2 now) m
    | _ => (m, Ok (Printed ""))
    end) : cmd output).

(** One tick of [runP2PInbox]; [last] is the session whose request was written last. *)
Definition inbox_tick (os : syscalls) (trust : Trust) (now : Z) (x : machine B N * string)
    : machine B N * string :=
  let '(m, last) := x in
  match LoadState (mc_state m) with
  | Ok state =>
      if negb (String.eqb (As_DeviceID state) (Trust_DeviceID trust)) then (m, last)
      else match NewMultiClient (ControlEndpoints state) (ControlCredential state) with
      | Ok client =>
          let '(m, r) := on_net P2PInbox client m in
          match r with
          | Ok (Some offer) =>
              match verifiedP2POffer state trust offer now with
              | Ok request =>
                  if String.eqb (Rq_ID request) last then (m, last)
                  else
                    let '(entry, r) := write_request os (mc_p2p m) request in
                    (set_entry m entry, if is_ok r then Rq_ID request else last)
              | _ => (m, last)
              end
          | _ => (m, last)
          end
      | _ => (m, last)
      end
  | _ => (m, last)
  end.
End commands.

(** ** The trust pin *)

Section pin.
Context `{ED : Ed25519} `{GJ : GrantJson} `{PJ : PolicyJson} `{HS : Hashes} `{GS : GoSort} `{XC : X25519}.
Context `{PF : !P2pFileJson} `{SJ : StateJson} {B : Type} `{BB : BoltBucket B}.
Implicit Types (d : p2p_dir B) (entry : p2p_entry B).

(** A trust pin that can be loaded belongs to the policy store beside it. *)
Definition dir_inv d : Prop :=
  ∀ device trust, loadP2PTrust d device = Ok trust →
    ∃ b st, pd_policy d = Some (Some b) ∧ policy_state trust b = Ok st.
Definition entry_inv entry : Prop := match entry with Directory d => dir_inv d | _ => True end.

(** What is there of the two files stays as it is. *)
Definition files_kept d d' : Prop :=
  (is_Some (pd_trust d) → pd_trust d' = pd_trust d) ∧ (is_Some (pd_policy d) → pd_policy d' = pd_policy d).
Definition entry_kept entry entry' : Prop :=
  match entry with
  | Absent => True
  | NotDirectory => entry' = NotDirectory
  | Directory d => ∃ d', entry' = Directory d' ∧ files_kept d d'
  end.

#[global] Instance entry_kept_preorder : PreOrder entry_kept.
Proof.
  split.
  - intros [| |d]; [done..|]. by exists d.
  - intros [| |d] e2 e3; [done|by intros ->|]. intros (d2 & -> & T1 & P1) (d3 & -> & T2 & P2).
    exists d3. split; [done|]. split; intros H; [rewrite <- (T1 H)|rewrite <- (P1 H)].
    + apply T2. by rewrite (T1 H).
    + apply P2. by rewrite (P1 H).
Qed.

Lemma readP2PJSON_Ok {A} (decode : bytes → option (A * bool)) file limit out raw :
  readP2PJSON decode file limit = Ok (out, raw) ↔
  file = Some raw ∧ zlen raw <= limit ∧ decode raw = Some (out, true).
Proof.
  unfold readP2PJSON. destruct file as [contents|]; [|naive_solver].
  rewrite check_then. guards.
  assert (zlen (take (Z.to_nat (limit + 1)) contents) <= limit →
    take (Z.to_nat (limit + 1)) contents = contents) as Hall.
  { unfold zlen. rewrite length_take. intros. apply take_ge. lia. }
  split.
  - intros [L E]. rewrite Hall in E, L by done.
    destruct (decode contents) as [[o []]|] eqn:D; try done. injection E as -> ->.
    by split_and!.
  - intros ([= ->] & L & D). rewrite take_ge, D by (unfold zlen in L; lia). done.
Qed.
Lemma loadP2PTrust_Ok d device trust : loadP2PTrust d device = Ok trust →
  Trust_DeviceID trust = device ∧ (device ≠ "" → trust_pin_bad trust = false) ∧
  ∃ raw, pd_trust d = Some raw ∧ zlen raw <= 4096 ∧
    decode_trust_file raw = Some (mkTrustFile 1 trust, true).
Proof.
  unfold loadP2PTrust. intros ([[v tr] raw] & (E & L & D)%readP2PJSON_Ok & H)%bind_Ok.
  apply check_then in H as [G [= <-]]. cbn in *. guards. destruct G as [[[-> <-] Hc] Hi].
  split_and!; [done| |by exists raw]. intros Hd. unfold trust_pin_bad. guards. done.
Qed.

(** A file written once is read back as it was meant, or not at all. *)
Lemma write_exclusive_trust os trust file r device trust' d :
  utf8 (Trust_ClusterID trust) = true → utf8 (Trust_DeviceID trust) = true →
  write_exclusive os None (marshal_trust_file (mkTrustFile 1 trust)) = (file, r) →
  loadP2PTrust (with_trust d file) device = Ok trust' → trust' = trust.
Proof.
  intros U1 U2 W. unfold loadP2PTrust. cbn [with_trust pd_trust].
  intros ([f raw] & (E & _ & D)%readP2PJSON_Ok & H)%bind_Ok. apply check_then in H as [_ [= <-]].
  assert (raw = marshal_trust_file (mkTrustFile 1 trust)) as ->.
  { unfold write_exclusive in W. destruct (sys os "create"); [|by injection W as <- _..].
    destruct (sys os "write") eqn:Ew; injection W as <- _; injection E as <-; [done|..];
      (destruct (decide (length (marshal_trust_file (mkTrustFile 1 trust)) <= sys_written os)%nat);
       [by apply take_ge|]; by rewrite trust_file_prefix in D by lia). }
  rewrite trust_file_roundtrip in D by done. by injection D as <-.
Qed.

Lemma CreatePolicyStore_spec os d trust d' r : CreatePolicyStore os d trust = (d', r) →
  utf8 (Trust_ClusterID trust) = true → utf8 (Trust_DeviceID trust) = true →
  pd_trust d' = pd_trust d ∧ files_kept d d' ∧
  ∀ p, r = Ok p → ∃ b st, pd_policy d' = Some (Some b) ∧ policy_state trust b = Ok st.
Proof.
  unfold CreatePolicyStore. intros E U1 U2.
  destruct (trust_pin_bad trust); [by injection E as <- <-|].
  destruct (pd_policy d) as [q|] eqn:Ed; [by injection E as <- <-|].
  assert (∀ q, files_kept d (with_policy d q)) as K by (intros q; split; [done|rewrite Ed; by intros [? ?]]).
  destruct (sys os "create policy.db"); [|by injection E as <- <-..].
  destruct (sys os "close policy.db" ;; _) as [p| |] eqn:O; injection E as <- <-;
    [|by split_and!; [done|apply K|]..].
  split_and!; [done|exact (K (Some (Some (ps_db p))))|]. intros p' _. exists (ps_db p).
  apply bind_Ok in O as (? & _ & (? & _ & O)%bind_Ok).
  destruct (create_inv 0 _ _ _ U1 U2 O) as [[st D] _ _]. exists st. split; [done|]. unfold durable in D.
  apply check_then in O as [_ O]. apply bind_Ok in O as (b & _ & [= <-]). exact D.
Qed.

Lemma initializeP2PTrust_safe os d trust :
  utf8 (Trust_ClusterID trust) = true → utf8 (Trust_DeviceID trust) = true → dir_inv d →
  dir_inv (initializeP2PTrust os d trust).1 ∧ files_kept d (initializeP2PTrust os d trust).1.
Proof.
  intros U1 U2 I. unfold initializeP2PTrust. destruct (_ || _) eqn:G; [by split|]. guards.
  destruct G as [G _]. destruct (pd_trust d) as [raw|] eqn:Et; [by destruct G|].
  destruct (CreatePolicyStore os d trust) as [d1 created] eqn:E.
  destruct (CreatePolicyStore_spec _ _ _ _ _ E U1 U2) as (T & K & P). rewrite Et in T.
  destruct (created ≫= _) as [[]| |] eqn:C; cbn.
  2,3: split; [|done]; intros device tr L; unfold loadP2PTrust in L; by rewrite T in L.
  destruct (write_exclusive os (pd_trust d1) _) as [file r] eqn:W. rewrite T in W. cbn.
  apply bind_Ok in C as (p & -> & _). destruct (P p eq_refl) as (b & st & Eb & D). split.
  - intros device tr L. rewrite (write_exclusive_trust _ _ _ _ _ _ _ U1 U2 W L). by exists b, st.
  - split; [rewrite Et; by intros [? ?]|]. apply K.
Qed.

Lemma secureP2PDirectory_safe os entry : entry_inv entry →
  entry_inv (secureP2PDirectory os entry).1 ∧ entry_kept entry (secureP2PDirectory os entry).1.
Proof.
  intros I. destruct entry as [| |d]; cbn; [|done|by split; [|exists d]].
  destruct (sys os "mkdir p2p"); [|done..]. by split; [|done].
Qed.

Lemma write_request_safe os entry r : entry_inv entry →
  entry_inv (write_request os entry r).1 ∧ entry_kept entry (write_request os entry r).1.
Proof.
  intros I. destruct entry as [| |d]; cbn; [done..|].
  destruct (write_atomic _ _ _) as [file res]. cbn. split; [exact I|]. by eexists.
Qed.
End pin.

Section machine.
Context `{ED : Ed25519} `{GJ : GrantJson} `{PJ : PolicyJson} `{HS : Hashes} `{GS : GoSort} `{XC : X25519}.
Context `{PF : !P2pFileJson} `{SJ : StateJson} {B : Type} `{BB : BoltBucket B}.
Context `{URL : GoURL} `{UC : UnicodeCase} `{P6 : Prefix6} `{PL : PayloadJson} {N : Type} `{HC : HttpClient N}.
Context `{JPi : JsonBody P2PInfo} `{JTk : JsonBody bytes} `{JPs : JsonBody (list P2PPeer)}.
Context `{JOf : JsonBody (option P2POffer)}.
Implicit Types m : machine B N.

(** The strings of a decoded answer are valid UTF-8. *)
Definition info_utf8 : Prop :=
  utf8 (Pi_ClusterID body_zero) = true ∧
  ∀ out raw, utf8 (Pi_ClusterID out) = true → utf8 (Pi_ClusterID (decode_into out raw).1) = true.

Lemma try_controllers_out {A} (P : A → Prop) decode method path token body endpoints lastErr (net : N) base out :
  (∀ d out raw, decode = Some d → P out → P (d out raw).1) → P out →
  P (try_controllers decode method path token body endpoints lastErr net base out).1.2.
Proof.
  intros Hd. revert lastErr net base out. induction endpoints as [|u l IH]; intros lastErr net base out H; cbn; [done|].
  destruct (url_parse _); [|done]. destruct (http_do _ _) as [net' [|status raw]]; [by apply IH|].
  destruct (retryable status); [by apply IH|]. destruct (_ || _); [done|].
  destruct decode as [d|]; [|done]. pose proof (Hd d out (limit_reader decode_limit raw) eq_refl H) as H'.
  destruct (d _ _) as [out' []]; [done|]. by apply IH.
Qed.

Lemma FetchP2PInfo_utf8 c (net : N) c' net' info : info_utf8 →
  FetchP2PInfo c net = (c', net', Ok info) →
  utf8 (Pi_ClusterID info) = true ∧ utf8 (Pi_DeviceID info) = true.
Proof.
  intros [Z D]. unfold FetchP2PInfo, checked, call_json, doJSON.
  pose proof (try_controllers_out (λ i, utf8 (Pi_ClusterID i) = true) (Some decode_into) "GET" "/v1/p2p/info"
    (Cl_Token c) (marshal_payload <$> None) (controllers c) "%s %s: no Controller endpoints available" net
    (Cl_BaseURL c) body_zero) as H.
  destruct (try_controllers _ _ _ _ _ _ _ _ _ _) as [[[n b] out] r]. cbn in H. intros E. injection E as _ _ E.
  apply bind_Ok in E as (i & E1 & E). apply bind_Ok in E1 as (? & _ & [= <-]).
  apply check_then in E as [G [= <-]]. split.
  - apply H; [|done]. intros d o raw [= <-]. apply D.
  - unfold info_bad in G. guards. destruct G as [[[_ G] _] _]. unfold p2pHex in G.
    destruct (hex_decode _) as [id|]; [|done]. guards. destruct G as [_ <-]. apply utf8_hex.
Qed.

(** ** Commands keep the pin *)

Definition keeps_pin {A} (c : cmd (B := B) (N := N) A) : Prop :=
  ∀ m, entry_inv (mc_p2p m) → entry_inv (mc_p2p (c m).1) ∧ entry_kept (mc_p2p m) (mc_p2p (c m).1).

Lemma keeps_bind_result {A A'} (Q : A → Prop) (c : cmd A) (f : A → cmd A') :
  keeps_pin c → (∀ m m' a, c m = (m', Ok a) → Q a) → (∀ a, Q a → keeps_pin (f a)) → keeps_pin (c ≫= f).
Proof.
  intros Hc HQ Hf m I. unfold mbind, cmd_bind. specialize (Hc m I) as [I1 K1].
  destruct (c m) as [m1 [a| |]] eqn:E; cbn in *; [|done..]. destruct (Hf a (HQ _ _ _ E) m1 I1) as [I2 K2].
  split; [done|]. by etransitivity.
Qed.

Lemma keeps_bind {A A'} (c : cmd A) (f : A → cmd A') :
  keeps_pin c → (∀ a, keeps_pin (f a)) → keeps_pin (c ≫= f).
Proof. intros Hc Hf. apply (keeps_bind_result (λ _, True)); auto. Qed.

(** A command that does not touch the directory. *)
Lemma keeps_same {A} (c : cmd A) : (∀ m, mc_p2p (c m).1 = mc_p2p m) → keeps_pin c.
Proof. intros E m I. by rewrite E. Qed.

Lemma keeps_entry {A} (f : p2p_entry B → p2p_entry B * result A) :
  (∀ entry, entry_inv entry → entry_inv (f entry).1 ∧ entry_kept entry (f entry).1) → keeps_pin (on_entry f).
Proof. intros H m I. unfold on_entry. specialize (H _ I). by destruct (f (mc_p2p m)). Qed.

Lemma keeps_if {A} (b : bool) (c c' : cmd A) : keeps_pin c → keeps_pin c' → keeps_pin (if b then c else c').
Proof. by destruct b. Qed.

Lemma pure_same {A} (r : result A) m : mc_p2p (pure r m).1 = mc_p2p m.
Proof. done. Qed.
Lemma on_net_same {A} (f : Client → N → Client * N * result A) c m : mc_p2p (on_net f c m).1 = mc_p2p m.
Proof. unfold on_net. by destruct (f _ _) as [[? ?] ?]. Qed.
Lemma on_file_same name f m : mc_p2p (on_file name f m).1 = mc_p2p m.
Proof. unfold on_file. by destruct (f _). Qed.
Lemma p2pServiceAction_same os start m : mc_p2p (p2pServiceAction os start m).1 = mc_p2p m.
Proof.
  unfold p2pServiceAction. destruct (sys os _ ;; _); [|done..]. destruct (Bool.eqb _ _); [done|].
  by destruct (sys os _).
Qed.
Lemma trust_of_same device m : mc_p2p (trust_of device m).1 = mc_p2p m.
Proof. unfold trust_of, on_dir, on_entry. by destruct (mc_p2p m) eqn:E. Qed.
End machine.

Create HintDb pin.
#[export] Hint Resolve secureP2PDirectory_safe write_request_safe : pin.
#[export] Hint Resolve pure_same on_net_same on_file_same p2pServiceAction_same trust_of_same : pin.

(** Commands that are composed of such steps. *)
Ltac keeps :=
  repeat first
    [ match goal with |- keeps_pin (_ ≫= _) => apply keeps_bind; [|intros ?] end
    | match goal with |- keeps_pin (let _ := _ in _) => cbv zeta end
    | match goal with |- keeps_pin (if _ then _ else _) => apply keeps_if end
    | apply keeps_entry; intros; solve [auto with pin]
    | apply keeps_same; intros ?; solve [done | auto with pin] ].

Section pinned.
Context `{ED : Ed25519} `{GJ : GrantJson} `{PJ : PolicyJson} `{HS : Hashes} `{GS : GoSort} `{XC : X25519}.
Context `{PF : !P2pFileJson} `{SJ : StateJson} {B : Type} `{BB : BoltBucket B}.
Context `{URL : GoURL} `{UC : UnicodeCase} `{P6 : Prefix6} `{PL : PayloadJson} {N : Type} `{HC : HttpClient N}.
Context `{JPi : JsonBody P2PInfo} `{JTk : JsonBody bytes} `{JPs : JsonBody (list P2PPeer)}.
Context `{JOf : JsonBody (option P2POffer)}.
Context (Hinfo : info_utf8).
Implicit Types m : machine B N.

Lemma p2p_init_keeps os state control : keeps_pin (p2p_init (B := B) (N := N) os state control).
Proof.
  apply (keeps_bind_result (λ info, utf8 (Pi_ClusterID info) = true ∧ utf8 (Pi_DeviceID info) = true)).
  - keeps.
  - intros m m' info E. unfold on_net in E.
    destruct (FetchP2PInfo control (mc_net m)) as [[c' net'] r'] eqn:F. injection E as _ ->.
    by eapply FetchP2PInfo_utf8.
  - intros info [U1 U2]. keeps. unfold on_dir. apply keeps_entry. intros [| |d] I; [done..|]. cbn.
    pose proof (initializeP2PTrust_safe os d (mkTrust (Pi_ClusterID info) (Pi_DeviceID info)
      (default [] (base64_decode (Pi_IssuerPublicKey info)))) U1 U2 I) as [I' K].
    destruct (initializeP2PTrust _ _ _) as [d' r]. cbn in *. split; [done|]. by exists d'.
Qed.

Lemma p2p_command_keeps os admin command flags nonce now :
  keeps_pin (p2p_command (B := B) (N := N) os admin command flags nonce now).
Proof.
  unfold p2p_command, p2p_run. keeps.
  destruct flags as [fl|]; [|keeps]. keeps. destruct nonce as [nonce|]; [|keeps]. keeps.
  - apply p2p_init_keeps.
  - unfold p2p_consent. keeps.
  - unfold p2p_request. keeps.
  - unfold p2p_start. keeps.
Qed.

Lemma p2pCommand_keeps os admin args flags nonce now :
  keeps_pin (p2pCommand (B := B) (N := N) os admin args flags nonce now).
Proof.
  destruct args as [|command rest]; cbn [p2pCommand]; [keeps|]. apply keeps_if; [|apply p2p_command_keeps].
  assert (keeps_pin (p2p_command (B := B) (N := N) os admin "init" (Some no_flags) nonce now ;; mret tt)) as Hi.
  { apply keeps_bind; [apply p2p_command_keeps|]. intros ?. keeps. }
  unfold prepareP2P. keeps. intros m I. pose proof (Hi m I) as H.
  destruct (mc_p2p m) as [| |d] eqn:E; [exact H|cbn; rewrite E..]; [done|]. split; [done|]. by exists d.
Qed.

Lemma initializeAccountP2P_keeps os admin state nonce1 nonce2 now :
  keeps_pin (initializeAccountP2P (B := B) (N := N) os admin state nonce1 nonce2 now).
Proof.
  unfold initializeAccountP2P. apply keeps_bind; [keeps|]. intros control m I.
  destruct (FetchP2PInfo control (mc_net m)) as [[c net] [info| |]]; [|done..].
  destruct (negb _); [done|].
  match goal with |- entry_inv (mc_p2p (?c _).1) ∧ _ => assert (keeps_pin c) as H end.
  { apply keeps_bind; intros; apply p2pCommand_keeps. }
  exact (H (set_net m net) I).
Qed.

Lemma inbox_tick_keeps os trust now m last : entry_inv (mc_p2p m) →
  entry_inv (mc_p2p (inbox_tick os trust now (m, last)).1) ∧
  entry_kept (mc_p2p m) (mc_p2p (inbox_tick os trust now (m, last)).1).
Proof.
  intros I. unfold inbox_tick. destruct (LoadState _); [|done..]. destruct (negb _); [done|].
  destruct (NewMultiClient _ _) as [client| |]; [|done..].
  pose proof (on_net_same P2PInbox client m) as E. destruct (on_net _ _ _) as [m1 r]. cbn in E.
  destruct r as [[offer|]| |]; [|by cbn; rewrite E..].
  destruct (verifiedP2POffer _ _ _ _) as [request| |]; [|by cbn; rewrite E..].
  destruct (String.eqb _ _); [by cbn; rewrite E|]. rewrite E.
  pose proof (write_request_safe os (mc_p2p m) request I). by destruct (write_request _ _ _).
Qed.

Lemma loadP2PTrust_unique d device device' trust trust' :
  loadP2PTrust (B := B) d device = Ok trust → loadP2PTrust d device' = Ok trust' → trust' = trust.
Proof.
  intros (_ & _ & raw & E & _ & D)%loadP2PTrust_Ok (_ & _ & raw' & E' & _ & D')%loadP2PTrust_Ok.
  congruence.
Qed.

Lemma store_step_trust (x y : Z * PolicyStore B) : store_step x y → ps_trust y.2 = ps_trust x.2.
Proof.
  intros [t p ticket|t p ticket|t p id|t p|t p|t p p' O|t t' p L]; cbn; [| | |done|done| |done].
  - unfold Track. destruct (negb _); [done|]. destruct (VerifyGrant _ _ _ _ _); [|done..].
    destruct (_ && _); [done|]. destruct (track_tx _ _ _ _); [|done..].
    destruct (filter _ _ !! _); [by destruct (negb _)|by destruct (_ <=? _)].
  - unfold Apply. by destruct (_ ≫= _) as [[[c allowed] b]| |].
  - unfold Stop. destruct (negb _); [done|]. destruct (ps_sessions _ !! id); [|done]. by destruct (stop_tx _ _ _ _ _).
  - apply check_then in O as [_ O]. by apply bind_Ok in O as (st & _ & [= <-]).
Qed.

Lemma store_run_trust (x y : Z * PolicyStore B) : rtc store_step x y → ps_trust y.2 = ps_trust x.2.
Proof. induction 1 as [|x y z S R IH]; [done|]. by rewrite IH, (store_step_trust _ _ S). Qed.

(** ** Runs of a machine *)

(** The commands, the set-up of an account, the inbox, a run of the agent on the
    opened store, and whatever happens outside the directory. *)
Inductive machine_step : machine B N → machine B N → Prop :=
| ms_command os admin args flags nonce now m :
    machine_step m (p2pCommand os admin args flags nonce now m).1
| ms_account os admin state nonce1 nonce2 now m :
    machine_step m (initializeAccountP2P os admin state nonce1 nonce2 now m).1
| ms_inbox os trust now last m : machine_step m (inbox_tick os trust now (m, last)).1
| ms_store os m d store trust t t' p' :
    mc_p2p m = Directory d →
    openP2PAuthority os (mc_p2p m) (mc_state m) = (true, Ok (Some (store, trust))) →
    rtc store_step (t, store) (t', p') →
    machine_step m (set_entry m (Directory (with_policy d (Some (Some (ps_db p'))))))
| ms_outside m state files net service :
    machine_step m (mkMachine (mc_p2p m) state files net service).

(** The pin and the floor at a later time. *)
Definition pinned_later (device : string) (trust : Trust) (st : policyState) m : Prop :=
  ∃ d b st', mc_p2p m = Directory d ∧ loadP2PTrust d device = Ok trust ∧
    pd_policy d = Some (Some b) ∧ policy_state trust b = Ok st' ∧
    St_Revision st <= St_Revision st' ∧ St_IssuedAt st <= St_IssuedAt st' ∧
    ∀ ip, ip ∈ St_Reserved st → ip ∈ St_Reserved st'.

Lemma kept_later device trust st entry m d b :
  entry_kept entry (mc_p2p m) → entry = Directory d → loadP2PTrust d device = Ok trust →
  pd_policy d = Some (Some b) → policy_state trust b = Ok st → pinned_later device trust st m.
Proof.
  intros K -> L P D. destruct K as (d' & E & Kt & Kp).
  destruct (loadP2PTrust_Ok _ _ _ L) as (_ & _ & raw & Er & _). rewrite Er in Kt.
  exists d', b, st. split_and!; [done| |rewrite Kp; by rewrite P|done..].
  unfold loadP2PTrust in *. by rewrite Kt, <- Er.
Qed.

Lemma openP2PAuthority_Ok os d file store trust :
  openP2PAuthority os (Directory d) file = (true, Ok (Some (store, trust))) →
  ∃ s b st, LoadState file = Ok s ∧ loadP2PTrust d (As_DeviceID s) = Ok trust ∧
    pd_policy d = Some (Some b) ∧ openPolicyStore b trust false = Ok store ∧
    policy_state trust b = Ok st ∧ store = mkPolicyStore b true trust ∅.
Proof.
  cbn. intros E. injection E as E. apply bind_Ok in E as (_ & _ & E).
  apply bind_Ok in E as (s & Es & E). apply bind_Ok in E as (tr & Et & E).
  apply bind_Ok in E as (p & Ep & [= -> ->]). unfold OpenPolicyStore in Ep.
  apply check_then in Ep as [_ Ep]. destruct (pd_policy d) as [[b|]|]; [| |done];
    apply bind_Ok in Ep as (_ & _ & Ep); [|done].
  pose proof Ep as Eo. apply check_then in Eo as [_ Eo]. apply bind_Ok in Eo as (st & D & [= <-]).
  by exists s, b, st.
Qed.

Lemma machine_step_pinned m m' : machine_step m m' → entry_inv (mc_p2p m) →
  entry_inv (mc_p2p m') ∧
  ∀ device trust st d b, mc_p2p m = Directory d → loadP2PTrust d device = Ok trust →
    pd_policy d = Some (Some b) → policy_state trust b = Ok st → pinned_later device trust st m'.
Proof.
  assert (∀ m', entry_inv (mc_p2p m') ∧ entry_kept (mc_p2p m) (mc_p2p m') → entry_inv (mc_p2p m') ∧
    ∀ device trust st d b, mc_p2p m = Directory d → loadP2PTrust d device = Ok trust →
      pd_policy d = Some (Some b) → policy_state trust b = Ok st → pinned_later device trust st m') as Hk.
  { intros m1 [I K]. split; [done|]. intros. by eapply kept_later. }
  intros S I. destruct S as [| | |os m d store trust t t' p' Ed O R|].
  - by apply Hk, p2pCommand_keeps.
  - by apply Hk, initializeAccountP2P_keeps.
  - by apply Hk, inbox_tick_keeps.
  - rewrite Ed in *. apply openP2PAuthority_Ok in O as (s & b & st & _ & L & P & O & D & ->).
    pose proof (store_run_trust _ _ R) as Et. cbn in Et.
    destruct (run_inv _ _ R) as (_ & [[st' D'] _ _] & G).
    { cbn. eapply (restart_inv t (mkPolicyStore b true trust ∅)); exact O. }
    cbn in G. unfold durable in D'. cbn in D'. rewrite Et in D'. split.
    + intros device trust' L'. rewrite (loadP2PTrust_unique _ _ _ _ _ L L'). by exists (ps_db p'), st'.
    + intros device trust' st0 d0 b0 [= <-] L' P' D0.
      pose proof (loadP2PTrust_unique _ _ _ _ _ L L') as ->.
      rewrite P in P'. injection P' as <-. destruct (G st0 D0) as (st1 & D1 & G1 & G2 & G3 & _).
      unfold durable in D1. rewrite Et in D1.
      exists (with_policy d (Some (Some (ps_db p')))), (ps_db p'), st1. split_and!; [done|exact L'|done..].
  - by apply Hk.
Qed.

Lemma machine_run_pinned m m' : rtc machine_step m m' → entry_inv (mc_p2p m) →
  entry_inv (mc_p2p m') ∧
  ∀ device trust st d b, mc_p2p m = Directory d → loadP2PTrust d device = Ok trust →
    pd_policy d = Some (Some b) → policy_state trust b = Ok st → pinned_later device trust st m'.
Proof.
  induction 1 as [m|m m1 m2 S R IH]; intros I.
  { split; [done|]. intros device trust st d b. by exists d, b, st. }
  destruct (machine_step_pinned _ _ S I) as [I1 P1]. destruct (IH I1) as [I2 P2]. split; [done|].
  intros device trust st d b E L P D.
  destruct (P1 device trust st d b E L P D) as (d1 & b1 & st1 & E1 & L1 & Pb1 & D1 & R1 & T1 & V1).
  destruct (P2 device trust st1 d1 b1 E1 L1 Pb1 D1) as (d2 & b2 & st2 & ? & ? & ? & ? & ? & ? & V2).
  exists d2, b2, st2. split_and!; [done..|lia|lia|]. auto.
Qed.
End pinned.

Section pinned_theorem.
Context `{ED : Ed25519} `{GJ : GrantJson} `{PJ : PolicyJson} `{HS : Hashes} `{GS : GoSort} `{XC : X25519}.
Context `{PF : !P2pFileJson} `{SJ : StateJson} {B : Type} `{BB : BoltBucket B}.
Context `{URL : GoURL} `{UC : UnicodeCase} `{P6 : Prefix6} `{PL : PayloadJson} {N : Type} `{HC : HttpClient N}.
Context `{JPi : JsonBody P2PInfo} `{JTk : JsonBody bytes} `{JPs : JsonBody (list P2PPeer)}.
Context `{JOf : JsonBody (option P2POffer)}.

(** C36. The trust pin of a Device is set once: on a machine that started without a P2P
    directory, whatever commands were run, wherever they failed and whatever the agent
    did since, a trust pin that can be loaded belongs to the policy store beside it, so
    that the authority opens with exactly this trust when the system calls succeed; and
    no later command, preparation, delivery or run of the agent changes the pin, resets
    the store, lowers its revision and time floor or drops a reserved peer. *)
Theorem p2p_trust_pinned (m0 m m' : machine B N) d device trust :
  info_utf8 → mc_p2p m0 = Absent → rtc machine_step m0 m → rtc machine_step m m' →
  mc_p2p m = Directory d → device ≠ "" → loadP2PTrust d device = Ok trust →
  ∃ b st, pd_policy d = Some (Some b) ∧ policy_state trust b = Ok st ∧
    (∀ os s, (∀ call, sys os call = Ok tt) → LoadState (mc_state m) = Ok s → As_DeviceID s = device →
       openP2PAuthority os (mc_p2p m) (mc_state m) =
         (true, Ok (Some (mkPolicyStore b true trust ∅, trust)))) ∧
    pinned_later device trust st m'.
Proof.
  intros Hi E0 R R' E Hd L.
  destruct (machine_run_pinned Hi _ _ R) as [I _]; [by rewrite E0|]. pose proof I as Id. rewrite E in Id.
  destruct (Id device trust L) as (b & st & P & D). exists b, st. split_and!; [done..| |].
  - intros os s Hos Es <-. rewrite E. cbn. rewrite Hos, Es. cbn. rewrite L. cbn.
    destruct (loadP2PTrust_Ok _ _ _ L) as (_ & Hp & _). unfold OpenPolicyStore.
    rewrite Hp, P, Hos by done. cbn. unfold openPolicyStore.
    change (String.eqb _ _ || _ || _) with (trust_pin_bad trust). rewrite Hp by done. cbn. by rewrite D.
  - by apply (proj2 (machine_run_pinned Hi _ _ R' I) device trust st d b).
Qed.
End pinned_theorem.
