(* ===== verification/AgentLoop.v ===== *)
(** * The workers of the agent ([cmd/bpc-agent]: [runtime.go], [runP2PLoop] and
    [p2pRouteScript] of [p2p.go], [p2p_windows.go], the P2P part of
    [runEmbeddedWireGuard] in [tunnel_windows.go])

    A [runtimeWorker] runs one task at a time and replaces it only after it has ended.
    The supervisor keeps two of them, for the transport and for the overlay; the P2P
    loop keeps one, for the session that the request file asks for. *)

From Stdlib Require Import Strings.Byte Strings.Ascii.
From S2P Require Import Prelude GoLib GoStrings GoEncoding Netip Crypto ControlStore GoNet.
From S2P Require Import P2pGrant P2pPolicy P2pAuthority P2pMux P2pRelay P2pEndpoint.
From S2P Require Import AgentConfig AgentControl AgentRuntime AgentP2p.

(** ** Workers *)

(** A goroutine with its context: whether it has ended, and its cancellation. *)
Class Task (T : Type) := { task_done : T → bool; task_cancel : T → T }.

(** [wk_task] is [None] when [cancel] is nil. *)
Record runtimeWorker (T : Type) := mkWorker { wk_fingerprint : string; wk_task : option T }.
Arguments mkWorker {T}.
Arguments wk_fingerprint {T}.
Arguments wk_task {T}.

Section worker.
Context {T : Type} `{TK : Task T}.
Implicit Types (w : runtimeWorker T) (t : T).

(** [runtimeWorker.stop]: [wait] is the task when it ends within five seconds.  The
    worker, the task that ended, and the error. *)
Definition Worker_stop w (wait : T → option T) : runtimeWorker T * option T * result unit :=
  match wk_task w with
  | None => (w, None, Ok tt)
  | Some t =>
      match (if task_done t then Some t else wait (task_cancel t)) with
      | Some ended => (mkWorker (wk_fingerprint w) None, Some ended, Ok tt)
      | None =>
          (mkWorker (wk_fingerprint w) (Some (task_cancel t)), None,
           Err "runtime did not stop within 5 seconds")
      end
  end.

(** [runtimeWorker.replace] *)
Definition Worker_replace w (wait : T → option T) (fingerprint : string) (task : T)
    : runtimeWorker T * option T * result unit :=
  if match wk_task w with
     | Some t => String.eqb (wk_fingerprint w) fingerprint && negb (task_done t)
     | None => false
     end
  then (w, None, Ok tt)
  else
    let '(w, ended, r) := Worker_stop w wait in
    if is_ok r then (mkWorker fingerprint (Some task), ended, Ok tt) else (w, ended, r).
End worker.

(** ** The supervisor *)

(** A run of the transport or the overlay with its arguments. *)
Record instance (C : Type) := mkInstance { in_config : C; in_cancelled : bool; in_done : bool }.
Arguments mkInstance {C}.
Arguments in_config {C}.
Arguments in_cancelled {C}.
Arguments in_done {C}.

#[export] Instance instance_task {C} : Task (instance C) := {|
  task_done := in_done;
  task_cancel i := mkInstance (in_config i) true (in_done i);
|}.

(** The values that [apply] encodes as fingerprints; lists are encoded with their
    elements, nil and empty ones alike. *)
Record transport_key := mkTransportKey {
  tk_paths : list TransportPath; tk_listen : string; tk_psk : string; tk_min : Z; tk_max : Z;
}.
Record overlay_key := mkOverlayKey { ok_profile : WireGuardProfile; ok_listen : string; ok_legacy : string }.

(** [json.Marshal] of them, as a string. *)
Class FingerprintJson := {
  marshal_transport : transport_key → string;
  marshal_overlay : overlay_key → string;
}.

Section supervisor.
Context `{FJ : FingerprintJson}.

Record runtimeSupervisor := mkSupervisor {
  sv_transport : runtimeWorker (instance RuntimeConfig);
  sv_overlay : runtimeWorker (instance (RuntimeConfig * WireGuardProfile));
  (** The channel of path switches, once it is made: its mailbox. *)
  sv_switches : option (option pathSwitchEvent);
}.
Implicit Types s : runtimeSupervisor.

Definition transport_of (cfg : RuntimeConfig) : transport_key :=
  mkTransportKey (TransportPaths cfg) (Rc_WGShimListen cfg) (Rc_WGShimPSK cfg) (Rc_PaddingMin cfg)
    (Rc_PaddingMax cfg).
Definition overlay_of (cfg : RuntimeConfig) (profile : WireGuardProfile) : overlay_key :=
  mkOverlayKey profile (Rc_WGShimListen cfg) (Rc_LegacyTunnel cfg).

(** [runtimeSupervisor.apply]; the waits are those of the two workers. *)
Definition Supervisor_apply s (cfg : RuntimeConfig) (profile : WireGuardProfile)
    (wait1 : instance RuntimeConfig → option (instance RuntimeConfig))
    (wait2 : instance (RuntimeConfig * WireGuardProfile) → option (instance (RuntimeConfig * WireGuardProfile)))
    : runtimeSupervisor * result unit :=
  let switches := Some (default None (sv_switches s)) in
  let '(transport, _, r) :=
    Worker_replace (sv_transport s) wait1 (marshal_transport (transport_of cfg)) (mkInstance cfg false false) in
  if negb (is_ok r) then (mkSupervisor transport (sv_overlay s) switches, r)
  else
    let '(overlay, _, r) :=
      Worker_replace (sv_overlay s) wait2 (marshal_overlay (overlay_of cfg profile))
        (mkInstance (cfg, profile) false false) in
    (mkSupervisor transport overlay switches, r).

(** [runtimeSupervisor.stop] *)
Definition Supervisor_stop s wait1 wait2 : runtimeSupervisor :=
  mkSupervisor (Worker_stop (sv_transport s) wait1).1.1 (Worker_stop (sv_overlay s) wait2).1.1 (sv_switches s).
End supervisor.

(** ** Routes to peers *)

(** [netip.Addr.String] of an IPv4 address. *)
Definition print_addr4 (a : Z) : string :=
  print_int (Z.land (Z.shiftr a 24) 255) +:+ "." +:+ print_int (Z.land (Z.shiftr a 16) 255) +:+ "." +:+
  print_int (Z.land (Z.shiftr a 8) 255) +:+ "." +:+ print_int (Z.land a 255).

Definition is_brace (c : ascii) : bool := Ascii.eqb c "{"%char || Ascii.eqb c "}"%char.

(** [strings.Trim(guid, "{}")] *)
Fixpoint trim_braces_left (s : string) : string :=
  match s with
  | String c rest => if is_brace c then trim_braces_left rest else s
  | "" => ""
  end.
Definition trim_braces (s : string) : string :=
  str_rev "" (trim_braces_left (str_rev "" (trim_braces_left s))).

Definition hex_char (c : ascii) : bool :=
  has_char (Ascii.eqb c) "0123456789abcdefABCDEF".

(** The loop over the characters: dashes stand at four places. *)
Fixpoint guid_chars (i : nat) (s : string) : bool :=
  match s with
  | "" => true
  | String c rest =>
      (if bool_decide (i ∈ [8; 13; 18; 23]%nat) then Ascii.eqb c "-"%char else hex_char c)
      && guid_chars (S i) rest
  end.

Definition p2pRouteScript (index : Z) (guid : string) (peer : option Z) (alreadyOwned : bool) : result string :=
  match peer with
  | None => Err "invalid owned P2P route"
  | Some a =>
      check ((index =? 0) || negb (addr_is_private a)) "invalid owned P2P route" ;;
      let guid := trim_braces guid in
      check (negb (str_len guid =? 36)) "invalid TUN GUID" ;;
      check (negb (guid_chars 0 guid)) "invalid TUN GUID" ;;
      let owned := if alreadyOwned then "$true" else "$false" in
      let index := print_int index in
      let peer := print_addr4 a in
      Ok ("$ErrorActionPreference='Stop'; " +:+
        "$adapters=@(Get-NetAdapter -IncludeHidden -ErrorAction Stop | Where-Object {$_.ifIndex -eq " +:+ index +:+
        "}); " +:+
        "if ($adapters.Count -ne 1 -or $adapters[0].InterfaceGuid.ToString() -ne '" +:+ guid +:+
        "') {throw 'BPC TUN ownership changed'}; " +:+
        "$routes=@(Get-NetRoute -AddressFamily IPv4 -PolicyStore ActiveStore -ErrorAction Stop | " +:+
        "Where-Object {$_.DestinationPrefix -eq '" +:+ peer +:+ "/32'}); " +:+
        "if ($routes.Count -ne 0) { " +:+
        "if (" +:+ owned +:+ " -and $routes.Count -eq 1 -and $routes[0].InterfaceIndex -eq " +:+ index +:+
        " -and $routes[0].NextHop -eq '0.0.0.0' -and $routes[0].RouteMetric -eq 5) {exit 0}; " +:+
        "throw 'Conflicting P2P route; external routes are preserved'}; " +:+
        "New-NetRoute -InterfaceIndex " +:+ index +:+ " -DestinationPrefix '" +:+ peer +:+
        "/32' -NextHop 0.0.0.0 -RouteMetric 5 -PolicyStore ActiveStore -ErrorAction Stop | Out-Null")
  end.

(** What Windows says of the adapter, and whether the script succeeds. *)
Record adapter := mkAdapter {
  ad_luid : Z;
  ad_index : option Z;
  ad_guid : option string;
  ad_powershell : string → bool;
}.

(** [p2pOwnedRoute]: the /32 routes that this overlay owns, at its start and after a
    call of the function it returns. *)
Definition owned_routes (profile : WireGuardProfile) : list Prefix := omap parse_prefix4 (Wg_AllowedIPs profile).

Definition p2pOwnedRoute (ad : adapter) (owned : list Prefix) (peer : option Z) : list Prefix * result unit :=
  if ad_luid ad =? 0 then (owned, Err "BPC adapter closed")
  else match ad_index ad with
  | None => (owned, Err "BPC adapter index unavailable")
  | Some index =>
      match ad_guid ad with
      | None => (owned, Err "BPC adapter identity unavailable")
      | Some guid =>
          let mine := match peer with Some a => bool_decide (mkPrefix a 32 ∈ owned) | None => false end in
          match p2pRouteScript index guid peer mine with
          | Ok script =>
              if negb (ad_powershell ad script)
              then (owned, Err "P2P route unavailable or conflicts with existing ownership")
              else (match peer with Some a => mkPrefix a 32 :: owned | None => owned end, Ok tt)
          | Err e => (owned, Err e)
          | Panic => (owned, Panic)
          end
      end
  end.

(** ** The P2P loop *)

Section loop.
Context `{ED : Ed25519} `{GJ : GrantJson} `{PJ : PolicyJson} `{HS : Hashes} `{GS : GoSort} `{XC : X25519}.
Context `{PF : !P2pFileJson} `{SJ : StateJson} `{P6 : Prefix6}.
Context {B : Type} `{BB : BoltBucket B} {D : Type} `{TD : TunDevice D}.
Abbreviation objects := (endpoint (B := B) (D := D)).

(** A call of [RunManagedEndpoint]: the shared objects when it was started, or when it
    returned. *)
Inductive session_task :=
| Running (c : EndpointConfig) (start : objects) (cancelled : bool)
| Ended (e : objects) (errs : list string).

#[export] Instance session_is_task : Task session_task := {|
  task_done t := match t with Running _ _ _ => false | Ended _ _ => true end;
  task_cancel t := match t with Running c start _ => Running c start true | Ended _ _ => t end;
|}.

(** How a running session goes on: what the world answers, and the events. *)
Abbreviation course := (environment (B := B) (D := D) * list event)%type.

Definition end_session (how : course) (t : session_task) : session_task :=
  match t with
  | Running c start _ => let '(e, errs) := RunManagedEndpoint c how.1 how.2 start in Ended e errs
  | Ended _ _ => t
  end.

(** The state of the loop; [lp_idle] are the shared objects while no session exists. *)
Record p2p_loop := mkLoop {
  lp_idle : objects;
  lp_worker : runtimeWorker session_task;
  lp_last : bytes;
}.
Implicit Types l : p2p_loop.

(** [store.FailClosed()]: while a session runs it is one of the steps between the
    statements of the session. *)
Definition fail_closed e : objects := set_store e (FailClosed (ep_store e)).
Definition loop_fail_closed l : p2p_loop :=
  match wk_task (lp_worker l) with
  | None => mkLoop (fail_closed (lp_idle l)) (lp_worker l) (lp_last l)
  | Some (Ended e errs) =>
      mkLoop (lp_idle l) (mkWorker (wk_fingerprint (lp_worker l)) (Some (Ended (fail_closed e) errs))) (lp_last l)
  | Some (Running _ _ _) => l
  end.

(** [worker.stop()]: [how] is the course of a session that ends within five seconds. *)
Definition loop_stop l (how : option course) : p2p_loop * result unit :=
  let '(w, ended, r) := Worker_stop (lp_worker l) (λ t, (λ h, end_session h t) <$> how) in
  (mkLoop (match ended with Some (Ended e _) => e | _ => lp_idle l end) w (lp_last l), r).

(** A new call has its own locals. *)
Definition new_call e : objects :=
  mkEndpoint (ep_clock e) (ep_store e) (ep_mux e) None None false false false false None.

Context (trust : Trust) (profile : WireGuardProfile).

Definition request_bad (r : p2pRequest) : bool :=
  negb (Rq_Version r =? 1)
  || match hex_decode (Rq_ID r) with
     | None => true
     | Some id => negb (zlen id =? 16) || negb (String.eqb (hex_encode id) (Rq_ID r))
     end.

(** One tick of [runP2PLoop] on the request file and the state file. *)
Definition loop_tick l (file : option bytes) (state : state_file) (how : option course) : p2p_loop :=
  match readP2PJSON decode_request file 16384 with
  | Ok (request, raw) =>
      let hash := sha256 raw in
      if bool_decide (hash = lp_last l) then l
      else
        let '(l, stopped) := loop_stop (loop_fail_closed l) how in
        if negb (is_ok stopped) then l
        else
          let l := mkLoop (lp_idle l) (lp_worker l) hash in
          if request_bad request then l
          else if Rq_Stop request then l
          else match LoadState state with
          | Ok s =>
              if negb (String.eqb (As_DeviceID s) (Trust_DeviceID trust)) then l
              else match localP2PConfig s profile request with
              | Ok cfg =>
                  let '(w, _, _) := Worker_replace (lp_worker l) (λ _, None) (Rq_ID request)
                                      (Running cfg (new_call (lp_idle l)) false) in
                  mkLoop (lp_idle l) w hash
              | _ => l
              end
          | _ => l
          end
  | _ => (loop_stop (loop_fail_closed l) how).1
  end.

(** The loop returns: its deferred call stops the worker. *)
Definition loop_exit l (how : option course) : p2p_loop := (loop_stop l how).1.

(** The start of [runEmbeddedWireGuard]: the authority is opened, and every peer that
    the store reserves is reserved in the adapter and gets its route before the gateway
    device reads a packet.  [None] when the pilot is off. *)
Fixpoint reserve_peers (ad : adapter) (owned : list Prefix) (m : MuxTUN D) (peers : list (option Z))
    : MuxTUN D * result (list Prefix) :=
  match peers with
  | [] => (m, Ok owned)
  | peer :: rest =>
      match Reserve m peer with
      | (m, Ok _) =>
          match p2pOwnedRoute ad owned peer with
          | (owned, Ok _) => reserve_peers ad owned m rest
          | (_, Err e) => (m, Err e)
          | (_, Panic) => (m, Panic)
          end
      | (m, Err e) => (m, Err e)
      | (m, Panic) => (m, Panic)
      end
  end.

Definition start_overlay (os : syscalls) (entry : p2p_entry B) (state : state_file) (ad : adapter) (tun : D)
    : result (option (PolicyStore B * Trust * MuxTUN D)) :=
  let '(pilot, opened) := openP2PAuthority os entry state in
  match opened with
  | Ok (Some (store, tr)) =>
      peers ← ReservedPeers store;
      match reserve_peers ad (owned_routes profile) (NewMuxTUN tun) peers with
      | (m, Ok _) => Ok (Some (store, tr, m))
      | (_, Err e) => Err e
      | (_, Panic) => Panic
      end
  | Ok None => Ok None
  | Err e => Err e
  | Panic => Panic
  end.
End loop.

(** The closure [sync] of the loop: what the session asks the Controller, with the
    credentials of the moment.  Its answer is [env_sync] of the session. *)
Section sync.
Context `{URL : GoURL} `{PJ : PayloadJson} {N : Type} `{HC : HttpClient N} `{UC : UnicodeCase} `{SJ : StateJson}.
Context `{JTk : JsonBody bytes}.

Definition p2p_sync (trust : Trust) (file : state_file) (net : N) (tickets : list bytes) : N * result bytes :=
  match LoadState file with
  | Ok latest =>
      if negb (String.eqb (As_DeviceID latest) (Trust_DeviceID trust)) then (net, Err "P2P Device changed")
      else match NewMultiClient (ControlEndpoints latest) (ControlCredential latest) with
      | Ok client => let '(_, net, r) := SyncP2PPolicy client net tickets in (net, r)
      | Err e => (net, Err e)
      | Panic => (net, Panic)
      end
  | Err e => (net, Err e)
  | Panic => (net, Panic)
  end.
End sync.

(** ** The route script *)

(** No character that PowerShell gives a meaning to inside quotes. *)
Definition plain_char (c : ascii) : bool := hex_char c || Ascii.eqb c "-"%char || Ascii.eqb c "."%char.
Definition plain (s : string) : Prop := has_char (λ c, negb (plain_char c)) s = false.

Lemma plain_app a b : plain a → plain b → plain (a +:+ b).
Proof.
  unfold plain. induction a as [|c a IH]; [done|].
  change (String c a +:+ b) with (String c (a +:+ b)). cbn [has_char].
  intros [E H]%orb_false_iff Hb. rewrite E. by apply IH.
Qed.

Lemma plain_digits fuel n acc : plain acc → plain (print_digits fuel n acc).
Proof.
  revert n acc. induction fuel as [|fuel IH]; intros n acc H; cbn; [done|].
  assert (plain (String (ascii_of_N (Z.to_N (48 + n mod 10))) acc)) as Hc.
  { unfold plain in *. cbn. apply orb_false_iff. split; [|done].
    pose proof (Z.mod_pos_bound n 10 ltac:(lia)) as Hn.
    assert (n mod 10 = 0 ∨ n mod 10 = 1 ∨ n mod 10 = 2 ∨ n mod 10 = 3 ∨ n mod 10 = 4 ∨ n mod 10 = 5 ∨
      n mod 10 = 6 ∨ n mod 10 = 7 ∨ n mod 10 = 8 ∨ n mod 10 = 9) as Hd by lia.
    by destruct Hd as [->|[->|[->|[->|[->|[->|[->|[->|[->| ->]]]]]]]]]. }
  destruct (_ =? 0); [done|]. by apply IH.
Qed.

Lemma plain_int n : plain (print_int n).
Proof.
  unfold print_int. destruct (n <? 0); [|by apply plain_digits].
  apply (plain_app "-"); [done|]. by apply plain_digits.
Qed.

Lemma plain_guid i s : guid_chars i s = true → plain s.
Proof.
  revert i. induction s as [|c s IH]; intros i; [done|]. cbn [guid_chars]. intros [Hc Hs]%andb_true_iff.
  unfold plain. cbn [has_char]. apply orb_false_iff. split; [|by eapply IH].
  apply negb_false_iff. unfold plain_char.
  case_bool_decide; rewrite Hc; [by rewrite orb_true_r|done].
Qed.

Lemma plain_addr a : plain (print_addr4 a).
Proof. unfold print_addr4. repeat apply plain_app; solve [apply plain_int|done]. Qed.

(** A script is made exactly for a private IPv4 peer on an identified adapter, and what
    is inserted into it can neither end a quoted string nor add a statement. *)
Lemma p2pRouteScript_safe index guid peer owned :
  (∃ script, p2pRouteScript index guid peer owned = Ok script) ↔
  index ≠ 0 ∧ (∃ a, peer = Some a ∧ addr_is_private a = true) ∧
  str_len (trim_braces guid) = 36 ∧ guid_chars 0 (trim_braces guid) = true.
Proof.
  unfold p2pRouteScript. split.
  - intros [script E]. destruct peer as [a|]; [|done]. apply check_then in E as [G1 E].
    apply check_then in E as [G2 E]. apply check_then in E as [G3 _]. guards. destruct G1. split_and!; eauto.
  - intros (H1 & (a & -> & Ha) & Hl & Hg). rewrite Ha, Hl, Hg.
    destruct (Z.eqb_spec index 0); [done|]. cbn [orb negb check]. eexists. reflexivity.
Qed.

Lemma p2pRouteScript_plain index guid a owned script :
  p2pRouteScript index guid (Some a) owned = Ok script →
  plain (print_int index) ∧ plain (trim_braces guid) ∧ plain (print_addr4 a).
Proof.
  intros E. split_and!; [apply plain_int| |apply plain_addr].
  apply (plain_guid 0). apply (p2pRouteScript_safe index guid (Some a) owned). eauto.
Qed.

(** ** Facts about workers *)

Section worker_facts.
Context {T : Type} `{TK : Task T}.
Implicit Types (w : runtimeWorker T) (wait : T → option T).

(** A task gives way to another only when it has ended; a worker that does not stop
    keeps its cancelled task. *)
Lemma Worker_replace_spec w wait fingerprint task w' ended r :
  (∀ t t', wait t = Some t' → task_done t' = true) →
  Worker_replace w wait fingerprint task = (w', ended, r) →
  (∃ t, wk_task w = Some t ∧ wk_fingerprint w = fingerprint ∧ task_done t = false ∧ w' = w ∧ r = Ok tt) ∨
  (w' = mkWorker fingerprint (Some task) ∧ r = Ok tt ∧
     (∀ t, wk_task w = Some t → ∃ t', ended = Some t' ∧ task_done t' = true) ∧
     (∀ t, wk_task w = Some t → task_done t = true ∨ wk_fingerprint w ≠ fingerprint)) ∨
  (∃ t, wk_task w = Some t ∧ task_done t = false ∧ wk_fingerprint w ≠ fingerprint ∧
     w' = mkWorker (wk_fingerprint w) (Some (task_cancel t)) ∧ is_ok r = false).
Proof.
  intros Hw. unfold Worker_replace, Worker_stop. destruct w as [fp [t|]]; cbn.
  2: { intros [= <- <- <-]. right; left. by split_and!. }
  destruct (String.eqb fp fingerprint) eqn:Ef, (task_done t) eqn:Ed; cbn; guards.
  - intros [= <- <- <-]. right; left. split_and!; [done..| |]; intros t' [= <-]; eauto.
  - intros [= <- <- <-]. left. by exists t.
  - intros [= <- <- <-]. right; left. split_and!; [done..| |]; intros t' [= <-]; eauto.
  - destruct (wait (task_cancel t)) as [t'|] eqn:W; cbn; intros [= <- <- <-].
    + right; left. split_and!; [done..| |]; intros t0 [= <-]; eauto.
    + right; right. by exists t.
Qed.
End worker_facts.

(** ** Facts about the supervisor *)

Section supervisor_facts.
Context `{FJ : FingerprintJson}.
Implicit Types s : runtimeSupervisor.

Definition waits {C} (wait : instance C → option (instance C)) : Prop :=
  ∀ i i', wait i = Some i' → in_done i' = true.

Definition worker_end {C} (w : runtimeWorker (instance C)) : runtimeWorker (instance C) :=
  mkWorker (wk_fingerprint w) ((λ i, mkInstance (in_config i) (in_cancelled i) true) <$> wk_task w).

Definition new_supervisor : runtimeSupervisor := mkSupervisor (mkWorker "" None) (mkWorker "" None) None.

(** Configurations arrive, workers end by themselves, and the path switches pass
    through the mailbox. *)
Inductive supervisor_step : runtimeSupervisor → runtimeSupervisor → Prop :=
| ss_apply s cfg profile wait1 wait2 : waits wait1 → waits wait2 →
    supervisor_step s (Supervisor_apply s cfg profile wait1 wait2).1
| ss_stop s wait1 wait2 : waits wait1 → waits wait2 → supervisor_step s (Supervisor_stop s wait1 wait2)
| ss_transport_ends s : supervisor_step s (mkSupervisor (worker_end (sv_transport s)) (sv_overlay s) (sv_switches s))
| ss_overlay_ends s : supervisor_step s (mkSupervisor (sv_transport s) (worker_end (sv_overlay s)) (sv_switches s))
| ss_switch s mailbox : supervisor_step s (mkSupervisor (sv_transport s) (sv_overlay s) (Some mailbox)).

(** A worker carries the fingerprint of the configuration its task was started with. *)
Definition named {C} (f : C → string) (w : runtimeWorker (instance C)) : Prop :=
  ∀ i, wk_task w = Some i → wk_fingerprint w = f (in_config i).

Definition transport_name (cfg : RuntimeConfig) : string := marshal_transport (transport_of cfg).
Definition overlay_name (x : RuntimeConfig * WireGuardProfile) : string := marshal_overlay (overlay_of x.1 x.2).

Definition supervisor_inv s : Prop := named transport_name (sv_transport s) ∧ named overlay_name (sv_overlay s).

Lemma named_replace {C} (f : C → string) w wait c w' ended r : waits wait → named f w →
  Worker_replace w wait (f c) (mkInstance c false false) = (w', ended, r) → named f w'.
Proof.
  intros W N E. apply Worker_replace_spec in E; [|done].
  destruct E as [(t & Et & _ & _ & -> & _)|[(-> & _)|(t & Et & _ & _ & -> & _)]]; [done| |].
  - intros i [= <-]. done.
  - intros i [= <-]. cbn. by apply N.
Qed.

Lemma named_stop {C} (f : C → string) w wait : named f w → named f (Worker_stop w wait).1.1.
Proof.
  intros N. unfold Worker_stop. destruct (wk_task w) as [t|] eqn:E; [|done].
  destruct (if task_done t then _ else _); [done|]. intros i [= <-]. cbn. by apply N.
Qed.

Lemma named_end {C} (f : C → string) w : named f w → named f (worker_end w).
Proof. intros N i. cbn. destruct (wk_task w) as [j|] eqn:E; [|done]. intros [= <-]. cbn. by apply N. Qed.

Lemma supervisor_step_inv s s' : supervisor_step s s' → supervisor_inv s → supervisor_inv s'.
Proof.
  intros [? cfg profile w1 w2 H1 H2|? w1 w2 H1 H2|?|?|?] [N1 N2].
  - unfold Supervisor_apply.
    destruct (Worker_replace (sv_transport _) w1 _ _) as [[t e1] r1] eqn:E1.
    apply (named_replace transport_name) in E1; [|done..]. destruct (negb _); [done|].
    destruct (Worker_replace (sv_overlay _) w2 _ _) as [[o e2] r2] eqn:E2.
    by apply (named_replace overlay_name _ _ (cfg, profile)) in E2.
  - split; cbn; by apply named_stop.
  - split; [by apply named_end|done].
  - split; [done|by apply named_end].
  - done.
Qed.

(** A worker after [replace] with the configuration [c]: the same task goes on when the
    fingerprint is the same, else the task ended and a new one runs. *)
Definition replaced {C} (f : C → string) w w' (c : C) : Prop :=
  (w' = w ∧ ∃ i, wk_task w = Some i ∧ in_done i = false ∧ f (in_config i) = f c) ∨
  (w' = mkWorker (f c) (Some (mkInstance c false false)) ∧
   ∀ i, wk_task w = Some i → in_done i = true ∨ f (in_config i) ≠ f c).

(** A worker that did not stop. *)
Definition stuck {C} (f : C → string) w w' (c : C) : Prop :=
  ∃ i, wk_task w = Some i ∧ in_done i = false ∧ f (in_config i) ≠ f c ∧
    wk_task w' = Some (mkInstance (in_config i) true false).

Lemma replace_cases {C} (f : C → string) w wait c w' ended r : waits wait → named f w →
  Worker_replace w wait (f c) (mkInstance c false false) = (w', ended, r) →
  (r = Ok tt ∧ replaced f w w' c) ∨ (is_ok r = false ∧ stuck f w w' c).
Proof.
  intros W N E. apply Worker_replace_spec in E; [|done].
  destruct E as [(t & Et & Ef & Ed & -> & ->)|[(-> & -> & _ & H)|(t & Et & Ed & Ef & -> & Hr)]].
  - left. split; [done|]. left. split; [done|]. exists t. by rewrite <- (N _ Et).
  - left. split; [done|]. right. split; [done|]. intros i Ei. rewrite <- (N _ Ei). by apply H.
  - right. split; [done|]. exists t. rewrite <- (N _ Et). split_and!; [done..|]. cbn in *. by rewrite Ed.
Qed.
End supervisor_facts.

Section supervisor_theorem.
Context `{FJ : FingerprintJson}.

End supervisor_theorem.

(** ** Facts about the P2P loop *)

Section loop_facts.
Context `{ED : Ed25519} `{GJ : GrantJson} `{PJ : PolicyJson} `{HS : Hashes} `{GS : GoSort} `{XC : X25519}.
Context `{PF : !P2pFileJson} `{SJ : StateJson} `{P6 : Prefix6}.
Context {B : Type} `{BB : BoltBucket B} {D : Type} `{TD : TunDevice D}.
Context (trust : Trust) (profile : WireGuardProfile).
Abbreviation objects := (endpoint (B := B) (D := D)).
Abbreviation loop := (p2p_loop (B := B) (D := D)).
Abbreviation course := (environment (B := B) (D := D) * list event)%type.
Implicit Types (l : loop) (e : objects).

(** Between the statements of a session the others do what [shared] says; while no
    session exists, packets pass the adapter, time passes and the store may be closed. *)
Definition fair (how : course) : Prop := ∀ n e, shared e (meanwhile how.1 n e).
Definition fair_opt (how : option course) : Prop := ∀ h, how = Some h → fair h.

Record quiet e e' : Prop := {
  qt_clock : ep_clock e <= ep_clock e';
  qt_store : ep_store e' = ep_store e ∨ ep_store e' = FailClosed (ep_store e) ∨ ep_store e' = Close (ep_store e);
  qt_mux : rtc mux_step (ep_mux e) (ep_mux e');
  qt_local : ep_policy e' = ep_policy e ∧ ep_input e' = ep_input e ∧ ep_bridge e' = ep_bridge e ∧
    ep_device e' = ep_device e ∧ ep_relay e' = ep_relay e;
}.

(** No session of the process is authorised, and the last one left nothing open. *)
Record at_rest e : Prop := {
  ar_sound : sound e;
  ar_store : nothing_authorised (ep_store e);
  ar_released : released_all e;
}.

(** The request that a session was started for: it was read as a whole, names its
    session canonically, is no stop, and gave the configuration together with the
    identity of this Device. *)
Definition requested (last : bytes) (id : string) (c : EndpointConfig) : Prop :=
  ∃ raw request s, decode_request raw = Some (request, true) ∧ zlen raw <= 16384 ∧ last = sha256 raw ∧
    id = Rq_ID request ∧ request_bad request = false ∧ Rq_Stop request = false ∧
    As_DeviceID s = Trust_DeviceID trust ∧ localP2PConfig s profile request = Ok c.

Definition loop_inv l : Prop :=
  match wk_task (lp_worker l) with
  | None => at_rest (lp_idle l)
  | Some (Ended e _) => at_rest e
  | Some (Running c start _) =>
      requested (lp_last l) (wk_fingerprint (lp_worker l)) c ∧ sound start ∧ fresh_call start ∧
      nothing_authorised (ep_store start)
  end.

Lemma localP2PConfig_Ok s request c : localP2PConfig s profile request = Ok c →
  Cfg_TLS c = true ∧ Cfg_Ticket c = Rq_Ticket request ∧ Cfg_DeviceID c = As_DeviceID s ∧
  Cfg_WireGuardPrivate c = Wg_PrivateKey profile ∧ Cfg_RelayAddress c = Rq_Relay request ∧
  base64_decode (As_PrivateKey s) = Some (Cfg_Identity c) ∧ zlen (Cfg_Identity c) = 64 ∧
  prefix_address (Wg_Address profile) = Ok (Cfg_Address c).
Proof.
  unfold localP2PConfig. destruct (base64_decode _) as [key|] eqn:Ek; [|done].
  intros [Hl E]%check_then. guards. apply bind_Ok in E as (a & Ea & E). apply bind_Ok in E as (h & Eh & [= <-]).
  cbn. assert (String.eqb h "" = false) as ->; [|by split_and!].
  unfold relayHost in Eh. destruct (SplitHostPort _) as [[host port]|]; [|done].
  apply check_then in Eh as [G [= <-]]. by apply orb_false_iff in G as [G _].
Qed.

Lemma nothing_FailClosed (p : PolicyStore B) : nothing_authorised p → nothing_authorised (FailClosed p).
Proof.
  intros N id s now H. apply failClosed_sessions in H as (s0 & H0 & ->). specialize (N _ _ now H0).
  unfold active in *. cbn. destruct (session_managed s0); [done|]. exact N.
Qed.

Lemma quiet_rest e e' : quiet e e' → at_rest e → at_rest e'.
Proof.
  intros [T S M (E1 & E2 & E3 & E4 & E5)] [[I1 I2 I3] N [R1 R2 R3 R4 R5]].
  destruct (mux_run_inv _ _ M I2) as [I2' _].
  assert (rtc store_step (ep_clock e, ep_store e) (ep_clock e', ep_store e')) as R.
  { eapply rtc_l; [by apply step_later|]. destruct S as [->|[->| ->]]; [done|..]; apply rtc_once; constructor. }
  destruct (run_inv _ _ R I1) as (_ & I1' & _). split; [split| |split].
  - exact I1'.
  - done.
  - rewrite E2. intros i H. eapply mux_run_open; eauto.
  - destruct S as [->|[->| ->]]; [done|by apply nothing_FailClosed|]. apply (nothing_FailClosed _ N).
  - by rewrite E1.
  - rewrite E2. intros i H. eapply mux_run_closed; eauto.
  - by rewrite E3.
  - by rewrite E4.
  - by rewrite E5.
Qed.

Lemma fail_closed_rest e : at_rest e → at_rest (fail_closed e).
Proof. apply quiet_rest. split; cbn; [lia|auto|done|done]. Qed.

Lemma end_session_rest c start b how last id :
  fair how → requested last id c → sound start → fresh_call start →
  ∃ e errs, end_session how (Running c start b) = Ended e errs ∧ at_rest e.
Proof.
  intros F (raw & request & s & _ & _ & _ & _ & _ & _ & _ & Ec) S Fc. cbn.
  destruct (RunManagedEndpoint c how.1 how.2 start) as [e errs] eqn:E. exists e, errs. split; [done|].
  apply localP2PConfig_Ok in Ec as (T & _).
  destruct (managed_closes c how.1 how.2 start e errs T F S Fc E) as (S' & N & R & _). done.
Qed.

Lemma loop_fail_closed_inv l : loop_inv l → loop_inv (loop_fail_closed l).
Proof.
  unfold loop_inv, loop_fail_closed. destruct (wk_task (lp_worker l)) as [[c start b|e errs]|] eqn:E; cbn.
  - by rewrite E.
  - apply fail_closed_rest.
  - rewrite E. apply fail_closed_rest.
Qed.

Lemma loop_fail_closed_same l :
  lp_last (loop_fail_closed l) = lp_last l ∧
  wk_fingerprint (lp_worker (loop_fail_closed l)) = wk_fingerprint (lp_worker l).
Proof. unfold loop_fail_closed. by destruct (wk_task (lp_worker l)) as [[]|]. Qed.

(** After [worker.stop] no session exists, or the one that runs is cancelled. *)
Lemma loop_stop_spec l how l' r : fair_opt how → loop_inv l → loop_stop l how = (l', r) →
  lp_last l' = lp_last l ∧ loop_inv l' ∧
  ((r = Ok tt ∧ wk_task (lp_worker l') = None ∧ at_rest (lp_idle l')) ∨
   (is_ok r = false ∧ how = None ∧ ∃ c start, wk_task (lp_worker l') = Some (Running c start true))).
Proof.
  intros F I. unfold loop_stop, Worker_stop, loop_inv in *.
  destruct (wk_task (lp_worker l)) as [[c start b|e errs]|] eqn:E; cbn [task_done task_cancel session_is_task].
  - destruct I as (Q & S & Fc & N). destruct how as [h|]; cbn [fmap option_fmap option_map].
    + destruct (end_session_rest c start true h _ _ (F _ eq_refl) Q S Fc) as (e & errs & -> & A).
      intros [= <- <-]. cbn. split_and!; [done..|]. by left.
    + intros [= <- <-]. cbn. split_and!; [done..|]. right. split_and!; [done..|]. by exists c, start.
  - intros [= <- <-]. cbn. split_and!; [done..|]. by left.
  - intros [= <- <-]. cbn. rewrite E. split_and!; [done..|]. by left.
Qed.

Lemma new_call_rest e : at_rest e → sound (new_call e) ∧ fresh_call (new_call e) ∧
  nothing_authorised (ep_store (new_call e)).
Proof. intros [[I1 I2 I3] N _]. by split_and!. Qed.

(** A tick on a readable new request, when the worker stopped. *)
Lemma loop_tick_started l l1 file state how request raw :
  readP2PJSON decode_request file 16384 = Ok (request, raw) → sha256 raw ≠ lp_last l →
  loop_stop (loop_fail_closed l) how = (l1, Ok tt) → wk_task (lp_worker l1) = None →
  let l' := loop_tick trust profile l file state how in
  lp_idle l' = lp_idle l1 ∧ lp_last l' = sha256 raw ∧
  (wk_task (lp_worker l') = None ∨
   ∃ s c, request_bad request = false ∧ Rq_Stop request = false ∧ LoadState state = Ok s ∧
     As_DeviceID s = Trust_DeviceID trust ∧ localP2PConfig s profile request = Ok c ∧
     lp_worker l' = mkWorker (Rq_ID request) (Some (Running c (new_call (lp_idle l1)) false))).
Proof.
  intros Er Hl Es En l'. subst l'. unfold loop_tick. rewrite Er, bool_decide_false, Es by done. cbn.
  destruct (request_bad request) eqn:Eb; [cbn; auto|]. destruct (Rq_Stop request) eqn:Ep; [cbn; auto|].
  destruct (LoadState state) as [s| |] eqn:Ls; [|cbn; auto..].
  destruct (String.eqb_spec (As_DeviceID s) (Trust_DeviceID trust)) as [Ed|]; cbn; [|auto].
  destruct (localP2PConfig s profile request) as [c| |] eqn:Ec; [|cbn; auto..].
  unfold Worker_replace, Worker_stop. cbn. rewrite En. cbn. split_and!; [done..|]. right. by exists s, c.
Qed.

Lemma loop_tick_inv l file state how : fair_opt how → loop_inv l →
  loop_inv (loop_tick trust profile l file state how).
Proof.
  intros F I. pose proof (loop_fail_closed_inv _ I) as If.
  destruct (loop_stop (loop_fail_closed l) how) as [l1 r] eqn:Es.
  destruct (loop_stop_spec _ _ _ _ F If Es) as (_ & I1 & C).
  destruct (readP2PJSON decode_request file 16384) as [[request raw]| |] eqn:Er.
  2,3: unfold loop_tick; rewrite Er, Es; exact I1.
  destruct (decide (sha256 raw = lp_last l)) as [Eh|Hl].
  { unfold loop_tick. by rewrite Er, bool_decide_true. }
  destruct C as [(-> & En & A)|(Hr & _)].
  2: { unfold loop_tick. rewrite Er, bool_decide_false, Es by done. cbn. by rewrite Hr. }
  destruct (loop_tick_started l l1 file state how request raw Er Hl Es En) as (Ei & El & [Hn|H]);
    unfold loop_inv; [rewrite Hn, Ei; exact A|].
  destruct H as (s & c & Eb & Ep & Ls & Ed & Ec & ->). cbn. split; [|by apply new_call_rest].
  apply readP2PJSON_Ok in Er as (_ & Hz & Dr). by exists raw, request, s.
Qed.

(** ** Runs of the loop *)

Inductive loop_step : loop → loop → Prop :=
| ls_tick l file state how : fair_opt how → loop_step l (loop_tick trust profile l file state how)
| ls_exit l how : fair_opt how → loop_step l (loop_exit l how)
| ls_ended l how c start b : wk_task (lp_worker l) = Some (Running c start b) → fair how →
    loop_step l (mkLoop (lp_idle l)
      (mkWorker (wk_fingerprint (lp_worker l)) (Some (end_session how (Running c start b)))) (lp_last l))
| ls_quiet l e : wk_task (lp_worker l) = None → quiet (lp_idle l) e →
    loop_step l (mkLoop e (lp_worker l) (lp_last l))
| ls_quiet_ended l e e' errs : wk_task (lp_worker l) = Some (Ended e errs) → quiet e e' →
    loop_step l (mkLoop (lp_idle l)
      (mkWorker (wk_fingerprint (lp_worker l)) (Some (Ended e' errs))) (lp_last l)).

(** The loop on a store that was just opened and the adapter of the overlay. *)
Record loop_start l : Prop := {
  ls_store : store_reach (ep_clock (lp_idle l)) (ep_store (lp_idle l));
  ls_sessions : ps_sessions (ep_store (lp_idle l)) = ∅;
  ls_mux : ∃ base, rtc mux_step (NewMuxTUN base) (ep_mux (lp_idle l));
  ls_calls : lp_idle l = new_call (lp_idle l);
  ls_worker : lp_worker l = mkWorker "" None;
  ls_last : lp_last l = replicate 32 x00;
}.

Lemma loop_start_inv l : loop_start l → loop_inv l.
Proof.
  intros [S N [base M] C W _]. unfold loop_inv. rewrite W. cbn.
  assert (ep_input (lp_idle l) = None) as Ei by (by rewrite C).
  split; [split| |].
  - by apply store_reach_inv.
  - by apply mux_run_inv in M as [? _]; [|apply new_mux_inv].
  - by rewrite Ei.
  - intros id s now. by rewrite N, lookup_empty.
  - split; by rewrite C.
Qed.

Lemma loop_step_inv l l' : loop_step l l' → loop_inv l → loop_inv l'.
Proof.
  intros S I. destruct S as [l file state how F|l how F|l how c start b E F|l e E Q|l e e' errs E Q].
  - by apply loop_tick_inv.
  - unfold loop_exit. destruct (loop_stop l how) as [l1 r] eqn:Es.
    by destruct (loop_stop_spec _ _ _ _ F I Es) as (_ & ? & _).
  - unfold loop_inv in *. rewrite E in I. cbn [wk_task lp_worker]. destruct I as (Rq & S & Fc & _).
    by destruct (end_session_rest c start b how _ _ F Rq S Fc) as (e & errs & -> & A).
  - unfold loop_inv in *. rewrite E in I. cbn. rewrite E. by eapply quiet_rest.
  - unfold loop_inv in *. rewrite E in I. cbn. by eapply quiet_rest.
Qed.

(** What the store and the session objects may do in a state of the loop. *)
Definition loop_safe l : Prop :=
  match wk_task (lp_worker l) with
  | None => nothing_authorised (ep_store (lp_idle l)) ∧ released_all (lp_idle l)
  | Some (Ended e _) => nothing_authorised (ep_store e) ∧ released_all e
  | Some (Running c _ _) => requested (lp_last l) (wk_fingerprint (lp_worker l)) c
  end.

Lemma loop_inv_safe l : loop_inv l → loop_safe l.
Proof.
  unfold loop_inv, loop_safe. destruct (wk_task (lp_worker l)) as [[c start b|e errs]|].
  - by intros (? & _).
  - by intros [_ ? ?].
  - by intros [_ ? ?].
Qed.
End loop_facts.

Section loop_theorem.
Context `{ED : Ed25519} `{GJ : GrantJson} `{PJ : PolicyJson} `{HS : Hashes} `{GS : GoSort} `{XC : X25519}.
Context `{PF : !P2pFileJson} `{SJ : StateJson} `{P6 : Prefix6}.
Context {B : Type} `{BB : BoltBucket B} {D : Type} `{TD : TunDevice D}.
Implicit Types l : p2p_loop (B := B) (D := D).

(** C37. The P2P loop runs what the request file asks for and nothing else: in every
    state it reaches, a session that runs was started from the request read last, which
    named it canonically, was no stop and was bound to this Device; and whenever no
    session runs, no session of the store is authorised and the last one left no policy,
    adapter endpoint, bridge, WireGuard device or relay connection open.  A tick that
    finds the request file unreadable, malformed or a new stop request ends the session,
    or, when the session does not end in time, leaves it cancelled and unchanged the
    request it remembers, so that the next tick stops it again. *)
Theorem p2p_loop_closed trust profile l0 l :
  loop_start l0 → rtc (loop_step trust profile) l0 l →
  loop_safe trust profile l ∧
  ∀ file state how, fair_opt how →
    (∀ request raw, readP2PJSON decode_request file 16384 = Ok (request, raw) →
       Rq_Stop request = true ∧ sha256 raw ≠ lp_last l) →
    let l' := loop_tick trust profile l file state how in
    (wk_task (lp_worker l') = None ∧ nothing_authorised (ep_store (lp_idle l')) ∧ released_all (lp_idle l')) ∨
    (how = None ∧ lp_last l' = lp_last l ∧
     ∃ c start, wk_task (lp_worker l') = Some (Running c start true)).
Proof.
  intros S R. assert (loop_inv trust profile l) as I.
  { apply (loop_start_inv trust profile) in S. revert S. induction R; eauto using loop_step_inv. }
  split; [by apply loop_inv_safe|]. intros file state how F Hs l'.
  pose proof (loop_fail_closed_inv _ _ _ I) as If.
  destruct (loop_stop (loop_fail_closed l) how) as [l1 r] eqn:Es.
  destruct (loop_stop_spec _ _ _ _ _ _ F If Es) as (L & I1 & C).
  rewrite (proj1 (loop_fail_closed_same l)) in L.
  destruct (readP2PJSON decode_request file 16384) as [[request raw]| |] eqn:Er.
  - destruct (Hs request raw eq_refl) as [Ep Hl]. destruct C as [(-> & En & [_ N Rl])|(Hr & -> & H)].
    + destruct (loop_tick_started trust profile l l1 file state how request raw Er Hl Es En) as (Ei & _ & [Hn|H]).
      * left. subst l'. by rewrite Ei.
      * destruct H as (s & c & _ & Ep' & _). congruence.
    + right. subst l'. unfold loop_tick. rewrite Er, bool_decide_false, Es by done. cbn. by rewrite Hr.
  - subst l'. unfold loop_tick. rewrite Er, Es. cbn [fst].
    destruct C as [(_ & En & [_ N Rl])|(_ & -> & H)]; [by left|by right].
  - subst l'. unfold loop_tick. rewrite Er, Es. cbn [fst].
    destruct C as [(_ & En & [_ N Rl])|(_ & -> & H)]; [by left|by right].
Qed.
End loop_theorem.

(** ** From the inbox to the session *)

Section delivery.
Context `{ED : Ed25519} `{GJ : GrantJson} `{PJ : PolicyJson} `{HS : Hashes} `{GS : GoSort} `{XC : X25519}.
Context `{PF : !P2pFileJson} `{SJ : StateJson} {B : Type} `{BB : BoltBucket B} {D : Type} `{TD : TunDevice D}.
Context `{URL : GoURL} `{UC : UnicodeCase} `{P6 : Prefix6} `{PL : PayloadJson} {N : Type} `{HC : HttpClient N}.
Context `{JOf : JsonBody (option P2POffer)}.
Implicit Types (l : p2p_loop (B := B) (D := D)) (m : machine B N).

(** What a verified offer is. *)
Lemma verifiedP2POffer_Ok s trust offer now request : verifiedP2POffer s trust offer now = Ok request →
  ∃ session c sd, VerifyGrant (Of_Ticket offer) (Trust_Issuer trust) (Trust_ClusterID trust) 0 now = Ok session ∧
    request = mkP2pRequest 1 (Grant_SessionID (session_grant session)) false (Of_Ticket offer) (Of_Relay offer) ∧
    localP2PConfig s (As_WireGuard s) request = Ok c ∧ BindEndpoint (Some session) c = Ok sd.
Proof.
  unfold verifiedP2POffer. intros (session & V & E)%bind_Ok. apply bind_Ok in E as (c & C & E).
  apply bind_Ok in E as (sd & Bd & [= <-]). by exists session, c, sd.
Qed.

Lemma VerifyGrant_session ticket issuer cluster rev now session :
  VerifyGrant ticket issuer cluster rev now = Ok session →
  zlen ticket <= 8192 ∧ ∃ id, Grant_SessionID (session_grant session) = hex_encode id ∧ length id = 16%nat.
Proof.
  intros V. split.
  - unfold VerifyGrant in V. apply check_then in V as [G _]. guards. unfold maxTicket in G. lia.
  - destruct (VerifyGrant_sound _ _ _ _ _ _ V) as (_ & W & _). apply W.
Qed.

Lemma hex_length b : str_len (hex_encode b) = 2 * zlen b.
Proof.
  rewrite <- zlen_str_bytes. unfold zlen. rewrite hex_encode_length. lia.
Qed.

(** The request of a verified offer is a valid request of the loop, and fits its file. *)
Lemma offer_request_read s trust offer now request : verifiedP2POffer s trust offer now = Ok request →
  utf8 (Of_Relay offer) = true → str_len (Of_Relay offer) <= 260 →
  request_bad request = false ∧ Rq_Stop request = false ∧
  readP2PJSON decode_request (Some (marshal_request request)) 16384 = Ok (request, marshal_request request).
Proof.
  intros (session & c & sd & V & -> & _)%verifiedP2POffer_Ok U Lr.
  apply VerifyGrant_session in V as (Lt & id & Ei & Li).
  split_and!; [|done|].
  - unfold request_bad. cbn [Rq_Version Rq_ID]. rewrite Ei, hex_roundtrip, String.eqb_refl. unfold zlen.
    by rewrite Li.
  - apply readP2PJSON_Ok. split_and!; [done| |apply request_roundtrip; cbn; [rewrite Ei; apply utf8_hex|done]].
    etransitivity; [by apply request_length|]. cbn [Rq_ID Rq_Relay Rq_Ticket]. rewrite Ei, hex_length. unfold zlen in *. rewrite Li.
    assert ((Z.of_nat (length (Of_Ticket offer)) + 2) / 3 < 2732) by (apply Z.div_lt_upper_bound; lia). lia.
Qed.

Lemma write_atomic_Ok os file raw : (∀ call, sys os call = Ok tt) → sys_rename os 0 = None →
  write_atomic os file raw = (Some raw, Ok tt).
Proof. intros Hs Hr. unfold write_atomic. rewrite !Hs. cbn. by rewrite Hr. Qed.

Lemma P2PInbox_relay c (net : N) c' net' offer : P2PInbox c net = (c', net', Ok (Some offer)) →
  str_len (Of_Relay offer) <= 260.
Proof.
  unfold P2PInbox, checked. destruct (call_json _ _ _ _ _ _) as [[c1 n1] r]. intros [= _ _ E].
  apply bind_Ok in E as (o & _ & E). apply check_then in E as [G [= ->]]. guards. lia.
Qed.
End delivery.

Section delivery_theorem.
Context `{ED : Ed25519} `{GJ : GrantJson} `{PJ : PolicyJson} `{HS : Hashes} `{GS : GoSort} `{XC : X25519}.
Context `{PF : !P2pFileJson} `{SJ : StateJson} {B : Type} `{BB : BoltBucket B} {D : Type} `{TD : TunDevice D}.
Context `{URL : GoURL} `{UC : UnicodeCase} `{P6 : Prefix6} `{PL : PayloadJson} {N : Type} `{HC : HttpClient N}.
Context `{JOf : JsonBody (option P2POffer)}.

(** C38. An offer reaches its session: when the Controller delivers an offer that this
    Device verifies, the inbox writes a request that the loop accepts, whatever the
    length of the ticket and the characters of the relay's name; the next tick of the
    loop ends what it ran before and starts exactly one session, named as in the
    grant, whose configuration carries the delivered ticket and relay and which the grant
    binds to this Device's own identity, WireGuard key and address. *)
Theorem offer_reaches_session os trust now (m : machine B N) last s client c' net offer request d
    profile l0 (l : p2p_loop (B := B) (D := D)) how :
  (∀ call, sys os call = Ok tt) → sys_rename os 0 = None → mc_p2p m = Directory d →
  LoadState (mc_state m) = Ok s → As_DeviceID s = Trust_DeviceID trust →
  NewMultiClient (ControlEndpoints s) (ControlCredential s) = Ok client →
  P2PInbox client (mc_net m) = (c', net, Ok (Some offer)) → utf8 (Of_Relay offer) = true →
  verifiedP2POffer s trust offer now = Ok request → Rq_ID request ≠ last →
  As_WireGuard s = profile → loop_start l0 → rtc (loop_step trust profile) l0 l →
  sha256 (marshal_request request) ≠ lp_last l → fair how →
  ∃ d', mc_p2p (inbox_tick os trust now (m, last)).1 = Directory d' ∧
    (inbox_tick os trust now (m, last)).2 = Rq_ID request ∧
    let l' := loop_tick trust profile l (pd_request d') (mc_state m) (Some how) in
    ∃ session c sd,
      VerifyGrant (Of_Ticket offer) (Trust_Issuer trust) (Trust_ClusterID trust) 0 now = Ok session ∧
      BindEndpoint (Some session) c = Ok sd ∧
      Cfg_Ticket c = Of_Ticket offer ∧ Cfg_RelayAddress c = Of_Relay offer ∧
      Cfg_DeviceID c = Trust_DeviceID trust ∧ Cfg_TLS c = true ∧ at_rest (lp_idle l') ∧
      lp_worker l' = mkWorker (Grant_SessionID (session_grant session))
                       (Some (Running c (new_call (lp_idle l')) false)).
Proof.
  intros Hs Hr Ed Ls Dv Nc In U V Hid Hp S R Hl F.
  assert (loop_inv trust profile l) as I.
  { apply (loop_start_inv trust profile) in S. revert S. induction R; eauto using loop_step_inv. }
  destruct (offer_request_read _ _ _ _ _ V U (P2PInbox_relay _ _ _ _ _ In)) as (Gb & Gs & Rd).
  exists (with_request d (Some (marshal_request request))).
  assert (inbox_tick os trust now (m, last) =
    (set_entry (set_net m net) (Directory (with_request d (Some (marshal_request request)))), Rq_ID request)) as ->.
  { unfold inbox_tick, on_net. rewrite Ls, Dv, String.eqb_refl, Nc, In. cbn. rewrite V.
    destruct (String.eqb_spec (Rq_ID request) last); [done|]. rewrite Ed. cbn. by rewrite write_atomic_Ok. }
  split_and!; [done..|]. intros l'.
  destruct (loop_stop (loop_fail_closed l) (Some how)) as [l1 r] eqn:Es.
  assert (fair_opt (Some how)) as Fo by (by intros h [= <-]).
  destruct (loop_stop_spec trust profile _ _ _ _ Fo (loop_fail_closed_inv _ _ _ I) Es)
    as (_ & _ & [(-> & En & A)|(_ & ? & _)]); [|done].
  destruct (loop_tick_started trust profile l l1 _ (mc_state m) (Some how) request _ Rd Hl Es En)
    as (Ei & _ & C). cbn [pd_request with_request] in l'. fold l' in Ei, C.
  apply verifiedP2POffer_Ok in V as (session & c & sd & V & -> & Lc & Bd). rewrite Hp in Lc.
  exists session, c, sd. pose proof (localP2PConfig_Ok _ _ _ _ Lc) as (T & E1 & E2 & _ & E3 & _).
  rewrite Ei. split_and!; [done..|by rewrite E2|done|done|].
  destruct C as [Hn|(s' & c1 & _ & _ & Ls' & _ & Lc' & ->)].
  - exfalso. subst l'. revert Hn. unfold loop_tick. rewrite Rd, bool_decide_false, Es by done.
    cbn [is_ok negb]. rewrite Gb. cbn [Rq_Stop]. rewrite Ls, Dv, String.eqb_refl, Lc. cbn. unfold Worker_replace, Worker_stop. by rewrite En.
  - rewrite Ls in Ls'. injection Ls' as <-. rewrite Lc in Lc'. by injection Lc' as <-.
Qed.
End delivery_theorem.

(** ** Reservations across restarts *)

Section restart.
Context `{ED : Ed25519} `{GJ : GrantJson} `{PJ : PolicyJson} `{HS : Hashes} `{GS : GoSort} `{XC : X25519}.
Context `{PF : !P2pFileJson} `{SJ : StateJson} {B : Type} `{BB : BoltBucket B} {D : Type} `{TD : TunDevice D}.
Context `{URL : GoURL} `{UC : UnicodeCase} `{P6 : Prefix6} `{PL : PayloadJson} {N : Type} `{HC : HttpClient N}.
Context `{JPi : JsonBody P2PInfo} `{JTk : JsonBody bytes} `{JPs : JsonBody (list P2PPeer)}.
Context `{JOf : JsonBody (option P2POffer)}.

Lemma reserve_peers_Ok ad owned (m : MuxTUN D) peers m' owned' :
  mux_inv m → reserve_peers ad owned m peers = (m', Ok owned') →
  rtc mux_step m m' ∧ ∀ a, Some a ∈ peers → is_Some (mux_peers m' !! a).
Proof.
  revert owned m. induction peers as [|peer peers IH]; intros owned m I E; cbn in E.
  { injection E as <- _. split; [done|]. by intros a ?%not_elem_of_nil. }
  destruct (Reserve m peer) as [m1 [[]| |]] eqn:Er; [|done..].
  destruct (p2pOwnedRoute ad owned peer) as [owned1 [[]| |]]; [|done..].
  assert (mux_step m m1) as S1 by (pose proof (step_reserve m peer) as S1; by rewrite Er in S1).
  destruct (mux_step_inv _ _ S1 I) as [I1 _]. destruct (IH _ _ I1 E) as [R H].
  split; [by eapply rtc_l|]. intros a [<-|Ha]%elem_of_cons; [|by apply H].
  apply Reserve_Ok in Er as (a' & [= <-] & Ha & _). by apply (mux_run_inv _ _ R I1).
Qed.

Lemma start_overlay_Ok profile os d state ad (tun : D) store tr m :
  start_overlay (B := B) profile os (Directory d) state ad tun = Ok (Some (store, tr, m)) →
  ∃ s b st, LoadState state = Ok s ∧ loadP2PTrust d (As_DeviceID s) = Ok tr ∧ pd_policy d = Some (Some b) ∧
    policy_state tr b = Ok st ∧ rtc mux_step (NewMuxTUN tun) m ∧
    ∀ a, Some a ∈ St_Reserved st → is_Some (mux_peers m !! a).
Proof.
  unfold start_overlay. destruct (openP2PAuthority os (Directory d) state) as [pilot opened] eqn:O.
  assert (pilot = true) as -> by (by injection O).
  destruct opened as [[[store' tr']|]| |]; try done.
  apply openP2PAuthority_Ok in O as (s & b & st & Ls & L & P & _ & Ds & ->). intros E.
  apply bind_Ok in E as (peers & Ep & E). unfold ReservedPeers in Ep. cbn in Ep. rewrite Ds in Ep.
  injection Ep as <-. destruct (reserve_peers _ _ _ _) as [m1 [owned| |]] eqn:Er; [|done..].
  injection E as <- <- <-. apply reserve_peers_Ok in Er as [R H]; [|apply new_mux_inv].
  by exists s, b, st.
Qed.

(** C39. A peer that was once reserved stays cut off from the gateway across restarts:
    on a machine where the policy store reserves the address of a peer, after whatever
    commands, deliveries and runs of the agent, a starting overlay either fails before
    it carries a packet or has the peer reserved, so that, whatever passes the adapter
    afterwards, the gateway reads no packet for it and can inject none from it; it never
    starts as if P2P had not been set up. *)
Theorem reserved_across_restarts (m0 m m' : machine B N) d device trust b st a
    profile os ad (tun : D) :
  info_utf8 → mc_p2p m0 = Absent → rtc machine_step m0 m → mc_p2p m = Directory d →
  loadP2PTrust d device = Ok trust → pd_policy d = Some (Some b) → policy_state trust b = Ok st →
  Some a ∈ St_Reserved st → rtc machine_step m m' →
  start_overlay profile os (mc_p2p m') (mc_state m') ad tun ≠ Ok None ∧
  ∀ store tr x x', start_overlay profile os (mc_p2p m') (mc_state m') ad tun = Ok (Some (store, tr, x)) →
    rtc mux_step x x' →
    tr = trust ∧
    (∀ room x2 packet, Mux_Read x' room = (x2, Got packet) → ¬ addressed_to a packet) ∧
    (∀ bufs offset x2 res, Mux_Write x' bufs offset = (x2, res) →
       ∃ packets, wrote x' x2 packets ∧ Forall (λ packet, ¬ sent_from a packet) packets).
Proof.
  intros Hi E0 R E L P Ds Ha R'. destruct (machine_run_pinned Hi _ _ R) as [I _]; [by rewrite E0|].
  destruct (proj2 (machine_run_pinned Hi _ _ R' I) device trust st d b E L P Ds)
    as (d' & b' & st' & -> & L' & P' & Ds' & _ & _ & V).
  split.
  - unfold start_overlay. destruct (openP2PAuthority os (Directory d') (mc_state m')) as [pilot opened] eqn:O.
    destruct opened as [[[store tr]|]| |]; [| |done..].
    + destruct (ReservedPeers store) as [peers| |]; cbn; [|done..]. by destruct (reserve_peers _ _ _ _) as [? []].
    + exfalso. cbn in O. injection O as _ O. repeat (apply bind_Ok in O as (? & _ & O)). done.
  - intros store tr x x' S Rx. apply start_overlay_Ok in S as (s & b1 & st1 & _ & L1 & P1 & D1 & Rm & H).
    pose proof (loadP2PTrust_unique _ _ _ _ _ L' L1) as ->. split; [done|].
    rewrite P' in P1. injection P1 as <-. rewrite Ds' in D1. injection D1 as <-.
    apply gateway_isolated. apply mux_run_inv in Rm as [Ix _]; [|apply new_mux_inv].
    apply (mux_run_inv _ _ Rx Ix). by apply H, V.
Qed.
End restart.
