(* ===== verification/AgentInstall.v ===== *)
(** * Installing and running the agent on Windows ([cmd/bpc-agent]: [main.go],
    [payload.go], [service_windows.go], [tunnel_windows.go])

    What is embedded in a prepared executable, the files an installation writes, the
    state of the service, the legacy tunnel, and the configuration that is handed to
    the embedded WireGuard device.  The answers of Windows are arguments. *)

From Stdlib Require Import Strings.Byte Strings.Ascii.
From S2P Require Import Prelude GoLib GoStrings GoEncoding Netip Crypto ControlStore GoNet.
From S2P Require Import P2pGrant P2pPolicy P2pAuthority P2pMux P2pRelay P2pEndpoint.
From S2P Require Import AgentConfig AgentControl AgentRuntime AgentP2p AgentLoop.

(** ** Embedded payloads *)

Definition starts_with (pat s : bytes) : bool := bool_decide (is_Some (strip_prefix pat s)).

(** [bytes.Index] and [bytes.LastIndex] of a pattern that is not empty. *)
Fixpoint index_of (pat s : bytes) : option nat :=
  if starts_with pat s then Some 0%nat
  else match s with
       | [] => None
       | _ :: rest => S <$> index_of pat rest
       end.
Fixpoint last_index_of (pat s : bytes) : option nat :=
  match s with
  | [] => None
  | _ :: rest =>
      match last_index_of pat rest with
      | Some n => Some (S n)
      | None => if starts_with pat s then Some 0%nat else None
      end
  end.

Definition marker (name : string) : bytes := [x0a] ++ str_bytes name ++ [x0a].
Definition wintunPayloadStart : bytes := marker "BPC_AGENT_WINTUN_V1".
Definition wintunPayloadEnd : bytes := marker "BPC_AGENT_WINTUN_END".
Definition bootstrapStart : bytes := marker "BPC_AGENT_BOOTSTRAP_V3".
Definition legacyBootstrapStart : bytes := marker "BPC_AGENT_BOOTSTRAP_V2".
Definition bootstrapEnd : bytes := marker "BPC_AGENT_BOOTSTRAP_END".

Definition extractPayload (data startMarker endMarker : bytes) : result bytes :=
  match last_index_of startMarker data with
  | None => Err "payload start marker is missing"
  | Some start =>
      let rest := drop (start + length startMarker) data in
      match index_of endMarker rest with
      | None => Err "payload end marker is missing"
      | Some endRelative =>
          match base64_decode (trim_space (bytes_str (take endRelative rest))) with
          | None => Err "decode payload: %w"
          | Some decoded => Ok decoded
          end
      end
  end.

(** [json.Unmarshal] of a bootstrap. *)
Class BootstrapJson := { unmarshal_bootstrap : bytes → option Bootstrap }.

Definition position (i : option nat) : Z := match i with Some n => Z.of_nat n | None => -1 end.

Definition parseBootstrapBytes `{BJ : BootstrapJson} (data : bytes) : result Bootstrap :=
  let start := position (last_index_of bootstrapStart data) in
  let legacyStart := position (last_index_of legacyBootstrapStart data) in
  let '(start, mark) := if start <? legacyStart then (legacyStart, legacyBootstrapStart)
                        else (start, bootstrapStart) in
  check (start <? 0) "this is a generic BPC Agent binary; create a prepared client with bpc-agent create on the VPS" ;;
  let rest := drop (Z.to_nat start + length mark) data in
  match index_of bootstrapEnd rest with
  | None => Err "embedded bootstrap footer is missing"
  | Some endRel =>
      match base64_decode (trim_space (bytes_str (take endRel rest))) with
      | None => Err "decode embedded bootstrap: %w"
      | Some raw =>
          match unmarshal_bootstrap raw with
          | None => Err "parse embedded bootstrap: %w"
          | Some cfg => Ok cfg
          end
      end
  end.

(** ** Files *)

Abbreviation files := (gmap string bytes).

(** [copyFile]: a failing copy leaves nothing; the old file is removed before the new
    one takes its name. *)
Definition copyFile (os : syscalls) (fs : files) (src dst : string) : files * result unit :=
  match fs !! src with
  | None => (fs, Err "file does not exist")
  | Some contents =>
      let tmp := dst +:+ ".tmp" in
      match sys os "create temp" with
      | Ok _ =>
          match (sys os "copy" ;; sys os "close temp") with
          | Ok _ =>
              let fs := if is_ok (sys os "remove") then delete dst (<[tmp := contents]> fs)
                        else <[tmp := contents]> fs in
              match sys os "rename" with
              | Ok _ => (<[dst := contents]> (delete tmp fs), Ok tt)
              | e => (delete tmp fs, e)
              end
          | e => (delete tmp fs, e)
          end
      | e => (fs, e)
      end
  end.

Definition min_dll : Z := 64 * 1024.
Definition max_dll : Z := 4 * 1024 * 1024.

(** [installWintunPayload]; an update carries no payload and keeps the installed file.
    A failing [WriteFile] leaves what was written of the temporary file. *)
Definition installWintunPayload (os : syscalls) (fs : files) (exe dir : string) : files * result unit :=
  let path := dir +:+ "\wintun.dll" in
  let tmp := path +:+ ".tmp" in
  match fs !! exe with
  | None => (fs, Err "read prepared agent payload: %w")
  | Some data =>
      match extractPayload data wintunPayloadStart wintunPayloadEnd with
      | Ok dll =>
          if (zlen dll <? min_dll) || (max_dll <? zlen dll)
          then (fs, Err "Wintun payload has unexpected size: %d")
          else match sys os "mkdir" with
          | Ok _ =>
              match (sys os "open temp" ;; sys os "write temp") with
              | Ok _ =>
                  let fs := if is_ok (sys os "remove") then delete path (<[tmp := dll]> fs)
                            else <[tmp := dll]> fs in
                  match sys os "rename" with
                  | Ok _ => (<[path := dll]> (delete tmp fs), Ok tt)
                  | e => (delete tmp fs, e)
                  end
              | e => (if is_ok (sys os "open temp") then <[tmp := take (sys_written os) dll]> fs else fs, e)
              end
          | e => (fs, e)
          end
      | _ =>
          match fs !! path with
          | Some (_ :: _) => (fs, Ok tt)
          | _ => (fs, Err "Wintun payload: %w")
          end
      end
  end.

(** ** The service *)

Inductive svc_state := SvcStopped | SvcStartPending | SvcStopPending | SvcRunning | SvcOther (n : Z).
#[export] Instance svc_state_eq_decision : EqDecision svc_state.
Proof. solve_decision. Defined.

(** [waitServiceState]: the answers to the queries until the deadline. *)
Fixpoint waitServiceState (desired : svc_state) (polls : list (option svc_state)) : result unit :=
  match polls with
  | [] => Err "timed out waiting for BPC Agent service state"
  | None :: _ => Err "query service"
  | Some s :: polls =>
      if bool_decide (s = desired) then Ok tt
      else if bool_decide (desired = SvcRunning) && bool_decide (s = SvcStopped)
      then Err "BPC Agent service exited (Windows code %d, service code %d)"
      else waitServiceState desired polls
  end.

(** The service manager: whether it answers, the service if it is installed, its state
    ([None] when the query fails), and the answers while waiting. *)
Record service_manager := mkManager {
  sm_connect : bool;
  sm_open : bool;
  sm_state : option svc_state;
  sm_start : bool;
  sm_control : bool;
  sm_polls : list (option svc_state);
}.

Definition startWindowsService (sm : service_manager) : result unit :=
  check (negb (sm_connect sm)) "connect" ;;
  check (negb (sm_open sm)) "open service" ;;
  if bool_decide (sm_state sm = Some SvcRunning) then Ok tt
  else
    check (negb (sm_start sm)) "start service" ;;
    waitServiceState SvcRunning (sm_polls sm).

(** A service that is not installed counts as stopped. *)
Definition stopWindowsService (sm : service_manager) : result unit :=
  check (negb (sm_connect sm)) "connect" ;;
  if negb (sm_open sm) then Ok tt
  else match sm_state sm with
  | None => Err "query service"
  | Some SvcStopped => Ok tt
  | Some _ =>
      check (negb (sm_control sm)) "control service" ;;
      waitServiceState SvcStopped (sm_polls sm)
  end.

Definition windowsServiceStatus (sm : service_manager) : string :=
  if negb (sm_connect sm) then "unknown"
  else if negb (sm_open sm) then "not-installed"
  else match sm_state sm with
  | None => "unknown"
  | Some SvcRunning => "running"
  | Some SvcStopped => "stopped"
  | Some SvcStartPending => "start-pending"
  | Some SvcStopPending => "stop-pending"
  | Some (SvcOther n) => "state-" +:+ print_int n
  end.

(** [agentService.Execute]: what it receives; a stop comes with how the agent ended
    within twenty seconds. *)
Inductive svc_event :=
| Interrogate (current : svc_state)
| StopRequest (ended : option (result unit))
| AgentDone (r : result unit)
| OtherRequest.

(** The states it reports, and its exit code once it returns. *)
Fixpoint svc_loop (events : list svc_event) : list svc_state * option (bool * Z) :=
  match events with
  | [] => ([], None)
  | Interrogate current :: events => let '(states, code) := svc_loop events in (current :: states, code)
  | OtherRequest :: events => svc_loop events
  | StopRequest ended :: _ =>
      ([SvcStopPending],
       Some (match ended with
             | None => (true, 2)
             | Some r => if is_ok r then (false, 0) else (true, 1)
             end))
  | AgentDone r :: _ => ([], Some (if is_ok r then (false, 0) else (true, 1)))
  end.
Definition Execute (events : list svc_event) : list svc_state * option (bool * Z) :=
  let '(states, code) := svc_loop events in (SvcRunning :: states, code).

(** ** The legacy tunnel *)

(** [strings.EqualFold]. *)
Class GoFold := { equal_fold : string → string → bool }.

(** [strings.Fields]: the words between white space; the fuel is the length. *)
Fixpoint fields_loop (fuel : nat) (word : bytes) (b : bytes) : list string :=
  let flush := match word with [] => [] | _ => [bytes_str (reverse word)] end in
  match fuel, b with
  | S fuel, x :: rest =>
      match strip_any space_runes b with
      | Some after => flush ++ fields_loop fuel [] after
      | None => fields_loop fuel (x :: word) rest
      end
  | _, _ => flush
  end.
Definition strings_fields (s : string) : list string :=
  fields_loop (length (str_bytes s)) [] (str_bytes s).

Record endpointEntry := mkEndpointEntry { Ee_Peer : string; Ee_Endpoint : string }.

Definition parse_entry (line : string) : option endpointEntry :=
  match strings_fields line with
  | peer :: endpoint :: _ => Some (mkEndpointEntry peer endpoint)
  | _ => None
  end.
Definition parseEndpoints (output : string) : list endpointEntry :=
  omap parse_entry (split_lines (trim_space output)).

Section legacy.
Context `{GF : GoFold}.

Definition equalEndpoint (a b : string) : bool := equal_fold (trim_space a) (trim_space b).

(** The peer whose endpoint is set: none when one is set already. *)
Definition choose_peer (entries : list endpointEntry) (listen target : string) : result (option string) :=
  if List.existsb (λ e, equalEndpoint (Ee_Endpoint e) listen) entries then Ok None
  else
    let peer := match List.find (λ e, equalEndpoint (Ee_Endpoint e) target) entries with
                | Some e => Ee_Peer e
                | None => ""
                end in
    let peer := match peer, entries with "", [e] => Ee_Peer e | _, _ => peer end in
    check (String.eqb peer "") "cannot choose WireGuard peer: expected target %s and found %d peers" ;;
    Ok (Some peer).

(** [ensureTunnelEndpoint]: whether the tunnel is installed, what [wg show] prints and
    whether [wg set] succeeds; the peer that was set. *)
Definition ensureTunnelEndpoint (cfg : RuntimeConfig) (installed : bool) (show : option string)
    (set : string → bool) : result (option string) :=
  if String.eqb (Rc_LegacyTunnel cfg) "" then Ok None
  else
    check (negb installed) "WireGuard tunnel service %q is not installed" ;;
    match show with
    | None => Err "read WireGuard endpoints: %w: %s"
    | Some out =>
        let entries := parseEndpoints out in
        check (zlen entries =? 0) "WireGuard tunnel has no peers" ;;
        peer ← choose_peer entries (Rc_WGShimListen cfg) (Rc_WGShimTarget cfg);
        match peer with
        | None => Ok None
        | Some p => check (negb (set p)) "set WireGuard endpoint: %w: %s" ;; Ok (Some p)
        end
    end.
End legacy.

(** ** The embedded device *)

Definition line (s : string) : string := s +:+ newline.

Definition embeddedUAPI (cfg : RuntimeConfig) (profile : WireGuardProfile) : result string :=
  privateHex ← WGKeyHex (Wg_PrivateKey profile) false;
  peerHex ← WGKeyHex (Wg_PeerPublicKey profile) false;
  psk ← (if blank (Wg_PresharedKey profile) then Ok ""
         else pskHex ← WGKeyHex (Wg_PresharedKey profile) true; Ok (line ("preshared_key=" +:+ pskHex)));
  Ok (line ("private_key=" +:+ privateHex) +:+ line "replace_peers=true" +:+
      line ("public_key=" +:+ peerHex) +:+ psk +:+
      line ("endpoint=" +:+ Rc_WGShimListen cfg) +:+
      line ("persistent_keepalive_interval=" +:+ print_int (Wg_PersistentKeepalive profile)) +:+
      line "replace_allowed_ips=true" +:+
      String.concat "" ((λ allowed, line ("allowed_ip=" +:+ trim_space allowed)) <$> Wg_AllowedIPs profile) +:+
      newline).

Record tunnelTelemetry := mkTelemetry { Tt_UpdatedAt : Z; Tt_HandshakeAt : Z; Tt_RXBytes : Z; Tt_TXBytes : Z }.

(** [strconv.ParseUint(value, 10, 64)] *)
Definition parse_u64 (s : string) : option Z :=
  if String.eqb s "" then None
  else n ← parse_digits 0 s; if n <? 2 ^ 64 then Some n else None.

Definition telemetry_line (stats : tunnelTelemetry) (rawLine : string) : tunnelTelemetry :=
  match cut "="%char (trim_space rawLine) with
  | None => stats
  | Some (key, value) =>
      if String.eqb key "last_handshake_time_sec" then
        match parse_int value with
        | Some parsed =>
            if Tt_HandshakeAt stats <? parsed then mkTelemetry (Tt_UpdatedAt stats) parsed (Tt_RXBytes stats) (Tt_TXBytes stats)
            else stats
        | None => stats
        end
      else if String.eqb key "rx_bytes" then
        match parse_u64 value with
        | Some parsed => mkTelemetry (Tt_UpdatedAt stats) (Tt_HandshakeAt stats) ((Tt_RXBytes stats + parsed) mod 2 ^ 64) (Tt_TXBytes stats)
        | None => stats
        end
      else if String.eqb key "tx_bytes" then
        match parse_u64 value with
        | Some parsed => mkTelemetry (Tt_UpdatedAt stats) (Tt_HandshakeAt stats) (Tt_RXBytes stats) ((Tt_TXBytes stats + parsed) mod 2 ^ 64)
        | None => stats
        end
      else stats
  end.

(** [readEmbeddedTelemetry] on the answer of [IpcGet]. *)
Definition readEmbeddedTelemetry (now : Z) (raw : option string) : tunnelTelemetry :=
  let zero := mkTelemetry (time_unix now) 0 0 0 in
  match raw with
  | None => zero
  | Some raw => fold_left telemetry_line (split_lines raw) zero
  end.

(** ** Addresses of the relays *)

(** [net.ParseIP] of an address that is not IPv4 in dotted form, as IPv4 when it is one
    ([Some None] for another IPv6 address), and [net.LookupIP]: the IPv4 addresses among the results. *)
Class Resolver := { parse_ip6 : string → option (option Z); lookup_ip : string → option (list (option Z)) }.

(** The first occurrence of each, in order. *)
Fixpoint distinct (seen : list string) (l : list string) : list string :=
  match l with
  | [] => []
  | x :: l => if bool_decide (x ∈ seen) then distinct seen l else x :: distinct (x :: seen) l
  end.

Definition is_bracket (c : ascii) : bool := Ascii.eqb c "["%char || Ascii.eqb c "]"%char.
Fixpoint trim_brackets_left (s : string) : string :=
  match s with
  | String c rest => if is_bracket c then trim_brackets_left rest else s
  | "" => ""
  end.
Definition trim_brackets (s : string) : string :=
  str_rev "" (trim_brackets_left (str_rev "" (trim_brackets_left s))).

Section resolve.
Context `{RS : Resolver}.

Definition resolveWGShimServerIPv4Candidates (endpoint : string) : result (list string) :=
  match SplitHostPort (trim_space endpoint) with
  | None => Err "parse WGShim server endpoint: %w"
  | Some (host, _) =>
      let host := trim_brackets host in
      match (match parse_addr4 host with Some a => Some (Some a) | None => parse_ip6 host end) with
      | Some (Some a) => Ok [print_addr4 a]
      | Some None => Err "WGShim server does not resolve to IPv4: %s"
      | None =>
          match lookup_ip host with
          | None => Err "resolve WGShim server %s: %w"
          | Some addresses =>
              let found := distinct [] (omap (λ ip, print_addr4 <$> ip) addresses) in
              check (zlen found =? 0) "WGShim server has no IPv4 address: %s" ;;
              Ok found
          end
      end
  end.

(** Endpoints that cannot be resolved are passed over. *)
Definition resolveWGShimServerIPv4s (paths : list TransportPath) : result (list string) :=
  let resolved := (λ path, resolveWGShimServerIPv4Candidates (Path_Endpoint path)) <$> paths in
  let found := distinct [] (concat (ok_or [] <$> resolved)) in
  check ((zlen found =? 0) && List.forallb is_ok resolved) "no transport path has an IPv4 endpoint" ;;
  check (zlen found =? 0) "resolve transport path endpoints: %s" ;;
  Ok found.
End resolve.

(** ** The interface *)

(** [strings.ReplaceAll(value, "'", "''")] *)
Fixpoint psQuote (value : string) : string :=
  match value with
  | "" => ""
  | String c rest => if Ascii.eqb c "'"%char then String c (String c (psQuote rest)) else String c (psQuote rest)
  end.

Definition print_prefix (p : Prefix) : string := print_addr4 (pfx_addr p) +:+ "/" +:+ print_int (pfx_bits p).

(** The host route to a relay over the physical interface. *)
Definition physical_route (name serverIP : string) : string :=
  "$route=Find-NetRoute -RemoteIPAddress '" +:+ serverIP +:+ "' | " +:+
  "Where-Object {$_.InterfaceAlias -ne '" +:+ name +:+ "'} | " +:+
  "Sort-Object RouteMetric | Select-Object -First 1; " +:+
  "if ($null -eq $route) { throw 'No physical route to BPC relay " +:+ serverIP +:+ "' }; " +:+
  "$nextHop=$route.NextHop; if ([string]::IsNullOrWhiteSpace($nextHop)) {$nextHop='0.0.0.0'}; " +:+
  "$existing=@(Get-NetRoute -DestinationPrefix '" +:+ serverIP +:+ "/32' -ErrorAction SilentlyContinue); " +:+
  "if ($existing.Count -eq 0) { " +:+
  "New-NetRoute -InterfaceIndex $route.InterfaceIndex -DestinationPrefix '" +:+ serverIP +:+ "/32' " +:+
  "-NextHop $nextHop -RouteMetric 1 -PolicyStore ActiveStore -ErrorAction Stop | Out-Null };".

Definition tunnel_route (name : string) (prefix : Prefix) : string :=
  "Remove-NetRoute -InterfaceAlias '" +:+ name +:+ "' -DestinationPrefix '" +:+ print_prefix prefix +:+ "' " +:+
  "-Confirm:$false -ErrorAction SilentlyContinue; " +:+
  "New-NetRoute -InterfaceAlias '" +:+ name +:+ "' -DestinationPrefix '" +:+ print_prefix prefix +:+ "' " +:+
  "-NextHop 0.0.0.0 -RouteMetric 5 -PolicyStore ActiveStore -ErrorAction Stop | Out-Null".

Section interface.
Context `{RS : Resolver} `{P6 : Prefix6}.

(** The routes of the allowed IPs: IPv6 prefixes get none. *)
Fixpoint tunnel_routes (name : string) (allowed : list string) : result (list string) :=
  match allowed with
  | [] => Ok []
  | route :: rest =>
      match parse_prefix4 (trim_space route) with
      | Some prefix => l ← tunnel_routes name rest; Ok (tunnel_route name prefix :: l)
      | None =>
          check (negb (prefix6_ok (trim_space route))) "netip.ParsePrefix(%s): %s" ;;
          tunnel_routes name rest
      end
  end.

(** The address and its length as [ParsePrefix] reads them.  The profile is validated
    before, so that it is IPv4 once white space around it is removed. *)
Definition interface_address (s : string) : result (string * Z) :=
  match parse_prefix4 s with
  | Some p => Ok (print_addr4 (pfx_addr p), pfx_bits p)
  | None => Err "netip.ParsePrefix(%s): %s"
  end.

(** The script of [configureEmbeddedInterface] for a profile with an IPv4 address. *)
Definition interface_script (name : string) (cfg : RuntimeConfig) (profile : WireGuardProfile) : result string :=
  '(address, bits) ← interface_address (Wg_Address profile);
  serverIPs ← resolveWGShimServerIPv4s (TransportPaths cfg);
  let name := psQuote name in
  routes ← tunnel_routes name (Wg_AllowedIPs profile);
  Ok ("$ErrorActionPreference='Stop'; " +:+
    "Get-NetRoute -InterfaceAlias '" +:+ name +:+ "' -ErrorAction SilentlyContinue | " +:+
    "Remove-NetRoute -Confirm:$false -ErrorAction SilentlyContinue; " +:+
    String.concat "; " (physical_route name <$> serverIPs) +:+ "; " +:+
    "Get-NetIPAddress -InterfaceAlias '" +:+ name +:+ "' -AddressFamily IPv4 -ErrorAction SilentlyContinue | " +:+
    "Remove-NetIPAddress -Confirm:$false -ErrorAction SilentlyContinue; " +:+
    "New-NetIPAddress -InterfaceAlias '" +:+ name +:+ "' -IPAddress '" +:+ address +:+ "' -PrefixLength " +:+
    print_int bits +:+ " -AddressFamily IPv4 -ErrorAction Stop | Out-Null; " +:+
    "Set-NetIPInterface -InterfaceAlias '" +:+ name +:+ "' -AddressFamily IPv4 -NlMtuBytes " +:+
    print_int (Wg_MTU profile) +:+ " -ErrorAction Stop; " +:+ String.concat "; " routes).
End interface.

(** [scheduleReplacement]: the script of the update helper. *)
Definition serviceName : string := "BPCAgent".
Definition replacement_script (exePath nextPath : string) (installUI : bool) : string :=
  "Start-Sleep -Seconds 3; Move-Item -LiteralPath '" +:+ psQuote nextPath +:+ "' -Destination '" +:+
  psQuote exePath +:+ "' -Force; " +:+
  (if installUI then "& '" +:+ psQuote exePath +:+ "' install-ui; " else "") +:+
  "sc.exe start '" +:+ psQuote serviceName +:+ "' | Out-Null".

(** What the overlay does with a path switch. *)
Inductive switch_action := SendHandshake | ResetPeers | StopOverlay (e : string).
Definition path_switch (profile : WireGuardProfile) (present : bool) (event : pathSwitchEvent) : switch_action :=
  if Sw_PreserveSession event then
    match base64_decode (Wg_PeerPublicKey profile) with
    | Some raw =>
        if negb (zlen raw =? 32) then StopOverlay "invalid overlay public key"
        else if negb present then StopOverlay "overlay peer missing during migration"
        else SendHandshake
    | None => StopOverlay "invalid overlay public key"
    end
  else ResetPeers.

(** ** Installation *)

Section install.
Context `{ED : Ed25519} `{GJ : GrantJson} `{PJ : PolicyJson} `{HS : Hashes} `{GS : GoSort} `{XC : X25519}.
Context `{PF : !P2pFileJson} `{SJ : StateJson} {B : Type} `{BB : BoltBucket B}.
Context `{URL : GoURL} `{UC : UnicodeCase} `{P6 : Prefix6} `{PK : PublicKeys} `{PL : PayloadJson} {N : Type} `{HC : HttpClient N}.
Context `{JEn : JsonBody EnrollmentResponse} `{JLg : JsonBody LoginResponse}.
Context `{JRg : JsonBody DeviceRegistrationResponse}.
Context `{JPi : JsonBody P2PInfo} `{JTk : JsonBody bytes} `{JPs : JsonBody (list P2PPeer)}.
Context `{BJ : BootstrapJson}.
Context (version : string) (wg_public : string → option string).
Implicit Types m : machine B N.

(** What the user and the system contribute to an installation. *)
Record install_input := mkInstallInput {
  ii_admin : bool;
  ii_now : Z;
  ii_credentials : option (string * string);
  ii_capture : result WireGuardProfile;
  ii_identity : identity;
  ii_fault : option string;
  ii_nonces : option bytes * option bytes;
  ii_current : string;
  ii_exe : string;
  ii_dir : string;
  ii_same : bool;
}.

Definition on_files (f : files → files * result unit) : cmd (B := B) (N := N) unit := λ m,
  let '(fs, r) := f (mc_files m) in (set_files m fs, r).

Definition stop_service (os : syscalls) : cmd (B := B) (N := N) unit := λ m,
  match sys os "stop service" with Ok _ => (set_service m false, Ok tt) | e => (m, e) end.
Definition start_service (os : syscalls) : cmd (B := B) (N := N) unit := λ m,
  match sys os "start service" with Ok _ => (set_service m true, Ok tt) | e => (m, e) end.

Definition enroll (os : syscalls) (i : install_input) (b : Bootstrap) : cmd (B := B) (N := N) State := λ m,
  let '(file, net, r) :=
    enrollOrLoadState version wg_public b (mc_state m) (mc_net m) (ii_now i) (ii_credentials i)
      (sys os "stop service") (ii_capture i) (ii_identity i) (ii_fault i) in
  (mkMachine (mc_p2p m) file (mc_files m) net (mc_service m), r).

(** [installAgent] for an administrator; an error of [stopWindowsService] and the rest
    is a failing system call. *)
Definition installAgent (os : syscalls) (i : install_input) : cmd (B := B) (N := N) unit :=
  b ← (λ m, (m, match mc_files m !! ii_current i with
                | Some data => parseBootstrapBytes data
                | None => Err "read executable bootstrap: %w"
                end));
  pure (ValidateBootstrap b) ;;
  if negb (ii_admin i) then pure (sys os "elevate")
  else
    pure (sys os "mkdir install") ;;
    newDevice ← (λ m, (m, Ok (bool_decide (mc_state m = None))));
    state ← enroll os i b;
    pure (State_ValidateRuntimeConfig state) ;;
    pure (sys os "executable") ;;
    on_files (λ fs, installWintunPayload os fs (ii_current i) (ii_dir i)) ;;
    stop_service os ;;
    (if ii_same i then mret tt else on_files (λ fs, copyFile os fs (ii_current i) (ii_exe i))) ;;
    (if (newDevice : bool)
     then initializeAccountP2P os (ii_admin i) state (ii_nonces i).1 (ii_nonces i).2 (ii_now i) ;; mret tt
     else mret tt) ;;
    pure (sys os "install ui") ;;
    pure (sys os "write ui status") ;;
    pure (sys os "install service") ;;
    start_service os.

Definition connectAgent (os : syscalls) (admin : bool) : cmd (B := B) (N := N) unit :=
  if negb admin then pure (sys os "elevate")
  else pure (sys os "service automatic") ;; start_service os.
Definition disconnectAgent (os : syscalls) (admin : bool) : cmd (B := B) (N := N) unit :=
  if negb admin then pure (sys os "elevate")
  else stop_service os ;; pure (sys os "service manual").
End install.

(** ** Facts about embedded payloads *)

(** Bytes that neither end a marker nor begin white space. *)
Definition b64_byte (c : byte) : bool := bool_decide (is_Some (b64_value c)) || bool_decide (c = b64_pad).
Definition space_head (c : byte) : bool :=
  List.existsb (λ p, bool_decide (head p = Some c)) (space_runes ++ (reverse <$> space_runes)).

Lemma b64_byte_plain c : b64_byte c = true → c ≠ x0a ∧ c ≠ x5f ∧ space_head c = false.
Proof. by destruct c; vm_compute; intros H; try discriminate H; split_and!. Qed.

Lemma b64_encode_bytes l : Forall (λ c, b64_byte c = true) (b64_encode l).
Proof.
  assert (∀ z, 0 <= z < 64 → b64_byte (b64_digit z) = true) as Hd.
  { intros z Hz. destruct (b64_value_digit z Hz) as (E & _). unfold b64_byte. by rewrite E. }
  assert (b64_byte b64_pad = true) as Hp by done.
  assert (∀ n l, 0 <= n < 16777216 → Forall (λ c, b64_byte c = true) l →
    Forall (λ c, b64_byte c = true) (b64_digit (n / 262144) :: b64_digit (n / 4096 mod 64) :: l) ∧
    b64_byte (b64_digit (n / 64 mod 64)) = true ∧ b64_byte (b64_digit (n mod 64)) = true) as Hq.
  { intros n l' Hn Hl. destruct (b64_digits_range n Hn) as (D1 & D2 & D3 & D4).
    split_and!; [|by apply Hd..]. repeat (apply Forall_cons; split; [by apply Hd|]). done. }
  induction l as [|a|a b|a b c r IH] using list_ind3; cbn [b64_encode]; [done|..].
  - pose proof (byte_val_range a). apply Hq; [lia|]. by repeat constructor.
  - pose proof (byte_val_range a). pose proof (byte_val_range b).
    set (n := byte_val a * 65536 + byte_val b * 256). assert (0 <= n < 16777216) as Hn by lia.
    destruct (Hq n [] Hn) as (_ & H3 & _); [done|]. apply Hq; [done|]. by repeat constructor.
  - pose proof (byte_val_range a). pose proof (byte_val_range b). pose proof (byte_val_range c).
    set (n := byte_val a * 65536 + byte_val b * 256 + byte_val c). assert (0 <= n < 16777216) as Hn by lia.
    destruct (Hq n [] Hn) as (_ & H3 & H4); [done|]. apply Hq; [done|]. by repeat (apply Forall_cons; split).
Qed.

Lemma strip_any_plain ps b : List.forallb (λ p : bytes, negb (bool_decide (p = []))) ps = true →
  (∀ c, head b = Some c → List.existsb (λ p, bool_decide (head p = Some c)) ps = false) → strip_any ps b = None.
Proof.
  induction ps as [|p ps IH]; intros Hne H; [done|]. cbn in Hne |- *. apply andb_true_iff in Hne as [Hp Hne].
  destruct p as [|x p]; [done|]. destruct b as [|c b]; cbn.
  - apply IH; done.
  - specialize (H c eq_refl) as H'. cbn in H'. apply orb_false_iff in H' as [Hx _].
    destruct (decide (x = c)) as [->|]; [by rewrite bool_decide_true in Hx|].
    apply IH; [done|]. intros c' [= <-]. specialize (H c eq_refl). cbn in H. by apply orb_false_iff in H as [_ H].
Qed.

Lemma trim_plain b : Forall (λ c, space_head c = false) b → trim_space (bytes_str b) = bytes_str b.
Proof.
  intros H. unfold trim_space. rewrite str_bytes_str.
  assert (∀ ps fuel l, strip_any ps l = None → trim_loop ps fuel l = l) as T.
  { intros ps fuel l E. destruct fuel; [done|]. cbn. by rewrite E. }
  assert (∀ l, Forall (λ c, space_head c = false) l → strip_any space_runes l = None ∧
    strip_any (reverse <$> space_runes) l = None) as S.
  { intros l Hl. assert (∀ c, head l = Some c → space_head c = false) as Hh.
    { intros c Hc. destruct l; [done|]. injection Hc as ->. by apply Forall_cons in Hl as [? _]. }
    split; apply strip_any_plain; try reflexivity; intros c Hc; specialize (Hh c Hc); unfold space_head in Hh;
      rewrite List.existsb_app in Hh; by apply orb_false_iff in Hh as [? ?]. }
  rewrite (T _ _ _ (proj1 (S b H))), (T _ _ _ (proj2 (S (reverse b) ltac:(by apply Forall_reverse)))).
  by rewrite reverse_involutive.
Qed.

Lemma starts_with_true pat s : starts_with pat s = true ↔ ∃ r, s = pat ++ r.
Proof.
  unfold starts_with. rewrite bool_decide_eq_true. revert s. induction pat as [|x pat IH]; intros s; cbn.
  - split; eauto.
  - destruct s as [|y s]; [split; [by intros [? ?]|by intros [? ?]]|].
    destruct (decide (x = y)) as [->|]; [rewrite IH; naive_solver|].
    split; [by intros [? ?]|]. intros [r E]. naive_solver.
Qed.

(** Text without the first byte of the pattern is passed over. *)
Lemma index_of_skip x pat t s : x ∉ t → index_of (x :: pat) (t ++ s) = (λ n, (length t + n)%nat) <$> index_of (x :: pat) s.
Proof.
  induction t as [|c t IH]; intros Hx; cbn [app length]; [by destruct (index_of _ s)|].
  apply not_elem_of_cons in Hx as [Hc Ht]. cbn [index_of].
  destruct (starts_with (x :: pat) (c :: t ++ s)) eqn:E.
  { apply starts_with_true in E as [r [= ->]]. done. }
  rewrite (IH Ht). by destruct (index_of (x :: pat) s).
Qed.

Lemma last_index_of_skip x pat t s : x ∉ t →
  last_index_of (x :: pat) (t ++ s) = (λ n, (length t + n)%nat) <$> last_index_of (x :: pat) s.
Proof.
  induction t as [|c t IH]; intros Hx; cbn [app length]; [by destruct (last_index_of _ s)|].
  apply not_elem_of_cons in Hx as [Hc Ht]. cbn [last_index_of]. rewrite (IH Ht).
  destruct (last_index_of (x :: pat) s); [done|]. cbn [fmap option_fmap option_map].
  destruct (starts_with (x :: pat) (c :: t ++ s)) eqn:E; [|done].
  apply starts_with_true in E as [r [= ->]]. done.
Qed.

Lemma last_index_of_app pat pre s n : last_index_of pat s = Some n →
  last_index_of pat (pre ++ s) = Some (length pre + n)%nat.
Proof. intros E. induction pre as [|c pre IH]; cbn; [done|]. by rewrite IH. Qed.

(** Two lines that start alike are the same line. *)
Lemma same_line (a b r r' : bytes) : x0a ∉ a → x0a ∉ b → a ++ x0a :: r = b ++ x0a :: r' → a = b.
Proof.
  revert b. induction a as [|x a IH]; intros [|y b] Ha Hb E; cbn in E.
  - done.
  - injection E as <- _. apply not_elem_of_cons in Hb as [? _]. done.
  - injection E as -> _. apply not_elem_of_cons in Ha as [? _]. done.
  - injection E as -> E. apply not_elem_of_cons in Ha as [_ Ha]. apply not_elem_of_cons in Hb as [_ Hb].
    f_equal. by apply IH.
Qed.

(** A line of base64 text holds no marker. *)
Lemma last_index_of_line a t s : x0a ∉ a → x5f ∈ a → Forall (λ c, b64_byte c = true) t →
  last_index_of (x0a :: a ++ [x0a]) (x0a :: s) = None →
  last_index_of (x0a :: a ++ [x0a]) (x0a :: t ++ x0a :: s) = None.
Proof.
  intros Ha Hu Ht Hs. assert (x0a ∉ t) as Hn.
  { intros Hi. apply (proj1 (Forall_forall _ _) Ht), b64_byte_plain in Hi as [? _]. done. }
  cbn [last_index_of]. rewrite (last_index_of_skip x0a (a ++ [x0a]) t (x0a :: s) Hn).
  rewrite Hs. cbn [fmap option_fmap option_map].
  destruct (starts_with (x0a :: a ++ [x0a]) (x0a :: t ++ x0a :: s)) eqn:E; [|done].
  apply starts_with_true in E as [r E]. injection E as E. rewrite <- app_assoc in E. cbn in E.
  apply same_line in E as ->; [|done..].
  apply (proj1 (Forall_forall _ _) Ht), b64_byte_plain in Hu as (_ & ? & _). done.
Qed.

(** What is appended to an executable between its markers is found again, whatever the
    executable holds, as long as nothing behind it looks like another start. *)
Lemma extractPayload_embedded a b (pre payload post : bytes) :
  x0a ∉ a → x0a ∉ b → x5f ∈ a → a ≠ b →
  last_index_of (x0a :: a ++ [x0a]) (x0a :: post) = None →
  extractPayload (pre ++ (x0a :: a ++ [x0a]) ++ b64_encode payload ++ (x0a :: b ++ [x0a]) ++ post)
    (x0a :: a ++ [x0a]) (x0a :: b ++ [x0a]) = Ok payload.
Proof.
  intros Ha Hb Hu Hab Hp. pose proof (b64_encode_bytes payload) as Ht. set (t := b64_encode payload) in *.
  assert (x0a ∉ t) as Hn.
  { intros Hi. apply (proj1 (Forall_forall _ _) Ht), b64_byte_plain in Hi as [? _]. done. }
  set (A := x0a :: a ++ [x0a]) in *.
  assert (last_index_of A (x0a :: b ++ x0a :: post) = None) as Lb.
  { cbn [last_index_of]. unfold A. rewrite (last_index_of_skip x0a (a ++ [x0a]) b (x0a :: post) Hb). fold A.
    rewrite Hp. cbn. destruct (starts_with A _) eqn:E; [|done]. apply starts_with_true in E as [r E].
    unfold A in E. injection E as E. rewrite <- app_assoc in E. by apply same_line in E. }
  assert (last_index_of A (A ++ t ++ x0a :: b ++ x0a :: post) = Some 0%nat) as La.
  { unfold A at 2. cbn [app last_index_of]. rewrite <- app_assoc. unfold A.
    rewrite (last_index_of_skip x0a (a ++ [x0a]) a) by done. cbn [app].
    rewrite last_index_of_line by done. cbn [fmap option_fmap option_map].
    by rewrite (proj2 (starts_with_true _ _)) by (exists (t ++ x0a :: b ++ x0a :: post); cbn; by rewrite <- app_assoc). }
  replace ((x0a :: b ++ [x0a]) ++ post) with (x0a :: b ++ x0a :: post) by (cbn; by rewrite <- app_assoc).
  unfold extractPayload. rewrite (last_index_of_app _ pre _ _ La), Nat.add_0_r.
  rewrite <- length_app, app_assoc, drop_app_length.
  rewrite index_of_skip by done. cbn [index_of].
  rewrite (proj2 (starts_with_true _ _)) by (exists post; cbn; by rewrite <- app_assoc).
  cbn [fmap option_fmap option_map]. rewrite Nat.add_0_r, take_app_length, trim_plain.
  - change (bytes_str t) with (base64_encode payload). by rewrite base64_roundtrip.
  - eapply Forall_impl; [exact Ht|]. intros c Hc. by apply b64_byte_plain.
Qed.

Lemma wintun_embedded (pre dll post : bytes) : last_index_of wintunPayloadStart (x0a :: post) = None →
  extractPayload (pre ++ wintunPayloadStart ++ b64_encode dll ++ wintunPayloadEnd ++ post)
    wintunPayloadStart wintunPayloadEnd = Ok dll.
Proof.
  apply (extractPayload_embedded (str_bytes "BPC_AGENT_WINTUN_V1") (str_bytes "BPC_AGENT_WINTUN_END"));
    by apply (bool_decide_eq_true_1 _); vm_compute.
Qed.

(** ** Facts about files *)

Lemma dst_tmp dst : dst ≠ dst +:+ ".tmp".
Proof.
  intros E. apply (f_equal String.length) in E. revert E. clear. induction dst as [|c dst IH]; cbn; [done|].
  intros [= E]. by apply IH.
Qed.

(** A copy that succeeds puts the contents at their place and touches nothing else but
    its temporary file. *)
Lemma copyFile_Ok os fs src dst fs' : copyFile os fs src dst = (fs', Ok tt) →
  fs' !! dst = fs !! src ∧ is_Some (fs !! src) ∧
  ∀ name, name ≠ dst → name ≠ dst +:+ ".tmp" → fs' !! name = fs !! name.
Proof.
  unfold copyFile. destruct (fs !! src) as [contents|]; [|done].
  destruct (sys os "create temp"); [|done..]. destruct (sys os "copy" ;; _); [|done..].
  destruct (sys os "rename"); [|done..]. intros [= <-]. split_and!.
  - by rewrite lookup_insert_eq.
  - eauto.
  - intros name N1 N2. rewrite lookup_insert_ne, lookup_delete_ne by done.
    destruct (is_ok _); rewrite ?lookup_delete_ne, lookup_insert_ne by done; done.
Qed.

(** When the renaming fails after the old file was removed, neither the old nor the new
    contents are left at the place of the executable. *)
Lemma copyFile_loses os fs src dst contents : fs !! src = Some contents → src ≠ dst →
  (∀ call, sys os call = if String.eqb call "rename" then Err "Access is denied." else Ok tt) →
  (copyFile os fs src dst).1 !! dst = None ∧ (copyFile os fs src dst).2 = Err "Access is denied.".
Proof.
  intros Es Hd Hos. unfold copyFile. rewrite Es, !Hos. cbn. split; [|done].
  rewrite lookup_delete_ne by (intros E; by apply (dst_tmp dst)). by rewrite lookup_delete_eq.
Qed.

(** ** Facts about the device's configuration *)

Definition one_line (s : string) : Prop := has_char (Ascii.eqb "010"%char) s = false.

Lemma one_line_cons c s : one_line (String c s) ↔ Ascii.eqb "010"%char c = false ∧ one_line s.
Proof. unfold one_line. cbn [has_char]. by rewrite orb_false_iff. Qed.

Lemma one_line_app a b : one_line (a +:+ b) ↔ one_line a ∧ one_line b.
Proof.
  induction a as [|c a IH]; [by split; [|intros [_ ?]]|].
  change (String c a +:+ b) with (String c (a +:+ b)). rewrite !one_line_cons, IH. tauto.
Qed.

Lemma split_lines_line s rest : one_line s → split_lines (line s +:+ rest) = s :: split_lines rest.
Proof.
  unfold line. induction s as [|c s IH]; [done|]. intros [Hc Hs]%one_line_cons.
  change ((String c s +:+ newline) +:+ rest) with (String c ((s +:+ newline) +:+ rest)).
  cbn [split_lines]. rewrite Ascii.eqb_sym, Hc. by rewrite (IH Hs).
Qed.

Lemma one_line_bytes b : Forall (λ c, c ≠ x0a) b → one_line (bytes_str b).
Proof.
  induction 1 as [|c b Hc Hb IH]; [done|]. apply one_line_cons. split; [|done].
  apply Ascii.eqb_neq. intros E. apply Hc. apply (f_equal byte_of_ascii) in E.
  by rewrite byte_of_ascii_of_byte in E.
Qed.

Lemma one_line_plain s : plain s → one_line s.
Proof.
  unfold plain, one_line. induction s as [|c s IH]; [done|]. cbn [has_char].
  intros [Hc Hs]%orb_false_iff. rewrite (IH Hs), orb_false_r.
  destruct (Ascii.eqb_spec "010"%char c) as [<-|]; done.
Qed.

Lemma one_line_hex b : one_line (hex_encode b).
Proof.
  apply one_line_bytes. assert (∀ z, 0 <= z < 16 → hex_digit z ≠ x0a) as Hd.
  { intros z Hz E. pose proof (hex_value_digit z Hz) as V. by rewrite E in V. }
  induction b as [|c b IH]; cbn [hex_bytes]; [done|]. pose proof (byte_val_range c).
  repeat (apply Forall_cons; split); [apply Hd; Z.to_euclidean_division_equations; lia..|done].
Qed.

Lemma split_lines_concat (f : string → string) l rest : Forall (λ x, one_line (f x)) l →
  split_lines (String.concat "" ((λ x, line (f x)) <$> l) +:+ rest) = (f <$> l) ++ split_lines rest.
Proof.
  assert (∀ a (k : list string), String.concat "" (a :: k) = a +:+ String.concat "" k) as Hc.
  { intros a [|b k]; cbn; [by rewrite str_app_nil|done]. }
  induction 1 as [|x l Hx Hl IH]; [done|]. rewrite !fmap_cons, Hc, str_app_assoc.
  rewrite split_lines_line by done. cbn. by rewrite IH.
Qed.

(** The device is configured with exactly one peer, which is reached at the local
    transport, and with the allowed addresses of the profile: no field adds a line. *)
Lemma embeddedUAPI_exact cfg profile text : embeddedUAPI cfg profile = Ok text →
  one_line (Rc_WGShimListen cfg) → Forall (λ a, one_line (trim_space a)) (Wg_AllowedIPs profile) →
  ∃ priv peer psk, ParseWGKey (Wg_PrivateKey profile) false = Ok priv ∧
    ParseWGKey (Wg_PeerPublicKey profile) false = Ok peer ∧
    (psk = [] ∧ blank (Wg_PresharedKey profile) = true ∨
     ∃ key, ParseWGKey (Wg_PresharedKey profile) true = Ok key ∧ psk = ["preshared_key=" +:+ hex_encode key]) ∧
    split_lines text =
      ["private_key=" +:+ hex_encode priv; "replace_peers=true"; "public_key=" +:+ hex_encode peer] ++ psk ++
      ["endpoint=" +:+ Rc_WGShimListen cfg;
       "persistent_keepalive_interval=" +:+ print_int (Wg_PersistentKeepalive profile);
       "replace_allowed_ips=true"] ++
      ((λ a, "allowed_ip=" +:+ trim_space a) <$> Wg_AllowedIPs profile) ++ [""; ""].
Proof.
  unfold embeddedUAPI. intros E Hl Ha. apply bind_Ok in E as (privh & E1 & E).
  apply bind_Ok in E as (peerh & E2 & E). apply bind_Ok in E as (pskl & E3 & [= <-]).
  unfold WGKeyHex in E1, E2. apply bind_Ok in E1 as (priv & E1 & [= <-]). apply bind_Ok in E2 as (peer & E2 & [= <-]).
  assert (∀ s t, one_line s → one_line t → one_line (s +:+ t)) as Happ by (intros; by apply one_line_app).
  assert (one_line (print_int (Wg_PersistentKeepalive profile))) as Hk by apply one_line_plain, plain_int.
  assert (∃ psk, (psk = [] ∧ blank (Wg_PresharedKey profile) = true ∨
     ∃ key, ParseWGKey (Wg_PresharedKey profile) true = Ok key ∧ psk = ["preshared_key=" +:+ hex_encode key]) ∧
     ∀ rest, split_lines (pskl +:+ rest) = psk ++ split_lines rest) as (psk & Hp & Hs).
  { destruct (blank _); [injection E3 as <-; exists []; split; [by left|done]|].
    apply bind_Ok in E3 as (h & E3 & [= <-]). apply bind_Ok in E3 as (key & E3 & [= <-]).
    exists ["preshared_key=" +:+ hex_encode key]. split; [right; by exists key|]. intros rest.
    apply split_lines_line. apply Happ; [done|apply one_line_hex]. }
  exists priv, peer, psk. split_and!; [done..|].
  rewrite split_lines_line by (apply Happ; [done|apply one_line_hex]).
  rewrite split_lines_line by done.
  rewrite split_lines_line by (apply Happ; [done|apply one_line_hex]). rewrite Hs.
  rewrite split_lines_line by (by apply Happ). rewrite split_lines_line by (by apply Happ).
  rewrite split_lines_line by done.
  rewrite split_lines_concat by (eapply Forall_impl; [exact Ha|]; intros a Hx; by apply Happ). done.
Qed.

(** ** Facts about installations *)

Section install_facts.
Context `{ED : Ed25519} `{GJ : GrantJson} `{PJ : PolicyJson} `{HS : Hashes} `{GS : GoSort} `{XC : X25519}.
Context `{PF : !P2pFileJson} `{SJ : StateJson} {B : Type} `{BB : BoltBucket B}.
Context `{URL : GoURL} `{UC : UnicodeCase} `{P6 : Prefix6} `{PK : PublicKeys} `{PL : PayloadJson} {N : Type} `{HC : HttpClient N}.
Context `{JEn : JsonBody EnrollmentResponse} `{JLg : JsonBody LoginResponse}.
Context `{JRg : JsonBody DeviceRegistrationResponse}.
Context `{JPi : JsonBody P2PInfo} `{JTk : JsonBody bytes} `{JPs : JsonBody (list P2PPeer)}.
Context `{BJ : BootstrapJson}.
Context (version : string) (wg_public : string → option string).
Implicit Types m : machine B N.

(** A command that leaves the P2P directory and the network alone. *)
Definition local {A} (c : cmd (B := B) (N := N) A) : Prop :=
  ∀ m, mc_p2p (c m).1 = mc_p2p m ∧ mc_net (c m).1 = mc_net m.

Lemma local_bind {A A'} (c : cmd A) (f : A → cmd A') : local c → (∀ a, local (f a)) → local (c ≫= f).
Proof.
  intros Hc Hf m. unfold mbind, cmd_bind. destruct (Hc m) as [E1 E2]. destruct (c m) as [m1 [a| |]]; [|done..].
  destruct (Hf a m1) as [-> ->]. by split.
Qed.
Lemma local_pure {A} (r : result A) : local (pure r).
Proof. done. Qed.
Lemma local_files f : local (on_files f).
Proof. intros m. unfold on_files. by destruct (f _). Qed.
Lemma local_stop os : local (stop_service os).
Proof. intros m. unfold stop_service. by destruct (sys os _). Qed.
Lemma local_start os : local (start_service os).
Proof. intros m. unfold start_service. by destruct (sys os _). Qed.

(** Installing again on a machine with a Device keeps the user's P2P choice: the P2P
    directory is untouched, and the only requests to the Controller are those of
    [enrollOrLoadState], none of which gives consent. *)
Lemma reinstall_keeps_consent os i m : mc_state m ≠ None →
  let m' := (installAgent version wg_public os i m).1 in
  mc_p2p m' = mc_p2p m ∧
  (mc_net m' = mc_net m ∨
   ∃ b, mc_net m' = (enrollOrLoadState version wg_public b (mc_state m) (mc_net m) (ii_now i) (ii_credentials i)
                       (sys os "stop service") (ii_capture i) (ii_identity i) (ii_fault i)).1.2).
Proof.
  intros Hs. cbv zeta.
  pose (R := λ x : machine B N * result unit, mc_p2p x.1 = mc_p2p m ∧ (mc_net x.1 = mc_net m ∨
    ∃ b, mc_net x.1 = (enrollOrLoadState version wg_public b (mc_state m) (mc_net m) (ii_now i)
      (ii_credentials i) (sys os "stop service") (ii_capture i) (ii_identity i) (ii_fault i)).1.2)).
  change (R (installAgent version wg_public os i m)).
  assert (∀ r, R (m, r)) as R0 by (intros r; by split; [|left]).
  unfold installAgent. unfold mbind at 1, cmd_bind at 1.
  destruct (match mc_files m !! ii_current i with Some _ => _ | None => _ end) as [b| |]; [|apply R0..].
  unfold mbind at 1, cmd_bind at 1, pure at 1. destruct (ValidateBootstrap b); [|apply R0..].
  destruct (negb (ii_admin i)); [apply R0|].
  unfold mbind at 1, cmd_bind at 1, pure at 1. destruct (sys os "mkdir install"); [|apply R0..].
  unfold mbind at 1, cmd_bind at 1. rewrite bool_decide_false by done. unfold mbind at 1, cmd_bind at 1.
  destruct (enroll version wg_public os i b m) as [m1 r] eqn:E.
  assert (∀ m2 r, mc_p2p m2 = mc_p2p m1 → mc_net m2 = mc_net m1 → R (m2, r)) as R1.
  { intros m2 r2 E1 E2. unfold R. cbn. rewrite E1, E2. unfold enroll in E.
    destruct (enrollOrLoadState _ _ b _ _ _ _ _ _ _ _) as [[file net] r1] eqn:Ee. injection E as <- _. cbn.
    split; [done|]. right. exists b. by rewrite Ee. }
  destruct r as [state| |]; [|by apply R1..].
  match goal with |- R (?c m1) => assert (local c) as L end.
  { repeat first [apply local_bind; [|intros ?]|apply local_pure|apply local_files|apply local_stop|
      apply local_start|match goal with |- local (if ?x then _ else _) => destruct x end|done]. }
  destruct (L m1) as [L1 L2]. rewrite (surjective_pairing (_ m1)). by apply R1.
Qed.
End install_facts.

(** A profile with white space around its address and its key passes the validation,
    but the interface is never configured with it, and a hand-over that preserves the
    session stops the overlay. *)
Definition padded_profile : WireGuardProfile :=
  mkProfile (base64_encode (replicate 32 x02)) " 10.0.0.1/32" 1420 (base64_encode (replicate 32 x09) +:+ " ") ""
    ["10.0.0.0/24"] 25.

Lemma padded_profile_refused `{P6 : Prefix6} `{RS : Resolver} name cfg :
  ValidateWireGuardProfile padded_profile = Ok tt ∧
  interface_script name cfg padded_profile = Err "netip.ParsePrefix(%s): %s" ∧
  path_switch padded_profile true (mkSwitch true "ru-01" "ru-02") = StopOverlay "invalid overlay public key".
Proof. split_and!; vm_compute; reflexivity. Qed.
