(* ===== verification/ControlApi.v ===== *)
(** * The interface of a Controller ([cmd/bpc-controld])

    Two listeners serve one set of handlers: the local one asks for a token, the cluster
    one for a client certificate that the membership check admits.  A handler reads the
    request, forwards it to the leader or works on the [Node], and answers with a status
    and a body.  What Raft, the leader, the other members and the clock answer while it
    runs are its arguments. *)

From Stdlib Require Import Strings.Byte Strings.Ascii.
From S2P Require Import Prelude GoLib GoStrings Netip GoEncoding Crypto GoNet P2pGrant AgentConfig ControlStore ControlFsm.
From S2P Require Import ControlProjection ControlNode ControlTls ControlCheckpoint.

Definition maxRequestBody : Z := 16 * 1024 * 1024.

Record controllerRecord := mkController {
  Ct_NodeID : string; Ct_RaftAddress : string; Ct_APIAddress : string; Ct_PublicURL : string; Ct_State : string;
  Ct_SoftwareVersion : string; Ct_ProtocolVersion : Z; Ct_StateSchema : Z; Ct_CertificateSHA256 : string;
  Ct_UpdatedAt : Z;
}.

Definition with_state (r : controllerRecord) (state : string) (now : Z) : controllerRecord :=
  mkController (Ct_NodeID r) (Ct_RaftAddress r) (Ct_APIAddress r) (Ct_PublicURL r) state (Ct_SoftwareVersion r)
    (Ct_ProtocolVersion r) (Ct_StateSchema r) (Ct_CertificateSHA256 r) now.

Record addMemberRequest := mkAdd {
  Ad_NodeID : string; Ad_RaftAddress : string; Ad_APIAddress : string; Ad_PublicURL : string; Ad_Voter : bool;
  Ad_SoftwareVersion : string; Ad_ProtocolVersion : Z; Ad_StateSchema : Z; Ad_CertificateSHA256 : string;
}.
Record restoreRequest := mkRestore { Rq_ClusterID : string; Rq_Snapshot : bytes; Rq_Force : bool }.
Record removeMemberRequest := mkRemove { Rm_NodeID : string; Rm_Force : bool }.
Record revisionReceipt := mkReceipt { Rc_Signed : bytes; Rc_Signature : bytes }.

(** The fields of a Gateway's security snapshot that a receipt is read for. *)
Record receiptSnapshot := mkReceiptSnapshot {
  Rs_Version : Z; Rs_Schema : Z; Rs_Cluster : string; Rs_Revision : Z; Rs_Created : Z; Rs_Expires : Z;
}.

(** The strings of a record are valid UTF-8, which is what JSON keeps. *)
Definition record_strings `{CJ : ControlJson} (r : controllerRecord) : Prop :=
  json_string (Ct_NodeID r) = true ∧ json_string (Ct_State r) = true ∧ json_string (Ct_CertificateSHA256 r) = true.

(** [encoding/json] on the documents of the interface: decoded strings are valid UTF-8.  A
    record is decoded into a variable that has values already; the membership check reads
    what the handlers write. *)
Class ApiJson `{CJ : ControlJson} `{MB : MembershipJson} := {
  json_add : bytes → option addMemberRequest;
  json_remove : bytes → option removeMemberRequest;
  json_restore : bytes → option restoreRequest;
  json_index : bytes → option Z;
  json_receipts : bytes → option (gmap string revisionReceipt);
  json_receipt_snapshot : bytes → option receiptSnapshot;
  json_result : bytes → option MutationResult;
  json_barrier : bytes → option (Z * Z);
  json_view : bytes → option (Z * RecoveryState);
  json_controller : controllerRecord → bytes → controllerRecord * bool;
  marshal_controller : controllerRecord → bytes;
  marshal_revocation : string → Z → bytes;
  json_view_u64 : ∀ raw version v, json_view raw = Some (version, v) → is_u64 (Rv_Revision v) ∧ is_u64 (Rv_Floor v);
  json_receipt_u64 : ∀ raw s, json_receipt_snapshot raw = Some s → is_u64 (Rs_Revision s);
  json_string_app : ∀ a b, json_string a = true → json_string b = true → json_string (a +:+ b) = true;
  json_add_strings : ∀ raw r, json_add raw = Some r → json_string (Ad_NodeID r) = true;
  json_remove_strings : ∀ raw r, json_remove raw = Some r → json_string (Rm_NodeID r) = true;
  json_controller_strings : ∀ r raw, record_strings r → record_strings (json_controller r raw).1;
  membership_controller : ∀ r, record_strings r → json_membership (marshal_controller r)
    = Some (mkMember (Ct_NodeID r) (Ct_State r) (Ct_CertificateSHA256 r));
}.

Definition ProtocolVersion : Z := 1.

(** ** Answers *)

Inductive body :=
| BError (e : string)
| BResult (r : MutationResult)
| BIndex (commit rev : Z)
| BDone (rev : Z) (state : string)
| BView (v : RecoveryState)
| BCheckpoint (c : ReplayCheckpoint)
| BHealth (ok : bool) (rev floor : Z)
| BRaw (raw : bytes).

Record reply := mkReply { rp_status : Z; rp_body : body }.

Definition zero_record : controllerRecord := mkController "" "" "" "" "" "" 0 0 "" 0.

Section api.
Context `{HS : Hashes} `{GS : GoSort} `{CJ : ControlJson} `{MJ : !MutationJson} `{CPJ : !CheckpointJson}.
Context `{MB : MembershipJson} `{AJ : !ApiJson} `{RS : RaftSnapshots} `{RM : RaftMembership} `{ED : Ed25519}.
Context {B : Type} `{BB : BoltBucket B} {F : Type} `{PF : ProjectionFS F}.
Implicit Types n : Node B F.

Definition fail {A} (n : A) (status : Z) (e : string) : A * reply := (n, mkReply status (BError e)).

(** [None]: reading failed. *)
Definition readBody (raw : option bytes) : option bytes :=
  match raw with
  | None => None
  | Some b =>
      let b := limit_reader (maxRequestBody + 1) b in
      if (zlen b =? 0) || (maxRequestBody <? zlen b) then None else Some b
  end.

Definition controller_file n (id : string) : option bytes :=
  fs_files (fsm_fs (n_fsm n)) !! filepath_join (fsm_root (n_fsm n)) ("cluster/controllers/" +:+ id +:+ ".json").

(** ** The leader *)

Definition leaderAPI n (leaderID : string) : result string :=
  check (String.eqb leaderID "") "raft leader is unknown" ;;
  match controller_file n leaderID with
  | None => Err "leader controller record unavailable: %w"
  | Some raw =>
      let '(record, ok) := json_controller zero_record raw in
      check (negb ok) "json" ;;
      check (String.eqb (Ct_State record) "revoked" || String.eqb (Ct_APIAddress record) "")
        "leader controller record is not usable" ;;
      Ok (Ct_APIAddress record)
  end.

(** [dial]: what the Controller at an address answers to a path and a body, over TLS. *)
Definition forwardBytes n (leaderID : string) (dial : string → string → bytes → option (Z * bytes))
    (path : string) (raw : bytes) : result (Z * bytes) :=
  address ← leaderAPI n leaderID;
  match SplitHostPort address with
  | None => Err "address"
  | Some _ =>
      match dial address path raw with
      | None => Err "forward"
      | Some (status, answer) => Ok (status, limit_reader maxRequestBody answer)
      end
  end.

Definition forward n (leaderID : string) (dial : string → string → bytes → option (Z * bytes))
    (path : string) (raw : bytes) : reply :=
  match forwardBytes n leaderID dial path raw with
  | Ok (status, answer) => mkReply status (BRaw answer)
  | Err e => mkReply 503 (BError e)
  | Panic => mkReply 500 (BError "panic")
  end.

(** ** Writing *)

(** The index to wait for after a forwarded mutation: the leader's, or that of a barrier
    when the leader is old and does not tell. *)
Definition forwarded_index n (leaderID : string) (dial : string → string → bytes → option (Z * bytes))
    (answer : bytes) : Z + reply :=
  match json_result answer with
  | None => inr (mkReply 502 (BError "invalid leader mutation response"))
  | Some res =>
      if negb (Res_OK res) then inr (mkReply 502 (BError "invalid leader mutation response"))
      else if negb (CommitIndex res =? 0) then inl (CommitIndex res)
      else match forwardBytes n leaderID dial "/v1/barrier" [] with
      | Ok (status, barrier) =>
          if negb (status =? 200) then inr (mkReply 503 (BError "cannot confirm legacy leader mutation"))
          else match json_barrier barrier with
          | Some (commit, _) =>
              if commit =? 0 then inr (mkReply 502 (BError "invalid legacy leader barrier response"))
              else inl commit
          | None => inr (mkReply 502 (BError "invalid legacy leader barrier response"))
          end
      | _ => inr (mkReply 503 (BError "cannot confirm legacy leader mutation"))
      end
  end.

(** [reached]: what Raft applies until an index is reached, [None] on timeout. *)
Definition mutate n (leaderID : string) (dial : string → string → bytes → option (Z * bytes)) (raw : option bytes)
    (ans : raft_answer) (reached : Z → option (list Log)) (fault : bool) : Node B F * reply :=
  match readBody raw with
  | None => fail n 400 "invalid request body"
  | Some raw =>
      match json_mutation raw with
      | None => fail n 400 "invalid mutation"
      | Some command =>
          if String.eqb (Mut_Kind command) "ReconcileRevision" || negb (Mut_RevisionMinimum command =? 0)
          then fail n 403 "use local administrative revision reconciliation"
          else if negb (n_leader n) then
            match forwardBytes n leaderID dial "/v1/mutate" raw with
            | Err e => fail n 503 e
            | Panic => fail n 500 "panic"
            | Ok (status, answer) =>
                if negb (status =? 200) then (n, mkReply status (BRaw answer))
                else match forwarded_index n leaderID dial answer with
                | inr r => (n, r)
                | inl index =>
                    let '(n, r) := WaitApplied n (reached index) fault in
                    match r with
                    | Ok _ => (n, mkReply status (BRaw answer))
                    | Err e => fail n 503 e
                    | Panic => fail n 500 "panic"
                    end
                end
            end
          else
            let '(n, r) := Submit n command ans in
            match r with
            | Err e => fail n 503 e
            | Panic => fail n 500 "panic"
            | Ok res =>
                (n, mkReply (if Res_Conflict res then 409 else if negb (Res_OK res) then 500 else 200) (BResult res))
            end
      end
  end.

(** ** Reading *)

Definition barrier n (leaderID : string) (dial : string → string → bytes → option (Z * bytes))
    (reached : Z → option (list Log)) (committed : option (list Log)) (fault : bool) : Node B F * reply :=
  if negb (n_leader n) then
    match forwardBytes n leaderID dial "/v1/barrier" [] with
    | Err e => fail n 503 e
    | Panic => fail n 500 "panic"
    | Ok (status, answer) =>
        if negb (status =? 200) then (n, mkReply status (BRaw answer))
        else match json_barrier answer with
        | None => fail n 502 "invalid leader barrier response"
        | Some (commit, rev) =>
            let '(n, r) := WaitApplied n (reached commit) fault in
            match r with
            | Ok _ => (n, mkReply 200 (BIndex commit rev))
            | Err e => fail n 503 e
            | Panic => fail n 500 "panic"
            end
        end
    end
  else
    let '(n, r) := StrongRead n committed fault in
    match r with
    | Ok (index, rev) => (n, mkReply 200 (BIndex index rev))
    | Err e => fail n 503 e
    | Panic => fail n 500 "panic"
    end.

Definition health n (status : bool) : reply :=
  if status then mkReply 200 (BHealth (n_floor n <=? FSM_Revision (n_fsm n)) (FSM_Revision (n_fsm n)) (n_floor n))
  else mkReply 503 (BError "status").

Definition snapshot n (leaderID : string) (dial : string → string → bytes → option (Z * bytes)) (ok : bool) : reply :=
  if negb (n_leader n) then forward n leaderID dial "/v1/snapshot" []
  else match Node_Snapshot n ok with
  | Ok _ => mkReply 200 (BDone 0 "")
  | Err e => mkReply 503 (BError e)
  | Panic => mkReply 500 (BError "panic")
  end.

Definition export n (leaderID : string) (dial : string → string → bytes → option (Z * bytes))
    (committed : option (list Log)) (fault : bool) : Node B F * reply :=
  if negb (n_leader n) then (n, forward n leaderID dial "/v1/export" [])
  else
    let '(n, r) := StrongRead n committed fault in
    match r with
    | Err e => fail n 503 e
    | Panic => fail n 500 "panic"
    | Ok _ =>
        match Node_ExportSnapshot n with
        | Ok raw => (n, mkReply 200 (BRaw raw))
        | Err e => fail n 500 e
        | Panic => fail n 500 "panic"
        end
    end.

Definition replayCheckpoint n (committed : option (list Log)) (fault : bool) (taken : snapshot_answer)
    (available : option (list (SnapshotMeta * bytes))) (leading : bool) : Node B F * reply :=
  if negb (n_leader n) then fail n 409 "checkpoint source must be the upgraded Leader"
  else
    let '(n, r) := ExportReplayCheckpoint n committed fault taken available leading in
    match r with
    | Ok c => (n, mkReply 200 (BCheckpoint c))
    | Err e => fail n 503 e
    | Panic => fail n 500 "panic"
    end.

(** ** Members *)

(** [randomID]: the random bytes in hexadecimal. *)
Definition randomID (random : bytes) : string := hex_encode random.

Definition record_path (id : string) : string := "cluster/controllers/" +:+ id +:+ ".json".

Definition put_record (id kind : string) (now : Z) (nodeID : string) (r : controllerRecord) : Mutation :=
  mkMutation CommandVersion id kind now [mkOperation "put" (record_path nodeID) (marshal_controller r) false false ""] 0.

(** The health of a joining Controller while it is polled: [None] when a probe fails, the
    number [last_applied] otherwise, if it is one. *)
Fixpoint waitControllerApplied (target last : Z) (probes : list (option (option Z))) : bool :=
  match probes with
  | [] => false
  | None :: rest => waitControllerApplied target last rest
  | Some value :: rest =>
      let last := match value with Some v => if 0 <=? v then v else last | None => last end in
      if target <=? last then true else waitControllerApplied target last rest
  end.

(** What happens while a member is added: the clock, random names, the answers of Raft and
    of the new Controller. *)
Record add_env := mkAddEnv {
  ae_random1 : bytes; ae_now1 : Z; ae_ans1 : raft_answer; ae_join : bool;
  ae_random2 : bytes; ae_now2 : Z; ae_ans2 : raft_answer; ae_status : bool; ae_commit : Z;
  ae_probes : list (option (option Z)); ae_promote : bool;
  ae_random3 : bytes; ae_now3 : Z; ae_ans3 : raft_answer;
}.

(** The checks of a request; its fingerprint. *)
Definition check_add (request : addMemberRequest) : string + Z * string :=
  if String.eqb (Ad_NodeID request) "" || String.eqb (Ad_RaftAddress request) "" || String.eqb (Ad_APIAddress request) ""
  then inr (400, "node_id, raft_address and api_address are required")
  else if negb (Ad_ProtocolVersion request =? ProtocolVersion) || negb (Ad_StateSchema request =? ControlSchemaVersion)
  then inr (409, "Controller protocol/state schema is incompatible")
  else if negb (has_prefix (trim_right "/"%char (trim_space (Ad_PublicURL request))) "https://")
  then inr (400, "public_url must use https://")
  else
    let fingerprint := to_lower (trim_space (Ad_CertificateSHA256 request)) in
    if negb (str_len fingerprint =? 64) then inr (400, "certificate_sha256 is required")
    else if bool_decide (hex_decode fingerprint = None) then inr (400, "certificate_sha256 is invalid")
    else inl fingerprint.

(** [submitted]: [Submit] answered with a success. *)
Definition submitted {A} (out : A * result MutationResult) : A * option MutationResult :=
  match out with
  | (n, Ok res) => (n, if Res_OK res then Some res else None)
  | (n, _) => (n, None)
  end.

(** The voter part of [addMember]. *)
Definition promote n (request : addMemberRequest) (record : controllerRecord) (env : add_env) : Node B F * reply :=
  if negb (ae_status env) then fail n 503 "status"
  else if negb (waitControllerApplied (ae_commit env) 0 (ae_probes env))
  then fail n 503 "Controller did not catch up before voter promotion: last_applied=%d target=%d"
  else
    let '(n, r) := AddMember n (Ad_NodeID request) (Ad_RaftAddress request) true (ae_promote env) in
    match r with
    | Ok _ =>
        let record := with_state record "voter" (ae_now3 env) in
        let '(n, out) := submitted (Submit n
          (put_record (randomID (ae_random3 env)) "PromoteControllerVoter" (ae_now3 env) (Ad_NodeID request) record) (ae_ans3 env)) in
        match out with
        | Some res => (n, mkReply 200 (BDone (Res_Revision res) "voter"))
        | None => fail n 503 "Controller became a Raft voter but canonical activation failed: %v %+v"
        end
    | Err e => fail n 503 e
    | Panic => fail n 500 "panic"
    end.

Definition add_on_leader n (request : addMemberRequest) (fingerprint : string) (env : add_env) : Node B F * reply :=
  let record := mkController (Ad_NodeID request) (Ad_RaftAddress request) (Ad_APIAddress request)
    (trim_right "/"%char (trim_space (Ad_PublicURL request))) "pending" (Ad_SoftwareVersion request)
    (Ad_ProtocolVersion request) (Ad_StateSchema request) fingerprint (ae_now1 env) in
  let '(n, pending) := submitted (Submit n
    (put_record (randomID (ae_random1 env)) "PrepareController" (ae_now1 env) (Ad_NodeID request) record) (ae_ans1 env)) in
  match pending with
  | None => fail n 503 "failed to prepare controller membership: %v %+v"
  | Some _ =>
      let '(n, r) := AddMember n (Ad_NodeID request) (Ad_RaftAddress request) false (ae_join env) in
      match r with
      | Ok _ =>
          let record := with_state record "nonvoter" (ae_now2 env) in
          let '(n, nonvoter) := submitted (Submit n
            (put_record (randomID (ae_random2 env)) "ActivateControllerNonvoter" (ae_now2 env) (Ad_NodeID request) record)
            (ae_ans2 env)) in
          match nonvoter with
          | None => fail n 503 "Controller joined as nonvoter but canonical activation failed: %v %+v"
          | Some res =>
              if negb (Ad_Voter request) then (n, mkReply 200 (BDone (Res_Revision res) "nonvoter"))
              else promote n request record env
          end
      | Err e => fail n 503 e
      | Panic => fail n 500 "panic"
      end
  end.

Definition addMember n (leaderID : string) (dial : string → string → bytes → option (Z * bytes)) (raw : option bytes)
    (env : add_env) : Node B F * reply :=
  match readBody raw with
  | None => fail n 400 "invalid request body"
  | Some raw =>
      if negb (n_leader n) then (n, forward n leaderID dial "/v1/members/add" raw)
      else match json_add raw with
      | None => fail n 400 "node_id, raft_address and api_address are required"
      | Some request =>
          match check_add request with
          | inr (status, e) => fail n status e
          | inl fingerprint => add_on_leader n request fingerprint env
          end
      end
  end.

Record remove_env := mkRemoveEnv {
  re_status : bool; re_now : Z; re_configuration : bool; re_removed : bool; re_random : bytes; re_ans : raft_answer;
}.

Definition revocation_path (id : string) : string := "control/revocations/controller-" +:+ id +:+ ".json".

(** The record that a removal writes: what the file has, in the state [revoked]. *)
Definition revoked_record n (id : string) (now : Z) : controllerRecord :=
  let record := mkController id "" "" "" "revoked" "" ProtocolVersion ControlSchemaVersion "" now in
  let record := match controller_file n id with
                | Some existing => (json_controller record existing).1
                | None => record
                end in
  with_state record "revoked" now.

Definition revoke_mutation n (id : string) (env : remove_env) : Mutation :=
  mkMutation CommandVersion (randomID (re_random env)) "RevokeController" (re_now env)
    [mkOperation "put" (record_path id) (marshal_controller (revoked_record n id (re_now env))) false false "";
     mkOperation "put" (revocation_path id) (marshal_revocation id (re_now env)) false false ""] 0.

Definition removeMember n (leaderID : string) (dial : string → string → bytes → option (Z * bytes)) (raw : option bytes)
    (env : remove_env) : Node B F * reply :=
  match readBody raw with
  | None => fail n 400 "invalid request body"
  | Some raw =>
      if negb (n_leader n) then (n, forward n leaderID dial "/v1/members/remove" raw)
      else match json_remove raw with
      | None => fail n 400 "node_id is required"
      | Some request =>
          if String.eqb (Rm_NodeID request) "" then fail n 400 "node_id is required"
          else if negb (re_status env) then fail n 503 "status"
          else if String.eqb (Rm_NodeID request) (n_id n)
          then fail n 409 "remove the current Leader through another Controller"
          else
            let mutation := revoke_mutation n (Rm_NodeID request) env in
            let '(n, r) := RemoveMember n (Rm_NodeID request) (Rm_Force request) (re_configuration env) (re_removed env) in
            match r with
            | Err e => fail n 409 e
            | Panic => fail n 500 "panic"
            | Ok _ =>
                let '(n, out) := submitted (Submit n mutation (re_ans env)) in
                match out with
                | Some res => (n, mkReply 200 (BDone (Res_Revision res) "revoked"))
                | None => fail n 503 "Controller left Raft but revocation commit failed: %v %+v"
                end
            end
      end
  end.

(** ** Restoring *)

(** [net.ParseIP] and [IsLoopback] on the host of a [RemoteAddr], which net/http writes in
    canonical form. *)
Definition ip_loopback (host : string) : bool :=
  match parse_addr4 host with
  | Some a => Z.shiftr a 24 =? 127
  | None => String.eqb host "::1"
  end.

Definition isLoopbackRequest (remoteAddr : string) : bool :=
  match SplitHostPort remoteAddr with
  | Some (host, _) => ip_loopback host
  | None => false
  end.

Definition readClusterID n : result string :=
  match fs_files (fsm_fs (n_fsm n)) !! filepath_join (fsm_root (n_fsm n)) "cluster/cluster.json" with
  | None => Err "cluster.json"
  | Some raw =>
      match json_cluster raw with
      | None => Err "json"
      | Some id => check (blank id) "cluster_id is missing" ;; Ok (trim_space id)
      end
  end.

Definition restore n (remoteAddr : string) (raw : option bytes) (status configuration accepted fault : bool)
    : Node B F * reply :=
  if negb (isLoopbackRequest remoteAddr) then fail n 403 "restore is local-only"
  else if negb (n_leader n) then fail n 409 "restore must run on the Raft Leader"
  else match readBody raw with
  | None => fail n 400 "invalid request body"
  | Some raw =>
      match json_restore raw with
      | None => fail n 400 "cluster_id and snapshot are required"
      | Some request =>
          if zlen (Rq_Snapshot request) =? 0 then fail n 400 "cluster_id and snapshot are required"
          else match SnapshotClusterID (Rq_Snapshot request) with
          | Err e => fail n 400 e
          | Panic => fail n 500 "panic"
          | Ok snapshotCluster =>
              match readClusterID n with
              | Err e => fail n 500 e
              | Panic => fail n 500 "panic"
              | Ok currentCluster =>
                  if negb (String.eqb (Rq_ClusterID request) currentCluster)
                     || negb (String.eqb snapshotCluster currentCluster)
                  then fail n 409 "backup cluster identity mismatch"
                  else if negb status then fail n 503 "status"
                  else if (1 <? count_voters (n_servers n)) && negb (Rq_Force request)
                  then fail n 409 "restore on a multi-Controller cluster requires force after explicit operator confirmation"
                  else
                    let '(n, r) := RestoreSnapshot n (Rq_Snapshot request) configuration accepted fault in
                    match r with
                    | Ok _ => (n, mkReply 200 (BDone (FSM_Revision (n_fsm n)) ""))
                    | Err e => fail n 503 e
                    | Panic => fail n 500 "panic"
                    end
              end
          end
      end
  end.

(** ** Reconciling the revision of a cluster ([reconcile.go]) *)

Definition recoveryState n (raw : option bytes) (applied : Z → option (list Log)) (configuration : bool)
    : Node B F * reply :=
  match readBody raw with
  | None => fail n 400 "invalid request body"
  | Some raw =>
      match json_index raw with
      | None => fail n 400 "invalid recovery request"
      | Some index =>
          let '(n, r) := GetRecoveryState n index (applied index) configuration in
          match r with
          | Ok view => (n, mkReply 200 (BView view))
          | Err e => fail n 503 e
          | Panic => fail n 500 "panic"
          end
      end
  end.

(** [ask]: what the Controller at an address answers to [/v1/recovery-state] for an index:
    a status, the certificates of its TLS connection and a body. *)
Definition peerRecovery n (ask : string → Z → option (Z * list Certificate * bytes)) (member : Server) (index : Z)
    : result RecoveryState :=
  match controller_file n (srv_id member) with
  | None => Err "record"
  | Some raw =>
      let '(record, ok) := json_controller zero_record raw in
      check (negb ok) "json" ;;
      check (negb (String.eqb (Ct_NodeID record) (srv_id member))
             || negb (String.eqb (Ct_RaftAddress record) (srv_address member))
             || String.eqb (Ct_State record) "revoked") "invalid recovery member" ;;
      match SplitHostPort (Ct_APIAddress record) with
      | None => Err "address"
      | Some _ =>
          match ask (Ct_APIAddress record) index with
          | None => Err "post"
          | Some (status, peers, answer) =>
              check (negb (status =? 200)) "member %s lacks ready recovery support (HTTP %d)" ;;
              check (negb (bool_decide (Cert_CommonName <$> head peers = Some (srv_id member))))
                "recovery peer identity mismatch" ;;
              match json_view (limit_reader (64 * 1024) answer) with
              | None => Err "json"
              | Some (version, view) =>
                  check (negb (version =? RevisionRecoveryVersion) || negb (String.eqb (Rv_NodeID view) (srv_id member))
                         || negb (Rv_Index view =? index)) "unsupported recovery member or index" ;;
                  Ok view
              end
          end
      end
  end.

Definition receipt_domain : bytes := str_bytes "bpc-gateway-security-snapshot-v1" ++ [x0a].

(** The difference of the times is only looked at when both are positive, so it does not
    wrap around. *)
Definition receiptRevision (receipt : revisionReceipt) (cluster : string) (key : bytes) (now : Z) : result Z :=
  check (negb (bool_decide (take (length receipt_domain) (Rc_Signed receipt) = receipt_domain))
         || negb (ed_verify key (Rc_Signed receipt) (Rc_Signature receipt))) "untrusted Gateway revision receipt" ;;
  match json_receipt_snapshot (drop (length receipt_domain) (Rc_Signed receipt)) with
  | None => Err "json"
  | Some s =>
      check (negb (Rs_Version s =? 1) || negb (Rs_Schema s =? 1) || negb (String.eqb (Rs_Cluster s) cluster)
             || (Rs_Created s <=? 0) || (Rs_Expires s <=? Rs_Created s)
             || (3600 <? Rs_Expires s - Rs_Created s) || (now + 300 <? Rs_Created s)
             || (Rs_Revision s =? max_u64)) "invalid Gateway revision receipt" ;;
      Ok (Rs_Revision s)
  end.

Definition other_members n : list Server := List.filter (λ m, negb (String.eqb (srv_id m) (n_id n))) (n_servers n).

(** The loops of [reconcile]: over the members before the entry, over the receipts, and
    over the members after it. *)
Fixpoint survey_members n (ask : string → Z → option (Z * list Certificate * bytes)) (view : RecoveryState)
    (members : list Server) (minimum : Z) : result Z :=
  match members with
  | [] => Ok minimum
  | member :: rest =>
      peer ← peerRecovery n ask member (Rv_Index view);
      check (negb (String.eqb (Rv_Digest peer) (Rv_Digest view))
             || negb (Rv_ConfigurationIndex peer =? Rv_ConfigurationIndex view))
        "members have different canonical state or configuration; catch up before retry" ;;
      survey_members n ask view rest (Z.max minimum (Z.max (Rv_Revision peer) (Rv_Floor peer)))
  end.

Fixpoint survey_receipts (receipts : gmap string revisionReceipt) (cluster : string) (key : bytes) (now : Z)
    (gateways : list string) (minimum : Z) : result Z :=
  match gateways with
  | [] => Ok minimum
  | id :: rest =>
      match receipts !! id with
      | None => Err "Gateway receipt missing: %s"
      | Some receipt =>
          rev ← receiptRevision receipt cluster key now;
          survey_receipts receipts cluster key now rest (Z.max minimum rev)
      end
  end.

Fixpoint confirm_members n (ask : string → Z → option (Z * list Certificate * bytes)) (view : RecoveryState)
    (minimum index : Z) (members : list Server) : result unit :=
  match members with
  | [] => Ok tt
  | member :: rest =>
      peer ← peerRecovery n ask member index;
      check ((Rv_Revision peer <? minimum) || negb (String.eqb (Rv_Digest peer) (Rv_Digest view)))
        "reconciliation committed; member confirmation failed; retry safely" ;;
      confirm_members n ask view minimum index rest
  end.

(** What happens meanwhile: the entries Raft applies before each of its answers, the
    members' answers before and after the entry, the key of the CA file, and the clock. *)
Record reconcile_env := mkReconcileEnv {
  rv_first : option (list Log); rv_status : bool; rv_ask : string → Z → option (Z * list Certificate * bytes);
  rv_caKey : option bytes; rv_now : Z;
  rv_second : option (list Log); rv_ans : raft_answer; rv_barrier : option (list Log); rv_fault : bool;
  rv_confirm : string → Z → option (Z * list Certificate * bytes);
  rv_third : option (list Log); rv_configuration : bool;
}.

(** The minimum to commit, from the members and the receipts. *)
Definition reconcile_minimum n (material : TLSMaterial) (json_gateway : bytes → option gatewayRecord)
    (view : RecoveryState) (receipts : gmap string revisionReceipt) (env : reconcile_env) : result Z :=
  minimum ← survey_members n (rv_ask env) view (other_members n) (Z.max (Z.max (Rv_Revision view) (Rv_Floor view)) 1);
  gateways ← RecoveryGateways n json_gateway;
  check (negb (Z.of_nat (size receipts) =? zlen gateways)) "supply a signed receipt for every active Gateway" ;;
  if zlen gateways =? 0 then Ok minimum
  else match rv_caKey env with
  | None => Err "Gateway receipt CA must be Ed25519"
  | Some key => survey_receipts receipts (Tls_ClusterID material) key (rv_now env) gateways minimum
  end.

Definition reconcile n (material : TLSMaterial) (json_gateway : bytes → option gatewayRecord)
    (receipts : gmap string revisionReceipt) (env : reconcile_env) : Node B F * result MutationResult :=
  let '(n, r) := GetRecoveryState n 0 (rv_first env) (rv_configuration env) in
  match r with
  | Err e => (n, Err e)
  | Panic => (n, Panic)
  | Ok view =>
      if negb (rv_status env) then (n, Err "status")
      else match reconcile_minimum n material json_gateway view receipts env with
      | Err e => (n, Err e)
      | Panic => (n, Panic)
      | Ok minimum =>
          let others := other_members n in
          let '(n, r) := ReconcileRevision n view minimum (rv_second env) (rv_configuration env) (rv_ans env)
                           (rv_barrier env) (rv_fault env) in
          match r with
          | Err e => (n, Err e)
          | Panic => (n, Panic)
          | Ok res =>
              match confirm_members n (rv_confirm env) view minimum (CommitIndex res) others with
              | Err e => (n, Err e)
              | Panic => (n, Panic)
              | Ok _ =>
                  let '(n, r) := GetRecoveryState n 0 (rv_third env) (rv_configuration env) in
                  (n, final ← r;
                      check (negb (Rv_ConfigurationIndex final =? Rv_ConfigurationIndex view)
                             || negb (String.eqb (Rv_Digest final) (Rv_Digest view)) || (Rv_Revision final <? minimum))
                        "state changed during member confirmation; retry safely" ;;
                      Ok res)
              end
          end
      end
  end.

(** [tls]: the request came through the cluster listener. *)
Definition reconcileRevision n (material : TLSMaterial) (json_gateway : bytes → option gatewayRecord)
    (tls : bool) (remoteAddr : string) (raw : option bytes) (env : reconcile_env) : Node B F * reply :=
  if tls || negb (isLoopbackRequest remoteAddr)
  then fail n 403 "revision recovery requires the local admin API"
  else if negb (n_leader n) then fail n 409 "run revision recovery on the current Leader"
  else match readBody raw with
  | None => fail n 400 "invalid request body"
  | Some raw =>
      match json_receipts raw with
      | None => fail n 400 "invalid revision recovery request"
      | Some receipts =>
          let '(n, r) := reconcile n material json_gateway receipts env in
          match r with
          | Ok res => (n, mkReply 200 (BResult res))
          | Err e => fail n 503 e
          | Panic => fail n 500 "panic"
          end
      end
  end.

(** ** The local listener *)

(** The file of the token; [None] when it cannot be read. *)
Definition readLocalToken (raw : option bytes) : result string :=
  match raw with
  | None => Err "token file"
  | Some raw =>
      let token := trim_space (bytes_str raw) in
      check (negb (str_len token =? 64)) "local API token must be 64 hexadecimal characters" ;;
      check (bool_decide (hex_decode token = None)) "local API token is not hexadecimal" ;;
      Ok token
  end.

(** [next]: what the handler does. *)
Definition localAuth {A} (token authorization : string) (n : A) (next : A * reply) : A * reply :=
  let presented := trim_space (trim_prefix authorization "Bearer ") in
  if negb (String.eqb presented token) then fail n 401 "local authentication required" else next.
End api.

(** ** Facts *)

(** *** Digests as text *)

Definition hex_byte (b : byte) : Prop := 48 <= byte_val b < 58 ∨ 97 <= byte_val b < 103.

Lemma hex_digit_byte z : 0 <= z < 16 → hex_byte (hex_digit z).
Proof.
  intros Hz. unfold hex_byte, hex_digit.
  destruct (Z.ltb_spec z 10); rewrite byte_val_of_small by lia; lia.
Qed.

Lemma hex_encode_bytes b : Forall hex_byte (str_bytes (hex_encode b)).
Proof.
  unfold hex_encode. rewrite str_bytes_str. induction b as [|x b IH]; [constructor|]. cbn [hex_bytes].
  pose proof (byte_val_range x). apply Forall_cons. split; [apply hex_digit_byte|apply Forall_cons; split; [apply hex_digit_byte|done]].
  - pose proof (Z.div_lt_upper_bound (byte_val x) 16 16). pose proof (Z.div_pos (byte_val x) 16). lia.
  - apply Z.mod_pos_bound. lia.
Qed.

Lemma strip_none ps b : Forall hex_byte b →
  List.forallb (λ p : bytes, match p with x :: _ => negb ((48 <=? byte_val x) && (byte_val x <? 58)) &&
    negb ((97 <=? byte_val x) && (byte_val x <? 103)) | [] => false end) ps = true → strip_any ps b = None.
Proof.
  intros Hb. induction ps as [|p ps IH]; [done|]. cbn [List.forallb]. intros [Hp Hps]%andb_true_iff.
  cbn [strip_any]. rewrite (IH Hps). destruct p as [|x p]; [done|]. destruct b as [|y b]; [done|]. cbn [strip_prefix].
  destruct (decide (x = y)) as [->|]; [|done]. apply Forall_cons in Hb as [Hy _]. exfalso.
  unfold hex_byte in Hy. guards. lia.
Qed.

Lemma trim_hex b : trim_space (hex_encode b) = hex_encode b.
Proof.
  pose proof (hex_encode_bytes b) as H. unfold trim_space.
  assert (∀ ps fuel l, strip_any ps l = None → trim_loop ps fuel l = l) as T.
  { intros ps fuel l E. destruct fuel; [done|]. cbn. by rewrite E. }
  rewrite (T space_runes) by (by apply strip_none). rewrite T.
  - rewrite reverse_involutive. apply bytes_str_bytes.
  - apply strip_none; [by apply Forall_reverse|done].
Qed.

Lemma lower_hex b : to_lower (hex_encode b) = hex_encode b.
Proof.
  pose proof (hex_encode_bytes b) as H. unfold to_lower. rewrite <- (bytes_str_bytes (hex_encode b)) at 2. f_equal.
  induction H as [|x l Hx _ IH]; [done|]. rewrite fmap_cons, IH. f_equal. unfold lower_byte, hex_byte in *.
  destruct (_ && _) eqn:E; [|done]. guards. lia.
Qed.

Section api_facts.
Context `{HS : Hashes} `{GS : GoSort} `{CJ : ControlJson} `{MJ : !MutationJson} `{CPJ : !CheckpointJson}.
Context `{MB : MembershipJson} `{AJ : !ApiJson} `{RS : RaftSnapshots} `{RM : RaftMembership} `{ED : Ed25519}.
Context {B : Type} `{BB : BoltBucket B} {F : Type} `{PF : ProjectionFS F}.
Implicit Types n : Node B F.

Lemma readBody_whole b b' : readBody (Some b) = Some b' → b' = b.
Proof.
  unfold readBody. destruct (_ || _) eqn:G; [done|]. intros [= <-]. guards.
  apply limit_reader_whole; [done|]. apply G.
Qed.

(** The entry of this request is new: Raft gives it an index above those applied. *)
Definition fresh_entry n (ans : raft_answer) : Prop :=
  ∀ log, ans_entry ans = Some log →
    appliedIndex (fsm_store (n_fsm (apply_logs n (ans_before ans)))) < Log_Index log.

Lemma Submit_committed n command ans n' res :
  Submit n command ans = (n', Ok res) → Res_OK res = true → answer_ok ans → fresh_entry n ans →
  json_mutation (marshal_mutation command) = Some command →
  (∀ op, op ∈ Mut_Operations command → NormalizeReplicatedPath (Op_Path op) = Ok (Op_Path op)) →
  state_of (fsm_store (n_fsm n'))
    = apply_ops (state_of (fsm_store (n_fsm (apply_logs n (ans_before ans))))) (Mut_Operations command) ∧
  n_floor n <= revision (fsm_store (n_fsm n)) ∧ Res_Revision res = revision (fsm_store (n_fsm n')) ∧
  n_servers n' = n_servers n ∧ n_leader n' = n_leader n ∧ n_id n' = n_id n ∧
  fsm_root (n_fsm n') = fsm_root (n_fsm (apply_logs n (ans_before ans))).
Proof.
  intros E Hok [_ Ha] Hf J Hn. unfold Submit in E. destruct (_ || _); [done|].
  destruct (negb (n_leader n)); [done|]. destruct (checkRevisionFloor n) as [[]| |] eqn:C; [|done..].
  apply checkRevisionFloor_Ok in C. unfold raft_apply in E.
  destruct (ans_entry ans) as [log|] eqn:El; [|done]. specialize (Ha log eq_refl). specialize (Hf log El).
  set (g := n_fsm (apply_logs n (ans_before ans))) in *.
  destruct (Apply_counters g (with_data log (marshal_mutation command)) Ha) as (_ & _ & Rt & Rv).
  destruct (Apply_cases g (with_data log (marshal_mutation command)) Ha)
    as [[e Ea]|(c & ops & s' & rev & cf & rp & J' & _ & N & T & Ea)];
    rewrite Ea in *; [by injection E as <- <-|]. clear Ea.
  cbn [Log_Data with_data] in J'. rewrite J in J'. injection J' as <-.
  apply normalize_puts in N as ->; [|done]. cbn [Log_Index with_data] in T.
  destruct T as [? ?|s' cf _ Hc _ _ _ _|s' next _ _ _ E1 _ _ _ _]; [lia| |].
  - apply String.eqb_neq in Hc. rewrite Hc in E. by injection E as <- <-.
  - cbn [String.eqb negb] in *. destruct (project_ops _ _ _) as [fs r]. cbn [fst snd fsm_root fsm_store] in *.
    destruct r; injection E as <- <-; [|done..]. cbn [n_fsm set_fsm fsm_store with_index Res_Revision n_servers n_leader n_id].
    split_and!; try done. by apply Rv.
Qed.

Lemma AddMember_Ok n id address voter ok n' : AddMember n id address voter ok = (n', Ok tt) →
  n_leader n = true ∧ n' = set_servers n (raft_add (n_servers n) (mkServer id address (if voter then Voter else Nonvoter))).
Proof.
  unfold AddMember. destruct (n_leader n); [cbn [negb]|done]. destruct (checkRevisionFloor n) as [[]| |]; [|done..].
  destruct ok; [|done]. by intros [= <-].
Qed.

Lemma submitted_Some {A} (out : A * result MutationResult) (a : A) res :
  submitted out = (a, Some res) → out = (a, Ok res) ∧ Res_OK res = true.
Proof.
  destruct out as [m [r| |]]; cbn; [|done..]. destruct (Res_OK r) eqn:E; [|done]. by intros [= <- <-].
Qed.

(** A Controller id that is the name of its record's file. *)
Definition plain_id (id : string) : Prop :=
  NormalizeReplicatedPath (record_path id) = Ok (record_path id) ∧
  NormalizeReplicatedPath (revocation_path id) = Ok (revocation_path id).

Lemma record_json id kind now nodeID r : json_string nodeID = true → ascii_string kind → is_i64 now →
  let m := put_record (randomID id) kind now nodeID r in json_mutation (marshal_mutation m) = Some m.
Proof.
  intros Hn Hk Ht. apply json_mutation_roundtrip; cbn.
  - apply json_string_hex.
  - by apply json_string_ascii.
  - intros op [->|[]%elem_of_nil]%elem_of_cons. cbn. split_and!.
    + apply json_string_ascii. by repeat constructor.
    + unfold record_path. repeat apply json_string_app; try done; apply json_string_ascii; by repeat constructor.
    + apply json_string_ascii. constructor.
  - done.
  - done.
  - done.
Qed.

Lemma revoke_json n id env : json_string id = true → is_i64 (re_now env) →
  json_mutation (marshal_mutation (revoke_mutation n id env)) = Some (revoke_mutation n id env).
Proof.
  intros Hi Ht. apply json_mutation_roundtrip; cbn.
  - apply json_string_hex.
  - apply json_string_ascii. by repeat constructor.
  - intros op [->|[->|[]%elem_of_nil]%elem_of_cons]%elem_of_cons; cbn; (split_and!;
      [apply json_string_ascii; by repeat constructor| |apply json_string_ascii; constructor]);
      unfold record_path, revocation_path; repeat apply json_string_app; try done;
      apply json_string_ascii; by repeat constructor.
  - done.
  - done.
  - done.
Qed.

Lemma paths_distinct id : record_path id ≠ revocation_path id.
Proof. unfold record_path, revocation_path. by intros [=]. Qed.

Lemma revoked_strings n id now : json_string id = true → record_strings (revoked_record n id now).
Proof.
  intros Hi. unfold revoked_record.
  assert (record_strings (mkController id "" "" "" "revoked" "" ProtocolVersion ControlSchemaVersion "" now)) as R.
  { split_and!; [done|apply json_string_ascii; by repeat constructor|apply json_string_ascii; constructor]. }
  destruct (controller_file n id) as [existing|]; [|by split_and!; try apply R].
  apply json_controller_strings with (raw := existing) in R. destruct R as (R1 & _ & R3).
  split_and!; cbn; [done|apply json_string_ascii; by repeat constructor|done].
Qed.


(** *** Indices

    Raft's entries have increasing indices, and what is applied never passes the last. *)
Fixpoint increasing (a : Z) (logs : list Log) : Prop :=
  match logs with
  | [] => True
  | log :: rest => a < Log_Index log ∧ is_u64 (Log_Index log) ∧ increasing (Log_Index log) rest
  end.

Definition last_index (a : Z) (logs : list Log) : Z := default a (Log_Index <$> last logs).

Lemma increasing_app a l k : increasing a (l ++ k) → increasing a l ∧ increasing (last_index a l) k.
Proof.
  revert a. induction l as [|x l IH]; intros a; [done|]. cbn [increasing app]. intros (H1 & H2 & H3).
  apply IH in H3 as [H3 H4]. split; [done|]. unfold last_index in *. rewrite last_cons.
  destruct (last l) eqn:E; [|done]. done.
Qed.

Lemma increasing_ok a logs : increasing a logs → Forall log_ok logs.
Proof. revert a. induction logs as [|l k IH]; intros a; [by constructor|]. intros (_ & ? & ?). constructor; eauto. Qed.

Lemma Apply_applied (f : StateMachine B F) log : log_ok log →
  appliedIndex (fsm_store (Apply f log).1) <= Z.max (appliedIndex (fsm_store f)) (Log_Index log).
Proof.
  intros Hi. destruct (Apply_cases f log Hi) as [[e ->]|(c & ops & s' & rev & cf & rp & _ & _ & _ & T & ->)]; [cbn; lia|].
  destruct T as [? ?|s' cf ? Hc _ _ _ E|s' next _ _ _ _ _ _ E _].
  - cbn. lia.
  - apply String.eqb_neq in Hc as ->. cbn. rewrite E. destruct (_ =? 0); lia.
  - cbn [String.eqb negb]. destruct (project_ops _ _ _) as [fs res]. cbn. rewrite E. destruct (_ =? 0); lia.
Qed.

Lemma apply_logs_applied a logs n : increasing a logs → appliedIndex (fsm_store (n_fsm n)) <= a →
  appliedIndex (fsm_store (n_fsm (apply_logs n logs))) <= last_index a logs.
Proof.
  unfold apply_logs. cbn [n_fsm set_fsm]. generalize (n_fsm n). clear n. revert a.
  induction logs as [|l k IH]; intros a f; [done|]. cbn [increasing fold_left]. intros (H1 & H2 & H3) H.
  apply Z.le_trans with (last_index (Log_Index l) k).
  - apply IH; [done|]. pose proof (Apply_applied f l H2). lia.
  - unfold last_index. rewrite last_cons. by destruct (last k).
Qed.

(** The entries an answer of Raft is about. *)
Definition answer_logs (ans : raft_answer) : list Log := ans_before ans ++ option_list (ans_entry ans).

Lemma increasing_answer a ans n : increasing a (answer_logs ans) → appliedIndex (fsm_store (n_fsm n)) <= a →
  answer_ok ans ∧ fresh_entry n ans.
Proof.
  unfold answer_logs. intros Hi Ha. pose proof (increasing_ok _ _ Hi) as [H1 H2]%Forall_app.
  apply increasing_app in Hi as [I1 I2]. split.
  - split; [done|]. intros log E. rewrite E in H2. by apply Forall_cons in H2 as [].
  - intros log E. rewrite E in I2. cbn in I2. pose proof (apply_logs_applied _ _ _ I1 Ha). lia.
Qed.

Lemma Submit_applied a n command ans n' r : increasing a (answer_logs ans) → appliedIndex (fsm_store (n_fsm n)) <= a →
  Submit n command ans = (n', r) → appliedIndex (fsm_store (n_fsm n')) <= last_index a (answer_logs ans).
Proof.
  unfold answer_logs. intros Hi Ha. assert (appliedIndex (fsm_store (n_fsm n)) <= last_index a (answer_logs ans)) as H0.
  { apply Z.le_trans with a; [done|]. clear -Hi. unfold answer_logs.
    revert a Hi. generalize (ans_before ans ++ option_list (ans_entry ans)).
    induction l as [|x l IH]; intros a; cbn; [unfold last_index; cbn; lia|]. intros (H1 & H2 & H3). apply IH in H3.
    unfold last_index in *. rewrite last_cons. destruct (last l); cbn in *; lia. }
  unfold Submit. destruct (_ || _); [by intros [= <- _]|]. destruct (negb (n_leader n)); [by intros [= <- _]|].
  destruct (checkRevisionFloor n); [|by intros [= <- _]..]. unfold raft_apply.
  apply increasing_app in Hi as [I1 I2]. pose proof (apply_logs_applied _ _ _ I1 Ha) as Hb.
  unfold last_index in *. rewrite last_app. destruct (ans_entry ans) as [log|].
  - cbn in I2. destruct I2 as (I2 & I3 & _).
    pose proof (Apply_applied (n_fsm (apply_logs n (ans_before ans))) (with_data log (marshal_mutation command)) I3) as Hc.
    destruct (Apply _ _) as [f res]. intros [= <- _]. cbn in *. lia.
  - intros [= <- _]. done.
Qed.

Lemma wait_applied_seen target last probes : waitControllerApplied target last probes = true →
  target <= last ∨ ∃ v, Some (Some v) ∈ probes ∧ target <= v.
Proof.
  revert last. induction probes as [|[[v|]|] probes IH]; intros last; cbn; [done|..].
  - destruct (Z.leb_spec 0 v).
    + destruct (Z.leb_spec target v); [intros _; right; exists v; split; [left|done]|].
      intros [?|(w & ? & ?)]%IH; [lia|]. right. exists w. split; [by right|done].
    + destruct (Z.leb_spec target last); [by left|].
      intros [?|(w & ? & ?)]%IH; [lia|]. right. exists w. split; [by right|done].
  - destruct (Z.leb_spec target last); [by left|].
    intros [?|(w & ? & ?)]%IH; [lia|]. right. exists w. split; [by right|done].
  - intros [?|(w & ? & ?)]%IH; [by left|]. right. exists w. split; [by right|done].
Qed.

(** The record of a member admits its certificate. *)
Lemma record_admits state cluster nodeID record cert :
  state !! record_path nodeID = Some (marshal_controller record) → record_strings record →
  Ct_NodeID record = nodeID → Ct_State record ∈ member_states → Ct_CertificateSHA256 record = fingerprint cert →
  trim_space (Cert_CommonName cert) = nodeID → nodeID ∉ [""; "."; ".."] → has_separator nodeID = false →
  ("bpc://" +:+ cluster +:+ "/controller/" +:+ nodeID) ∈ Cert_URIs cert → admits state cluster cert.
Proof.
  intros L R E1 E2 E3 Hcn Hn Hs Hu. exists nodeID. eexists _, _. split_and!; [done|done|done|exact L|
    by apply membership_controller|done|done| |done].
  cbn [Mem_CertificateSHA256]. rewrite E3. unfold fingerprint. by rewrite trim_hex, lower_hex.
Qed.

Lemma put_record_state (st : gmap string bytes) id kind now nodeID record :
  apply_ops st (Mut_Operations (put_record id kind now nodeID record)) !! record_path nodeID
    = Some (marshal_controller record).
Proof. apply lookup_insert_eq. Qed.

(** What a handler that submits a record has committed. *)
Lemma submit_record a n random kind now nodeID record ans n' res :
  submitted (Submit n (put_record (randomID random) kind now nodeID record) ans) = (n', Some res) →
  increasing a (answer_logs ans) → appliedIndex (fsm_store (n_fsm n)) <= a →
  json_string nodeID = true → ascii_string kind → is_i64 now → plain_id nodeID →
  state_of (fsm_store (n_fsm n')) !! record_path nodeID = Some (marshal_controller record) ∧
  Res_Revision res = revision (fsm_store (n_fsm n')) ∧ n_servers n' = n_servers n ∧
  appliedIndex (fsm_store (n_fsm n')) <= last_index a (answer_logs ans).
Proof.
  intros [E Hok]%submitted_Some Hi Ha Hj Hk Ht [Hp _].
  destruct (increasing_answer _ _ _ Hi Ha) as [Ho Hf].
  destruct (Submit_committed _ _ _ _ _ E Hok Ho Hf (record_json _ _ _ _ _ Hj Hk Ht)) as (St & _ & Rv & Sv & _).
  { intros op [->|[]%elem_of_nil]%elem_of_cons. done. }
  split_and!; [rewrite St; apply put_record_state|done|done|by eapply Submit_applied].
Qed.

Lemma check_add_status request status e : check_add request = inr (status, e) → status ≠ 200.
Proof. unfold check_add. repeat case_match; naive_solver. Qed.

Lemma hex_value_ascii b v : hex_value b = Some v → byte_val b < 128.
Proof. unfold hex_value. intros E. repeat (case_match; guards; try lia). done. Qed.

Lemma hex_decode_ascii k : ∀ l out, (length l <= k)%nat → hex_decode_bytes l = Some out → Forall (λ b, byte_val b < 128) l.
Proof.
  induction k as [|k IH]; intros [|a [|b l]] out Hk E; try done; try (by constructor); try (cbn in Hk; lia).
  cbn [hex_decode_bytes] in E. apply bind_Some in E as (va & Ea & E). apply bind_Some in E as (vb & Eb & E).
  apply bind_Some in E as (rest & Er & _). apply hex_value_ascii in Ea, Eb. apply Forall_cons; split; [done|]. apply Forall_cons; split; [done|].
  apply (IH _ rest); [cbn in Hk; lia|done].
Qed.

Lemma digest_json request digest : check_add request = inl digest → json_string digest = true.
Proof.
  unfold check_add. intros E. repeat (case_match; try done). injection E as <-.
  case_bool_decide as Hd; [done|]. apply json_string_ascii. unfold hex_decode in Hd.
  destruct (hex_decode_bytes _) eqn:Eh; [|done]. by apply (hex_decode_ascii _ _ _ (Nat.le_refl _)) in Eh.
Qed.

Definition member_record (state : gmap string bytes) (request : addMemberRequest) (digest role : string) : Prop :=
  ∃ record, state !! record_path (Ad_NodeID request) = Some (marshal_controller record) ∧
    record_strings record ∧ Ct_NodeID record = Ad_NodeID request ∧ Ct_State record = role ∧
    Ct_CertificateSHA256 record = digest.

Lemma add_on_leader_done n request digest env n' r :
  add_on_leader n request digest env = (n', r) → rp_status r = 200 → check_add request = inl digest →
  json_string (Ad_NodeID request) = true → plain_id (Ad_NodeID request) →
  increasing (appliedIndex (fsm_store (n_fsm n)))
    (answer_logs (ae_ans1 env) ++ answer_logs (ae_ans2 env) ++ answer_logs (ae_ans3 env)) →
  is_i64 (ae_now1 env) → is_i64 (ae_now2 env) → is_i64 (ae_now3 env) →
  member_record (state_of (fsm_store (n_fsm n'))) request digest (if Ad_Voter request then "voter" else "nonvoter") ∧
  (∃ m, m ∈ n_servers n' ∧ srv_id m = Ad_NodeID request ∧ srv_address m = Ad_RaftAddress request) ∧
  (Ad_Voter request = true → ae_commit env <= 0 ∨ ∃ v, Some (Some v) ∈ ae_probes env ∧ ae_commit env <= v).
Proof.
  intros E Hs Ck Hj Hp Hi T1 T2 T3. pose proof (digest_json _ _ Ck) as Hd.
  apply increasing_app in Hi as [I1 Hi]. apply increasing_app in Hi as [I2 I3]. unfold add_on_leader in E.
  set (record := mkController _ _ _ _ "pending" _ _ _ _ _) in E.
  destruct (submitted _) as [n1 out] eqn:S1 in E. destruct out as [res1|]; [|by injection E as <- <-].
  eapply submit_record in S1 as (_ & _ & _ & A1); [|eassumption|lia|done|by repeat constructor|done|done].
  destruct (AddMember n1 _ _ _ _) as [n2 r2] eqn:M1. destruct r2 as [[]| |]; [|by injection E as <- <-..].
  apply AddMember_Ok in M1 as [_ ->].
  set (n2 := set_servers n1 _) in E. assert (appliedIndex (fsm_store (n_fsm n2)) = appliedIndex (fsm_store (n_fsm n1)))
    as A2 by done.
  destruct (submitted _) as [n3 out] eqn:S2 in E. destruct out as [res2|]; [|by injection E as <- <-].
  eapply submit_record in S2 as (L2 & _ & V2 & A3); [|eassumption|lia|done|by repeat constructor|done|done].
  assert (∀ role now, ascii_string role → record_strings (with_state record role now)) as Rs.
  { intros role now Hr. split_and!; cbn; [done|by apply json_string_ascii|done]. }
  destruct (Ad_Voter request); cbn [negb] in E; cycle 1.
  { injection E as <- <-. split_and!; [|rewrite V2; apply raft_add_self|done].
    eexists. split_and!; [exact L2|apply Rs; by repeat constructor|done..]. }
  unfold promote in E. destruct (negb (ae_status env)); [by injection E as <- <-|].
  destruct (waitControllerApplied _ _ _) eqn:W; [cbn [negb] in E|by injection E as <- <-].
  destruct (AddMember n3 _ _ _ _) as [n4 r4] eqn:M2. destruct r4 as [[]| |]; [|by injection E as <- <-..].
  apply AddMember_Ok in M2 as [_ ->]. set (n4 := set_servers n3 _) in E.
  assert (appliedIndex (fsm_store (n_fsm n4)) = appliedIndex (fsm_store (n_fsm n3))) as A4 by done.
  destruct (submitted _) as [n5 out] eqn:S3 in E. destruct out as [res3|]; [|by injection E as <- <-].
  eapply submit_record in S3 as (L3 & _ & V3 & _); [|eassumption|lia|done|by repeat constructor|done|done].
  injection E as <- <-. split_and!; [|rewrite V3; apply raft_add_self|].
  - eexists. split_and!; [exact L3|apply Rs; by repeat constructor|done..].
  - intros _. apply wait_applied_seen in W as [W|W]; [by left|by right].
Qed.

(** An added Controller can take part: when a leader answers a request to add a
    Controller with success, the Raft configuration has it at its address, the committed
    state holds its record, in the role asked for and with the fingerprint asked for, and
    the TLS layer admits the certificate of that fingerprint bound to the name; and it is
    made a voter only after it was seen to have applied the leader's commit index. *)
Lemma addMember_admits n leaderID dial raw env n' r request :
  n_leader n = true → addMember n leaderID dial raw env = (n', r) → rp_status r = 200 →
  raw ≫= json_add = Some request → plain_id (Ad_NodeID request) →
  increasing (appliedIndex (fsm_store (n_fsm n)))
    (answer_logs (ae_ans1 env) ++ answer_logs (ae_ans2 env) ++ answer_logs (ae_ans3 env)) →
  is_i64 (ae_now1 env) → is_i64 (ae_now2 env) → is_i64 (ae_now3 env) →
  let id := Ad_NodeID request in
  let state := state_of (fsm_store (n_fsm n')) in
  ∃ digest, check_add request = inl digest ∧
  member_record state request digest (if Ad_Voter request then "voter" else "nonvoter") ∧
  (∃ m, m ∈ n_servers n' ∧ srv_id m = id ∧ srv_address m = Ad_RaftAddress request) ∧
  (Ad_Voter request = true → ae_commit env <= 0 ∨ ∃ v, Some (Some v) ∈ ae_probes env ∧ ae_commit env <= v) ∧
  ∀ cluster cert, trim_space (Cert_CommonName cert) = id → id ∉ [""; "."; ".."] → has_separator id = false →
    fingerprint cert = digest → ("bpc://" +:+ cluster +:+ "/controller/" +:+ id) ∈ Cert_URIs cert →
    admits state cluster cert.
Proof.
  intros Ld E Hs Hr Hp Hi T1 T2 T3 id state. unfold addMember in E.
  destruct raw as [b|]; [|done]. cbn [mbind option_bind] in Hr.
  destruct (readBody (Some b)) as [b'|] eqn:Rb; [|by injection E as <- <-].
  apply readBody_whole in Rb as ->. rewrite Ld, Hr in E. cbn [negb] in E.
  destruct (check_add request) as [digest|[status e]] eqn:Ck; cycle 1.
  { injection E as <- <-. cbn in Hs. subst status. by apply check_add_status in Ck. }
  pose proof (json_add_strings _ _ Hr) as Hj. exists digest. split; [done|].
  assert (member_record state request digest (if Ad_Voter request then "voter" else "nonvoter") ∧
    (∃ m, m ∈ n_servers n' ∧ srv_id m = id ∧ srv_address m = Ad_RaftAddress request) ∧
    (Ad_Voter request = true → ae_commit env <= 0 ∨ ∃ v, Some (Some v) ∈ ae_probes env ∧ ae_commit env <= v))
    as (H1 & H2 & H3).
  { by eapply add_on_leader_done. }
  split_and!; [done|done|done|]. intros cluster cert Hcn Hn Hsep Hd Hu.
  destruct H1 as (record & L & R & E1 & E2 & E3).
  eapply record_admits; [exact L|exact R|exact E1| |by rewrite E3|done..].
  rewrite E2. destruct (Ad_Voter request); unfold member_states; set_solver.
Qed.

(** *** Reconciliation *)

Lemma peerRecovery_u64 n ask m index peer : peerRecovery n ask m index = Ok peer →
  is_u64 (Rv_Revision peer) ∧ is_u64 (Rv_Floor peer).
Proof.
  unfold peerRecovery. intros E. destruct (controller_file n _) as [raw|]; [|done].
  destruct (json_controller _ _) as [record ok]. apply check_then in E as [_ E]. apply check_then in E as [_ E].
  destruct (SplitHostPort _); [|done]. destruct (ask _ _) as [[[status peers] answer]|]; [|done].
  apply check_then in E as [_ E]. apply check_then in E as [_ E].
  destruct (json_view _) as [[version v]|] eqn:J; [|done]. apply check_then in E as [_ E]. injection E as <-.
  by apply json_view_u64 in J.
Qed.

Lemma receiptRevision_u64 receipt cluster key now rev : receiptRevision receipt cluster key now = Ok rev → is_u64 rev.
Proof.
  unfold receiptRevision. intros [_ E]%check_then. destruct (json_receipt_snapshot _) as [s|] eqn:J; [|done].
  apply check_then in E as [_ E]. injection E as <-. by apply json_receipt_u64 in J.
Qed.

Lemma survey_members_Ok n ask view members low minimum :
  survey_members n ask view members low = Ok minimum → is_u64 low →
  low <= minimum ∧ is_u64 minimum ∧
  ∀ m, m ∈ members → ∃ peer, peerRecovery n ask m (Rv_Index view) = Ok peer ∧ Rv_Digest peer = Rv_Digest view ∧
    Rv_ConfigurationIndex peer = Rv_ConfigurationIndex view ∧ Rv_Revision peer <= minimum ∧ Rv_Floor peer <= minimum.
Proof.
  revert low. induction members as [|m members IH]; intros low E Hu; cbn [survey_members] in E.
  { injection E as <-. split_and!; [lia|done|set_solver]. }
  apply bind_Ok in E as (peer & Hp & E). apply check_then in E as [G E].
  destruct (peerRecovery_u64 _ _ _ _ _ Hp) as [U1 U2].
  destruct (IH _ E) as (I1 & I2 & I3); [unfold is_u64 in *; lia|]. guards. split_and!; [lia|done|].
  intros x [->|Hx]%elem_of_cons; [|by apply I3]. exists peer. split_and!; [done|naive_solver..|lia|lia].
Qed.

Lemma survey_receipts_Ok receipts cluster key now gateways low minimum :
  survey_receipts receipts cluster key now gateways low = Ok minimum → is_u64 low →
  low <= minimum ∧ is_u64 minimum ∧
  ∀ id, id ∈ gateways → ∃ receipt rev, receipts !! id = Some receipt ∧
    receiptRevision receipt cluster key now = Ok rev ∧ rev <= minimum.
Proof.
  revert low. induction gateways as [|id gateways IH]; intros low E Hu; cbn [survey_receipts] in E.
  { injection E as <-. split_and!; [lia|done|set_solver]. }
  destruct (receipts !! id) as [receipt|] eqn:R; [|done]. apply bind_Ok in E as (rev & Hv & E).
  pose proof (receiptRevision_u64 _ _ _ _ _ Hv).
  destruct (IH _ E) as (I1 & I2 & I3); [unfold is_u64 in *; lia|]. split_and!; [lia|done|].
  intros x [->|Hx]%elem_of_cons; [|by apply I3]. exists receipt, rev. split_and!; [done|done|lia].
Qed.

Lemma confirm_members_Ok n ask view minimum index members :
  confirm_members n ask view minimum index members = Ok tt →
  ∀ m, m ∈ members → ∃ peer, peerRecovery n ask m index = Ok peer ∧ minimum <= Rv_Revision peer ∧
    Rv_Digest peer = Rv_Digest view.
Proof.
  induction members as [|m members IH]; intros E; cbn [confirm_members] in E; [set_solver|].
  apply bind_Ok in E as (peer & Hp & E). apply check_then in E as [G E]. guards.
  intros x [->|Hx]%elem_of_cons; [|by apply IH]. exists peer. naive_solver.
Qed.

(** The active Gateways of a state are all listed. *)
Lemma recovery_gateways_complete json_gateway entries ids k v g :
  recovery_gateways json_gateway entries = Ok ids → (k, v) ∈ entries → has_prefix k "control/nodes/" = true →
  json_gateway v = Some g → default false (Gw_Roles g !! "gateway") = true → Gw_Revoked g = false →
  Gw_NodeID g ∈ ids.
Proof.
  revert ids. induction entries as [|[k' v'] entries IH]; intros ids E Hin Hp Hj Hg Hr; [set_solver|].
  cbn [recovery_gateways] in E. apply elem_of_cons in Hin as [[= <- <-]|Hin].
  - rewrite Hp, Hj, Hg, Hr in E. cbn [negb andb] in E. apply check_then in E as [_ E].
    apply bind_Ok in E as (rest & _ & [= <-]). left.
  - destruct (has_prefix k' _); cbn [negb] in E; [|by apply IH]. destruct (json_gateway v') as [g'|]; [|done].
    destruct (_ && _); [|by apply IH]. apply check_then in E as [_ E].
    apply bind_Ok in E as (rest & Er & [= <-]). right. by apply IH.
Qed.

Lemma GetRecoveryState_Ok n applied configuration n' view :
  GetRecoveryState n 0 applied configuration = (n', Ok view) →
  ∃ logs, applied = Some logs ∧ n' = apply_logs n logs ∧ view = recovery_view n' (n_commit n').
Proof.
  unfold GetRecoveryState. destruct (_ && _); [done|]. destruct applied as [logs|]; [|done].
  destruct configuration; [|done]. cbn [Z.eqb]. intros [= <- <-]. by exists logs.
Qed.

Lemma ReconcileRevision_same n view minimum applied configuration ans barrier fault n' r :
  ReconcileRevision n view minimum applied configuration ans barrier fault = (n', r) →
  n_servers n' = n_servers n ∧ n_id n' = n_id n.
Proof.
  unfold ReconcileRevision. destruct (negb (n_leader n)); [by intros [= <- _]|].
  unfold GetRecoveryState. destruct (_ && _); [by intros [= <- _]|].
  destruct applied as [logs|]; [|by intros [= <- _]].
  destruct configuration; [|by intros [= <- _]].
  destruct (_ || _ || _); [by intros [= <- _]|]. destruct (_ || _ || _ || _); [by intros [= <- _]|].
  unfold raft_apply. destruct (ans_entry ans) as [log|]; [|by intros [= <- _]].
  destruct (Apply _ _) as [g res]. destruct (negb (Res_OK res)); [by intros [= <- _]|].
  unfold StrongRead, reconcile_projection. destruct (negb (n_leader _)); [by intros [= <- _]|].
  destruct barrier as [logs'|]; [|by intros [= <- _]].
  destruct (checkRevisionFloor _); [|by intros [= <- _]..].
  destruct (ReconcileProjection _ _) as [h r']. by intros [= <- _].
Qed.

Lemma reconcile_minimum_Ok n material json_gateway view receipts env minimum :
  reconcile_minimum n material json_gateway view receipts env = Ok minimum →
  is_u64 (Rv_Revision view) → is_u64 (Rv_Floor view) →
  is_u64 minimum ∧ Rv_Revision view <= minimum ∧ Rv_Floor view <= minimum ∧
  (∀ m, m ∈ n_servers n → srv_id m ≠ n_id n → ∃ peer, peerRecovery n (rv_ask env) m (Rv_Index view) = Ok peer ∧
     Rv_Digest peer = Rv_Digest view ∧ Rv_ConfigurationIndex peer = Rv_ConfigurationIndex view ∧
     Rv_Revision peer <= minimum ∧ Rv_Floor peer <= minimum) ∧
  (∀ k v g, state_of (fsm_store (n_fsm n)) !! k = Some v → has_prefix k "control/nodes/" = true →
     json_gateway v = Some g → default false (Gw_Roles g !! "gateway") = true → Gw_Revoked g = false →
     ∃ key receipt rev, rv_caKey env = Some key ∧ receipts !! Gw_NodeID g = Some receipt ∧
       receiptRevision receipt (Tls_ClusterID material) key (rv_now env) = Ok rev ∧ rev <= minimum).
Proof.
  unfold reconcile_minimum. intros E U1 U2. apply bind_Ok in E as (low & Sm & E).
  apply survey_members_Ok in Sm as (L1 & L2 & L3); [|unfold is_u64 in *; lia].
  apply bind_Ok in E as (ids & G & E). apply check_then in E as [_ E].
  assert (is_u64 minimum ∧ low <= minimum ∧ ∀ id, id ∈ ids → ∃ key receipt rev, rv_caKey env = Some key ∧
    receipts !! id = Some receipt ∧ receiptRevision receipt (Tls_ClusterID material) key (rv_now env) = Ok rev ∧
    rev <= minimum) as (M1 & M2 & M3).
  { destruct (Z.eqb_spec (zlen ids) 0) as [Hz|Hz].
    - injection E as <-. destruct ids; [|done]. split_and!; [done|lia|set_solver].
    - destruct (rv_caKey env) as [key|] eqn:K; [|done]. apply survey_receipts_Ok in E as (R1 & R2 & R3); [|done].
      split_and!; [done|done|]. intros id Hid. destruct (R3 id Hid) as (receipt & rev & ?). by exists key, receipt, rev. }
  split_and!; [done|lia|lia| |].
  - intros m Hm Hid. destruct (L3 m) as (peer & ? & ? & ? & ? & ?).
    { unfold other_members. apply list_elem_of_In, filter_In. split; [by apply list_elem_of_In|].
      apply negb_true_iff. by apply String.eqb_neq. }
    exists peer. split_and!; [done|done|done|lia|lia].
  - intros k v g Hk Hp Hj Hg Hr. apply M3. unfold RecoveryGateways in G.
    eapply recovery_gateways_complete; [exact G| |done..].
    unfold state_of, bolt_view in Hk. by apply elem_of_list_to_map_2 in Hk.
Qed.

(** C30. Reconciling the revision leaves no member and no Gateway fenced out: when the
    administrator's reconciliation succeeds, the revision it committed is at least the
    revision and the floor of every Controller, each of which confirmed it with the same
    records, and at least the revision of every security snapshot that an active Gateway
    was shown to have, signed by the CA; the leader answers again, and the records are
    those the administrator started from. *)
Theorem reconcile_sound n material json_gateway receipts env n' res :
  reconcile n material json_gateway receipts env = (n', Ok res) →
  revisionFloor (fsm_store (n_fsm n)) = n_floor n → answer_ok (rv_ans env) →
  (∀ logs, rv_first env = Some logs ∨ rv_second env = Some logs ∨ rv_barrier env = Some logs ∨ rv_third env = Some logs →
     Forall log_ok logs) →
  let n1 := apply_logs n (default [] (rv_first env)) in
  let digest m := Rv_Digest (recovery_view m (n_commit m)) in
  fresh_entry (apply_logs n1 (default [] (rv_second env))) (rv_ans env) →
  ∃ minimum n2, n_floor n <= minimum <= Res_Revision res ∧ minimum <= revision (fsm_store (n_fsm n')) ∧
  checkRevisionFloor n' = Ok tt ∧ digest n' = digest n1 ∧
  (∀ m, m ∈ n_servers n → srv_id m ≠ n_id n → ∃ before after,
     peerRecovery n1 (rv_ask env) m (n_commit n1) = Ok before ∧
     peerRecovery n2 (rv_confirm env) m (CommitIndex res) = Ok after ∧
     Rv_Digest before = digest n1 ∧ Rv_Digest after = digest n1 ∧
     Z.max (Rv_Revision before) (Rv_Floor before) <= minimum <= Rv_Revision after) ∧
  (∀ k v g, state_of (fsm_store (n_fsm n1)) !! k = Some v → has_prefix k "control/nodes/" = true →
     json_gateway v = Some g → default false (Gw_Roles g !! "gateway") = true → Gw_Revoked g = false →
     ∃ key receipt rev, rv_caKey env = Some key ∧ receipts !! Gw_NodeID g = Some receipt ∧
       receiptRevision receipt (Tls_ClusterID material) key (rv_now env) = Ok rev ∧ rev <= minimum).
Proof.
  intros E Hfl Ha Hl n1 digest Hf. unfold reconcile in E.
  destruct (GetRecoveryState n 0 _ _) as [m1 r1] eqn:G1. destruct r1 as [view| |]; [|done..].
  apply GetRecoveryState_Ok in G1 as (logs1 & F1 & -> & Hv). 
  assert (n1 = apply_logs n logs1) as E1 by (subst n1; by rewrite F1). rewrite <- E1 in *. clear E1.
  destruct (negb (rv_status env)); [done|].
  destruct (reconcile_minimum _ _ _ _ _ _) as [minimum| |] eqn:Rm; [|done..].
  apply reconcile_minimum_Ok in Rm as (U & R1 & R2 & R3 & R4);
    [|subst view; cbn; apply decode_opt_u64|subst view; cbn; apply decode_opt_u64].
  destruct (ReconcileRevision _ _ _ _ _ _ _ _) as [n2 r2] eqn:Rr. destruct r2 as [res2| |]; [|done..].
  pose proof (ReconcileRevision_same _ _ _ _ _ _ _ _ _ _ Rr) as [Sv Si].
  assert (revisionFloor (fsm_store (n_fsm n1)) = n_floor n1) as Hfl1.
  { unfold n1. rewrite F1. cbn [default]. destruct (apply_fold (n_fsm n) logs1 (Hl _ (or_introl F1))) as [_ Ef].
    cbn in *. by rewrite Ef. }
  pose proof (ReconcileRevision_unblocks n1 view minimum (rv_second env) (rv_configuration env) (rv_ans env)
    (rv_barrier env) (rv_fault env) n2 res2 Hfl1 U Ha ltac:(intros logs [?|?]; apply Hl; auto) Hf Rr) as Un.
  destruct Un as (_ & _ & _ & Un1 & Un2 & _).
  destruct (confirm_members _ _ _ _ _ _) as [[]| |] eqn:Cf; [|done..].
  destruct (GetRecoveryState n2 0 _ _) as [m3 r3] eqn:G3. injection E as <- E.
  destruct r3 as [final| |]; [|done..]. apply GetRecoveryState_Ok in G3 as (logs3 & F3 & -> & Hv3).
  cbn [mbind result_bind] in E. apply check_then in E as [G E]. injection E as <-. guards.
  destruct G as [[G1 G2] G3]. rewrite Hv3 in G1, G2, G3. cbn [Rv_Revision Rv_Digest recovery_view] in G3.
  exists minimum, n2. split_and!.
  - subst n1. cbn in Un1. lia.
  - lia.
  - done.
  - apply checkRevisionFloor_Ok in Un2. apply checkRevisionFloor_Ok. cbn [n_floor apply_logs set_fsm].
    destruct (apply_fold (n_fsm n2) logs3 (Hl _ (or_intror (or_intror (or_intror F3))))) as [Mono _]. cbn in *. lia.
  - subst digest. cbn beta. rewrite G2, Hv. done.
  - intros m Hm Hid. destruct (R3 m Hm Hid) as (before & P1 & P2 & _ & P3 & P4).
    destruct (confirm_members_Ok _ _ _ _ _ _ Cf m) as (after & Q1 & Q2 & Q3).
    { unfold other_members. apply list_elem_of_In, filter_In. split; [by apply list_elem_of_In|].
      apply negb_true_iff. by apply String.eqb_neq. }
    exists before, after. rewrite Hv in P1, P2, Q3. split_and!; [exact P1|exact Q1|exact P2|exact Q3|lia|lia].
  - exact R4.
Qed.

(** *** Writing *)

(** The files a caller reads are the records of the local state. *)
Definition files_current n : Prop :=
  ∀ p, is_Some (state_of (fsm_store (n_fsm n)) !! p) ∨ NormalizeReplicatedPath p = Ok p →
    fs_files (fsm_fs (n_fsm n)) !! target (fsm_root (n_fsm n)) p = state_of (fsm_store (n_fsm n)) !! p.

Lemma apply_logs_root n logs : Forall log_ok logs → fsm_root (n_fsm (apply_logs n logs)) = fsm_root (n_fsm n).
Proof.
  unfold apply_logs. cbn [n_fsm set_fsm]. generalize (n_fsm n). clear n. induction logs as [|l k IH]; intros f H; [done|].
  apply Forall_cons in H as [Hl Hk]. cbn [fold_left]. rewrite (IH _ Hk). by destruct (Apply_counters f l Hl) as (_ & _ & ? & _).
Qed.

Lemma WaitApplied_current `{PT : !ProjectionTree F} n reached fault n' :
  WaitApplied n reached fault = (n', Ok tt) → (∀ logs, reached = Some logs → Forall log_ok logs) →
  root_ok (fsm_root (n_fsm n)) →
  (∀ p, is_Some (state_of (fsm_store (n_fsm n')) !! p) → ∃ path, NormalizeReplicatedPath path = Ok p) →
  n_floor n <= revision (fsm_store (n_fsm n')) ∧ files_current n' ∧
  ∃ logs, reached = Some logs ∧ fsm_store (n_fsm n') = fsm_store (n_fsm (apply_logs n logs)).
Proof.
  unfold WaitApplied. destruct reached as [logs|]; [|done]. intros E Hl Hr Hs.
  destruct (checkRevisionFloor _) as [[]| |] eqn:C; [|done..]. apply checkRevisionFloor_Ok in C.
  unfold reconcile_projection in E.
  pose proof (ReconcileProjection_mirrors (n_fsm (apply_logs n logs)) fault) as M.
  pose proof (ReconcileProjection_store (n_fsm (apply_logs n logs)) fault) as Es.
  destruct (ReconcileProjection _ _) as [g r]. cbn [fst] in Es. injection E as <- ->. cbn [n_fsm set_fsm] in *.
  pose proof (apply_logs_root n logs (Hl _ eq_refl)) as Rt.
  rewrite Rt in M. rewrite Es in Hs. destruct (M Hr Hs) as (_ & R & _ & Cu). split_and!; [by rewrite Es| |by exists logs].
  intros p Hp. cbn [n_fsm set_fsm] in *. rewrite Es in *. rewrite R. by apply Cu.
Qed.


(** The local listener serves only who presents the token of the file. *)
Lemma localAuth_token {A} raw token authorization (n : A) next :
  readLocalToken raw = Ok token → trim_space (trim_prefix authorization "Bearer ") ≠ token →
  localAuth token authorization n next = fail n 401 "local authentication required" ∧ token ≠ "".
Proof.
  unfold readLocalToken, localAuth. destruct raw as [raw|]; [|done]. intros [Hl E]%check_then Hn.
  apply check_then in E as [_ E]. injection E as <-. guards. apply String.eqb_neq in Hn. rewrite Hn. split; [done|].
  intros E. by rewrite E in Hl.
Qed.
End api_facts.
