(* ===== verification/WgshimTcp.v ===== *)
(** * TCP framing and the TCP link of the shim ([internal/wgshim/tcp.go])

    Length-prefixed frames on a byte stream, over any [io.Writer], and the
    reconnecting client link. *)

From Stdlib Require Import Strings.Byte.
From S2P Require Import Prelude GoLib GoNet.

Definition tcpFrameHeaderSize : Z := 4.
Definition maxTCPFrameSize : Z := 65535.

(** ** Writing *)

Section write.
Context {W : Type} `{WR : Writer W}.

Definition writeAll (w : W) (payload : bytes) : option (W * result unit) :=
  write_loop (λ n, n <=? 0) "unexpected EOF" (length payload) w payload.

Definition writeTCPFrame (w : W) (payload : bytes) : option (W * result unit) :=
  if (zlen payload =? 0) || (maxTCPFrameSize <? zlen payload)
  then Some (w, Err "invalid TCP frame size %d")
  else
    match writeAll w (be_encode 4 (zlen payload)) with
    | Some (w, Ok _) => writeAll w payload
    | other => other
    end.
End write.

(** ** Reading *)

Definition readTCPFrame (stream : bytes) : result (bytes * bytes) :=
  '(header, stream) ← read_exact stream tcpFrameHeaderSize;
  let size := be_decode header in
  check ((size <=? 0) || (maxTCPFrameSize <? size)) "invalid TCP frame size %d" ;;
  read_exact stream size.

(** The frames a reader gets out of a stream before the first error, and the bytes
    at which it stops.  A frame takes at least five bytes, which bounds the loop. *)
Fixpoint read_frames (fuel : nat) (stream : bytes) : list bytes * bytes :=
  match fuel with
  | O => ([], stream)
  | S fuel =>
      match readTCPFrame stream with
      | Ok (frame, rest) =>
          let '(frames, stop) := read_frames fuel rest in (frame :: frames, stop)
      | _ => ([], stream)
      end
  end.

Definition tcp_frames (stream : bytes) : list bytes * bytes := read_frames (length stream) stream.

(** ** The client link

    Connections are pointers in the code; here they are numbers, with the byte
    stream of each in [link_streams].  [link_run] is the connection the [run]
    goroutine reads from, its local variable [conn]. *)

Section link.
Context {W : Type} `{WR : Writer W}.

Record tcpClientLink := mkLink {
  link_conn : option nat;
  link_run : option nat;
  link_streams : gmap nat W;
  link_closed : gset nat;
  link_recv : list bytes;
}.
Implicit Types l : tcpClientLink.

Definition recvCapacity : Z := 256.

Definition newTCPClientLink : tcpClientLink := mkLink None None ∅ ∅ [].

Definition current l : option nat := link_conn l.
Definition connected l : bool := bool_decide (is_Some (current l)).

Definition set_conn l (c : option nat) : tcpClientLink :=
  mkLink c (link_run l) (link_streams l) (link_closed l) (link_recv l).

Definition clear l (expected : nat) : tcpClientLink :=
  if bool_decide (link_conn l = Some expected) then set_conn l None else l.

Definition close_conn l (c : nat) : tcpClientLink :=
  mkLink (link_conn l) (link_run l) (link_streams l) ({[ c ]} ∪ link_closed l) (link_recv l).

Definition close l : tcpClientLink :=
  match current l with Some c => close_conn l c | None => l end.

Definition with_stream l (c : nat) (w : W) : tcpClientLink :=
  mkLink (link_conn l) (link_run l) (<[c := w]> (link_streams l)) (link_closed l) (link_recv l).

(** The locked part of [send] on the connection it read before: a write to a closed
    connection fails, and a failed write drops the connection. *)
Definition send_on l (c : nat) (payload : bytes) : tcpClientLink * result unit :=
  let write :=
    match link_streams l !! c with
    | Some w => if bool_decide (c ∈ link_closed l) then None else writeTCPFrame w payload
    | None => None
    end in
  match write with
  | Some (w, Ok _) => (with_stream l c w, Ok tt)
  | Some (w, r) => (close_conn (clear (with_stream l c w) c) c, r)
  | None => (close_conn (clear l c) c, Err "use of closed network connection")
  end.

Definition send l (payload : bytes) : tcpClientLink * result unit :=
  match current l with
  | None => (l, Err "TCP transport is disconnected")
  | Some c => send_on l c payload
  end.

(** The [run] goroutine: a dialled connection is installed, a frame read from it is
    queued (the send blocks while the channel is full), and the end of the
    connection clears and closes it. *)
Definition run_connected l (c : nat) (w : W) : tcpClientLink :=
  mkLink (Some c) (Some c) (<[c := w]> (link_streams l)) (link_closed l) (link_recv l).

Definition run_frame l (frame : bytes) : option tcpClientLink :=
  if zlen (link_recv l) <? recvCapacity
  then Some (mkLink (link_conn l) (link_run l) (link_streams l) (link_closed l)
               (link_recv l ++ [frame]))
  else None.

Definition run_lost l (c : nat) : tcpClientLink :=
  let l := close_conn (clear l c) c in
  mkLink (link_conn l) None (link_streams l) (link_closed l) (link_recv l).

Definition recv_take l (rest : list bytes) : tcpClientLink :=
  mkLink (link_conn l) (link_run l) (link_streams l) (link_closed l) rest.

Inductive link_step : tcpClientLink → tcpClientLink → Prop :=
| link_connect l c w : link_run l = None → link_streams l !! c = None →
    link_step l (run_connected l c w)
| link_frame l l' frame : run_frame l frame = Some l' → link_step l l'
| link_lost l c : link_run l = Some c → link_step l (run_lost l c)
| link_take l frame rest : link_recv l = frame :: rest → link_step l (recv_take l rest)
| link_send l c payload : is_Some (link_streams l !! c) → link_step l (send_on l c payload).1
| link_close l : link_step l (close l).

Definition link_reach l : Prop := rtc link_step newTCPClientLink l.
End link.
Arguments tcpClientLink : clear implicits.
Arguments mkLink {W}.

(** ** Facts: framing *)

Definition frame_ok (payload : bytes) : Prop := 0 < zlen payload <= maxTCPFrameSize.
Lemma readTCPFrame_iff s p rest :
  readTCPFrame s = Ok (p, rest) ↔ frame_ok p ∧ s = tcp_frame p ++ rest.
Proof.
  unfold readTCPFrame, tcpFrameHeaderSize, frame_ok, tcp_frame. split.
  - intros ([header s1] & H1 & E)%bind_Ok. apply read_exact_Ok in H1 as [-> L]; [|lia].
    apply check_then in E as [G E]. guards. apply read_exact_Ok in E as [-> Hp]; [|lia].
    split; [lia|]. rewrite Hp, <- app_assoc. f_equal.
    replace 4%nat with (length header) by (unfold zlen in L; lia). by rewrite be_encode_decode.
  - intros [Hp ->]. rewrite <- app_assoc.
    rewrite (proj2 (read_exact_Ok _ 4 (be_encode 4 (zlen p)) (p ++ rest) ltac:(lia))) by done.
    cbn [mbind result_bind]. rewrite be_decode_encode_small by (cbn; unfold maxTCPFrameSize in Hp; lia).
    apply check_then. split; [guards; lia|]. by apply read_exact_Ok; [lia|].
Qed.

Lemma readTCPFrame_no_panic s : readTCPFrame s ≠ Panic.
Proof.
  unfold readTCPFrame. apply bind_no_panic; [apply read_exact_no_panic|]. intros [header s1] _.
  apply check_bind_no_panic. intros _. apply read_exact_no_panic.
Qed.

Lemma read_frames_prefix fuel ps s :
  Forall frame_ok ps → s `prefix_of` concat (tcp_frame <$> ps) →
  (read_frames fuel s).1 `prefix_of` ps.
Proof.
  revert ps s. induction fuel as [|fuel IH]; intros ps s F P; [apply prefix_nil|].
  cbn. destruct (readTCPFrame s) as [[p rest]|e|] eqn:E; [|apply prefix_nil..].
  apply readTCPFrame_iff in E as [Hp ->]. destruct ps as [|q ps].
  { destruct P as [k P]. apply (f_equal zlen) in P. cbn [fmap list_fmap concat] in P.
    rewrite !zlen_app, zlen_tcp_frame, zlen_nil in P. unfold frame_ok in Hp.
    pose proof (zlen_nonneg rest). pose proof (zlen_nonneg k). lia. }
  apply Forall_cons in F as [Hq F]. destruct P as [k P]. cbn [fmap list_fmap concat] in P.
  assert (readTCPFrame (tcp_frame q ++ concat (tcp_frame <$> ps))
    = Ok (q, concat (tcp_frame <$> ps))) as E by by apply readTCPFrame_iff.
  rewrite P, <- app_assoc in E.
  rewrite (proj2 (readTCPFrame_iff _ p (rest ++ k))) in E by done. injection E as -> E.
  specialize (IH ps rest F ltac:(by exists k)). destruct (read_frames fuel rest). cbn in *.
  by apply prefix_cons.
Qed.

Lemma read_frames_all fuel ps :
  Forall frame_ok ps → (length (concat (tcp_frame <$> ps)) <= fuel)%nat →
  read_frames fuel (concat (tcp_frame <$> ps)) = (ps, []).
Proof.
  revert ps. induction fuel as [|fuel IH]; intros [|p ps] F L; try done.
  - cbn [fmap list_fmap concat] in L. pose proof (zlen_tcp_frame p). pose proof (zlen_nonneg p).
    rewrite length_app in L. unfold zlen in *. lia.
  - apply Forall_cons in F as [Hp F]. cbn [fmap list_fmap concat read_frames].
    rewrite (proj2 (readTCPFrame_iff _ p (concat (tcp_frame <$> ps)))) by done.
    rewrite IH; [done|done|]. cbn [fmap list_fmap concat] in L. pose proof (zlen_tcp_frame p).
    rewrite length_app in L. unfold zlen in *. lia.
Qed.

(** TCP framing is exact: a frame is read from a stream exactly when the stream
    starts with the four-byte length of a payload of 1 to 65535 bytes and the
    payload; nothing else is accepted (so no peer makes the reader allocate more)
    and no stream makes it panic. *)
Lemma readTCPFrame_exact stream :
  readTCPFrame stream ≠ Panic ∧
  ∀ payload rest, readTCPFrame stream = Ok (payload, rest) ↔
    0 < zlen payload <= 65535 ∧ stream = be_encode 4 (zlen payload) ++ payload ++ rest.
Proof.
  split; [apply readTCPFrame_no_panic|]. intros payload rest. rewrite readTCPFrame_iff.
  unfold frame_ok, tcp_frame, maxTCPFrameSize. by rewrite <- app_assoc.
Qed.

Section write_facts.
Context {W : Type} `{WR : Writer W}.
Implicit Types w : W.

Lemma writeAll_spec w p :
  ∃ w' r, writeAll w p = Some (w', r) ∧ r ≠ Panic ∧
    ∃ sent rest, p = sent ++ rest ∧ written w' = written w ++ sent ∧ (r = Ok tt → rest = []).
Proof. apply write_loop_spec; [|done]. intros n _ G. guards. lia. Qed.

Lemma writeTCPFrame_spec w p :
  ∃ w' r, writeTCPFrame w p = Some (w', r) ∧ r ≠ Panic ∧
    ((¬ frame_ok p ∧ w' = w ∧ r ≠ Ok tt) ∨
     frame_ok p ∧ ∃ sent rest, tcp_frame p = sent ++ rest ∧ written w' = written w ++ sent ∧
       (r = Ok tt → rest = [])).
Proof.
  unfold writeTCPFrame, frame_ok, tcp_frame. pose proof (zlen_nonneg p).
  destruct (_ || _) eqn:G; guards.
  { exists w, (Err "invalid TCP frame size %d"). split_and!; [done..|]. left. split_and!; [lia|done..]. }
  destruct (writeAll_spec w (be_encode 4 (zlen p))) as (w1 & r1 & -> & P1 & s1 & l1 & E1 & H1 & L1).
  destruct r1 as [[]|e|]; [|exists w1, (Err e); split_and!; [done..|]|done].
  - destruct (writeAll_spec w1 p) as (w2 & r2 & -> & P2 & s2 & l2 & E2 & H2 & L2).
    exists w2, r2. split_and!; [done..|]. right. split; [lia|]. exists (s1 ++ s2), l2.
    rewrite (L1 eq_refl), app_nil_r in E1. rewrite E1, E2, H2, H1, !app_assoc. done.
  - right. split; [lia|]. exists s1, (l1 ++ p). rewrite app_assoc, <- E1. done.
Qed.

(** Writing frames one after the other until the first error. *)
Fixpoint write_frames w (ps : list bytes) : W * result unit :=
  match ps with
  | [] => (w, Ok tt)
  | p :: ps =>
      match writeTCPFrame w p with
      | Some (w, Ok _) => write_frames w ps
      | Some (w, r) => (w, r)
      | None => (w, Panic)
      end
  end.

Lemma write_frames_spec w ps :
  Forall frame_ok ps →
  (write_frames w ps).2 ≠ Panic ∧
  ∃ sent rest, concat (tcp_frame <$> ps) = sent ++ rest ∧
    written (write_frames w ps).1 = written w ++ sent ∧
    ((write_frames w ps).2 = Ok tt → rest = []).
Proof.
  revert w. induction ps as [|p ps IH]; intros w F.
  { split; [done|]. exists [], []. cbn. split_and!; by rewrite ?app_nil_r. }
  apply Forall_cons in F as [Hp F]. cbn [write_frames fmap list_fmap concat].
  destruct (writeTCPFrame_spec w p) as (w1 & r & -> & P & [(N & _)|(_ & s & l & E & H & L)]); [done|].
  destruct r as [[]|e|]; cbn [fst snd]; [| |done].
  - destruct (IH w1 F) as (IP & s' & l' & E' & H' & L'). split; [done|].
    exists (s ++ s'), l'. rewrite (L eq_refl), app_nil_r in E. rewrite H', H, E, E', <- !app_assoc. done.
  - split; [done|]. exists s, (l ++ concat (tcp_frame <$> ps)).
    split_and!; [by rewrite E, <- app_assoc|done|done].
Qed.

(** C23. TCP stream integrity: payloads are framed onto a connection whose writes
    may be short or fail at any byte.  Whatever part of the written bytes has
    arrived, the receiver decodes a prefix of the payloads in order: a torn frame is
    never delivered.  When every write succeeded and everything arrived, it decodes
    exactly the payloads.  The writing loop ends within its bound. *)
Theorem tcp_stream_integrity (w : W) (payloads : list bytes) arrived :
  written w = [] → Forall frame_ok payloads →
  arrived `prefix_of` written (write_frames w payloads).1 →
  (write_frames w payloads).2 ≠ Panic ∧
  (tcp_frames arrived).1 `prefix_of` payloads ∧
  ((write_frames w payloads).2 = Ok tt → arrived = written (write_frames w payloads).1 →
     tcp_frames arrived = (payloads, [])).
Proof.
  intros W0 F A. destruct (write_frames_spec w payloads F) as (P & sent & rest & E & H & L).
  rewrite W0 in H. cbn in H. rewrite H in A |- *. split_and!; [done| |].
  - apply read_frames_prefix; [done|]. rewrite E. by apply prefix_app_r.
  - intros R ->. rewrite (L R), app_nil_r in E. subst sent. by apply read_frames_all.
Qed.

(** ** Facts: the link *)

Record link_inv (l : tcpClientLink W) : Prop := {
  inv_current : ∀ c, link_conn l = Some c → link_run l = Some c;
  inv_run : ∀ c, link_run l = Some c → is_Some (link_streams l !! c);
  inv_recv : zlen (link_recv l) <= recvCapacity;
}.

Lemma clear_conn (l : tcpClientLink W) c d :
  link_conn (clear l c) = Some d → link_conn l = Some d ∧ c ≠ d.
Proof. unfold clear. case_bool_decide as E; [done|]. naive_solver. Qed.

Lemma clear_rest (l : tcpClientLink W) c :
  link_run (clear l c) = link_run l ∧ link_streams (clear l c) = link_streams l ∧
  link_recv (clear l c) = link_recv l.
Proof. unfold clear. by case_bool_decide. Qed.

Lemma send_on_spec (l : tcpClientLink W) c payload :
  let '(l', r) := send_on l c payload in
  link_run l' = link_run l ∧ link_recv l' = link_recv l ∧
  (∀ d, link_conn l' = Some d → link_conn l = Some d) ∧
  (∀ d, link_conn l = Some d → d ≠ c ∨ r = Ok tt → link_conn l' = Some d) ∧
  (∀ d, d ≠ c → link_streams l' !! d = link_streams l !! d) ∧
  (∀ d, is_Some (link_streams l !! d) → is_Some (link_streams l' !! d)).
Proof.
  unfold send_on. set (out := match link_streams l !! c with Some w => _ | None => _ end).
  assert (∀ (l0 : tcpClientLink W) (r : result unit), r ≠ Ok tt →
    let l' := close_conn (clear l0 c) c in
    link_run l' = link_run l0 ∧ link_recv l' = link_recv l0 ∧
    (∀ d, link_conn l' = Some d → link_conn l0 = Some d) ∧
    (∀ d, link_conn l0 = Some d → d ≠ c ∨ r = Ok tt → link_conn l' = Some d) ∧
    link_streams l' = link_streams l0) as D.
  { intros l0 r Hr. destruct (clear_rest l0 c) as (E1 & E2 & E3). cbn. rewrite E1, E2, E3.
    split_and!; [done..| | |done].
    - intros d Hd. by apply clear_conn in Hd as [? _].
    - intros d Hd [N|N]; [|done]. unfold clear. rewrite bool_decide_eq_false_2; [done|congruence]. }
  destruct out as [[w [[]|e|]]|]; cbn [fst snd].
  1: { split_and!; try done; intros d; cbn; [by intros ?; rewrite lookup_insert_ne|].
       intros H. apply lookup_insert_is_Some'. by right. }
  3: { destruct (D l (Err "use of closed network connection")) as (? & ? & ? & ? & E); [done|].
       split_and!; [done..| |]; intros d; by rewrite E. }
  - destruct (D (with_stream l c w) (Err e)) as (D1 & D2 & D3 & D4 & D5); [done|].
    rewrite D5. split_and!; [done..| |]; intros d; cbn; [intros ?; by rewrite lookup_insert_ne|].
    intros H. apply lookup_insert_is_Some'. by right.
  - destruct (D (with_stream l c w) Panic) as (D1 & D2 & D3 & D4 & D5); [done|].
    rewrite D5. split_and!; [done..| |]; intros d; cbn; [intros ?; by rewrite lookup_insert_ne|].
    intros H. apply lookup_insert_is_Some'. by right.
Qed.

Lemma link_step_inv (l l' : tcpClientLink W) : link_step l l' → link_inv l → link_inv l'.
Proof.
  intros S [I1 I2 I3]. destruct S as [l c w R N|l l' frame E|l c R|l frame rest E|l c payload H|l].
  - split; cbn; [done| |done]. intros d [= <-]. apply lookup_insert_is_Some'. by left.
  - unfold run_frame in E. destruct (Z.ltb_spec (zlen (link_recv l)) recvCapacity); [|done].
    injection E as <-. split; cbn; [done..|]. autorewrite with zlen. lia.
  - destruct (clear_rest l c) as (E1 & E2 & E3). split; cbn; [|done|by rewrite E3].
    intros d Hd. apply clear_conn in Hd as [Hd N]. apply I1 in Hd. congruence.
  - split; cbn; [done..|]. rewrite E in I3. autorewrite with zlen in I3. lia.
  - pose proof (send_on_spec l c payload) as Sp. destruct (send_on l c payload) as [l' r].
    destruct Sp as (E1 & E2 & H3 & _ & _ & H6). cbn. split.
    + intros d Hd. rewrite E1. by apply I1, H3.
    + intros d Hd. rewrite E1 in Hd. by apply H6, I2.
    + by rewrite E2.
  - unfold close. destruct (current l); [|by split]. split; cbn; done.
Qed.

Lemma link_reach_inv l : link_reach l → link_inv l.
Proof.
  intros R. apply (rtc_ind_r (λ l', link_inv l')) in R; [done| |].
  - split; cbn; done.
  - intros x y _ S I. by eapply link_step_inv.
Qed.

(** The reconnecting TCP link, under every interleaving of senders with the
    goroutine that reconnects: the connection senders use is always the one the
    reader holds; the receive queue stays within its 256 slots; and a sender that
    fails on a connection it had read earlier never drops the connection that
    replaced it. *)
Lemma link_current_live l :
  link_reach l →
  (∀ c, current l = Some c → link_run l = Some c ∧ is_Some (link_streams l !! c)) ∧
  zlen (link_recv l) <= 256 ∧
  (∀ old c w payload, link_streams l !! c = None → old ≠ c →
     current (send_on (run_connected l c w) old payload).1 = Some c) ∧
  (∀ c payload, (send_on l c payload).2 = Ok tt → current (send_on l c payload).1 = current l).
Proof.
  intros R. destruct (link_reach_inv l R) as [I1 I2 I3]. split_and!; [auto|done| |].
  - intros old c w payload N Hne. pose proof (send_on_spec (run_connected l c w) old payload) as Sp.
    destruct (send_on _ old payload) as [l' r]. destruct Sp as (_ & _ & _ & H & _).
    apply H; [done|]. by left.
  - intros c payload E. pose proof (send_on_spec l c payload) as Sp.
    destruct (send_on l c payload) as [l' r]. cbn in *. subst r. destruct Sp as (_ & _ & H1 & H2 & _).
    unfold current. destruct (link_conn l) as [d|] eqn:Hd; [apply H2; auto|].
    destruct (link_conn l') as [d|] eqn:Hd'; [|done]. by specialize (H1 d eq_refl).
Qed.
End write_facts.
