(* ===== verification/WgshimRelay.v ===== *)
(** * The UDP relay of the shim ([internal/wgshim/relay.go])

    The client and the server of the single-endpoint relay, and the helpers of the
    adaptive client: resolution of the relay endpoints, the order in which they are
    probed and the choice of the preferred one. *)

From Stdlib Require Import Strings.Byte.
From S2P Require Import Prelude GoLib GoStrings GoNet Crypto WgshimCodec.

(** ** Counters *)

Record Stats := mkStats {
  InnerTX : Z; InnerRX : Z; OuterTX : Z; OuterRX : Z; AuthDrops : Z; NoPeerDrop : Z;
}.

Definition no_stats : Stats := mkStats 0 0 0 0 0 0.

Definition add_InnerTX (s : Stats) (n : Z) : Stats :=
  mkStats (atomic_add (InnerTX s) n) (InnerRX s) (OuterTX s) (OuterRX s) (AuthDrops s) (NoPeerDrop s).
Definition add_InnerRX (s : Stats) (n : Z) : Stats :=
  mkStats (InnerTX s) (atomic_add (InnerRX s) n) (OuterTX s) (OuterRX s) (AuthDrops s) (NoPeerDrop s).
Definition add_OuterTX (s : Stats) (n : Z) : Stats :=
  mkStats (InnerTX s) (InnerRX s) (atomic_add (OuterTX s) n) (OuterRX s) (AuthDrops s) (NoPeerDrop s).
Definition add_OuterRX (s : Stats) (n : Z) : Stats :=
  mkStats (InnerTX s) (InnerRX s) (OuterTX s) (atomic_add (OuterRX s) n) (AuthDrops s) (NoPeerDrop s).
Definition add_AuthDrops (s : Stats) (n : Z) : Stats :=
  mkStats (InnerTX s) (InnerRX s) (OuterTX s) (OuterRX s) (atomic_add (AuthDrops s) n) (NoPeerDrop s).
Definition add_NoPeerDrop (s : Stats) (n : Z) : Stats :=
  mkStats (InnerTX s) (InnerRX s) (OuterTX s) (OuterRX s) (AuthDrops s) (atomic_add (NoPeerDrop s) n).

(** ** Helpers *)

(** [done] is [ctx.Err() != nil]. *)
Definition normalizeNetErr (done : bool) (err : option net_error) : option net_error :=
  if done then None
  else match err with
       | Some e => if error_closed e then None else err
       | None => None
       end.

(** [binary.LittleEndian.Uint32]. *)
Definition le_decode (b : bytes) : Z := be_decode (reverse b).

Definition isWireGuardTransportData (packet : bytes) : bool :=
  (32 <=? zlen packet) && (le_decode (take 4 packet) =? 4).

(** The random source is the bytes still to be read; a failed read leaves it. *)
Definition randomIndex (count : Z) (random : bytes) : result (Z * bytes) :=
  if count <=? 1 then Ok (0, random)
  else match read_full random 2 with
       | None => Ok (0, random)
       | Some (raw, random) =>
           let modulus := count mod 2 ^ 16 in
           if modulus =? 0 then Panic else Ok (le_decode raw mod modulus, random)
       end.

Definition randomDuration (minimum maximum : Z) (random : bytes) : result (Z * bytes) :=
  if maximum <=? minimum then Ok (minimum, random)
  else
    let span := (maximum - minimum) mod 2 ^ 64 in
    match read_full random 8 with
    | None => Ok (minimum, random)
    | Some (raw, random) =>
        let modulus := (span + 1) mod 2 ^ 64 in
        if modulus =? 0 then Panic else Ok (minimum + le_decode raw mod modulus, random)
    end.

(** The Fisher-Yates loop that orders the probes: [i] counts down to one. *)
Fixpoint shuffle (i : nat) (order : list nat) (random : bytes) : result (list nat * bytes) :=
  match i with
  | O => Ok (order, random)
  | S i' =>
      '(j, random) ← randomIndex (Z.of_nat i + 1) random;
      a ← index order (Z.of_nat i);
      b ← index order j;
      shuffle i' (<[Z.to_nat j := a]> (<[i := b]> order)) random
  end.

Definition probe_order (n : nat) (random : bytes) : result (list nat * bytes) :=
  shuffle (n - 1) (seq 0 n) random.

Definition preferAdaptiveServer (servers : list string) (preferred : string) : list string :=
  if String.eqb preferred "" || (zlen servers <? 2) || bool_decide (head servers = Some preferred)
  then servers
  else
    let result := (if bool_decide (preferred ∈ servers) then [preferred] else [])
                  ++ filter (λ s, s ≠ preferred) servers in
    if negb (zlen result =? zlen servers) then servers else result.

Section resolve.
Context {A : Type} `{NA : NetAddr A}.

(** [net.ResolveUDPAddr]. *)
Context (resolver : string → option A).

Record resolution := mkResolution {
  serverAddrs : list A;
  serverNames : list string;
  serverSources : gmap string string;
  unresolved : list string;
}.

(** The loop of [resolveAdaptiveServers]; [seen] is the domain of
    [serverSources]. *)
Definition resolve_step (acc : resolution) (raw : string) : resolution :=
  match resolver raw with
  | None => mkResolution (serverAddrs acc) (serverNames acc) (serverSources acc)
              (unresolved acc ++ [raw])
  | Some addr =>
      let key := addr_string addr in
      if bool_decide (is_Some (serverSources acc !! key)) then acc
      else mkResolution (serverAddrs acc ++ [addr]) (serverNames acc ++ [raw])
             (<[key := raw]> (serverSources acc)) (unresolved acc)
  end.

Definition resolveAdaptiveServers (servers : list string) : resolution * result unit :=
  let acc := fold_left resolve_step servers (mkResolution [] [] ∅ []) in
  if zlen (serverAddrs acc) =? 0
  then (mkResolution [] [] ∅ (unresolved acc),
        Err "adaptive client has no resolvable servers (%d configured)")
  else (acc, Ok tt).

(** One tick of [waitForAdaptiveServerRecovery]: whether it returns true. *)
Definition recovery_tick (missing : list string) : bool :=
  existsb (λ raw, bool_decide (is_Some (resolver raw))) missing.
End resolve.
Arguments resolution : clear implicits.

(** ** The single-endpoint client and server *)

Section relay.
Context `{GCM : AesGcm} {A L O : Type} `{US : UDPSocket A L} `{UL : UDPLink O}.

Record Client := mkClient {
  client_tx : Codec;
  client_rx : Codec;
  client_wgPeer : option A;
  client_local : L;
  client_outer : O;
  client_stats : Stats;
  client_random : bytes;
}.
Implicit Types c : Client.

Definition client_count c (s : Stats) : Client :=
  mkClient (client_tx c) (client_rx c) (client_wgPeer c) (client_local c) (client_outer c) s
    (client_random c).

(** A datagram from WireGuard on the local socket. *)
Definition client_local_read (done : bool) c (packet : bytes) (from : A) : Client * outcome :=
  let c := mkClient (client_tx c) (client_rx c) (Some from) (client_local c) (client_outer c)
             (add_InnerTX (client_stats c) (zlen packet)) (client_random c) in
  match Seal (client_tx c) packet (client_random c) with
  | Ok (outer, random) =>
      let '(o, err) := LinkWrite (client_outer c) outer in
      let c := mkClient (client_tx c) (client_rx c) (client_wgPeer c) (client_local c) o
                 (client_stats c) random in
      match err with
      | Some e => (c, Stop (normalizeNetErr done (Some (wrap_error "send outer UDP: %w" e))))
      | None => (client_count c (add_OuterTX (client_stats c) (zlen outer)), Continue)
      end
  | Err _ => (c, Stop (Some (new_error "seal WireGuard packet: %w")))
  | Panic => (c, Crash)
  end.

(** A datagram from the relay. *)
Definition client_outer_read (done : bool) c (packet : bytes) : Client * outcome :=
  let c := client_count c (add_OuterRX (client_stats c) (zlen packet)) in
  match Open (client_rx c) packet with
  | Ok inner =>
      match client_wgPeer c with
      | None => (client_count c (add_NoPeerDrop (client_stats c) 1), Continue)
      | Some peer =>
          let '(l, err) := WriteTo (client_local c) inner peer in
          let c := mkClient (client_tx c) (client_rx c) (client_wgPeer c) l (client_outer c)
                     (client_stats c) (client_random c) in
          match err with
          | Some e => (c, Stop (normalizeNetErr done (Some (wrap_error "deliver packet to WireGuard: %w" e))))
          | None => (client_count c (add_InnerRX (client_stats c) (zlen inner)), Continue)
          end
      end
  | Err _ => (client_count c (add_AuthDrops (client_stats c) 1), Continue)
  | Panic => (c, Crash)
  end.

Record Server := mkServer {
  server_rx : Codec;
  server_tx : Codec;
  server_clientPeer : option A;
  server_outer : L;
  server_target : O;
  server_stats : Stats;
  server_random : bytes;
}.
Implicit Types s : Server.

Definition server_count s (st : Stats) : Server :=
  mkServer (server_rx s) (server_tx s) (server_clientPeer s) (server_outer s) (server_target s) st
    (server_random s).

(** A datagram from a client. *)
Definition server_outer_read (done : bool) s (packet : bytes) (from : A) : Server * outcome :=
  let s := server_count s (add_OuterRX (server_stats s) (zlen packet)) in
  match Open (server_rx s) packet with
  | Ok inner =>
      let '(o, err) := LinkWrite (server_target s) inner in
      let s := mkServer (server_rx s) (server_tx s) (Some from) (server_outer s) o (server_stats s)
                 (server_random s) in
      match err with
      | Some e => (s, Stop (normalizeNetErr done (Some (wrap_error "forward to WireGuard target: %w" e))))
      | None => (server_count s (add_InnerTX (server_stats s) (zlen inner)), Continue)
      end
  | Err _ => (server_count s (add_AuthDrops (server_stats s) 1), Continue)
  | Panic => (s, Crash)
  end.

(** A datagram from the WireGuard target. *)
Definition server_target_read (done : bool) s (packet : bytes) : Server * outcome :=
  let s := server_count s (add_InnerRX (server_stats s) (zlen packet)) in
  match server_clientPeer s with
  | None => (server_count s (add_NoPeerDrop (server_stats s) 1), Continue)
  | Some peer =>
      match Seal (server_tx s) packet (server_random s) with
      | Ok (outer, random) =>
          let '(l, err) := WriteTo (server_outer s) outer peer in
          let s := mkServer (server_rx s) (server_tx s) (server_clientPeer s) l (server_target s)
                     (server_stats s) random in
          match err with
          | Some e => (s, Stop (normalizeNetErr done (Some (wrap_error "send return outer UDP: %w" e))))
          | None => (server_count s (add_OuterTX (server_stats s) (zlen outer)), Continue)
          end
      | Err _ => (s, Stop (Some (new_error "seal return packet: %w")))
      | Panic => (s, Crash)
      end
  end.

(** A failed read ends either loop. *)
Definition read_failed (done : bool) (e : net_error) : outcome := Stop (normalizeNetErr done (Some e)).
End relay.
Arguments Client {GCM} A L O.
Arguments Server {GCM} A L O.

(** ** Facts: randomness and ordering *)

Lemma le_decode_range b : 0 <= le_decode b < 256 ^ zlen b.
Proof.
  unfold le_decode. pose proof (be_decode_range (reverse b)) as H.
  unfold zlen in *. by rewrite length_reverse in H.
Qed.

Lemma randomIndex_range count random :
  0 < count < 2 ^ 16 → ∃ j rest, randomIndex count random = Ok (j, rest) ∧ 0 <= j < count.
Proof.
  intros H. unfold randomIndex. destruct (Z.leb_spec count 1); [eexists _, _; split; [done|lia]|].
  destruct (read_full random 2) as [[raw rest]|]; [|eexists _, _; split; [done|lia]].
  rewrite (Z.mod_small count) by lia. destruct (Z.eqb_spec count 0); [lia|].
  eexists _, _. split; [done|]. apply Z.mod_pos_bound. lia.
Qed.

(** Random durations stay in their interval: whatever bytes are drawn, and also
    when the source fails, the result lies between the bounds (64-bit arithmetic
    does not wrap for intervals below the full range). *)
Lemma randomDuration_range minimum maximum random :
  minimum <= maximum → maximum - minimum < 2 ^ 64 - 1 →
  ∃ d rest, randomDuration minimum maximum random = Ok (d, rest) ∧ minimum <= d <= maximum.
Proof.
  intros H1 H2. unfold randomDuration. destruct (Z.leb_spec maximum minimum); [eexists _, _; split; [done|lia]|].
  destruct (read_full random 8) as [[raw rest]|]; [|eexists _, _; split; [done|lia]].
  rewrite (Z.mod_small (maximum - minimum)), Z.mod_small by lia.
  destruct (Z.eqb_spec (maximum - minimum + 1) 0); [lia|].
  eexists _, _. split; [done|].
  pose proof (Z.mod_pos_bound (le_decode raw) (maximum - minimum + 1) ltac:(lia)). lia.
Qed.

Lemma delete_insert_same {X} (l : list X) i x : delete i (<[i := x]> l) = delete i l.
Proof.
  revert i. induction l as [|y l IH]; intros [|i]; cbn; [done..|]. f_equal. apply IH.
Qed.

Lemma swap_perm {X} (l : list X) i j a b :
  l !! i = Some a → l !! j = Some b → <[j := a]> (<[i := b]> l) ≡ₚ l.
Proof.
  intros Hi Hj. pose proof (lookup_lt_Some _ _ _ Hi). pose proof (lookup_lt_Some _ _ _ Hj).
  destruct (decide (i = j)) as [->|N].
  { assert (a = b) as -> by congruence. rewrite (list_insert_id l j b), list_insert_id; done. }
  assert (<[i := b]> l !! i = Some b) as H1 by (by apply list_lookup_insert_eq).
  assert (<[i := b]> l !! j = Some b) as H2 by (by rewrite list_lookup_insert_ne).
  assert (<[j := a]> (<[i := b]> l) !! j = Some a) as H3
    by (apply list_lookup_insert_eq; by rewrite length_insert).
  pose proof (delete_Permutation _ _ _ H1) as P1. rewrite delete_insert_same in P1.
  pose proof (delete_Permutation _ _ _ H2) as P2.
  pose proof (delete_Permutation _ _ _ H3) as P3. rewrite delete_insert_same in P3.
  pose proof (delete_Permutation _ _ _ Hi) as P4.
  etransitivity; [exact P3|]. etransitivity; [|symmetry; exact P4]. constructor.
  apply (Permutation_cons_inv (a := b)). etransitivity; [symmetry; exact P2|exact P1].
Qed.

Lemma shuffle_perm i order random :
  (i < length order)%nat → Z.of_nat (length order) < 2 ^ 16 ∨ i = 0%nat →
  ∃ out rest, shuffle i order random = Ok (out, rest) ∧ out ≡ₚ order.
Proof.
  revert order random. induction i as [|i IH]; intros order random L B; [by eexists _, _|].
  destruct B as [B|B]; [|done].
  destruct (randomIndex_range (Z.of_nat (S i) + 1) random) as (j & rest & E & Hj); [lia|].
  cbn [shuffle]. rewrite E. cbn [mbind result_bind].
  destruct (index_ok order (Z.of_nat (S i))) as (a & -> & Ha); [unfold zlen; lia|].
  cbn [mbind result_bind].
  destruct (index_ok order j) as (b & -> & Hb); [unfold zlen; lia|]. cbn [mbind result_bind].
  rewrite Nat2Z.id in Ha. pose proof (swap_perm order (S i) (Z.to_nat j) a b Ha Hb) as P.
  destruct (IH (<[Z.to_nat j := a]> (<[S i := b]> order)) rest) as (out & rest' & -> & P').
  { rewrite !length_insert. lia. }
  { rewrite !length_insert. by left. }
  eexists _, _. split; [done|]. by rewrite P'.
Qed.

(** Each round probes every endpoint exactly once per sample, in some order. *)
Lemma probe_order_perm n random :
  Z.of_nat n < 2 ^ 16 → ∃ order rest, probe_order n random = Ok (order, rest) ∧ order ≡ₚ seq 0 n.
Proof.
  intros H. unfold probe_order. destruct n as [|n]; [by eexists _, _|].
  apply shuffle_perm; rewrite length_seq; lia.
Qed.

(** What [preferAdaptiveServer] returns: the list itself, or the preferred server
    moved to the front when it occurs once. *)
Lemma prefer_cases servers preferred :
  preferAdaptiveServer servers preferred = servers ∧
    (preferred = "" ∨ zlen servers < 2 ∨ head servers = Some preferred ∨
     length (filter (λ s, s = preferred) servers) ≠ 1%nat) ∨
  filter (λ s, s = preferred) servers = [preferred] ∧
  preferAdaptiveServer servers preferred = preferred :: filter (λ s, s ≠ preferred) servers.
Proof.
  unfold preferAdaptiveServer. destruct (_ || _ || _) eqn:G0; guards; [left; tauto|].
  pose proof (filter_app_complement (λ s, s = preferred) servers) as P.
  apply Permutation_length in P. rewrite length_app in P.
  assert (∀ x, x ∈ filter (λ s, s = preferred) servers → x = preferred ∧ preferred ∈ servers) as F.
  { intros x [-> H]%list_elem_of_filter. done. }
  case_bool_decide as Hin.
  - destruct (negb _) eqn:G; guards; unfold zlen in G; cbn in G; [left; split; [done|lia]|].
    right. destruct (filter (λ s, s = preferred) servers) as [|x [|y l]] eqn:E; cbn in P; [lia| |lia].
    destruct (F x) as [-> _]; [left|done].
  - assert (filter (λ s, s = preferred) servers = []) as E.
    { apply elem_of_nil_inv. intros x Hx. by destruct (F x Hx). }
    rewrite E in P |- *. cbn in P. left. split; [|cbn; lia].
    destruct (negb _) eqn:G; [done|]. cbn. rewrite (filter_ext_in _ (λ _, True)).
    + clear. induction servers as [|x l IH]; [done|]. rewrite filter_cons_True by done. by rewrite IH.
    + intros x Hx. split; [done|]. intros _ ->. done.
Qed.

(** Rebuilding the endpoint pool keeps it: after a recovery the list of
    endpoints is a permutation of the configured one, with the preferred endpoint
    first when it is configured once, and the others in their order. *)
Lemma preferAdaptiveServer_spec servers preferred :
  preferAdaptiveServer servers preferred ≡ₚ servers ∧
  (preferred ≠ "" → length (filter (λ s, s = preferred) servers) = 1%nat →
   preferAdaptiveServer servers preferred = preferred :: filter (λ s, s ≠ preferred) servers).
Proof.
  destruct (prefer_cases servers preferred) as [[-> C]|[E ->]].
  - split; [done|]. intros N1 N2. destruct C as [?|[L|[H|?]]]; [done| | |done].
    + destruct servers as [|x [|y l]]; [done| |unfold zlen in L; cbn in L; lia].
      rewrite filter_cons in N2. case_decide; [|done]. subst x. by rewrite filter_cons_False by naive_solver.
    + destruct servers as [|x l]; [done|]. injection H as ->. rewrite filter_cons_True in N2 by done.
      rewrite filter_cons_False by naive_solver. f_equal. injection N2 as N2.
      apply length_zero_iff_nil in N2. symmetry.
      pose proof (filter_app_complement (λ s, s = preferred) l) as P. rewrite N2 in P. cbn in P.
      clear P. induction l as [|x l IH]; [done|]. rewrite filter_cons in N2. case_decide; [done|].
      rewrite filter_cons_True by done. by rewrite IH.
  - split; [|done]. pose proof (filter_app_complement (λ s, s = preferred) servers) as P.
    by rewrite E in P.
Qed.

(** ** Facts: resolution *)

Section resolve_facts.
Context {A : Type} `{NA : NetAddr A} (resolver : string → option A).

(** What the loop has established after the servers [seen]. *)
Record resolved (seen : list string) (r : resolution A) : Prop := {
  res_distinct : NoDup (addr_string <$> serverAddrs r);
  res_parallel : Forall2 (λ name a, resolver name = Some a ∧
    serverSources r !! addr_string a = Some name) (serverNames r) (serverAddrs r);
  res_sources : ∀ key, is_Some (serverSources r !! key) ↔ key ∈ addr_string <$> serverAddrs r;
  res_unresolved : unresolved r = filter (λ s, resolver s = None) seen;
  res_covered : ∀ s a, s ∈ seen → resolver s = Some a → addr_string a ∈ addr_string <$> serverAddrs r;
  res_order : serverNames r `sublist_of` seen;
}.

Lemma resolve_step_resolved seen r raw :
  resolved seen r → resolved (seen ++ [raw]) (resolve_step resolver r raw).
Proof.
  intros [D P S U C O]. unfold resolve_step. destruct (resolver raw) as [a|] eqn:E.
  - assert (filter (λ s, resolver s = None) (seen ++ [raw]) = unresolved r) as U'.
    { rewrite filter_app, filter_cons_False, app_nil_r by congruence. done. }
    case_bool_decide as K.
    + split; [done..| | |].
      * by rewrite U'.
      * intros s b [Hs|Hs]%elem_of_app; [by eapply C|]. apply list_elem_of_singleton in Hs as ->.
        rewrite E. intros [= <-]. by apply S.
      * by apply sublist_inserts_r.
    + assert (serverSources r !! addr_string a = None) as K' by (by apply eq_None_not_Some).
      split; cbn.
      * rewrite fmap_app. apply NoDup_app. split_and!; [done| |repeat constructor; set_solver].
        intros k Hk. rewrite <- S in Hk. cbn. rewrite list_elem_of_singleton. by intros ->.
      * apply Forall2_app; [|repeat constructor; [done|by apply lookup_insert_eq]].
        eapply Forall2_impl; [exact P|]. cbn. intros name b [? Hb]. split; [done|].
        rewrite lookup_insert_ne; [done|]. congruence.
      * intros key. rewrite lookup_insert_is_Some', S, fmap_app, elem_of_app. cbn.
        rewrite list_elem_of_singleton. naive_solver.
      * by rewrite U'.
      * intros s b [Hs|Hs]%elem_of_app; rewrite fmap_app, elem_of_app.
        { intros Hb. left. by eapply C. }
        apply list_elem_of_singleton in Hs as ->. rewrite E. intros [= <-]. right. by left.
      * by apply sublist_app.
  - split; cbn; [done..| | |].
    + by rewrite U, filter_app, filter_cons_True.
    + intros s b [Hs|Hs]%elem_of_app; [by eapply C|]. apply list_elem_of_singleton in Hs as ->. congruence.
    + by apply sublist_inserts_r.
Qed.

Lemma resolve_fold_resolved seen servers r :
  resolved seen r → resolved (seen ++ servers) (fold_left (resolve_step resolver) servers r).
Proof.
  revert seen r. induction servers as [|s servers IH]; intros seen r H; cbn.
  { by rewrite app_nil_r. }
  replace (seen ++ s :: servers) with ((seen ++ [s]) ++ servers) by (by rewrite <- app_assoc).
  by apply IH, resolve_step_resolved.
Qed.

Lemma resolve_all_resolved servers :
  resolved servers (fold_left (resolve_step resolver) servers (mkResolution [] [] ∅ [])).
Proof.
  apply (resolve_fold_resolved []). split; cbn.
  - apply NoDup_nil_2.
  - constructor.
  - intros key. rewrite lookup_empty, elem_of_nil. split; [by intros [? ?]|done].
  - done.
  - intros s a H. by apply not_elem_of_nil in H.
  - constructor.
Qed.

(** Endpoint resolution: it fails exactly when no configured endpoint resolves.
    Otherwise no two endpoints of the pool share an address, every name of the pool
    resolved to its address and is found again from it, every configured endpoint is
    in the pool by its address or listed as unresolved, and the configured order is
    kept. *)
Lemma resolveAdaptiveServers_spec servers :
  let '(r, res) := resolveAdaptiveServers resolver servers in
  unresolved r = filter (λ s, resolver s = None) servers ∧
  ((∀ s, s ∈ servers → resolver s = None) ∧ is_ok res = false ∧ serverAddrs r = [] ∨
   res = Ok tt ∧ serverAddrs r ≠ [] ∧ resolved servers r).
Proof.
  unfold resolveAdaptiveServers. pose proof (resolve_all_resolved servers) as R.
  set (acc := fold_left _ _ _) in *. destruct (Z.eqb_spec (zlen (serverAddrs acc)) 0) as [Z0|N].
  - split; [apply R|]. left. split_and!; [|done..]. intros s Hs.
    assert (serverAddrs acc = []) as E
      by (destruct (serverAddrs acc); [done|unfold zlen in Z0; cbn in Z0; lia]).
    destruct (resolver s) as [a|] eqn:Ea; [|done].
    pose proof (res_covered _ _ R s a Hs Ea) as H. rewrite E in H. by apply not_elem_of_nil in H.
  - split; [apply R|]. right. split_and!; [done| |done]. intros E. by rewrite E in N.
Qed.
End resolve_facts.

(** ** Facts: the single-endpoint relay *)

Section relay_facts.
Context `{GCM : AesGcm} {A L O : Type} `{US : UDPSocket A L} `{UL : UDPLink O}.
Implicit Types (c : Client A L O) (s : Server A L O).

(** Client and server hold the same keys in opposite directions. *)
Definition paired c s : Prop :=
  codec_wf (client_tx c) ∧ codec_wf (server_tx s) ∧
  codec_aead (server_rx s) = codec_aead (client_tx c) ∧
  codec_aead (client_rx c) = codec_aead (server_tx s).

Lemma Seal_Open tx rx payload random packet rest :
  codec_wf tx → codec_aead rx = codec_aead tx →
  Seal tx payload random = Ok (packet, rest) → Open rx packet = Ok payload.
Proof.
  intros Wf E S. destruct (sealType_Ok tx packetData payload random packet rest Wf S)
    as (K & Lp & nonce & padding & Hn & Hp & Ep).
  unfold Open. rewrite (proj2 (open_typed_iff rx packet packetData payload)); [done|].
  rewrite E. split_and!; [done| |eauto]. unfold maxInnerPacket, nonceSize, headerSize in Lp. lia.
Qed.

Lemma client_local_read_sends done c packet from outer random :
  Seal (client_tx c) packet (client_random c) = Ok (outer, random) →
  let '(c', o) := client_local_read done c packet from in
  client_wgPeer c' = Some from ∧ client_outer c' = (LinkWrite (client_outer c) outer).1 ∧
  client_local c' = client_local c ∧ client_rx c' = client_rx c ∧
  ((LinkWrite (client_outer c) outer).2 = None → o = Continue).
Proof.
  intros E. unfold client_local_read. cbn [client_tx client_random client_outer]. rewrite E.
  destruct (LinkWrite _ _) as [o' [e|]]; cbn; by split_and!.
Qed.

Lemma server_outer_read_forwards done s packet from inner :
  Open (server_rx s) packet = Ok inner →
  let '(s', o) := server_outer_read done s packet from in
  server_clientPeer s' = Some from ∧ server_target s' = (LinkWrite (server_target s) inner).1 ∧
  server_outer s' = server_outer s ∧ server_tx s' = server_tx s ∧ server_random s' = server_random s ∧
  ((LinkWrite (server_target s) inner).2 = None → o = Continue).
Proof.
  intros E. unfold server_outer_read. cbn [server_rx server_count server_target]. rewrite E.
  destruct (LinkWrite _ _) as [o' [e|]]; cbn; by split_and!.
Qed.

Lemma server_target_read_replies done s packet peer outer random :
  server_clientPeer s = Some peer → Seal (server_tx s) packet (server_random s) = Ok (outer, random) →
  server_outer (server_target_read done s packet).1 = (WriteTo (server_outer s) outer peer).1.
Proof.
  intros P E. unfold server_target_read. cbn [server_clientPeer server_count]. rewrite P.
  unfold server_count. cbn [server_tx server_random server_outer]. rewrite E.
  destruct (WriteTo _ _ _) as [o' [e|]]; by cbn.
Qed.

Lemma client_outer_read_delivers done c packet peer inner :
  client_wgPeer c = Some peer → Open (client_rx c) packet = Ok inner →
  client_local (client_outer_read done c packet).1 = (WriteTo (client_local c) inner peer).1.
Proof.
  intros P E. unfold client_outer_read. cbn [client_rx client_count]. rewrite E.
  unfold client_count. cbn [client_wgPeer]. rewrite P. cbn [client_local].
  destruct (WriteTo _ _ _) as [o' [e|]]; by cbn.
Qed.

(** The relay is transparent.  A packet WireGuard hands to the client is sealed
    and sent to the relay; the server that receives the datagram writes the same
    packet to its WireGuard target and remembers where it came from.  The target's
    answer goes sealed to that address, and the client that receives it writes the
    answer to the WireGuard peer it serves. *)
Lemma relay_round_trip c s request answer wireguard clientAddr outer rest :
  paired c s →
  Seal (client_tx c) request (client_random c) = Ok (outer, rest) →
  let c1 := (client_local_read false c request wireguard).1 in
  let s1 := (server_outer_read false s outer clientAddr).1 in
  client_outer c1 = (LinkWrite (client_outer c) outer).1 ∧
  server_target s1 = (LinkWrite (server_target s) request).1 ∧
  ∀ reply rest', Seal (server_tx s) answer (server_random s) = Ok (reply, rest') →
    server_outer (server_target_read false s1 answer).1
      = (WriteTo (server_outer s) reply clientAddr).1 ∧
    client_local (client_outer_read false c1 reply).1
      = (WriteTo (client_local c) answer wireguard).1.
Proof.
  intros (Wc & Ws & K1 & K2) E. cbv zeta.
  pose proof (client_local_read_sends false c request wireguard outer rest E) as C.
  destruct (client_local_read _ _ _ _) as [c1 o1]. destruct C as (C1 & C2 & C3 & C4 & _).
  pose proof (server_outer_read_forwards false s outer clientAddr request) as S.
  rewrite (Seal_Open _ _ _ _ _ _ Wc K1 E) in S. specialize (S eq_refl).
  destruct (server_outer_read _ _ _ _) as [s1 o2]. destruct S as (S1 & S2 & S3 & S4 & S5 & _).
  cbn [fst]. split_and!; [done..|]. intros reply rest' R. split.
  - rewrite <- S3. apply (server_target_read_replies _ _ _ _ _ rest' S1). by rewrite S4, S5.
  - rewrite <- C3. apply client_outer_read_delivers; [done|]. rewrite C4.
    by apply (Seal_Open _ _ _ _ _ _ Ws K2 R).
Qed.

(** The server acts only on authentic traffic: a datagram that its key does not
    open is counted and changes neither the remembered client, nor the target, nor
    the outer socket, and the loop goes on; every other datagram is exactly a sealed
    data payload, which is what the target gets. *)
Lemma server_authenticates s packet from :
  let '(s', o) := server_outer_read false s packet from in
  o ≠ Crash ∧
  ((server_clientPeer s' = server_clientPeer s ∧ server_target s' = server_target s ∧
    server_outer s' = server_outer s ∧ o = Continue ∧
    AuthDrops (server_stats s') = atomic_add (AuthDrops (server_stats s)) 1) ∨
   ∃ inner nonce padding, zlen nonce = nonceSize ∧
     packet = nonce ++ aead_seal (codec_aead (server_rx s)) nonce
                (plaintext_of packetData inner padding) aad ∧
     server_clientPeer s' = Some from ∧ server_target s' = (LinkWrite (server_target s) inner).1).
Proof.
  unfold server_outer_read. cbn [server_rx server_count].
  destruct (Open (server_rx s) packet) as [inner|e|] eqn:E.
  - unfold server_count. cbn [server_target]. destruct (LinkWrite _ _) as [o' [e|]] eqn:Wr.
    all: unfold Open in E; apply bind_Ok in E as ([t p] & E & Hc); apply check_then in Hc as [G Hc];
      guards; subst t; injection Hc as ->; apply open_typed_iff in E as (_ & _ & nonce & padding & Hn & ->).
    all: split; [done|right]; exists inner, nonce, padding; by rewrite Wr.
  - cbn. split; [done|]. left. by split_and!.
  - exfalso. unfold Open in E. destruct (OpenTyped (server_rx s) packet) as [[t p]|e|] eqn:E'; cbn in E.
    + by destruct (negb _).
    + done.
    + by apply open_typed_no_panic in E'.
Qed.
End relay_facts.
