(* ===== verification/WgshimAdaptive.v ===== *)
(** * The adaptive UDP client of the shim ([runAdaptiveClientOnce] of relay.go)

    A client with several relay endpoints: it sends WireGuard through the endpoint
    the path manager selected, duplicates transport data to the previous endpoint
    during a migration, probes all endpoints and feeds the manager. *)

From Stdlib Require Import Strings.Byte.
From S2P Require Import Prelude GoLib GoStrings GoEncoding Float64 GoNet Crypto.
From S2P Require Import WgshimCodec WgshimPath WgshimRelay.

Record EndpointReport := mkEndpointReport {
  Report_Selected : string;
  Report_RTT : Z;
  Report_Reachable : Z;
  Report_Total : Z;
  Report_Switched : bool;
  Report_PreserveSession : bool;
  Report_Paths : list PathHealth;
}.

Record probePending := mkProbePending { probe_endpoint : string; probe_sent : Z }.
Record probeMeasurement := mkMeasurement { measured_endpoint : string; measured_rtt : Z }.

Definition probeResultsCapacity : Z := 128.
Definition samplesPerEndpoint : Z := 3.

Section adaptive.
Context `{GCM : AesGcm} `{GS : GoSort} {A L O : Type}.
Context `{NA : NetAddr A} `{UL : UDPSocket A L} `{UO : UDPSocket A O}.

Record AdaptiveClientConfig := mkAdaptiveConfig {
  WireGuardHandoff : bool;
  Cfg_Servers : list string;
  Cfg_TX : Codec;
  Cfg_RX : Codec;
  Cfg_ProbeTimeout : Z;
  Cfg_SwitchThreshold : Z;
  Cfg_ProbeInterval : Z;
  Cfg_ResolveRetryInterval : Z;
  Cfg_Policy : PathPolicy;
}.

(** The checks and defaults at the start of [runAdaptiveClientOnce]. *)
Definition adaptive_config (cfg : AdaptiveClientConfig) : result AdaptiveClientConfig :=
  check (zlen (Cfg_Servers cfg) =? 0) "adaptive client requires at least one server" ;;
  let threshold := positive_or (Cfg_SwitchThreshold cfg) (10 * millisecond) in
  let p := Cfg_Policy cfg in
  Ok (mkAdaptiveConfig (WireGuardHandoff cfg) (Cfg_Servers cfg) (Cfg_TX cfg) (Cfg_RX cfg)
        (positive_or (Cfg_ProbeTimeout cfg) (400 * millisecond)) threshold
        (positive_or (Cfg_ProbeInterval cfg) (250 * millisecond))
        (positive_or (Cfg_ResolveRetryInterval cfg) (5 * second))
        (mkPathPolicy (positive_or (MinimumImprovement p) threshold) (MinimumStableDuration p)
           (FailurePenalty p) (RecoveryCooldown p) (FailureThreshold p))).

(** The variables the goroutines share; the last three belong to the probe round. *)
Record Adaptive := mkAdaptive {
  ad_wgPeer : option A;
  ad_selected : Z;
  ad_pending : gmap string probePending;
  ad_results : list probeMeasurement;
  ad_manager : PathManager;
  ad_report : option EndpointReport;
  ad_local : L;
  ad_outer : O;
  ad_stats : Stats;
  ad_random : bytes;
  ad_measurements : gmap string (list Z);
  ad_expected : Z;
  ad_received : Z;
}.
Implicit Types a : Adaptive.

Definition ad_count a (s : Stats) : Adaptive :=
  mkAdaptive (ad_wgPeer a) (ad_selected a) (ad_pending a) (ad_results a) (ad_manager a) (ad_report a)
    (ad_local a) (ad_outer a) s (ad_random a) (ad_measurements a) (ad_expected a) (ad_received a).
Definition ad_set_peer a (p : option A) : Adaptive :=
  mkAdaptive p (ad_selected a) (ad_pending a) (ad_results a) (ad_manager a) (ad_report a)
    (ad_local a) (ad_outer a) (ad_stats a) (ad_random a) (ad_measurements a) (ad_expected a) (ad_received a).
Definition ad_set_manager a (m : PathManager) : Adaptive :=
  mkAdaptive (ad_wgPeer a) (ad_selected a) (ad_pending a) (ad_results a) m (ad_report a)
    (ad_local a) (ad_outer a) (ad_stats a) (ad_random a) (ad_measurements a) (ad_expected a) (ad_received a).
Definition ad_set_local a (l : L) : Adaptive :=
  mkAdaptive (ad_wgPeer a) (ad_selected a) (ad_pending a) (ad_results a) (ad_manager a) (ad_report a)
    l (ad_outer a) (ad_stats a) (ad_random a) (ad_measurements a) (ad_expected a) (ad_received a).
Definition ad_set_outer a (o : O) (random : bytes) : Adaptive :=
  mkAdaptive (ad_wgPeer a) (ad_selected a) (ad_pending a) (ad_results a) (ad_manager a) (ad_report a)
    (ad_local a) o (ad_stats a) random (ad_measurements a) (ad_expected a) (ad_received a).
Definition ad_set_probes a (pending : gmap string probePending) (results : list probeMeasurement) : Adaptive :=
  mkAdaptive (ad_wgPeer a) (ad_selected a) pending results (ad_manager a) (ad_report a)
    (ad_local a) (ad_outer a) (ad_stats a) (ad_random a) (ad_measurements a) (ad_expected a) (ad_received a).
Definition ad_set_round a (ms : gmap string (list Z)) (expected received : Z) : Adaptive :=
  mkAdaptive (ad_wgPeer a) (ad_selected a) (ad_pending a) (ad_results a) (ad_manager a) (ad_report a)
    (ad_local a) (ad_outer a) (ad_stats a) (ad_random a) ms expected received.

Context (cfg : AdaptiveClientConfig) (pool : resolution A).

(** The closure [setSelected]. *)
Definition setSelected a (next rtt reachable : Z) (switched : bool) : result Adaptive :=
  name ← index (serverNames pool) next;
  fallback ← (if WireGuardHandoff cfg then MigrationFallback (ad_manager a) else Ok (-1));
  let paths := Snapshot (ad_manager a) ++
    ((λ e, mkPathHealth "" e false f0 f0 f0 zero_time 0 0 "FAILED" zero_time) <$> unresolved pool) in
  let report := mkEndpointReport name rtt reachable
    (zlen (serverNames pool) + zlen (unresolved pool)) switched (0 <=? fallback) paths in
  Ok (mkAdaptive (ad_wgPeer a) next (ad_pending a) (ad_results a) (ad_manager a) (Some report)
        (ad_local a) (ad_outer a) (ad_stats a) (ad_random a) (ad_measurements a) (ad_expected a)
        (ad_received a)).

Definition getSelected a : result (Z * A) :=
  addr ← index (serverAddrs pool) (ad_selected a); Ok (ad_selected a, addr).

Definition adaptive_start (l : L) (o : O) (random : bytes) : result Adaptive :=
  setSelected (mkAdaptive None 0 ∅ [] (NewPathManager (serverNames pool) (Cfg_Policy cfg)) None l o
                 no_stats random ∅ 0 0) 0 0 0 false.

(** The copy of transport data to the previous endpoint during a migration. *)
Definition send_fallback a (packet outer : bytes) (index : Z) : result Adaptive :=
  if WireGuardHandoff cfg && isWireGuardTransportData packet then
    previous ← MigrationFallback (ad_manager a);
    if (0 <=? previous) && negb (previous =? index) then
      addr ← Prelude.index (serverAddrs pool) previous;
      let '(o, err) := WriteTo (ad_outer a) outer addr in
      let a := ad_set_outer a o (ad_random a) in
      Ok (match err with
          | None => ad_count a (add_OuterTX (ad_stats a) (zlen outer))
          | Some _ => a
          end)
    else Ok a
  else Ok a.

(** A packet from WireGuard. *)
Definition adaptive_local_read (done : bool) a (packet : bytes) (from : A) (now : Z)
    : Adaptive * outcome :=
  let a := ad_set_peer a (Some from) in
  let a := ad_count a (add_InnerTX (ad_stats a) (zlen packet)) in
  match Seal (Cfg_TX cfg) packet (ad_random a) with
  | Err _ => (a, Stop (Some (new_error "seal WireGuard packet: %w")))
  | Panic => (a, Crash)
  | Ok (outer, random) =>
      match getSelected a with
      | Ok (index, endpoint) =>
          let a := ad_set_manager a (MarkSent (ad_manager a) index now) in
          let '(o, err) := WriteTo (ad_outer a) outer endpoint in
          let a := ad_set_outer a o random in
          match err with
          | Some e => (a, Stop (normalizeNetErr done (Some (wrap_error "send adaptive outer UDP: %w" e))))
          | None =>
              let a := ad_count a (add_OuterTX (ad_stats a) (zlen outer)) in
              match send_fallback a packet outer index with
              | Ok a => (a, Continue)
              | _ => (a, Crash)
              end
          end
      | _ => (a, Crash)
      end
  end.

Definition record_reply a (source : A) (inner : bytes) (now : Z) : Adaptive :=
  let token := hex_encode inner in
  match ad_pending a !! token with
  | None => a
  | Some probe =>
      let results :=
        if String.eqb (addr_string source) (probe_endpoint probe)
        then try_send probeResultsCapacity
               (mkMeasurement (default "" (serverSources pool !! probe_endpoint probe))
                  (time_sub now (probe_sent probe))) (ad_results a)
        else ad_results a in
      ad_set_probes a (delete token (ad_pending a)) results
  end.

Definition deliver_inner (done : bool) a (inner : bytes) : Adaptive * outcome :=
  match ad_wgPeer a with
  | None => (ad_count a (add_NoPeerDrop (ad_stats a) 1), Continue)
  | Some peer =>
      let '(l, err) := WriteTo (ad_local a) inner peer in
      let a := ad_set_local a l in
      match err with
      | Some e =>
          (a, Stop (normalizeNetErr done (Some (wrap_error "deliver adaptive packet to WireGuard: %w" e))))
      | None => (ad_count a (add_InnerRX (ad_stats a) (zlen inner)), Continue)
      end
  end.

(** A datagram on the outer socket. *)
Definition adaptive_outer_read (done : bool) a (packet : bytes) (source : A) (now : Z)
    : Adaptive * outcome :=
  match serverSources pool !! addr_string source with
  | None => (a, Continue)
  | Some name =>
      let a := ad_count a (add_OuterRX (ad_stats a) (zlen packet)) in
      match OpenTyped (Cfg_RX cfg) packet with
      | Err _ => (ad_count a (add_AuthDrops (ad_stats a) 1), Continue)
      | Panic => (a, Crash)
      | Ok (packetType, inner) =>
          if IsProbeReply packetType then (record_reply a source inner now, Continue)
          else if negb (IsData packetType) then (a, Continue)
          else if negb (WireGuardHandoff cfg) || isWireGuardTransportData inner then
            deliver_inner done (ad_set_manager a (ConfirmTraffic (ad_manager a) name now)) inner
          else
            match getSelected a with
            | Ok (_, selectedAddr) =>
                if negb (String.eqb (addr_string source) (addr_string selectedAddr)) then (a, Continue)
                else deliver_inner done a inner
            | _ => (a, Crash)
            end
      end
  end.

(** One sample of a probe round. *)
Definition send_probe a (i : nat) (now : Z) : Adaptive * outcome :=
  match randomIndex 25 (ad_random a) with
  | Ok (extra, random) =>
      match read_full random (Z.to_nat (8 + extra)) with
      | None => (a, Stop (Some (new_error "generate adaptive probe token: %w")))
      | Some (token, random) =>
          match index (serverAddrs pool) (Z.of_nat i) with
          | Ok endpoint =>
              let key := hex_encode token in
              let a := ad_set_probes a
                (<[key := mkProbePending (addr_string endpoint) now]> (ad_pending a)) (ad_results a) in
              match SealProbe (Cfg_TX cfg) token random with
              | Err _ => (a, Stop (Some (new_error "seal adaptive probe: %w")))
              | Panic => (a, Crash)
              | Ok (packet, random) =>
                  let '(o, err) := WriteTo (ad_outer a) packet endpoint in
                  let a := ad_set_outer a o random in
                  match err with
                  | None =>
                      let a := ad_count a (add_OuterTX (ad_stats a) (zlen packet)) in
                      (ad_set_round a (ad_measurements a) (ad_expected a + 1) (ad_received a), Continue)
                  | Some _ => (ad_set_probes a (delete key (ad_pending a)) (ad_results a), Continue)
                  end
              end
          | _ => (a, Crash)
          end
      end
  | _ => (a, Crash)
  end.

Fixpoint send_probes a (targets : list nat) (now : Z) : Adaptive * outcome :=
  match targets with
  | [] => (a, Continue)
  | i :: targets =>
      match send_probe a i now with
      | (a, Continue) => send_probes a targets now
      | other => other
      end
  end.

(** The start of a probe round: three samples per endpoint, endpoints shuffled. *)
Definition probe_round a (now : Z) : Adaptive * outcome :=
  let a := ad_set_round a ∅ 0 0 in
  match probe_order (length (serverAddrs pool)) (ad_random a) with
  | Ok (order, random) =>
      let a := ad_set_outer a (ad_outer a) random in
      send_probes a (order ≫= λ i, replicate (Z.to_nat samplesPerEndpoint) i) now
  | _ => (a, Crash)
  end.

(** One iteration of the collecting loop that receives a measurement. *)
Definition collect a : option Adaptive :=
  match ad_results a with
  | m :: rest =>
      if ad_received a <? ad_expected a then
        let name := measured_endpoint m in
        let ms := default [] (ad_measurements a !! name) in
        Some (ad_set_round (ad_set_probes a (ad_pending a) rest)
                (<[name := ms ++ [measured_rtt m]]> (ad_measurements a))
                (ad_expected a) (ad_received a + 1))
      else None
  | [] => None
  end.

Fixpoint observe_all (m : PathManager) (ms : gmap string (list Z)) (i : Z) (names : list string) (now : Z)
    : result PathManager :=
  match names with
  | [] => Ok m
  | name :: names =>
      m ← Observe m i samplesPerEndpoint (default [] (ms !! name)) now;
      observe_all m ms (i + 1) names now
  end.

(** The end of a probe round. *)
Definition round_end a (now : Z) : result Adaptive :=
  let a := ad_set_probes a
    (filter (λ '(_, p), ¬ Cfg_ProbeTimeout cfg <= time_sub now (probe_sent p)) (ad_pending a))
    (ad_results a) in
  m ← observe_all (ad_manager a) (ad_measurements a) 0 (serverNames pool) now;
  '(m, next, switched) ← Select m now;
  let a := ad_set_manager a m in
  let health := Snapshot m in
  let reachable := zlen (List.filter PH_Reachable health) in
  h ← index health next;
  setSelected a next (f_trunc (fmul (PH_RTTMS h) (f_of_Z millisecond))) reachable switched.

(** The interleavings of the goroutines.  A sample of a probe round may be sent at
    any time of the run, which covers every order [probe_round] can take. *)
Inductive adaptive_step : Adaptive → Adaptive → Prop :=
| step_local a packet from now :
    adaptive_step a (adaptive_local_read false a packet from now).1
| step_outer a packet source now :
    adaptive_step a (adaptive_outer_read false a packet source now).1
| step_round_begin a : adaptive_step a (ad_set_round a ∅ 0 0)
| step_probe a i now : (i < length (serverAddrs pool))%nat → adaptive_step a (send_probe a i now).1
| step_collect a a' : collect a = Some a' → adaptive_step a a'
| step_round_end a now a' : round_end a now = Ok a' → adaptive_step a a'.

Definition adaptive_reach a : Prop :=
  ∃ l o random a0, adaptive_start l o random = Ok a0 ∧ rtc adaptive_step a0 a.
End adaptive.
Arguments AdaptiveClientConfig {GCM}.
Arguments Adaptive A L O : clear implicits.

(** ** Facts *)

Section adaptive_facts.
Context `{GCM : AesGcm} `{GS : GoSort} {A L O : Type}.
Context `{NA : NetAddr A} `{UL : UDPSocket A L} `{UO : UDPSocket A O}.
Context (cfg : AdaptiveClientConfig) (pool : resolution A) (resolver : string → option A).
Implicit Types a : Adaptive A L O.

Record ad_inv a : Prop := {
  ai_manager : manager_inv (serverNames pool) (ad_manager a);
  ai_selected : ad_selected a = active (ad_manager a);
  ai_results : zlen (ad_results a) <= probeResultsCapacity;
  ai_pending : ∀ t p, ad_pending a !! t = Some p → is_Some (serverSources pool !! probe_endpoint p);
  ai_measured : ∀ m, m ∈ ad_results a → measured_endpoint m ∈ serverNames pool;
}.

(** A pool as [resolveAdaptiveServers] builds it. *)
Definition pool_ok : Prop := serverAddrs pool ≠ [] ∧ resolved resolver (Cfg_Servers cfg) pool.

Context (PO : pool_ok).

Lemma pool_lengths : length (serverNames pool) = length (serverAddrs pool).
Proof. destruct PO as [_ R]. eapply Forall2_length, (res_parallel _ _ _ R). Qed.

Lemma pool_names_ne : serverNames pool ≠ [].
Proof.
  destruct PO as [N _]. pose proof pool_lengths as E. destruct (serverNames pool); [|done].
  by destruct (serverAddrs pool).
Qed.

Lemma manager_length m : manager_inv (serverNames pool) m → zlen (paths m) = zlen (serverAddrs pool).
Proof.
  intros I. unfold zlen. rewrite <- pool_lengths, <- (mi_endpoints _ _ I). by rewrite length_fmap.
Qed.

Lemma pool_source_name key name : serverSources pool !! key = Some name → name ∈ serverNames pool.
Proof.
  destruct PO as [_ R]. intros E. pose proof (proj1 (res_sources _ _ _ R key) ltac:(eauto)) as H.
  apply list_elem_of_fmap in H as (x & -> & Hx). apply list_elem_of_lookup in Hx as [i Hi].
  destruct (Forall2_lookup_r _ _ _ _ _ (res_parallel _ _ _ R) Hi) as (n & Hn & _ & Hs).
  rewrite E in Hs. injection Hs as ->. by eapply list_elem_of_lookup_2.
Qed.

Lemma pool_addr_source i x : serverAddrs pool !! i = Some x → is_Some (serverSources pool !! addr_string x).
Proof.
  destruct PO as [_ R]. intros H. apply (res_sources _ _ _ R), list_elem_of_fmap. exists x. split; [done|].
  by eapply list_elem_of_lookup_2.
Qed.

Lemma setSelected_ok a next rtt reachable switched :
  manager_inv (serverNames pool) (ad_manager a) → next = active (ad_manager a) →
  ∃ report, setSelected cfg pool a next rtt reachable switched =
    Ok (mkAdaptive (ad_wgPeer a) next (ad_pending a) (ad_results a) (ad_manager a) (Some report)
          (ad_local a) (ad_outer a) (ad_stats a) (ad_random a) (ad_measurements a) (ad_expected a)
          (ad_received a)).
Proof.
  intros I ->. unfold setSelected. pose proof (mi_active _ _ I) as H. rewrite (manager_length _ I) in H.
  destruct (index_ok (serverNames pool) (active (ad_manager a))) as (x & -> & _).
  { unfold zlen in *. by rewrite pool_lengths. }
  cbn [mbind result_bind]. destruct (MigrationFallback_ok _ _ I) as (f & Ef & _).
  destruct (WireGuardHandoff cfg); rewrite ?Ef; cbn [mbind result_bind]; eauto.
Qed.

Lemma getSelected_ok a : ad_inv a →
  ∃ x, getSelected pool a = Ok (ad_selected a, x) ∧ serverAddrs pool !! Z.to_nat (ad_selected a) = Some x.
Proof.
  intros I. unfold getSelected. destruct (index_ok (serverAddrs pool) (ad_selected a)) as (x & -> & Hx).
  { rewrite (ai_selected _ I), <- (manager_length _ (ai_manager _ I)). apply I. }
  cbn. eauto.
Qed.

(** Changes that do not concern the invariant. *)
Lemma ad_inv_frame a a' :
  ad_inv a → ad_manager a' = ad_manager a → ad_selected a' = ad_selected a →
  ad_results a' = ad_results a → ad_pending a' = ad_pending a → ad_inv a'.
Proof. intros [] Em Es Er Ep. by split; rewrite ?Em, ?Es, ?Er, ?Ep. Qed.

Lemma ad_inv_manager a m :
  ad_inv a → manager_inv (serverNames pool) m → active m = active (ad_manager a) → ad_inv (ad_set_manager a m).
Proof. intros [] M E. split; cbn; try done. congruence. Qed.

Lemma deliver_inner_inv done a inner : ad_inv a →
  ad_inv (deliver_inner done a inner).1 ∧ (deliver_inner done a inner).2 ≠ Crash.
Proof.
  intros I. unfold deliver_inner. destruct (ad_wgPeer a) as [p|].
  - destruct (WriteTo _ _ _) as [l [e|]]; cbn; (split; [by eapply ad_inv_frame|done]).
  - split; [by eapply ad_inv_frame|done].
Qed.

Lemma record_reply_inv a source inner now : ad_inv a → ad_inv (record_reply pool a source inner now).
Proof.
  intros I. unfold record_reply. destruct (ad_pending a !! _) as [p|] eqn:E; [|done].
  destruct I as [IM IS IR IP IE]. split; cbn; [done..| | |].
  - destruct (String.eqb _ _); [|done]. by apply try_send_bound.
  - intros t q [_ H]%lookup_delete_Some. by eapply IP.
  - destruct (String.eqb _ _); [|done]. intros m [H| ->]%try_send_elem; [by apply IE|]. cbn.
    destruct (IP _ _ E) as [name Hn]. rewrite Hn. by eapply pool_source_name.
Qed.

Lemma send_fallback_ok a packet outer :
  ad_inv a → ∃ a', send_fallback cfg pool a packet outer (ad_selected a) = Ok a' ∧ ad_inv a'.
Proof.
  intros I. unfold send_fallback. destruct (_ && _); [|eauto].
  destruct (MigrationFallback_ok _ _ (ai_manager _ I)) as (f & -> & Hf). cbn [mbind result_bind].
  destruct (_ && _) eqn:G; [|eauto]. guards. destruct Hf as [?|(Hf & _)]; [lia|].
  rewrite (manager_length _ (ai_manager _ I)) in Hf.
  destruct (index_ok (serverAddrs pool) f Hf) as (x & -> & _). cbn [mbind result_bind].
  destruct (WriteTo _ _ _) as [o [e|]]; eexists; (split; [done|]); by eapply ad_inv_frame.
Qed.

Lemma adaptive_local_read_ok done a packet from now : ad_inv a →
  ad_inv (adaptive_local_read cfg pool done a packet from now).1 ∧
  (adaptive_local_read cfg pool done a packet from now).2 ≠ Crash.
Proof.
  intros I. unfold adaptive_local_read.
  set (a1 := ad_count _ _). assert (ad_inv a1) as I1 by (by eapply ad_inv_frame).
  destruct (Seal _ _ _) as [[outer random]|e|] eqn:E; [|done|by apply sealType_no_panic in E].
  destruct (getSelected_ok a1 I1) as (x & -> & _).
  set (a2 := ad_set_manager a1 _). assert (ad_inv a2) as I2.
  { apply ad_inv_manager; [done|apply MarkSent_inv, I1|apply MarkSent_active]. }
  destruct (WriteTo (ad_outer a2) outer x) as [o [e|]]; cbn zeta iota beta.
  { split; [|done]. by eapply ad_inv_frame. }
  set (a3 := ad_count _ _). assert (ad_inv a3) as I3 by (by eapply ad_inv_frame).
  destruct (send_fallback_ok a3 packet outer I3) as (a4 & E4 & I4).
  change (ad_selected a1) with (ad_selected a3). by rewrite E4.
Qed.

Lemma adaptive_outer_read_ok done a packet source now : ad_inv a →
  ad_inv (adaptive_outer_read cfg pool done a packet source now).1 ∧
  (adaptive_outer_read cfg pool done a packet source now).2 ≠ Crash.
Proof.
  intros I. unfold adaptive_outer_read. destruct (serverSources pool !! _) as [name|]; [|done].
  set (a1 := ad_count _ _). assert (ad_inv a1) as I1 by (by eapply ad_inv_frame).
  destruct (OpenTyped _ _) as [[t inner]|e|] eqn:E; [| |by apply open_typed_no_panic in E].
  2: { split; [by eapply ad_inv_frame|done]. }
  destruct (IsProbeReply t); [split; [by apply record_reply_inv|done]|].
  destruct (negb (IsData t)); [done|]. destruct (_ || _).
  - apply deliver_inner_inv, ad_inv_manager; [done|apply ConfirmTraffic_inv, I1|apply ConfirmTraffic_active].
  - destruct (getSelected_ok a1 I1) as (x & -> & _). destruct (negb _); [done|]. by apply deliver_inner_inv.
Qed.

Lemma send_probe_ok a i now : ad_inv a → (i < length (serverAddrs pool))%nat →
  ad_inv (send_probe cfg pool a i now).1 ∧ (send_probe cfg pool a i now).2 ≠ Crash.
Proof.
  intros I Hi. unfold send_probe.
  destruct (randomIndex_range 25 (ad_random a)) as (extra & random & -> & _); [lia|].
  destruct (read_full random _) as [[token random']|]; [|done].
  destruct (index_ok (serverAddrs pool) (Z.of_nat i)) as (x & -> & Hx); [unfold zlen; lia|].
  rewrite Nat2Z.id in Hx. set (a1 := ad_set_probes a _ _). assert (ad_inv a1) as I1.
  { destruct I as [IM IS IR IP IE]. split; cbn; [done..| |done].
    intros t p [[<- <-]|[_ H]]%lookup_insert_Some; [by eapply pool_addr_source|by eapply IP]. }
  destruct (SealProbe _ _ _) as [[packet random2]|e|] eqn:E; [|done|by apply sealType_no_panic in E].
  destruct (WriteTo _ _ _) as [o [e|]]; cbn; (split; [|done]).
  - destruct I1 as [IM IS IR IP IE]. split; cbn; [done..| |done].
    intros t p [_ H]%lookup_delete_Some. by eapply IP.
  - by eapply ad_inv_frame.
Qed.

Lemma collect_inv a a' : ad_inv a → collect a = Some a' → ad_inv a'.
Proof.
  intros [IM IS IR IP IE] E. unfold collect in E. destruct (ad_results a) as [|m rest] eqn:R; [done|].
  destruct (_ <? _); [|done]. injection E as <-. split; cbn; try done.
  - autorewrite with zlen in IR. lia.
  - intros m' H. apply IE. by right.
Qed.

Lemma observe_all_ok m ms i names now :
  manager_inv (serverNames pool) m →
  ∃ m', observe_all m ms i names now = Ok m' ∧ manager_inv (serverNames pool) m'.
Proof.
  revert m i. induction names as [|name names IH]; intros m i I; cbn [observe_all]; [eauto|].
  destruct (Observe_inv (serverNames pool) m i samplesPerEndpoint (default [] (ms !! name)) now I)
    as (m1 & -> & I1). cbn [mbind result_bind].
  by apply IH.
Qed.

Lemma round_end_ok a now : ad_inv a → ∃ a', round_end cfg pool a now = Ok a' ∧ ad_inv a'.
Proof.
  intros I. unfold round_end. set (a1 := ad_set_probes a _ _). assert (ad_inv a1) as I1.
  { destruct I as [IM IS IR IP IE]. split; cbn; [done..| |done].
    intros t p [H _]%map_lookup_filter_Some. by eapply IP. }
  destruct (observe_all_ok (ad_manager a1) (ad_measurements a1) 0 (serverNames pool) now) as (m1 & -> & M1);
    [apply I1|]. cbn [mbind result_bind].
  destruct (Select_outcome (serverNames pool) m1 now M1) as (cur & [[m2 next] sw] & Hc & -> & S).
  apply (select_outcome_inv (serverNames pool)) in S as [M2 Hn]; [|done..]. cbn in M2, Hn.
  cbn [mbind result_bind]. destruct (index_ok (Snapshot m2) next) as (h & -> & _).
  { unfold Snapshot, zlen. rewrite length_imap. rewrite Hn. apply M2. }
  cbn [mbind result_bind]. edestruct (setSelected_ok (ad_set_manager a1 m2)) as (r & ->); [done|done|].
  eexists. split; [done|]. destruct I1. by split.
Qed.

Lemma adaptive_step_inv a a' : adaptive_step cfg pool a a' → ad_inv a → ad_inv a'.
Proof.
  intros S I. destruct S as [a p f now|a p s now|a|a i now H|a a' E|a now a' E].
  - by apply adaptive_local_read_ok.
  - by apply adaptive_outer_read_ok.
  - by eapply ad_inv_frame.
  - by apply send_probe_ok.
  - by eapply collect_inv.
  - destruct (round_end_ok a now I) as (a2 & E2 & I2). congruence.
Qed.

Lemma adaptive_start_inv l o random :
  ∃ a, adaptive_start cfg pool l o random = Ok a ∧ ad_inv a.
Proof.
  unfold adaptive_start.
  edestruct setSelected_ok as (r & ->); [by apply NewPathManager_inv, pool_names_ne|done|].
  eexists. split; [done|]. split; cbn; try done.
  - apply NewPathManager_inv, pool_names_ne.
  - intros m H. by apply not_elem_of_nil in H.
Qed.

Lemma adaptive_reach_inv a : adaptive_reach cfg pool a → ad_inv a.
Proof.
  intros (l & o & random & a0 & E & R). destruct (adaptive_start_inv l o random) as (a1 & E1 & I).
  rewrite E in E1. injection E1 as <-.
  apply (rtc_ind_r (λ a, ad_inv a)) in R; [done..|]. intros x y _ S IH. by eapply adaptive_step_inv.
Qed.

(** The adaptive client never loses its footing: over every interleaving of
    packets from WireGuard, datagrams from the network and probe rounds, the selected
    endpoint is the path manager's active one and in range, at most 128 measurements
    are queued, all of them of configured endpoints, and no handler panics; the end
    of a probe round always yields a selection. *)
Lemma adaptive_reachable a :
  adaptive_reach cfg pool a →
  ad_inv a ∧
  (∀ packet from now, (adaptive_local_read cfg pool false a packet from now).2 ≠ Crash) ∧
  (∀ packet source now, (adaptive_outer_read cfg pool false a packet source now).2 ≠ Crash) ∧
  (∀ i now, (i < length (serverAddrs pool))%nat → (send_probe cfg pool a i now).2 ≠ Crash) ∧
  (∀ now, is_ok (round_end cfg pool a now) = true).
Proof.
  intros R. pose proof (adaptive_reach_inv a R) as I. split_and!; [done|..].
  - intros. by apply adaptive_local_read_ok.
  - intros. by apply adaptive_outer_read_ok.
  - intros. by apply send_probe_ok.
  - intros now. by destruct (round_end_ok a now I) as (a' & -> & _).
Qed.

Lemma MigrationFallback_MarkSent m i now : MigrationFallback (MarkSent m i now) = MigrationFallback m.
Proof. unfold MarkSent. by destruct (_ && _). Qed.

(** What [send_fallback] writes. *)
Lemma send_fallback_writes a packet outer :
  ad_inv a → ∃ a', send_fallback cfg pool a packet outer (ad_selected a) = Ok a' ∧
    (ad_outer a' = ad_outer a ∧
     (WireGuardHandoff cfg = false ∨ isWireGuardTransportData packet = false ∨
      MigrationFallback (ad_manager a) = Ok (-1)) ∨
     WireGuardHandoff cfg = true ∧ isWireGuardTransportData packet = true ∧
     ∃ f previous p, MigrationFallback (ad_manager a) = Ok f ∧ f ≠ active (ad_manager a) ∧
       paths (ad_manager a) !! Z.to_nat f = Some p ∧ PH_Reachable (health p) = true ∧
       serverAddrs pool !! Z.to_nat f = Some previous ∧
       ad_outer a' = (WriteTo (ad_outer a) outer previous).1).
Proof.
  intros I. unfold send_fallback.
  destruct (WireGuardHandoff cfg); cbn [andb]; [|eexists; split; [done|left; naive_solver]].
  destruct (isWireGuardTransportData packet); [|eexists; split; [done|left; naive_solver]].
  destruct (MigrationFallback_ok _ _ (ai_manager _ I)) as (f & E & Hf). rewrite E. cbn [mbind result_bind].
  destruct Hf as [->|(Hf & Hne & p & Hp & Rp)].
  { eexists. split; [done|left; naive_solver]. }
  rewrite (ai_selected _ I), (proj2 (Z.leb_le 0 f)), (proj2 (Z.eqb_neq f _)) by lia. cbn [andb negb].
  rewrite (manager_length _ (ai_manager _ I)) in Hf.
  destruct (index_ok (serverAddrs pool) f Hf) as (x & -> & Hx). cbn [mbind result_bind].
  destruct (WriteTo _ _ _) as [o err] eqn:Wr. eexists. split; [done|right]. split_and!; [done..|].
  exists f, x, p. rewrite Wr. split_and!; try done. by destruct err.
Qed.

(** Migration without loss or misrouting.  A packet from WireGuard is sealed
    once and sent to the active endpoint.  A handshake packet goes nowhere else.
    Transport data is also sent to the previous endpoint exactly while a hand-off is
    on and a migration is unconfirmed with that endpoint reachable. *)
Lemma adaptive_handoff a packet from now outer random :
  adaptive_reach cfg pool a → Seal (Cfg_TX cfg) packet (ad_random a) = Ok (outer, random) →
  ∃ selected, serverAddrs pool !! Z.to_nat (active (ad_manager a)) = Some selected ∧
  let '(o1, err) := WriteTo (ad_outer a) outer selected in
  let a' := (adaptive_local_read cfg pool false a packet from now).1 in
  (err ≠ None → ad_outer a' = o1) ∧
  (err = None →
     ad_outer a' = o1 ∧
       (WireGuardHandoff cfg = false ∨ isWireGuardTransportData packet = false ∨
        MigrationFallback (ad_manager a) = Ok (-1)) ∨
     WireGuardHandoff cfg = true ∧ isWireGuardTransportData packet = true ∧
     ∃ f previous p, MigrationFallback (ad_manager a) = Ok f ∧ f ≠ active (ad_manager a) ∧
       paths (ad_manager a) !! Z.to_nat f = Some p ∧ PH_Reachable (health p) = true ∧
       serverAddrs pool !! Z.to_nat f = Some previous ∧
       ad_outer a' = (WriteTo o1 outer previous).1).
Proof.
  intros R E. pose proof (adaptive_reach_inv a R) as I. unfold adaptive_local_read.
  set (a1 := ad_count _ _). assert (ad_inv a1) as I1 by (by eapply ad_inv_frame).
  change (ad_random a1) with (ad_random a). rewrite E.
  destruct (getSelected_ok a1 I1) as (x & -> & Hx). rewrite (ai_selected _ I1) in Hx.
  exists x. split; [done|]. set (a2 := ad_set_manager a1 _). assert (ad_inv a2) as I2.
  { apply ad_inv_manager; [done|apply MarkSent_inv, I1|apply MarkSent_active]. }
  change (ad_outer a2) with (ad_outer a).
  destruct (WriteTo (ad_outer a) outer x) as [o [e|]]; cbn zeta iota beta; [by split|]. split; [done|].
  intros _. set (a3 := ad_count _ _). assert (ad_inv a3) as I3 by (by eapply ad_inv_frame).
  destruct (send_fallback_writes a3 packet outer I3) as (a4 & E4 & H).
  change (ad_selected a1) with (ad_selected a3). rewrite E4. cbn [fst].
  change (ad_manager a3) with (MarkSent (ad_manager a) (ad_selected a1) now) in H.
  rewrite MigrationFallback_MarkSent, MarkSent_active in H.
  assert (paths (MarkSent (ad_manager a) (ad_selected a1) now) = paths (ad_manager a)) as Ep
    by (unfold MarkSent; by destruct (_ && _)).
  rewrite Ep in H. exact H.
Qed.

Lemma deliver_inner_probes done a inner :
  ad_results (deliver_inner done a inner).1 = ad_results a ∧
  ad_pending (deliver_inner done a inner).1 = ad_pending a.
Proof.
  unfold deliver_inner. destruct (ad_wgPeer a); [|done]. by destruct (WriteTo _ _ _) as [? [?|]].
Qed.

(** Probe answers are genuine: whatever arrives on the outer socket, a
    measurement is added only for a datagram that opens under the client's key as the
    answer to an outstanding probe and comes from the very endpoint that probe was
    sent to; the probe is then settled, so no answer counts twice.  With hand-off, a
    handshake answer from another endpoint than the selected one is not delivered. *)
Lemma adaptive_answers a packet source now m :
  let a' := (adaptive_outer_read cfg pool false a packet source now).1 in
  (m ∈ ad_results a' → m ∈ ad_results a ∨
   ∃ token probe name, OpenTyped (Cfg_RX cfg) packet = Ok (packetProbeReply, token) ∧
     ad_pending a !! hex_encode token = Some probe ∧ probe_endpoint probe = addr_string source ∧
     serverSources pool !! addr_string source = Some name ∧
     m = mkMeasurement name (time_sub now (probe_sent probe)) ∧
     ad_pending a' = delete (hex_encode token) (ad_pending a)) ∧
  (∀ inner selected, OpenTyped (Cfg_RX cfg) packet = Ok (packetData, inner) →
     WireGuardHandoff cfg = true → isWireGuardTransportData inner = false →
     getSelected pool a = Ok (ad_selected a, selected) → addr_string source ≠ addr_string selected →
     ad_local a' = ad_local a ∧ ad_manager a' = ad_manager a).
Proof.
  unfold adaptive_outer_read. destruct (serverSources pool !! _) as [name|] eqn:Hs; [|by split; [left|]].
  set (a1 := ad_count _ _).
  destruct (OpenTyped _ _) as [[t inner]|e|] eqn:E; [|by split; [left|]..].
  split.
  - destruct (IsProbeReply t) eqn:G.
    + unfold IsProbeReply in G. guards. subst t. unfold record_reply.
      change (ad_pending a1) with (ad_pending a). destruct (ad_pending a !! _) as [p|] eqn:P; [|by left].
      cbn. destruct (String.eqb_spec (addr_string source) (probe_endpoint p)) as [Es|]; [|by left].
      intros [H| ->]%try_send_elem; [by left|]. right. exists inner, p, name. rewrite <- Es, Hs. done.
    + destruct (negb (IsData t)); [by left|]. destruct (_ || _).
      * rewrite (proj1 (deliver_inner_probes _ _ _)). by left.
      * destruct (getSelected pool a1) as [[i x]|e|]; [|by left..]. destruct (negb _); [by left|].
        rewrite (proj1 (deliver_inner_probes _ _ _)). by left.
  - intros i2 selected [= -> <-] Hh Hw Hsel Hne. cbn [IsProbeReply]. rewrite Hh, Hw. cbn.
    change (getSelected pool a1) with (getSelected pool a). rewrite Hsel.
    by rewrite (proj2 (String.eqb_neq _ _) Hne).
Qed.
End adaptive_facts.
