(* ===== verification/WgshimFlow.v ===== *)
(** * The adaptive flow client of the shim ([internal/wgshim/flow.go])

    Several UDP sockets and TCP connections to the relay are open at the same time;
    WireGuard uses the healthiest one, and every other one when it fails. *)

From Stdlib Require Import Strings.Byte.
From stdpp Require Import pretty.
From S2P Require Import Prelude GoLib GoStrings GoEncoding GoNet Crypto.
From S2P Require Import WgshimCodec WgshimPath WgshimTcp WgshimRelay.

Definition TransportUDP : string := "udp".
Definition TransportTCP : string := "tcp".

Record FlowReport := mkFlowReport {
  FR_Selected : string;
  FR_Transport : string;
  FR_Endpoint : string;
  FR_Local : string;
  FR_RTT : Z;
  FR_Replies : Z;
  FR_Samples : Z;
  FR_Reachable : Z;
  FR_Total : Z;
  FR_Switched : bool;
}.

Record flowProbePending := mkFlowPending { fp_flow : Z; fp_sent : Z }.
Record flowProbeMeasurement := mkFlowMeasurement { fm_flow : Z; fm_rtt : Z }.
Record flowScore := mkFlowScore { fs_index : Z; fs_rtt : Z; fs_replies : Z }.

Definition flowSamples : Z := 3.
Definition flowResultsCapacity : Z := 256.

(** ** Scoring *)

Section score.
Context `{GS : GoSort}.

Definition flow_score (i : nat) (items : list Z) : result (option flowScore) :=
  if zlen items =? 0 then Ok None
  else
    let items := sort_slice Z.ltb items in
    rtt ← index items (zlen items / 2);
    Ok (Some (mkFlowScore (Z.of_nat i) rtt (zlen items))).

Fixpoint flow_scores (i : nat) (values : list (list Z)) : result (list flowScore) :=
  match values with
  | [] => Ok []
  | items :: values =>
      s ← flow_score i items;
      rest ← flow_scores (S i) values;
      Ok (match s with Some s => s :: rest | None => rest end)
  end.

Definition score_less (a b : flowScore) : bool :=
  if negb (fs_replies a =? fs_replies b) then fs_replies b <? fs_replies a
  else fs_rtt a <? fs_rtt b.

(** The flow selected next, with its round-trip time and replies, from the scores of
    a round. *)
Definition choose_flow (threshold current : Z) (scores : list flowScore) : flowScore :=
  let found := list_find (λ s, fs_index s = current) scores in
  let mine := match found with Some (_, s) => s | None => mkFlowScore current 0 0 end in
  match scores with
  | [] => mkFlowScore current (fs_rtt mine) (fs_replies mine)
  | best :: _ =>
      if negb (bool_decide (is_Some found))
         || (fs_replies mine <? fs_replies best)
         || (negb (fs_index best =? current) && (fs_replies best =? fs_replies mine)
             && (int64 (fs_rtt best + threshold) <? fs_rtt mine))
      then best else mkFlowScore current (fs_rtt mine) (fs_replies mine)
  end.

Definition ranked (scores : list flowScore) : list flowScore := sort_slice score_less scores.
End score.

(** ** The client *)

Section flow.
Context `{GCM : AesGcm} `{GS : GoSort} {A L U W : Type}.
Context `{UL : UDPSocket A L} `{UU : UDPLink U} `{WR : Writer W}.

(** A flow holds a UDP socket or a TCP link; its transport name says which. *)
Inductive flowLink := UDPFlow (u : U) | TCPFlow (l : tcpClientLink W).

Record transportFlow := mkFlow {
  flow_id : string;
  flow_endpoint : string;
  flow_local : string;
  flow_link : flowLink;
}.

Definition flow_transport (f : transportFlow) : string :=
  match flow_link f with UDPFlow _ => TransportUDP | TCPFlow _ => TransportTCP end.

Definition set_link (f : transportFlow) (l : flowLink) : transportFlow :=
  mkFlow (flow_id f) (flow_endpoint f) (flow_local f) l.

Record FlowConfig := mkFlowConfig {
  FC_UDPServer : string;
  FC_UDPFlows : Z;
  FC_TCPServer : string;
  FC_TCPFlows : Z;
  FC_TX : Codec;
  FC_RX : Codec;
  FC_ProbeInterval : Z;
  FC_ProbeTimeout : Z;
  FC_SwitchThreshold : Z;
}.

Definition flow_config (cfg : FlowConfig) : result FlowConfig :=
  check (String.eqb (FC_UDPServer cfg) "" && String.eqb (FC_TCPServer cfg) "")
    "adaptive flow client requires at least one relay endpoint" ;;
  let udp := if negb (String.eqb (FC_UDPServer cfg) "") then positive_or (FC_UDPFlows cfg) 4
             else FC_UDPFlows cfg in
  let tcp := if negb (String.eqb (FC_TCPServer cfg) "") then positive_or (FC_TCPFlows cfg) 1
             else FC_TCPFlows cfg in
  check ((udp <? 0) || (16 <? udp)) "UDP flow count must be between 0 and 16" ;;
  check ((tcp <? 0) || (8 <? tcp)) "TCP flow count must be between 0 and 8" ;;
  Ok (mkFlowConfig (FC_UDPServer cfg) udp (FC_TCPServer cfg) tcp (FC_TX cfg) (FC_RX cfg)
        (positive_or (FC_ProbeInterval cfg) (15 * second))
        (positive_or (FC_ProbeTimeout cfg) (750 * millisecond))
        (positive_or (FC_SwitchThreshold cfg) (5 * millisecond))).

(** [dial i] opens the i-th UDP socket and gives its local address; the resolver
    gives the address of the UDP server as text. *)
Fixpoint open_udp (dial : Z → option (U * string)) (server : string) (i : Z) (n : nat)
    : result (list transportFlow) :=
  match n with
  | O => Ok []
  | S n =>
      match dial i with
      | None => Err "open UDP flow %d: %w"
      | Some (u, local) =>
          rest ← open_udp dial server (i + 1) n;
          Ok (mkFlow ("udp-" +:+ pretty (i + 1)) server local (UDPFlow u) :: rest)
      end
  end.

Definition open_flows (cfg : FlowConfig) (resolve : string → option string)
    (dial : Z → option (U * string)) : result (list transportFlow) :=
  udp ← (if String.eqb (FC_UDPServer cfg) "" then Ok []
         else match resolve (FC_UDPServer cfg) with
              | None => Err "resolve UDP server: %w"
              | Some server => open_udp dial server 0 (Z.to_nat (FC_UDPFlows cfg))
              end);
  let tcp := if String.eqb (FC_TCPServer cfg) "" then []
             else (λ i, mkFlow ("tcp-" +:+ pretty (i + 1)) (FC_TCPServer cfg) "pending"
                          (TCPFlow newTCPClientLink)) <$> seqZ 0 (FC_TCPFlows cfg) in
  check (zlen (udp ++ tcp) =? 0) "adaptive flow client has no transport flows" ;;
  Ok (udp ++ tcp).

Record FlowClient := mkFlowClient {
  fc_flows : list transportFlow;
  fc_selected : Z;
  fc_wgPeer : option A;
  fc_pending : gmap string flowProbePending;
  fc_results : list flowProbeMeasurement;
  fc_local : L;
  fc_stats : Stats;
  fc_random : bytes;
  fc_report : option FlowReport;
}.
Implicit Types c : FlowClient.

Definition fc_count c (s : Stats) : FlowClient :=
  mkFlowClient (fc_flows c) (fc_selected c) (fc_wgPeer c) (fc_pending c) (fc_results c) (fc_local c) s
    (fc_random c) (fc_report c).
Definition fc_set_flows c (flows : list transportFlow) : FlowClient :=
  mkFlowClient flows (fc_selected c) (fc_wgPeer c) (fc_pending c) (fc_results c) (fc_local c)
    (fc_stats c) (fc_random c) (fc_report c).
Definition fc_set_peer c (p : option A) : FlowClient :=
  mkFlowClient (fc_flows c) (fc_selected c) p (fc_pending c) (fc_results c) (fc_local c)
    (fc_stats c) (fc_random c) (fc_report c).
Definition fc_set_random c (random : bytes) : FlowClient :=
  mkFlowClient (fc_flows c) (fc_selected c) (fc_wgPeer c) (fc_pending c) (fc_results c) (fc_local c)
    (fc_stats c) random (fc_report c).
Definition fc_set_probes c (pending : gmap string flowProbePending) (results : list flowProbeMeasurement)
    : FlowClient :=
  mkFlowClient (fc_flows c) (fc_selected c) (fc_wgPeer c) pending results (fc_local c)
    (fc_stats c) (fc_random c) (fc_report c).
Definition fc_set_local c (l : L) : FlowClient :=
  mkFlowClient (fc_flows c) (fc_selected c) (fc_wgPeer c) (fc_pending c) (fc_results c) l
    (fc_stats c) (fc_random c) (fc_report c).

Definition setSelectedFlow c (next : Z) (report : FlowReport) : FlowClient :=
  mkFlowClient (fc_flows c) next (fc_wgPeer c) (fc_pending c) (fc_results c) (fc_local c)
    (fc_stats c) (fc_random c) (Some report).

Definition start_flows (flows : list transportFlow) (l : L) (random : bytes) : FlowClient :=
  mkFlowClient flows 0 None ∅ [] l no_stats random None.

Context (cfg : FlowConfig).

Definition recordProbeReply c (flowIndex : Z) (payload : bytes) (now : Z) : FlowClient :=
  let token := hex_encode payload in
  match fc_pending c !! token with
  | None => c
  | Some probe =>
      let results :=
        if fp_flow probe =? flowIndex
        then try_send flowResultsCapacity
               (mkFlowMeasurement flowIndex (time_sub now (fp_sent probe))) (fc_results c)
        else fc_results c in
      fc_set_probes c (delete token (fc_pending c)) results
  end.

(** A datagram or frame received on a flow; [Some e] is the error returned. *)
Definition deliverOuter c (flowIndex : Z) (packet : bytes) (now : Z)
    : FlowClient * result (option net_error) :=
  let c := fc_count c (add_OuterRX (fc_stats c) (zlen packet)) in
  match OpenTyped (FC_RX cfg) packet with
  | Err _ => (fc_count c (add_AuthDrops (fc_stats c) 1), Ok None)
  | Panic => (c, Panic)
  | Ok (packetType, inner) =>
      if IsProbeReply packetType then (recordProbeReply c flowIndex inner now, Ok None)
      else if negb (IsData packetType) then (c, Ok None)
      else match fc_wgPeer c with
      | None => (fc_count c (add_NoPeerDrop (fc_stats c) 1), Ok None)
      | Some peer =>
          let '(l, err) := WriteTo (fc_local c) inner peer in
          let c := fc_set_local c l in
          match err with
          | Some e => (c, Ok (Some (wrap_error "deliver flow packet to WireGuard: %w" e)))
          | None => (fc_count c (add_InnerRX (fc_stats c) (zlen inner)), Ok None)
          end
      end
  end.

(** The write of one flow and whether it succeeded. *)
Definition flow_write (f : transportFlow) (packet : bytes) : transportFlow * bool :=
  match flow_link f with
  | UDPFlow u =>
      let '(u, err) := LinkWrite u packet in
      (set_link f (UDPFlow u), bool_decide (err = None))
  | TCPFlow l => let '(l, r) := send l packet in (set_link f (TCPFlow l), is_ok r)
  end.

Definition sendOuter c (flowIndex : Z) (packet : bytes) : FlowClient * bool :=
  if (flowIndex <? 0) || (zlen (fc_flows c) <=? flowIndex) then (c, false)
  else match fc_flows c !! Z.to_nat flowIndex with
  | None => (c, false)
  | Some f =>
      let '(f, ok) := flow_write f packet in
      let c := fc_set_flows c (<[Z.to_nat flowIndex := f]> (fc_flows c)) in
      if (ok : bool) then (fc_count c (add_OuterTX (fc_stats c) (zlen packet)), true) else (c, false)
  end.

(** The fast fail-over: the other flows in cyclic order until one sends. *)
Fixpoint try_others c (packet : bytes) (active : Z) (offsets : list Z) : FlowClient :=
  match offsets with
  | [] => c
  | offset :: offsets =>
      match sendOuter c (Z.rem (active + offset) (zlen (fc_flows c))) packet with
      | (c, true) => c
      | (c, false) => try_others c packet active offsets
      end
  end.

(** A packet from WireGuard. *)
Definition flow_local_read c (packet : bytes) (from : A) : FlowClient * outcome :=
  let c := fc_set_peer c (Some from) in
  let c := fc_count c (add_InnerTX (fc_stats c) (zlen packet)) in
  match Seal (FC_TX cfg) packet (fc_random c) with
  | Err _ => (c, Stop (Some (new_error "seal WireGuard packet: %w")))
  | Panic => (c, Crash)
  | Ok (outer, random) =>
      let c := fc_set_random c random in
      let active := fc_selected c in
      match sendOuter c active outer with
      | (c, true) => (c, Continue)
      | (c, false) => (try_others c outer active (seqZ 1 (zlen (fc_flows c) - 1)), Continue)
      end
  end.

Definition sendProbe c (flowIndex now : Z) : FlowClient * bool :=
  match read_full (fc_random c) 16 with
  | None => (c, false)
  | Some (token, random) =>
      match SealProbe (FC_TX cfg) token random with
      | Ok (packet, random) =>
          let c := fc_set_random c random in
          let key := hex_encode token in
          let c := fc_set_probes c (<[key := mkFlowPending flowIndex now]> (fc_pending c)) (fc_results c) in
          match sendOuter c flowIndex packet with
          | (c, true) => (c, true)
          | (c, false) => (fc_set_probes c (delete key (fc_pending c)) (fc_results c), false)
          end
      | _ => (c, false)
      end
  end.

(** A measurement taken from the channel by the collecting loop. *)
Definition collect_value (values : list (list Z)) (m : flowProbeMeasurement) : list (list Z) :=
  if (0 <=? fm_flow m) && (fm_flow m <? zlen values)
  then alter (λ items, items ++ [fm_rtt m]) (Z.to_nat (fm_flow m)) values
  else values.

(** The local address of a flow; [conn_local] gives that of a TCP connection. *)
Definition report_local (conn_local : nat → string) (f : transportFlow) : string :=
  match flow_link f with
  | UDPFlow _ => flow_local f
  | TCPFlow l => match current l with Some conn => conn_local conn | None => flow_local f end
  end.

(** The end of a round with the measurements taken: stale probes are dropped, the
    flows are ranked and the next one is selected and reported. *)
Definition flow_round_end (conn_local : nat → string) c (taken : list flowProbeMeasurement) (now : Z)
    : result FlowClient :=
  let values := fold_left collect_value taken (replicate (length (fc_flows c)) []) in
  let c := fc_set_probes c
    (filter (λ '(_, p), ¬ FC_ProbeTimeout cfg <= time_sub now (fp_sent p)) (fc_pending c))
    (fc_results c) in
  scores ← flow_scores 0 values;
  let scores := ranked scores in
  let next := choose_flow (FC_SwitchThreshold cfg) (fc_selected c) scores in
  flow ← index (fc_flows c) (fs_index next);
  Ok (setSelectedFlow c (fs_index next)
        (mkFlowReport (flow_id flow) (flow_transport flow) (flow_endpoint flow)
           (report_local conn_local flow) (fs_rtt next)
           (fs_replies next) flowSamples (zlen scores) (zlen (fc_flows c))
           (negb (fc_selected c =? fs_index next)))).
End flow.
Arguments flowLink : clear implicits.
Arguments transportFlow : clear implicits.
Arguments FlowClient : clear implicits.
Arguments FlowConfig {GCM}.

(** ** Facts: scoring *)

Section score_facts.
Context `{GS : GoSort}.

Lemma flow_score_ok i items :
  ∃ r, flow_score i items = Ok r ∧
    match r with
    | None => items = []
    | Some s => items ≠ [] ∧ fs_index s = Z.of_nat i ∧ fs_replies s = zlen items ∧ fs_rtt s ∈ items
    end.
Proof.
  unfold flow_score. destruct (Z.eqb_spec (zlen items) 0) as [E|N].
  { eexists. split; [done|]. by destruct items; [|unfold zlen in E; cbn in E; lia]. }
  assert (zlen (sort_slice Z.ltb items) = zlen items) as El by (unfold zlen; by rewrite sort_slice_length).
  rewrite El. pose proof (zlen_nonneg items).
  destruct (index_ok (sort_slice Z.ltb items) (zlen items / 2)) as (d & -> & Hd).
  { rewrite El. split; [apply Z.div_pos; lia|apply Z.div_lt_upper_bound; lia]. }
  cbn [mbind result_bind]. eexists. split; [done|]. cbn. split_and!; [by intros ->|done|by rewrite ?El|].
  apply list_elem_of_lookup_2 in Hd. by apply sort_slice_elem in Hd.
Qed.

(** The scores of a round: one per flow that answered. *)
Lemma flow_scores_ok i values :
  ∃ scores, flow_scores i values = Ok scores ∧ NoDup (fs_index <$> scores) ∧
    (∀ s, s ∈ scores → ∃ k items, values !! k = Some items ∧ items ≠ [] ∧
       fs_index s = Z.of_nat (i + k) ∧ fs_replies s = zlen items ∧ fs_rtt s ∈ items) ∧
    (∀ k items, values !! k = Some items → items ≠ [] →
       ∃ s, s ∈ scores ∧ fs_index s = Z.of_nat (i + k)).
Proof.
  revert i. induction values as [|items values IH]; intros i.
  { exists []. split_and!; [done|apply NoDup_nil_2| |done]. intros s H. by apply not_elem_of_nil in H. }
  cbn [flow_scores]. destruct (flow_score_ok i items) as (r & -> & Hr). cbn [mbind result_bind].
  destruct (IH (S i)) as (rest & -> & N & H1 & H2). cbn [mbind result_bind].
  assert (∀ s, s ∈ rest → ∃ k its, (items :: values) !! k = Some its ∧ its ≠ [] ∧
    fs_index s = Z.of_nat (i + k) ∧ fs_replies s = zlen its ∧ fs_rtt s ∈ its) as H1'.
  { intros s Hs. destruct (H1 s Hs) as (k & its & ? & ? & ? & ? & ?). exists (S k), its.
    rewrite Nat.add_succ_r. done. }
  destruct r as [s|].
  - destruct Hr as (Hne & Hi & Hrp & Hrtt). exists (s :: rest). split_and!; [done| | |].
    + cbn. apply NoDup_cons. split; [|done]. intros (t & Et & Ht)%list_elem_of_fmap.
      destruct (H1 t Ht) as (k & _ & _ & _ & E & _). lia.
    + intros t [->|Ht]%elem_of_cons; [|by apply H1']. exists 0%nat, items. by rewrite Nat.add_0_r.
    + intros [|k] its Hk Hn; cbn in Hk.
      * injection Hk as <-. exists s. rewrite Nat.add_0_r. split; [left|done].
      * destruct (H2 k its Hk Hn) as (t & Ht & Et). exists t. rewrite Nat.add_succ_r. split; [by right|done].
  - exists rest. split_and!; [done..|]. intros [|k] its Hk Hn; cbn in Hk; [congruence|].
    destruct (H2 k its Hk Hn) as (t & Ht & Et). exists t. by rewrite Nat.add_succ_r.
Qed.

Lemma score_less_weak l : strict_weak_on score_less l.
Proof.
  assert (∀ a b, score_less a b = true ↔ fs_replies b < fs_replies a ∨
    fs_replies a = fs_replies b ∧ fs_rtt a < fs_rtt b) as K.
  { intros a b. unfold score_less. destruct (Z.eqb_spec (fs_replies a) (fs_replies b)); cbn [negb];
      rewrite Z.ltb_lt; lia. }
  split.
  - intros a b _ _ H. apply K in H. apply not_true_iff_false. rewrite K. lia.
  - intros a b c _ _ _ H. rewrite !K in *. lia.
Qed.

Lemma score_less_false a b :
  score_less a b = false ↔ fs_replies a < fs_replies b ∨
    fs_replies a = fs_replies b ∧ fs_rtt b <= fs_rtt a.
Proof.
  unfold score_less. destruct (Z.eqb_spec (fs_replies a) (fs_replies b)); cbn [negb];
    rewrite Z.ltb_ge; lia.
Qed.

(** The best score of a round: most replies, then the smallest median. *)
Definition best_score (scores : list flowScore) (b : flowScore) : Prop :=
  b ∈ scores ∧ ∀ s, s ∈ scores → fs_replies s < fs_replies b ∨
    fs_replies s = fs_replies b ∧ fs_rtt b <= fs_rtt s.

Lemma ranked_cases scores :
  scores = [] ∧ ranked scores = [] ∨ ∃ b rest, ranked scores = b :: rest ∧ best_score scores b.
Proof.
  unfold ranked. destruct (sort_slice score_less scores) as [|b rest] eqn:E.
  - left. split; [by apply (sort_slice_nil score_less)|done].
  - right. exists b, rest. split; [done|]. destruct (sort_slice_head score_less scores b rest E) as [Hb H].
    split; [done|]. intros s Hs. apply score_less_false, H; [apply score_less_weak|done].
Qed.

Lemma find_ranked scores current :
  NoDup (fs_index <$> scores) →
  (∀ s, s ∈ scores → fs_index s = current →
     ∃ i, list_find (λ s, fs_index s = current) (ranked scores) = Some (i, s)) ∧
  ((∀ s, s ∈ scores → fs_index s ≠ current) →
     list_find (λ s, fs_index s = current) (ranked scores) = None).
Proof.
  intros N. split.
  - intros s Hs E. destruct (list_find_elem_of (λ s, fs_index s = current) (ranked scores) s) as [[i t] F];
      [by apply sort_slice_elem|done|].
    exists i. rewrite F. apply list_find_Some in F as (Hi & Et & _).
    apply list_elem_of_lookup_2 in Hi. apply sort_slice_elem in Hi.
    do 2 f_equal. eapply (NoDup_fmap_eq fs_index scores); [done..|congruence].
  - intros H. apply list_find_None, Forall_forall. intros s Hs. apply H. by apply sort_slice_elem in Hs.
Qed.

(** [choose_flow] on a ranked round whose best score is [b]. *)
Lemma choose_flow_none threshold current scores b rest :
  NoDup (fs_index <$> scores) → ranked scores = b :: rest →
  (∀ s, s ∈ scores → fs_index s ≠ current) → choose_flow threshold current (ranked scores) = b.
Proof.
  intros N R H. unfold choose_flow. rewrite (proj2 (find_ranked scores current N) H), R. done.
Qed.

Lemma choose_flow_mine threshold current scores b rest mine :
  NoDup (fs_index <$> scores) → ranked scores = b :: rest → mine ∈ scores → fs_index mine = current →
  choose_flow threshold current (ranked scores) =
  if (fs_replies mine <? fs_replies b)
     || (negb (fs_index b =? current) && (fs_replies b =? fs_replies mine)
         && (int64 (fs_rtt b + threshold) <? fs_rtt mine))
  then b else mine.
Proof.
  intros N R Hm E. destruct (proj1 (find_ranked scores current N) mine Hm E) as (i & Hi).
  unfold choose_flow. rewrite Hi, R, bool_decide_eq_true_2 by eauto. cbn [negb orb].
  replace (mkFlowScore current (fs_rtt mine) (fs_replies mine)) with mine; [done|].
  destruct mine; cbn in *; by subst.
Qed.

(** Flow selection: with no answers the selected flow stays.  A flow that did
    not answer is left for the best one, the one with most replies and then the
    smallest median.  A flow that answered is left only for one with more replies, or
    for one with as many and a median better by more than the threshold.  The choice
    is stable: the same measurements never make the client switch again. *)
Lemma choose_flow_spec threshold current values scores :
  0 <= threshold → Forall (Forall (λ d, d + threshold < 2 ^ 63 ∧ - 2 ^ 63 <= d)) values →
  flow_scores 0 values = Ok scores →
  let next := choose_flow threshold current (ranked scores) in
  (scores = [] → fs_index next = current) ∧
  (scores ≠ [] → (∀ s, s ∈ scores → fs_index s ≠ current) → best_score scores next) ∧
  (∀ mine, mine ∈ scores → fs_index mine = current →
     next = mine ∧ (∀ s, s ∈ scores → fs_replies s <= fs_replies mine) ∨
     best_score scores next ∧ (fs_replies mine < fs_replies next ∨
       fs_replies next = fs_replies mine ∧ fs_rtt next + threshold < fs_rtt mine)) ∧
  fs_index (choose_flow threshold (fs_index next) (ranked scores)) = fs_index next.
Proof.
  intros Ht Hv E. destruct (flow_scores_ok 0 values) as (sc & E' & N & H1 & _).
  rewrite E in E'. injection E' as <-.
  assert (∀ s, s ∈ scores → int64 (fs_rtt s + threshold) = fs_rtt s + threshold) as I64.
  { intros s Hs. destruct (H1 s Hs) as (k & items & Hk & _ & _ & _ & Hr).
    pose proof (Forall_lookup_1 _ _ _ _ Hv Hk) as Hf. rewrite Forall_forall in Hf.
    destruct (Hf _ Hr). unfold int64. rewrite Z.mod_small; lia. }
  destruct (ranked_cases scores) as [[-> R]|(b & rest & R & [Hb Bb])].
  { rewrite R. cbn. split_and!; [done|done| |done]. intros m H. by apply not_elem_of_nil in H. }
  assert (scores ≠ []) as Hne by (intros ->; by apply not_elem_of_nil in Hb).
  assert (fs_index (choose_flow threshold (fs_index b) (ranked scores)) = fs_index b) as Stay.
  { rewrite (choose_flow_mine _ _ _ b rest b) by done. by destruct (_ || _). }
  destruct (decide (current ∈ fs_index <$> scores)) as [Hc|Hc].
  - apply list_elem_of_fmap in Hc as (mine & Em & Hm). symmetry in Em.
    assert (∀ m2, m2 ∈ scores → fs_index m2 = current → m2 = mine) as Uniq.
    { intros m2 H2 E2. eapply (NoDup_fmap_eq fs_index scores); [done..|congruence]. }
    pose proof (choose_flow_mine threshold current scores b rest mine N R Hm Em) as C.
    rewrite (I64 b Hb) in C. destruct (_ || _) eqn:G; rewrite C.
    + split_and!; [done|by intros _ H; destruct (H mine Hm)| |done].
      intros m2 H2 E2. rewrite (Uniq m2 H2 E2). right. split; [done|]. guards. lia.
    + split_and!; [done|by intros _ H; destruct (H mine Hm)| |by rewrite Em, C].
      intros m2 H2 E2. rewrite (Uniq m2 H2 E2). left. split; [done|]. guards. intros s Hs.
      specialize (Bb s Hs). lia.
  - assert (∀ s, s ∈ scores → fs_index s ≠ current) as Nn.
    { intros s Hs Es. apply Hc, list_elem_of_fmap. by exists s. }
    rewrite (choose_flow_none threshold current scores b rest) by done.
    split_and!; [done|done| |done]. intros m Hm Em. by destruct (Nn m Hm).
Qed.
End score_facts.

(** ** Facts: the client *)

Section flow_facts.
Context `{GCM : AesGcm} `{GS : GoSort} {A L U W : Type}.
Context `{UL : UDPSocket A L} `{UU : UDPLink U} `{WR : Writer W}.
Context (cfg : FlowConfig) (conn_local : nat → string).
Implicit Types c : FlowClient A L U W.

(** Sending on a list of flows until one succeeds. *)
Fixpoint try_flows c (packet : bytes) (ks : list nat) : FlowClient A L U W :=
  match ks with
  | [] => c
  | k :: ks =>
      match sendOuter c (Z.of_nat k) packet with
      | (c, true) => c
      | (c, false) => try_flows c packet ks
      end
  end.

Lemma sendOuter_spec c k packet f :
  fc_flows c !! k = Some f →
  let '(c', ok) := sendOuter c (Z.of_nat k) packet in
  ok = (flow_write f packet).2 ∧ fc_flows c' = <[k := (flow_write f packet).1]> (fc_flows c) ∧
  fc_selected c' = fc_selected c ∧ fc_pending c' = fc_pending c ∧ fc_results c' = fc_results c.
Proof.
  intros Hk. apply lookup_lt_Some in Hk as Hl. unfold sendOuter.
  destruct (_ || _) eqn:G; guards; [unfold zlen in G; lia|]. rewrite Nat2Z.id, Hk.
  by destruct (flow_write f packet) as [f' []].
Qed.

Lemma sendOuter_frame c i packet :
  let '(c', ok) := sendOuter c i packet in
  length (fc_flows c') = length (fc_flows c) ∧ fc_selected c' = fc_selected c ∧
  fc_pending c' = fc_pending c ∧ fc_results c' = fc_results c.
Proof.
  unfold sendOuter. destruct (_ || _); [done|]. destruct (fc_flows c !! _) as [f|]; [|done].
  destruct (flow_write f packet) as [f' []]; cbn; by rewrite length_insert.
Qed.

(** The first flow of [ks] that accepts the packet gets it; those before it failed,
    those behind it are not touched. *)
Definition sent_first (flows flows' : list (transportFlow U W)) (packet : bytes) (ks : list nat) : Prop :=
  ∃ failed rest, ks = failed ++ rest ∧
    (∀ k f, k ∈ failed → flows !! k = Some f →
       (flow_write f packet).2 = false ∧ flows' !! k = Some (flow_write f packet).1) ∧
    match rest with
    | [] => True
    | k :: untouched =>
        (∃ f, flows !! k = Some f ∧ (flow_write f packet).2 = true ∧
           flows' !! k = Some (flow_write f packet).1) ∧
        ∀ j, j ∈ untouched → flows' !! j = flows !! j
    end.

Lemma try_flows_frame c packet ks j :
  j ∉ ks → fc_flows (try_flows c packet ks) !! j = fc_flows c !! j.
Proof.
  revert c. induction ks as [|k ks IH]; intros c Hj; [done|]. cbn.
  apply not_elem_of_cons in Hj as [N Hj].
  assert (fc_flows (sendOuter c (Z.of_nat k) packet).1 !! j = fc_flows c !! j) as E.
  { unfold sendOuter. destruct (_ || _); [done|]. rewrite Nat2Z.id.
    destruct (fc_flows c !! k) as [f|]; [|done].
    destruct (flow_write f packet) as [f' []]; cbn; by rewrite list_lookup_insert_ne. }
  destruct (sendOuter c (Z.of_nat k) packet) as [c' []]; [done|]. cbn in E. by rewrite IH.
Qed.

Lemma try_flows_spec c packet ks :
  NoDup ks → (∀ k, k ∈ ks → (k < length (fc_flows c))%nat) →
  sent_first (fc_flows c) (fc_flows (try_flows c packet ks)) packet ks.
Proof.
  revert c. induction ks as [|k ks IH]; intros c N B.
  { exists [], []. split_and!; [done| |done]. intros k f H. by apply not_elem_of_nil in H. }
  apply NoDup_cons in N as [Nk N]. destruct (lookup_lt_is_Some_2 (fc_flows c) k) as [f Hf]; [apply B; left|].
  pose proof (sendOuter_spec c k packet f Hf) as S. cbn [try_flows].
  destruct (sendOuter c (Z.of_nat k) packet) as [c' ok]. destruct S as (-> & Ef & _).
  assert (∀ j, j ≠ k → fc_flows c' !! j = fc_flows c !! j) as Hj.
  { intros j Hj. rewrite Ef. by rewrite list_lookup_insert_ne. }
  assert (fc_flows c' !! k = Some (flow_write f packet).1) as Hk.
  { rewrite Ef. apply list_lookup_insert_eq. by apply lookup_lt_Some in Hf. }
  destruct (flow_write f packet).2 eqn:Ok.
  - exists [], (k :: ks). split_and!; [done| |by exists f|].
    + intros j g H. by apply not_elem_of_nil in H.
    + intros j H. apply Hj. by intros ->.
  - destruct (IH c' N) as (failed & rest & -> & H1 & H2).
    { intros j H. rewrite Ef, length_insert. apply B. by right. }
    exists (k :: failed), rest. split_and!; [done| |].
    + intros j g [->|H]%elem_of_cons Hg.
      * rewrite Hf in Hg. injection Hg as <-. split; [done|]. by rewrite try_flows_frame.
      * apply H1; [done|]. rewrite Hj; [done|]. intros ->. apply Nk, elem_of_app. by left.
    + destruct rest as [|r untouched]; [done|]. destruct H2 as [(g & Hg & H2) H3]. split.
      * exists g. rewrite <- Hj; [done|]. intros ->. apply Nk, elem_of_app. right. left.
      * intros j H. rewrite H3 by done. apply Hj. intros ->. apply Nk, elem_of_app. right. by right.
Qed.

(** The cyclic order starting at the selected flow. *)
Definition cyclic (selected n : Z) : list nat := (λ k, Z.to_nat ((selected + k) mod n)) <$> seqZ 0 n.

Lemma cyclic_perm s n : 0 <= s → 0 < n → cyclic s n ≡ₚ seq 0 (Z.to_nat n).
Proof.
  intros Hs Hn. apply NoDup_Permutation; [|apply NoDup_seq|].
  - apply NoDup_fmap_2_strong; [|apply NoDup_seqZ]. intros x y Hx%elem_of_seqZ Hy%elem_of_seqZ E.
    pose proof (Z.mod_pos_bound (s + x) n Hn). pose proof (Z.mod_pos_bound (s + y) n Hn).
    pose proof (Z.div_mod (s + x) n ltac:(lia)). pose proof (Z.div_mod (s + y) n ltac:(lia)).
    assert ((s + x) / n = (s + y) / n) by nia. nia.
  - intros i. unfold cyclic. rewrite list_elem_of_fmap. rewrite elem_of_seq. split.
    + intros (k & -> & Hk%elem_of_seqZ). pose proof (Z.mod_pos_bound (s + k) n Hn). lia.
    + intros Hi. exists ((Z.of_nat i - s) mod n). split.
      * rewrite Zplus_mod_idemp_r. replace (s + (Z.of_nat i - s)) with (Z.of_nat i) by lia.
        rewrite Z.mod_small by lia. lia.
      * apply elem_of_seqZ. pose proof (Z.mod_pos_bound (Z.of_nat i - s) n Hn). lia.
Qed.

Lemma try_others_flows c packet active offsets :
  0 <= active → Forall (λ o, 0 <= o) offsets → fc_flows c ≠ [] →
  try_others c packet active offsets =
  try_flows c packet ((λ k, Z.to_nat ((active + k) mod zlen (fc_flows c))) <$> offsets).
Proof.
  intros Ha F. revert c. induction F as [|o offsets Ho F IH]; intros c Hne; [done|].
  cbn [try_others try_flows fmap list_fmap].
  assert (0 < zlen (fc_flows c)) as Hz by (destruct (fc_flows c); [done|unfold zlen; cbn; lia]).
  rewrite Z.rem_mod_nonneg by lia. pose proof (Z.mod_pos_bound (active + o) _ Hz).
  rewrite Z2Nat.id by lia. pose proof (sendOuter_frame c ((active + o) mod zlen (fc_flows c)) packet) as S.
  destruct (sendOuter _ _ _) as [c' []]; [done|]. destruct S as (E & _). rewrite IH.
  - unfold zlen. by rewrite E.
  - intros N. rewrite N in E. by destruct (fc_flows c).
Qed.

(** Fast fail-over: a packet from WireGuard is sealed once and handed to the
    flows in cyclic order from the selected one, each at most once; the first flow
    that accepts it carries it and no later flow is touched, so the packet is lost
    only when every flow fails, and none is sent twice. *)
Lemma flow_failover c packet from outer random :
  0 <= fc_selected c < zlen (fc_flows c) →
  Seal (FC_TX cfg) packet (fc_random c) = Ok (outer, random) →
  let '(c', o) := flow_local_read cfg c packet from in
  let order := cyclic (fc_selected c) (zlen (fc_flows c)) in
  o = Continue ∧ order ≡ₚ seq 0 (length (fc_flows c)) ∧ head order = Some (Z.to_nat (fc_selected c)) ∧
  sent_first (fc_flows c) (fc_flows c') outer order.
Proof.
  intros Hs E. unfold flow_local_read. set (c1 := fc_count _ _).
  change (fc_random c1) with (fc_random c). rewrite E. set (c2 := fc_set_random c1 random).
  set (n := zlen (fc_flows c)) in *.
  assert (cyclic (fc_selected c) n = Z.to_nat (fc_selected c) ::
    ((λ k, Z.to_nat ((fc_selected c + k) mod n)) <$> seqZ 1 (n - 1))) as Ec.
  { unfold cyclic. rewrite seqZ_cons by lia. cbn [fmap list_fmap].
    rewrite Z.add_0_r, Z.mod_small by lia. done. }
  assert (sendOuter c2 (fc_selected c2) outer
    = sendOuter c2 (Z.of_nat (Z.to_nat (fc_selected c))) outer) as Es
    by (rewrite Z2Nat.id by lia; done).
  assert (fc_flows c2 ≠ []) as Hne by (intros Hn; unfold n, zlen in Hs; cbn in Hn; rewrite Hn in Hs; cbn in Hs; lia).
  pose proof (sendOuter_frame c2 (Z.of_nat (Z.to_nat (fc_selected c))) outer) as S.
  rewrite Es. pose proof (cyclic_perm (fc_selected c) n ltac:(lia) ltac:(lia)) as P.
  assert (Z.to_nat n = length (fc_flows c)) as Hn by (unfold n, zlen; lia). rewrite Hn in P.
  assert (sent_first (fc_flows c2) (fc_flows (try_flows c2 outer (cyclic (fc_selected c) n))) outer
    (cyclic (fc_selected c) n)) as T.
  { apply try_flows_spec; [rewrite P; apply NoDup_seq|]. intros k Hk. rewrite P in Hk.
    apply elem_of_seq in Hk. change (fc_flows c2) with (fc_flows c). lia. }
  assert (∀ ks, try_flows c2 outer (Z.to_nat (fc_selected c) :: ks) =
    match sendOuter c2 (Z.of_nat (Z.to_nat (fc_selected c))) outer with
    | (c', true) => c'
    | (c', false) => try_flows c' outer ks
    end) as Et by reflexivity.
  rewrite Ec in T at 1. rewrite Et in T. clear Et.
  clear Es. destruct (sendOuter c2 (Z.of_nat (Z.to_nat (fc_selected c))) outer) as [c3 []].
  - cbv zeta. split_and!; [done|done|by rewrite Ec|done].
  - cbv zeta. destruct S as (El & Esel & _). assert (zlen (fc_flows c3) = n) as Ez by (unfold zlen; by rewrite El).
    rewrite try_others_flows, Ez; [split_and!; [done|done|by rewrite Ec|done]|..].
    + change (fc_selected c2) with (fc_selected c). lia.
    + apply Forall_forall. intros x Hx%elem_of_seqZ. lia.
    + intros N. rewrite N in El. by destruct (fc_flows c2).
Qed.

(** The interleavings of the goroutines; the second component is what the collecting
    loop has taken from the channel in the current round. *)
Inductive flow_step : FlowClient A L U W * list flowProbeMeasurement →
    FlowClient A L U W * list flowProbeMeasurement → Prop :=
| flow_step_local c taken packet from :
    flow_step (c, taken) ((flow_local_read cfg c packet from).1, taken)
| flow_step_outer c taken i packet now : 0 <= i < zlen (fc_flows c) →
    flow_step (c, taken) ((deliverOuter cfg c i packet now).1, taken)
| flow_step_probe c taken i now : 0 <= i < zlen (fc_flows c) →
    flow_step (c, taken) ((sendProbe cfg c i now).1, taken)
| flow_step_take c taken m rest : fc_results c = m :: rest →
    flow_step (c, taken) (fc_set_probes c (fc_pending c) rest, taken ++ [m])
| flow_step_round c taken now c' : flow_round_end cfg conn_local c taken now = Ok c' → flow_step (c, taken) (c', []).

Definition flow_reach (n : nat) (x : FlowClient A L U W * list flowProbeMeasurement) : Prop :=
  ∃ flows l random, length flows = n ∧ rtc flow_step (start_flows flows l random, []) x.

Record flow_inv (n : nat) c : Prop := {
  fi_length : length (fc_flows c) = n;
  fi_selected : 0 <= fc_selected c < Z.of_nat n;
  fi_results : zlen (fc_results c) <= flowResultsCapacity;
  fi_pending : ∀ t p, fc_pending c !! t = Some p → 0 <= fp_flow p < Z.of_nat n;
  fi_measured : ∀ m, m ∈ fc_results c → 0 <= fm_flow m < Z.of_nat n;
}.

Lemma flow_inv_frame n c c' :
  flow_inv n c → length (fc_flows c') = length (fc_flows c) → fc_selected c' = fc_selected c →
  fc_pending c' = fc_pending c → fc_results c' = fc_results c → flow_inv n c'.
Proof. intros [] E1 E2 E3 E4. by split; rewrite ?E1, ?E2, ?E3, ?E4. Qed.

Lemma sendOuter_inv n c i packet : flow_inv n c → flow_inv n (sendOuter c i packet).1.
Proof.
  intros I. pose proof (sendOuter_frame c i packet) as S. destruct (sendOuter c i packet).
  destruct S as (? & ? & ? & ?). by eapply flow_inv_frame.
Qed.

Lemma try_others_inv n c packet active offsets : flow_inv n c → flow_inv n (try_others c packet active offsets).
Proof.
  revert c. induction offsets as [|o offsets IH]; intros c I; cbn; [done|].
  pose proof (sendOuter_inv n c (Z.rem (active + o) (zlen (fc_flows c))) packet I) as I'.
  destruct (sendOuter _ _ _) as [c' []]; [done|]. by apply IH.
Qed.

Lemma flow_local_read_ok n c packet from : flow_inv n c →
  flow_inv n (flow_local_read cfg c packet from).1 ∧ (flow_local_read cfg c packet from).2 ≠ Crash.
Proof.
  intros I. unfold flow_local_read. set (c1 := fc_count _ _).
  assert (flow_inv n c1) as I1 by (by eapply flow_inv_frame).
  destruct (Seal _ _ _) as [[outer random]|e|] eqn:E; [|done|by apply sealType_no_panic in E].
  set (c2 := fc_set_random c1 random). assert (flow_inv n c2) as I2 by (by eapply flow_inv_frame).
  pose proof (sendOuter_inv n c2 (fc_selected c2) outer I2) as I3.
  destruct (sendOuter c2 (fc_selected c2) outer) as [c3 []]; [done|]. split; [by apply try_others_inv|done].
Qed.

Lemma deliverOuter_ok n c i packet now : flow_inv n c → 0 <= i < Z.of_nat n →
  flow_inv n (deliverOuter cfg c i packet now).1 ∧ (deliverOuter cfg c i packet now).2 ≠ Panic.
Proof.
  intros I Hi. unfold deliverOuter. set (c1 := fc_count _ _).
  assert (flow_inv n c1) as I1 by (by eapply flow_inv_frame).
  destruct (OpenTyped _ _) as [[t inner]|e|] eqn:E; [| |by apply open_typed_no_panic in E].
  2: { split; [by eapply flow_inv_frame|done]. }
  destruct (IsProbeReply t).
  { split; [|done]. unfold recordProbeReply. cbn [fst]. destruct (fc_pending c1 !! _) as [p|] eqn:P; [|done].
    destruct I1 as [IL IS IR IP IM]. split; cbn; [done..| | |].
    - destruct (_ =? _); [|done]. by apply try_send_bound.
    - intros t' p' [_ H]%lookup_delete_Some. by eapply IP.
    - destruct (_ =? _); [|done]. intros m [H| ->]%try_send_elem; [by apply IM|done]. }
  destruct (negb _); [done|]. destruct (fc_wgPeer c1) as [peer|].
  - destruct (WriteTo _ _ _) as [l [e|]]; (split; [by eapply flow_inv_frame|done]).
  - split; [by eapply flow_inv_frame|done].
Qed.

Lemma sendProbe_inv n c i now : flow_inv n c → 0 <= i < Z.of_nat n → flow_inv n (sendProbe cfg c i now).1.
Proof.
  intros I Hi. unfold sendProbe. destruct (read_full _ _) as [[token random]|]; [|done].
  destruct (SealProbe _ _ _) as [[packet random']|e|]; [|done..].
  set (c1 := fc_set_probes _ _ _). assert (flow_inv n c1) as I1.
  { destruct I as [IL IS IR IP IM]. split; cbn; [done..| |done].
    intros t p [[<- <-]|[_ H]]%lookup_insert_Some; [done|by eapply IP]. }
  pose proof (sendOuter_inv n c1 i packet I1) as I2. destruct (sendOuter c1 i packet) as [c2 []]; [done|].
  destruct I2 as [IL IS IR IP IM]. split; cbn; [done..| |done].
  intros t p [_ H]%lookup_delete_Some. by eapply IP.
Qed.

Lemma collect_length taken values : length (fold_left collect_value taken values) = length values.
Proof.
  revert values. induction taken as [|m taken IH]; intros values; cbn; [done|]. rewrite IH.
  unfold collect_value. destruct (_ && _); [|done]. apply length_alter.
Qed.

(** The selected index of a round is that of a flow. *)
Lemma choose_flow_range threshold current values scores :
  0 <= current < zlen values → flow_scores 0 values = Ok scores →
  0 <= fs_index (choose_flow threshold current (ranked scores)) < zlen values.
Proof.
  intros Hc E. destruct (flow_scores_ok 0 values) as (sc & E' & _ & H1 & _).
  rewrite E in E'. injection E' as <-. unfold choose_flow.
  destruct (ranked scores) as [|b rest] eqn:R; [done|].
  destruct (_ || _); [|done]. destruct (H1 b) as (k & items & Hk & _ & Hi & _).
  { apply (sort_slice_elem score_less). unfold ranked in R. rewrite R. left. }
  apply lookup_lt_Some in Hk. unfold zlen. lia.
Qed.

Lemma flow_round_end_ok n c taken now : flow_inv n c →
  ∃ c', flow_round_end cfg conn_local c taken now = Ok c' ∧ flow_inv n c'.
Proof.
  intros I. unfold flow_round_end. set (values := fold_left _ _ _).
  assert (zlen values = Z.of_nat n) as Hv
    by (unfold values, zlen; rewrite collect_length, length_replicate; by rewrite (fi_length _ _ I)).
  destruct (flow_scores_ok 0 values) as (scores & E & _). rewrite E. cbn [mbind result_bind].
  set (c1 := fc_set_probes _ _ _). set (next := choose_flow _ _ _).
  assert (0 <= fs_index next < Z.of_nat n) as Hn.
  { rewrite <- Hv. apply choose_flow_range; [|done]. rewrite Hv. apply I. }
  destruct (index_ok (fc_flows c1) (fs_index next)) as (f & -> & _).
  { unfold zlen. cbn. rewrite (fi_length _ _ I). lia. }
  cbn [mbind result_bind]. eexists. split; [done|]. destruct I as [IL IS IR IP IM].
  split; cbn; [done..| |done]. intros t p [H _]%map_lookup_filter_Some. by eapply IP.
Qed.

Lemma flow_reach_inv n c taken : (0 < n)%nat → flow_reach n (c, taken) → flow_inv n c.
Proof.
  intros Hn (flows & l & random & E & R). remember (c, taken) as x eqn:Ex.
  apply (rtc_ind_r (λ x, flow_inv n x.1)) in R; [by subst x| |].
  - split; cbn; [done|lia|done|done|]. intros m H. by apply not_elem_of_nil in H.
  - intros y z _ S I. destruct S as [c1 t p f|c1 t i p now H|c1 t i now H|c1 t m rest H|c1 t now c2 H]; cbn in *.
    + by apply flow_local_read_ok.
    + apply deliverOuter_ok; [done|]. unfold zlen in H. by rewrite (fi_length _ _ I) in H.
    + apply sendProbe_inv; [done|]. unfold zlen in H. by rewrite (fi_length _ _ I) in H.
    + destruct I as [IL IS IR IP IM]. split; cbn; try done.
      * rewrite H in IR. autorewrite with zlen in IR. lia.
      * intros m' Hm. apply IM. rewrite H. by right.
    + destruct (flow_round_end_ok n c1 t now I) as (c3 & E3 & I3). congruence.
Qed.

(** The flow client is safe under every interleaving of its goroutines: the
    selected flow exists, at most 256 measurements wait, every outstanding probe
    belongs to a flow, no handler panics and every round ends with a selection. *)
Lemma flow_reachable n c taken :
  (0 < n)%nat → flow_reach n (c, taken) →
  flow_inv n c ∧
  (∀ packet from, (flow_local_read cfg c packet from).2 ≠ Crash) ∧
  (∀ i packet now, 0 <= i < Z.of_nat n → (deliverOuter cfg c i packet now).2 ≠ Panic) ∧
  (∀ now, is_ok (flow_round_end cfg conn_local c taken now) = true).
Proof.
  intros Hn R. pose proof (flow_reach_inv n c taken Hn R) as I. split_and!; [done|..].
  - intros. by eapply flow_local_read_ok.
  - intros. by eapply deliverOuter_ok.
  - intros now. by destruct (flow_round_end_ok n c taken now I) as (c' & -> & _).
Qed.

Lemma open_udp_length dial server i n (flows : list (transportFlow U W)) :
  open_udp dial server i n = Ok flows → length flows = n.
Proof.
  revert i flows. induction n as [|n IH]; intros i flows; cbn; [by intros [= <-]|].
  destruct (dial i) as [[u local]|]; [|done]. intros (rest & Hr & [= <-])%bind_Ok. cbn.
  by rewrite (IH _ _ Hr).
Qed.

(** The number of flows an accepted configuration opens. *)
Lemma open_flows_bounds cfg0 cfg' resolve dial (flows : list (transportFlow U W)) :
  flow_config cfg0 = Ok cfg' → open_flows cfg' resolve dial = Ok flows → 1 <= zlen flows <= 24.
Proof.
  intros E F. unfold flow_config in E. apply check_then in E as [_ E]. apply check_then in E as [G1 E].
  apply check_then in E as [G2 E]. injection E as <-. guards.
  apply bind_Ok in F as (udp & Hu & F). apply check_then in F as [G3 F]. injection F as <-. guards.
  cbn [FC_UDPServer FC_UDPFlows FC_TCPServer FC_TCPFlows] in *.
  set (tcp := if String.eqb (FC_TCPServer cfg0) "" then [] else _) in *.
  assert (zlen tcp <= 8) as Ht.
  { unfold tcp, zlen. destruct (String.eqb (FC_TCPServer cfg0) ""); cbn [negb] in *; [cbn; lia|].
    rewrite length_fmap, length_seqZ. lia. }
  assert (zlen udp <= 16) as Hu'.
  { destruct (String.eqb (FC_UDPServer cfg0) ""); cbn [negb] in *; [injection Hu as <-; unfold zlen; cbn; lia|].
    destruct (resolve _); [|done]. apply open_udp_length in Hu. unfold zlen. lia. }
  rewrite zlen_app in *. pose proof (zlen_nonneg udp). pose proof (zlen_nonneg tcp). lia.
Qed.
End flow_facts.
