(* ===== verification/WgshimMulti.v ===== *)
(** * The multi-peer servers of the shim ([internal/wgshim/multi.go], [RunTCPMultiServer])

    One UDP socket, or one TCP connection per client, serves many peers: a datagram
    belongs to the peer whose key opens it.  Each peer has its own connection to the
    WireGuard target, and a peer that is removed or re-keyed loses it. *)

From Stdlib Require Import Strings.Byte.
From S2P Require Import Prelude GoLib GoStrings GoNet Crypto.
From S2P Require Import WgshimCodec WgshimTcp WgshimRelay.

Section multi.
Context `{GCM : AesGcm} {A O U : Type} `{UO : UDPSocket A O} `{UU : UDPLink U}.

(** A peer as the loader returns it: its codecs are pointers. *)
Record LoadedPeer := mkLoaded {
  Loaded_Fingerprint : string;
  Loaded_RX : option Codec;
  Loaded_TX : option Codec;
}.

Record MultiServerPeer := mkMultiPeer { Fingerprint : string; RX : Codec; TX : Codec }.

Definition valid_peer (id : string) (p : LoadedPeer) : option MultiServerPeer :=
  if String.eqb id "" || String.eqb (Loaded_Fingerprint p) "" then None
  else match Loaded_RX p, Loaded_TX p with
       | Some rx, Some tx => Some (mkMultiPeer (Loaded_Fingerprint p) rx tx)
       | _, _ => None
       end.

(** The validation loop of [reloadPeers]: one invalid peer rejects the whole load. *)
Definition validate_peers (loaded : gmap string LoadedPeer) : result (gmap string MultiServerPeer) :=
  let next := map_imap valid_peer loaded in
  if bool_decide (size next = size loaded) then Ok next else Err "invalid multi-server peer %q".

(** Sessions are shared objects: the packet loop and the goroutine that reads from
    the target hold pointers to them.  [sess_closed] is the state of the socket. *)
Record multiServerSession := mkSession {
  sess_id : string;
  sess_fingerprint : string;
  sess_tx : Codec;
  sess_conn : U;
  sess_peer : option A;
  sess_closed : bool;
}.

Definition setPeer (s : multiServerSession) (peer : A) : multiServerSession :=
  mkSession (sess_id s) (sess_fingerprint s) (sess_tx s) (sess_conn s) (Some peer) (sess_closed s).
Definition set_sess_conn (s : multiServerSession) (u : U) : multiServerSession :=
  mkSession (sess_id s) (sess_fingerprint s) (sess_tx s) u (sess_peer s) (sess_closed s).
Definition close_sess (s : multiServerSession) : multiServerSession :=
  mkSession (sess_id s) (sess_fingerprint s) (sess_tx s) (sess_conn s) (sess_peer s) true.

Record Multi := mkMulti {
  mu_peers : gmap string MultiServerPeer;
  mu_sessions : gmap string nat;
  mu_heap : gmap nat multiServerSession;
  mu_outer : O;
  mu_stats : Stats;
  mu_random : bytes;
}.
Implicit Types m : Multi.

Definition mu_count m (s : Stats) : Multi :=
  mkMulti (mu_peers m) (mu_sessions m) (mu_heap m) (mu_outer m) s (mu_random m).
Definition mu_set_sessions m (ss : gmap string nat) (h : gmap nat multiServerSession) : Multi :=
  mkMulti (mu_peers m) ss h (mu_outer m) (mu_stats m) (mu_random m).
Definition mu_set_outer m (o : O) (random : bytes) : Multi :=
  mkMulti (mu_peers m) (mu_sessions m) (mu_heap m) o (mu_stats m) random.

Definition multi_start (peers : gmap string MultiServerPeer) (o : O) (random : bytes) : Multi :=
  mkMulti peers ∅ ∅ o no_stats random.

Definition closeSession m (id : string) (expected : option nat) : Multi :=
  match mu_sessions m !! id with
  | Some u =>
      if bool_decide (expected = None ∨ expected = Some u)
      then mu_set_sessions m (delete id (mu_sessions m)) (alter close_sess u (mu_heap m))
      else m
  | None => m
  end.

(** Whether a reload keeps the session [u] registered under [id]. *)
Definition session_current (next : gmap string MultiServerPeer) (h : gmap nat multiServerSession)
    (id : string) (u : nat) : bool :=
  match next !! id, h !! u with
  | Some peer, Some s => String.eqb (Fingerprint peer) (sess_fingerprint s)
  | _, _ => false
  end.

Definition close_objects (us : list nat) (h : gmap nat multiServerSession) : gmap nat multiServerSession :=
  foldr (λ u h, alter close_sess u h) h us.

(** The two critical sections of [reloadPeers]: the table of peers is replaced, then
    the sessions whose peer is gone or has another fingerprint are closed. *)
Definition reload_swap m (next : gmap string MultiServerPeer) : Multi :=
  mkMulti next (mu_sessions m) (mu_heap m) (mu_outer m) (mu_stats m) (mu_random m).

Definition reload_prune m (next : gmap string MultiServerPeer) : Multi :=
  let stale := filter (λ '(id, u), session_current next (mu_heap m) id u = false) (mu_sessions m) in
  let keep := filter (λ '(id, u), session_current next (mu_heap m) id u = true) (mu_sessions m) in
  mu_set_sessions m keep (close_objects (map_to_list stale).*2 (mu_heap m)).

(** [loaded] is the result of [LoadPeers], [None] for an error. *)
Definition reloadPeers m (loaded : option (gmap string LoadedPeer)) : Multi * result unit :=
  match loaded with
  | None => (m, Err "load peers")
  | Some loaded =>
      match validate_peers loaded with
      | Ok next => (reload_prune (reload_swap m next) next, Ok tt)
      | Err e => (m, Err e)
      | Panic => (m, Panic)
      end
  end.

(** Shutdown closes every session. *)
Definition close_all m : Multi :=
  mu_set_sessions m ∅ (close_objects (map_to_list (mu_sessions m)).*2 (mu_heap m)).

(** [dialled] is the connection to the target, if dialling succeeds. *)
Definition startSession m (id : string) (peer : MultiServerPeer) (dialled : option U)
    : Multi * result nat :=
  match mu_sessions m !! id with
  | Some u => (m, Ok u)
  | None =>
      match dialled with
      | None => (m, Err "connect WireGuard target for peer %s: %w")
      | Some conn =>
          let u := fresh (dom (mu_heap m)) in
          (mu_set_sessions m (<[id := u]> (mu_sessions m))
             (<[u := mkSession id (Fingerprint peer) (TX peer) conn None false]> (mu_heap m)), Ok u)
      end
  end.

(** The matching loop over a snapshot of the peers; Go iterates in any order. *)
Definition match_multi (snapshot : gmap string MultiServerPeer) (packet : bytes)
    : option (string * MultiServerPeer * byte * bytes) :=
  (fix go l :=
     match l with
     | [] => None
     | (id, peer) :: l =>
         match OpenTyped (RX peer) packet with
         | Ok (packetType, inner) => Some (id, peer, packetType, inner)
         | _ => go l
         end
     end) (map_to_list snapshot).

Definition forward_inner m (id : string) (u : nat) (from : A) (inner : bytes) : Multi :=
  match mu_heap m !! u with
  | None => m
  | Some s =>
      let s := setPeer s from in
      let '(conn, err) := if sess_closed s then (sess_conn s, Some (mkNetError "closed" true))
                          else LinkWrite (sess_conn s) inner in
      let m := mu_set_sessions m (mu_sessions m) (<[u := set_sess_conn s conn]> (mu_heap m)) in
      match err with
      | Some _ => closeSession m id (Some u)
      | None => mu_count m (add_InnerTX (mu_stats m) (zlen inner))
      end
  end.

(** A datagram on the outer socket, with the snapshot taken for it. *)
Definition multi_outer_read m (snapshot : gmap string MultiServerPeer) (packet : bytes) (from : A)
    (dialled : option U) : Multi :=
  let m := mu_count m (add_OuterRX (mu_stats m) (zlen packet)) in
  match match_multi snapshot packet with
  | None => mu_count m (add_AuthDrops (mu_stats m) 1)
  | Some (id, peer, packetType, inner) =>
      if IsProbe packetType then
        match SealProbeReply (TX peer) inner (mu_random m) with
        | Ok (reply, random) =>
            let '(o, err) := WriteTo (mu_outer m) reply from in
            let m := mu_set_outer m o random in
            match err with
            | Some _ => m
            | None => mu_count m (add_OuterTX (mu_stats m) (zlen reply))
            end
        | _ => m
        end
      else if negb (IsData packetType) then m
      else match startSession m id peer dialled with
      | (m, Ok u) => forward_inner m id u from inner
      | (m, _) => m
      end
  end.

(** A datagram the goroutine of session [u] reads from the target; a closed socket
    is not read. *)
Definition multi_target_read m (u : nat) (packet : bytes) : Multi :=
  match mu_heap m !! u with
  | Some s =>
      if sess_closed s then m
      else
        let m := mu_count m (add_InnerRX (mu_stats m) (zlen packet)) in
        match sess_peer s with
        | None => mu_count m (add_NoPeerDrop (mu_stats m) 1)
        | Some peer =>
            match Seal (sess_tx s) packet (mu_random m) with
            | Ok (outer, random) =>
                let '(o, err) := WriteTo (mu_outer m) outer peer in
                let m := mu_set_outer m o random in
                match err with
                | Some _ => m
                | None => mu_count m (add_OuterTX (mu_stats m) (zlen outer))
                end
            | _ => m
            end
        end
  | None => m
  end.

(** The end of that goroutine, after a failed read. *)
Definition multi_target_failed m (u : nat) : Multi :=
  match mu_heap m !! u with Some s => closeSession m (sess_id s) (Some u) | None => m end.

(** The datagrams a run has received, newest first, with the peer each opened under:
    identity, fingerprint and source address. *)
Definition auth_log := list (string * string * A).

Definition log_datagram (snapshot : gmap string MultiServerPeer) (packet : bytes) (from : A)
    (log : auth_log) : auth_log :=
  match match_multi snapshot packet with
  | Some (id, peer, packetType, _) => if IsData packetType then (id, Fingerprint peer, from) :: log else log
  | None => log
  end.

(** The goroutines of the server.  The packet loop takes a snapshot of the peers and
    handles a datagram with it; the reload goroutine replaces the peers and later
    prunes the sessions; target readers run in between. *)
Record multi_run := mkRun {
  run_server : Multi;
  run_snapshot : gmap string MultiServerPeer;
  run_reload : option (gmap string MultiServerPeer);
  run_log : auth_log;
}.

Inductive multi_step : multi_run → multi_run → Prop :=
| multi_snapshot m snap next log : multi_step (mkRun m snap next log) (mkRun m (mu_peers m) next log)
| multi_outer m snap next log packet from dialled :
    multi_step (mkRun m snap next log)
      (mkRun (multi_outer_read m snap packet from dialled) snap next (log_datagram snap packet from log))
| multi_swap m snap log loaded next : validate_peers loaded = Ok next →
    multi_step (mkRun m snap None log) (mkRun (reload_swap m next) snap (Some next) log)
| multi_prune m snap next log :
    multi_step (mkRun m snap (Some next) log) (mkRun (reload_prune m next) snap None log)
| multi_target m snap next log u packet :
    multi_step (mkRun m snap next log) (mkRun (multi_target_read m u packet) snap next log)
| multi_failed m snap next log u :
    multi_step (mkRun m snap next log) (mkRun (multi_target_failed m u) snap next log)
| multi_shutdown m snap next log :
    multi_step (mkRun m snap next log) (mkRun (close_all m) snap next log).

Definition multi_reach (r : multi_run) : Prop :=
  ∃ loaded peers o random, validate_peers loaded = Ok peers ∧
    rtc multi_step (mkRun (multi_start peers o random) peers None []) r.
End multi.
Arguments MultiServerPeer {GCM}.
Arguments LoadedPeer {GCM}.
Arguments Multi {GCM} A O U.
Arguments multiServerSession {GCM} A U.
Arguments multi_run {GCM} A O U.

(** ** Facts *)

Section multi_facts.
Context `{GCM : AesGcm} {A O U : Type} `{UO : UDPSocket A O} `{UU : UDPLink U}.
Implicit Types m : Multi A O U.
Implicit Types s : multiServerSession A U.

Lemma validate_peers_Ok loaded next :
  validate_peers loaded = Ok next →
  ∀ id peer, next !! id = Some peer ↔ ∃ p, loaded !! id = Some p ∧ valid_peer id p = Some peer.
Proof.
  unfold validate_peers. case_bool_decide; [|done]. intros [= <-] id peer.
  rewrite map_lookup_imap. destruct (loaded !! id); cbn; naive_solver.
Qed.

Lemma match_multi_Some snapshot packet id peer t inner :
  match_multi snapshot packet = Some (id, peer, t, inner) →
  snapshot !! id = Some peer ∧ OpenTyped (RX peer) packet = Ok (t, inner).
Proof.
  unfold match_multi. rewrite <- elem_of_map_to_list.
  induction (map_to_list snapshot) as [|[id' p] l IH]; [done|].
  destruct (OpenTyped (RX p) packet) as [[t' inner']|e|] eqn:E.
  - intros [= -> -> -> ->]. split; [left|done].
  - intros H. destruct (IH H). split; [by right|done].
  - intros H. destruct (IH H). split; [by right|done].
Qed.

Lemma match_multi_None snapshot packet :
  match_multi snapshot packet = None ↔
  ∀ id peer t inner, snapshot !! id = Some peer → OpenTyped (RX peer) packet ≠ Ok (t, inner).
Proof.
  setoid_rewrite <- elem_of_map_to_list. unfold match_multi.
  induction (map_to_list snapshot) as [|[id' p] l IH].
  { split; [|done]. intros _ id peer t inner H. by apply not_elem_of_nil in H. }
  setoid_rewrite elem_of_cons. destruct (OpenTyped (RX p) packet) as [[t' inner']|e|] eqn:E.
  - split; [done|]. intros H. by destruct (H id' p t' inner'); [left|].
  - rewrite IH. split; [|naive_solver]. intros H id peer t inner [[= -> ->]|Hin]; [congruence|by eapply H].
  - rewrite IH. split; [|naive_solver]. intros H id peer t inner [[= -> ->]|Hin]; [congruence|by eapply H].
Qed.

Lemma close_objects_lookup us (h : gmap nat (multiServerSession A U)) u :
  close_objects us h !! u = (if bool_decide (u ∈ us) then close_sess <$> h !! u else h !! u).
Proof.
  unfold close_objects. induction us as [|v us IH]; [done|]. cbn [foldr].
  destruct (decide (u = v)) as [->|N].
  - rewrite lookup_alter_eq, IH, (bool_decide_eq_true_2 (v ∈ v :: us)) by left.
    case_bool_decide; [|done]. by destruct (h !! v).
  - rewrite lookup_alter_ne, IH by done. do 2 case_bool_decide; set_solver.
Qed.

(** The table of sessions lists exactly the open session objects, each under its own
    identity, and a session answers to an address only after data from that address
    opened under the key of that identity. *)
Record multi_inv (m : Multi A O U) (log : auth_log) : Prop := {
  mu_registered : ∀ id u, mu_sessions m !! id = Some u →
    ∃ s, mu_heap m !! u = Some s ∧ sess_id s = id ∧ sess_closed s = false;
  mu_open : ∀ u s, mu_heap m !! u = Some s → sess_closed s = false → mu_sessions m !! sess_id s = Some u;
  mu_auth : ∀ u s a, mu_heap m !! u = Some s → sess_peer s = Some a → ∃ fp, (sess_id s, fp, a) ∈ log;
}.

Lemma multi_inv_frame m m' log :
  multi_inv m log → mu_sessions m' = mu_sessions m → mu_heap m' = mu_heap m → multi_inv m' log.
Proof. intros [] E1 E2. by split; rewrite ?E1, ?E2. Qed.

Lemma multi_inv_log m log log' : multi_inv m log → log ⊆ log' → multi_inv m log'.
Proof. intros [R Op Au] S. split; [done..|]. intros u s a H1 H2. destruct (Au u s a H1 H2) as [fp ?]. eauto. Qed.

Lemma multi_inv_update m log u s s' :
  multi_inv m log → mu_heap m !! u = Some s → sess_id s' = sess_id s → sess_closed s' = sess_closed s →
  (∀ a, sess_peer s' = Some a → ∃ fp, (sess_id s, fp, a) ∈ log) →
  multi_inv (mu_set_sessions m (mu_sessions m) (<[u := s']> (mu_heap m))) log.
Proof.
  intros [R Op Au] Hu E1 E2 Hp. split; cbn.
  - intros id v Hv. destruct (R id v Hv) as (t & Ht & Hi & Hc). destruct (decide (u = v)) as [->|N].
    + exists s'. rewrite lookup_insert_eq, E1, E2. naive_solver.
    + exists t. by rewrite lookup_insert_ne.
  - intros v t [[<- <-]|[N Hv]]%lookup_insert_Some Hc; [|by apply (Op v t)].
    rewrite E1. apply (Op u s); [done|congruence].
  - intros v t a [[<- <-]|[N Hv]]%lookup_insert_Some; [rewrite E1; apply Hp|by apply (Au v t)].
Qed.

Lemma closeSession_inv m log id e : multi_inv m log → multi_inv (closeSession m id e) log.
Proof.
  intros I. unfold closeSession. destruct (mu_sessions m !! id) as [u|] eqn:Hu; [|done].
  case_bool_decide; [|done]. destruct I as [R Op Au].
  destruct (R id u Hu) as (s & Hs & Hi & Hc). split; cbn.
  - intros id' v [N Hv]%lookup_delete_Some. destruct (R id' v Hv) as (t & Ht & Hi' & Hc').
    exists t. rewrite lookup_alter_ne; [done|]. intros ->. congruence.
  - intros v t Hv Ht. destruct (decide (u = v)) as [->|N].
    + rewrite lookup_alter_eq, Hs in Hv. cbn in Hv. injection Hv as <-. done.
    + rewrite lookup_alter_ne in Hv by done. pose proof (Op v t Hv Ht) as E.
      apply lookup_delete_Some. split; [|done]. intros ->. congruence.
  - intros v t a Hv. destruct (decide (u = v)) as [->|N].
    + rewrite lookup_alter_eq, Hs in Hv. cbn in Hv. injection Hv as <-. by apply (Au v s a).
    + rewrite lookup_alter_ne in Hv by done. by apply (Au v t a).
Qed.

(** The objects a prune closes. *)
Lemma in_stale next (h : gmap nat (multiServerSession A U)) (ss : gmap string nat) u :
  u ∈ (map_to_list (filter (λ '(id, u), session_current next h id u = false) ss)).*2 ↔
  ∃ id, ss !! id = Some u ∧ session_current next h id u = false.
Proof.
  rewrite list_elem_of_fmap. split.
  - intros ([id v] & -> & Hin). apply elem_of_map_to_list, map_lookup_filter_Some in Hin. eauto.
  - intros (id & Hid & Hp). exists (id, u). split; [done|]. by apply elem_of_map_to_list, map_lookup_filter_Some.
Qed.

Lemma close_objects_inv (us : list nat) (h : gmap nat (multiServerSession A U)) u s :
  close_objects us h !! u = Some s →
  ∃ s0, h !! u = Some s0 ∧ sess_id s0 = sess_id s ∧ sess_fingerprint s0 = sess_fingerprint s ∧
    sess_peer s0 = sess_peer s ∧ (sess_closed s = false → s0 = s ∧ u ∉ us).
Proof.
  rewrite close_objects_lookup. case_bool_decide as Hin.
  - intros (s0 & E & ->)%fmap_Some. by exists s0.
  - intros E. exists s. naive_solver.
Qed.

Lemma reload_prune_inv m log next : multi_inv m log → multi_inv (reload_prune m next) log.
Proof.
  intros [R Op Au]. split; cbn.
  - intros id u [Hid Hc]%map_lookup_filter_Some. destruct (R id u Hid) as (s & Hs & Hi & Ho). exists s.
    split; [|done]. rewrite close_objects_lookup, bool_decide_eq_false_2; [done|].
    rewrite in_stale. intros (id' & Hid' & Hc'). destruct (R id' u Hid') as (s' & Hs' & Hi' & _). congruence.
  - intros u s Hs Ho. apply close_objects_inv in Hs as (s0 & Hs & _ & _ & _ & Hopen).
    destruct (Hopen Ho) as [-> Hn]. apply map_lookup_filter_Some. pose proof (Op u s Hs Ho) as E.
    split; [done|]. apply not_false_iff_true. intros F. apply Hn, in_stale. eauto.
  - intros u s a Hs Hp. apply close_objects_inv in Hs as (s0 & Hs & Hi & _ & Hpe & _). rewrite <- Hi.
    apply (Au u s0 a); [done|congruence].
Qed.

Lemma close_all_inv m log : multi_inv m log → multi_inv (close_all m) log.
Proof.
  intros [R Op Au]. split; cbn.
  - intros id u H. by rewrite lookup_empty in H.
  - intros u s Hs Ho. apply close_objects_inv in Hs as (s0 & Hs & _ & _ & _ & Hopen).
    destruct (Hopen Ho) as [-> Hn]. exfalso. apply Hn, list_elem_of_fmap.
    exists (sess_id s, u). split; [done|]. apply elem_of_map_to_list. by apply Op.
  - intros u s a Hs Hp. apply close_objects_inv in Hs as (s0 & Hs & Hi & _ & Hpe & _). rewrite <- Hi.
    apply (Au u s0 a); [done|congruence].
Qed.

Lemma startSession_inv m log id peer dialled :
  multi_inv m log →
  multi_inv (startSession m id peer dialled).1 log ∧
  ∀ u, (startSession m id peer dialled).2 = Ok u →
    mu_sessions (startSession m id peer dialled).1 !! id = Some u.
Proof.
  intros I. unfold startSession. destruct (mu_sessions m !! id) as [u|] eqn:Hu; [by split; [|intros ? [= <-]]|].
  destruct dialled as [conn|]; [|by split]. cbn. split; [|intros u [= <-]; apply lookup_insert_eq].
  set (u := fresh (dom (mu_heap m))). assert (mu_heap m !! u = None) as Hf.
  { apply not_elem_of_dom. apply is_fresh. }
  destruct I as [R Op Au]. split; cbn.
  - intros id' v [[<- <-]|[N Hv]]%lookup_insert_Some; [eexists; by rewrite lookup_insert_eq|].
    destruct (R id' v Hv) as (t & Ht & Hr). exists t. rewrite lookup_insert_ne; [done|]. congruence.
  - intros v t [[<- <-]|[N Hv]]%lookup_insert_Some Hc; [apply lookup_insert_eq|].
    rewrite lookup_insert_ne; [by apply (Op v t)|]. intros E. pose proof (Op v t Hv Hc). congruence.
  - intros v t a [[<- <-]|[N Hv]]%lookup_insert_Some; [done|by apply (Au v t)].
Qed.

Lemma forward_inner_inv m log id u from inner fp :
  multi_inv m log → mu_sessions m !! id = Some u → (id, fp, from) ∈ log →
  multi_inv (forward_inner m id u from inner) log.
Proof.
  intros I Hid Hl. unfold forward_inner. destruct (mu_registered _ _ I id u Hid) as (s & Hs & <- & Hc).
  rewrite Hs. cbn [sess_closed setPeer]. rewrite Hc.
  destruct (LinkWrite _ _) as [conn err]. cbn zeta. set (m1 := mu_set_sessions m _ _).
  assert (multi_inv m1 log) as I1.
  { eapply multi_inv_update; [done..|]. cbn. intros a [= <-]. eauto. }
  destruct err; [by apply closeSession_inv|by eapply multi_inv_frame].
Qed.

Lemma multi_outer_read_inv m log snap packet from dialled :
  multi_inv m log → multi_inv (multi_outer_read m snap packet from dialled) (log_datagram snap packet from log).
Proof.
  intros I. unfold multi_outer_read, log_datagram. set (m1 := mu_count _ _).
  assert (multi_inv m1 log) as I1 by (by eapply multi_inv_frame).
  destruct (match_multi snap packet) as [[[[id peer] t] inner]|]; [|by eapply multi_inv_frame].
  destruct (IsProbe t) eqn:P.
  { assert (IsData t = false) as -> by (unfold IsProbe, IsData in *; guards; by subst t).
    destruct (SealProbeReply _ _ _) as [[reply random]|e|]; [|done..].
    destruct (WriteTo _ _ _) as [o [e|]]; by eapply multi_inv_frame. }
  destruct (IsData t); cbn [negb]; [|done].
  set (log' := _ :: log). assert (multi_inv m1 log') as I2 by (eapply multi_inv_log; [done|set_solver]).
  destruct (startSession_inv m1 log' id peer dialled I2) as [I3 H3].
  destruct (startSession m1 id peer dialled) as [m2 [u|e|]]; cbn in *; [|done..].
  eapply forward_inner_inv; [done|by apply H3|left].
Qed.

Lemma multi_target_read_inv m log u packet : multi_inv m log → multi_inv (multi_target_read m u packet) log.
Proof.
  intros I. unfold multi_target_read. destruct (mu_heap m !! u) as [s|]; [|done].
  destruct (sess_closed s); [done|]. destruct (sess_peer s) as [peer|]; [|by eapply multi_inv_frame].
  destruct (Seal _ _ _) as [[outer random]|e|]; [|by eapply multi_inv_frame..].
  destruct (WriteTo _ _ _) as [o [e|]]; by eapply multi_inv_frame.
Qed.

Lemma multi_reach_inv (r : multi_run A O U) : multi_reach r → multi_inv (run_server r) (run_log r).
Proof.
  intros (loaded & peers & o & random & _ & R).
  apply (rtc_ind_r (λ r, multi_inv (run_server r) (run_log r))) in R; [done| |].
  - split; cbn; intros; by rewrite lookup_empty in *.
  - intros x y _ S I. destruct S; cbn in *.
    + done.
    + by apply multi_outer_read_inv.
    + by eapply multi_inv_frame.
    + by apply reload_prune_inv.
    + by apply multi_target_read_inv.
    + unfold multi_target_failed. destruct (mu_heap m !! u); [by apply closeSession_inv|done].
    + by apply close_all_inv.
Qed.


(** Revocation by reload: a failed or invalid load changes nothing.  After a
    valid one every open session belongs to a peer of the new table with the
    session's fingerprint; the sessions of unchanged peers go on as they were; and
    nothing is read from the target for a session that was dropped. *)
Lemma reload_revokes (r : multi_run A O U) loaded :
  multi_reach r →
  let m := run_server r in
  let '(m', res) := reloadPeers m loaded in
  (res ≠ Ok tt → m' = m) ∧
  (res = Ok tt →
     (∀ u s, mu_heap m' !! u = Some s → sess_closed s = false →
        ∃ peer, mu_peers m' !! sess_id s = Some peer ∧ Fingerprint peer = sess_fingerprint s) ∧
     (∀ id u s peer, mu_sessions m !! id = Some u → mu_heap m !! u = Some s →
        mu_peers m' !! id = Some peer → Fingerprint peer = sess_fingerprint s →
        mu_sessions m' !! id = Some u ∧ mu_heap m' !! u = Some s) ∧
     (∀ id u s packet, mu_sessions m !! id = Some u → mu_heap m !! u = Some s →
        (∀ peer, mu_peers m' !! id = Some peer → Fingerprint peer ≠ sess_fingerprint s) →
        multi_target_read m' u packet = m')).
Proof.
  intros R m. pose proof (multi_reach_inv r R) as I. fold m in I. unfold reloadPeers.
  destruct loaded as [loaded|]; [|by split]. destruct (validate_peers loaded) as [next|e|] eqn:E; [|by split..].
  split; [done|]. intros _. pose proof (reload_prune_inv (reload_swap m next) (run_log r) next) as I'.
  specialize (I' ltac:(by eapply multi_inv_frame)). cbn [mu_peers reload_prune reload_swap mu_set_sessions].
  split_and!.
  - intros u s Hs Ho. pose proof (mu_open _ _ I' u s Hs Ho) as K. cbn in K.
    apply map_lookup_filter_Some in K as [_ K]. apply close_objects_inv in Hs as (s0 & Hs & _ & _ & _ & Hop).
    destruct (Hop Ho) as [-> _]. unfold session_current in K. cbn in K, Hs. rewrite Hs in K.
    destruct (next !! sess_id s) as [peer|]; [|done]. guards. eauto.
  - intros id u s peer Hid Hs Hp Hf.
    assert (mu_sessions (reload_prune (reload_swap m next) next) !! id = Some u) as K.
    { cbn. apply map_lookup_filter_Some. split; [done|]. unfold session_current. rewrite Hp, Hs.
      by apply String.eqb_eq. }
    split; [done|]. cbn. rewrite close_objects_lookup, bool_decide_eq_false_2; [done|].
    rewrite in_stale. intros (id' & Hid' & Hc').
    destruct (mu_registered _ _ I id u Hid) as (s1 & H1 & E1 & _).
    destruct (mu_registered _ _ I id' u Hid') as (s2 & H2 & E2 & _).
    assert (id' = id) as -> by congruence. unfold session_current in Hc'. rewrite Hp, Hs in Hc'. by guards.
  - intros id u s packet Hid Hs Hp. unfold multi_target_read.
    assert (mu_heap (reload_prune (reload_swap m next) next) !! u = Some (close_sess s)) as ->; [|done].
    cbn. rewrite close_objects_lookup, bool_decide_eq_true_2, Hs; [done|].
    apply in_stale. exists id. split; [done|]. unfold session_current. rewrite Hs.
    destruct (next !! id) as [peer|] eqn:Hn; [|done]. apply String.eqb_neq. by apply Hp.
Qed.
End multi_facts.
