(* ===== verification/WgshimTransport.v ===== *)
(** * TCP clients and servers of the shim, and the choice between UDP and TCP
    ([RunTCPClient] and [RunTCPMultiServer] of tcp.go, [internal/wgshim/transport.go]) *)

From Stdlib Require Import Strings.Byte.
From S2P Require Import Prelude GoLib GoStrings GoEncoding GoNet Crypto.
From S2P Require Import WgshimCodec WgshimPath WgshimTcp WgshimRelay WgshimFlow WgshimMulti.

(** [writeTCPFrame] as the transports use it: the stream and whether it succeeded. *)
Definition frame_write {W} `{Writer W} (w : W) (payload : bytes) : W * bool :=
  match writeTCPFrame w payload with Some (w, r) => (w, is_ok r) | None => (w, false) end.

(** ** One connection of the TCP server *)

Section tcp_server.
Context `{GCM : AesGcm} {U W : Type} `{UU : UDPLink U} `{WR : Writer W}.

(** The variables of the goroutine that serves a connection. *)
Record tcpServed := mkServed {
  tc_peerID : string;
  tc_fingerprint : string;
  tc_target : option U;
  tc_stream : W;
  tc_stats : Stats;
  tc_random : bytes;
}.
Implicit Types c : tcpServed.

Definition tc_count c (s : Stats) : tcpServed :=
  mkServed (tc_peerID c) (tc_fingerprint c) (tc_target c) (tc_stream c) s (tc_random c).
Definition tc_bind c (id fingerprint : string) : tcpServed :=
  mkServed id fingerprint (tc_target c) (tc_stream c) (tc_stats c) (tc_random c).
Definition tc_set_target c (u : option U) : tcpServed :=
  mkServed (tc_peerID c) (tc_fingerprint c) u (tc_stream c) (tc_stats c) (tc_random c).
Definition tc_set_stream c (w : W) (random : bytes) : tcpServed :=
  mkServed (tc_peerID c) (tc_fingerprint c) (tc_target c) w (tc_stats c) random.

(** Which peer a frame belongs to: the first frame binds the connection, later ones
    must open under the bound peer while its fingerprint is unchanged. *)
Definition identify (peers : gmap string MultiServerPeer) c (frame : bytes)
    : tcpServed * option (MultiServerPeer * byte * bytes) :=
  if String.eqb (tc_peerID c) "" then
    match match_multi peers frame with
    | None => (tc_count c (add_AuthDrops (tc_stats c) 1), None)
    | Some (id, peer, packetType, inner) =>
        (tc_bind c id (Fingerprint peer), Some (peer, packetType, inner))
    end
  else match peers !! tc_peerID c with
  | None => (c, None)
  | Some peer =>
      if negb (String.eqb (Fingerprint peer) (tc_fingerprint c)) then (c, None)
      else match OpenTyped (RX peer) frame with
      | Ok (packetType, inner) => (c, Some (peer, packetType, inner))
      | _ => (tc_count c (add_AuthDrops (tc_stats c) 1), None)
      end
  end.

(** [startTargetReader]: the target is dialled once. *)
Definition startTargetReader c (dialled : option U) : tcpServed * option U :=
  match tc_target c with
  | Some u => (c, Some u)
  | None => (tc_set_target c dialled, dialled)
  end.

(** A frame from the client; [Return] closes the connection and the target. *)
Definition tcp_frame_read (peers : gmap string MultiServerPeer) (dialled : option U) c (frame : bytes)
    : tcpServed * outcome :=
  let c := tc_count c (add_OuterRX (tc_stats c) (zlen frame)) in
  match identify peers c frame with
  | (c, None) => (c, Return)
  | (c, Some (peer, packetType, inner)) =>
      if IsProbe packetType then
        match SealProbeReply (TX peer) inner (tc_random c) with
        | Ok (reply, random) =>
            let '(w, ok) := frame_write (tc_stream c) reply in
            let c := tc_set_stream c w random in
            if (ok : bool) then (tc_count c (add_OuterTX (tc_stats c) (zlen reply)), Continue) else (c, Return)
        | _ => (c, Continue)
        end
      else if negb (IsData packetType) then (c, Continue)
      else match startTargetReader c dialled with
      | (c, None) => (c, Return)
      | (c, Some u) =>
          let '(u, err) := LinkWrite u inner in
          let c := tc_set_target c (Some u) in
          match err with
          | Some _ => (c, Return)
          | None => (tc_count c (add_InnerTX (tc_stats c) (zlen inner)), Continue)
          end
      end
  end.

(** A packet the goroutine of the connection reads from the target. *)
Definition tcp_target_read (peers : gmap string MultiServerPeer) c (packet : bytes) : tcpServed * outcome :=
  match peers !! tc_peerID c with
  | None => (c, Return)
  | Some current =>
      if negb (String.eqb (Fingerprint current) (tc_fingerprint c)) then (c, Return)
      else match Seal (TX current) packet (tc_random c) with
      | Ok (outer, random) =>
          let '(w, ok) := frame_write (tc_stream c) outer in
          let c := tc_set_stream c w random in
          if (ok : bool) then
            let c := tc_count c (add_InnerRX (tc_stats c) (zlen packet)) in
            (tc_count c (add_OuterTX (tc_stats c) (zlen outer)), Continue)
          else (c, Return)
      | _ => (c, Continue)
      end
  end.
End tcp_server.
Arguments tcpServed : clear implicits.

(** ** The TCP client *)

Section tcp_client.
Context `{GCM : AesGcm} {A L W : Type} `{UL : UDPSocket A L} `{WR : Writer W}.

Record TCPClient := mkTCPClient {
  tcl_tx : Codec;
  tcl_rx : Codec;
  tcl_wgPeer : option A;
  tcl_local : L;
  tcl_link : tcpClientLink W;
  tcl_stats : Stats;
  tcl_random : bytes;
}.
Implicit Types c : TCPClient.

Definition tcl_count c (s : Stats) : TCPClient :=
  mkTCPClient (tcl_tx c) (tcl_rx c) (tcl_wgPeer c) (tcl_local c) (tcl_link c) s (tcl_random c).

Definition tcp_client_local_read c (packet : bytes) (from : A) : TCPClient * outcome :=
  let c := mkTCPClient (tcl_tx c) (tcl_rx c) (Some from) (tcl_local c) (tcl_link c)
             (add_InnerTX (tcl_stats c) (zlen packet)) (tcl_random c) in
  match Seal (tcl_tx c) packet (tcl_random c) with
  | Ok (outer, random) =>
      let '(l, r) := send (tcl_link c) outer in
      let c := mkTCPClient (tcl_tx c) (tcl_rx c) (tcl_wgPeer c) (tcl_local c) l (tcl_stats c) random in
      if is_ok r then (tcl_count c (add_OuterTX (tcl_stats c) (zlen outer)), Continue) else (c, Continue)
  | Err _ => (c, Stop (Some (new_error "seal WireGuard packet: %w")))
  | Panic => (c, Crash)
  end.

Definition tcp_client_frame (done : bool) c (frame : bytes) : TCPClient * outcome :=
  let c := tcl_count c (add_OuterRX (tcl_stats c) (zlen frame)) in
  match OpenTyped (tcl_rx c) frame with
  | Err _ => (tcl_count c (add_AuthDrops (tcl_stats c) 1), Continue)
  | Panic => (c, Crash)
  | Ok (packetType, inner) =>
      if negb (IsData packetType) then (c, Continue)
      else match tcl_wgPeer c with
      | None => (tcl_count c (add_NoPeerDrop (tcl_stats c) 1), Continue)
      | Some peer =>
          let '(l, err) := WriteTo (tcl_local c) inner peer in
          let c := mkTCPClient (tcl_tx c) (tcl_rx c) (tcl_wgPeer c) l (tcl_link c) (tcl_stats c)
                     (tcl_random c) in
          match err with
          | Some e => (c, Stop (normalizeNetErr done (Some (wrap_error "deliver TCP packet to WireGuard: %w" e))))
          | None => (tcl_count c (add_InnerRX (tcl_stats c) (zlen inner)), Continue)
          end
      end
  end.
End tcp_client.
Arguments TCPClient {GCM} A L W.

(** ** Choosing between UDP and TCP *)

Record TransportReport := mkTransportReport {
  TR_Selected : string;
  TR_UDPRTT : Z;
  TR_TCPRTT : Z;
  TR_UDPReplies : Z;
  TR_TCPReplies : Z;
  TR_Samples : Z;
  TR_Switched : bool;
}.

Record transportProbePending := mkTransportPending { tp_transport : string; tp_sent : Z }.
Record transportProbeMeasurement := mkTransportMeasurement { tm_transport : string; tm_rtt : Z }.

Definition transportResultsCapacity : Z := 64.

(** A median of zero means that the transport did not answer. *)
Definition choose_transport (threshold : Z) (current : string) (udpRTT tcpRTT : Z) : string :=
  if (udpRTT =? 0) && (0 <? tcpRTT) then TransportTCP
  else if (tcpRTT =? 0) && (0 <? udpRTT) then TransportUDP
  else if (0 <? udpRTT) && (0 <? tcpRTT) then
    if String.eqb current TransportUDP && (int64 (tcpRTT + threshold) <? udpRTT) then TransportTCP
    else if String.eqb current TransportTCP && (int64 (udpRTT + threshold) <? tcpRTT) then TransportUDP
    else current
  else current.

Section transport.
Context `{GCM : AesGcm} `{GS : GoSort} {A L U W : Type}.
Context `{UL : UDPSocket A L} `{UU : UDPLink U} `{WR : Writer W}.

Definition transport_median (items : list Z) : result Z :=
  if zlen items =? 0 then Ok 0
  else index (sort_slice Z.ltb items) (zlen items / 2).

Record TransportConfig := mkTransportConfig {
  TC_UDPServer : string;
  TC_TCPServer : string;
  TC_TX : Codec;
  TC_RX : Codec;
  TC_ProbeInterval : Z;
  TC_ProbeTimeout : Z;
  TC_SwitchThreshold : Z;
}.

Definition transport_config (cfg : TransportConfig) : result TransportConfig :=
  check (String.eqb (TC_UDPServer cfg) "" || String.eqb (TC_TCPServer cfg) "")
    "adaptive transport client requires both UDP and TCP servers" ;;
  Ok (mkTransportConfig (TC_UDPServer cfg) (TC_TCPServer cfg) (TC_TX cfg) (TC_RX cfg)
        (positive_or (TC_ProbeInterval cfg) (15 * second))
        (positive_or (TC_ProbeTimeout cfg) (750 * millisecond))
        (positive_or (TC_SwitchThreshold cfg) (5 * millisecond))).

Record TransportClient := mkTransport {
  tr_udp : U;
  tr_tcp : tcpClientLink W;
  tr_selected : string;
  tr_wgPeer : option A;
  tr_pending : gmap string transportProbePending;
  tr_results : list transportProbeMeasurement;
  tr_local : L;
  tr_stats : Stats;
  tr_random : bytes;
  tr_report : option TransportReport;
}.
Implicit Types c : TransportClient.

Definition transport_start (u : U) (l : L) (random : bytes) : TransportClient :=
  mkTransport u newTCPClientLink TransportUDP None ∅ [] l no_stats random None.

Definition tr_count c (s : Stats) : TransportClient :=
  mkTransport (tr_udp c) (tr_tcp c) (tr_selected c) (tr_wgPeer c) (tr_pending c) (tr_results c)
    (tr_local c) s (tr_random c) (tr_report c).
Definition tr_set_links c (u : U) (l : tcpClientLink W) : TransportClient :=
  mkTransport u l (tr_selected c) (tr_wgPeer c) (tr_pending c) (tr_results c)
    (tr_local c) (tr_stats c) (tr_random c) (tr_report c).
Definition tr_set_peer c (p : option A) : TransportClient :=
  mkTransport (tr_udp c) (tr_tcp c) (tr_selected c) p (tr_pending c) (tr_results c)
    (tr_local c) (tr_stats c) (tr_random c) (tr_report c).
Definition tr_set_probes c (pending : gmap string transportProbePending)
    (results : list transportProbeMeasurement) : TransportClient :=
  mkTransport (tr_udp c) (tr_tcp c) (tr_selected c) (tr_wgPeer c) pending results
    (tr_local c) (tr_stats c) (tr_random c) (tr_report c).
Definition tr_set_local c (l : L) : TransportClient :=
  mkTransport (tr_udp c) (tr_tcp c) (tr_selected c) (tr_wgPeer c) (tr_pending c) (tr_results c)
    l (tr_stats c) (tr_random c) (tr_report c).
Definition tr_set_random c (random : bytes) : TransportClient :=
  mkTransport (tr_udp c) (tr_tcp c) (tr_selected c) (tr_wgPeer c) (tr_pending c) (tr_results c)
    (tr_local c) (tr_stats c) random (tr_report c).
Definition tr_set_selected c (next : string) (report : TransportReport) : TransportClient :=
  mkTransport (tr_udp c) (tr_tcp c) next (tr_wgPeer c) (tr_pending c) (tr_results c)
    (tr_local c) (tr_stats c) (tr_random c) (Some report).

Context (cfg : TransportConfig).

Definition transport_record_reply c (transport : string) (payload : bytes) (now : Z) : TransportClient :=
  let token := hex_encode payload in
  match tr_pending c !! token with
  | None => c
  | Some probe =>
      let results :=
        if String.eqb (tp_transport probe) transport
        then try_send transportResultsCapacity
               (mkTransportMeasurement transport (time_sub now (tp_sent probe))) (tr_results c)
        else tr_results c in
      tr_set_probes c (delete token (tr_pending c)) results
  end.

Definition transport_deliver c (transport : string) (packet : bytes) (now : Z)
    : TransportClient * result (option net_error) :=
  let c := tr_count c (add_OuterRX (tr_stats c) (zlen packet)) in
  match OpenTyped (TC_RX cfg) packet with
  | Err _ => (tr_count c (add_AuthDrops (tr_stats c) 1), Ok None)
  | Panic => (c, Panic)
  | Ok (packetType, inner) =>
      if IsProbeReply packetType then (transport_record_reply c transport inner now, Ok None)
      else if negb (IsData packetType) then (c, Ok None)
      else match tr_wgPeer c with
      | None => (tr_count c (add_NoPeerDrop (tr_stats c) 1), Ok None)
      | Some peer =>
          let '(l, err) := WriteTo (tr_local c) inner peer in
          let c := tr_set_local c l in
          match err with
          | Some e => (c, Ok (Some (wrap_error "deliver %s packet to WireGuard: %w" e)))
          | None => (tr_count c (add_InnerRX (tr_stats c) (zlen inner)), Ok None)
          end
      end
  end.

Definition transport_send c (transport : string) (packet : bytes) : TransportClient * bool :=
  let sent :=
    if String.eqb transport TransportTCP then
      let '(l, r) := send (tr_tcp c) packet in (tr_set_links c (tr_udp c) l, is_ok r)
    else if String.eqb transport TransportUDP then
      let '(u, err) := LinkWrite (tr_udp c) packet in
      (tr_set_links c u (tr_tcp c), bool_decide (err = None))
    else (c, false) in
  match sent with
  | (c, true) => (tr_count c (add_OuterTX (tr_stats c) (zlen packet)), true)
  | (c, false) => (c, false)
  end.

Definition transport_local_read c (packet : bytes) (from : A) : TransportClient * outcome :=
  let c := tr_set_peer c (Some from) in
  let c := tr_count c (add_InnerTX (tr_stats c) (zlen packet)) in
  match Seal (TC_TX cfg) packet (tr_random c) with
  | Err _ => (c, Stop (Some (new_error "seal WireGuard packet: %w")))
  | Panic => (c, Crash)
  | Ok (outer, random) =>
      let c := tr_set_random c random in
      let active := tr_selected c in
      match transport_send c active outer with
      | (c, true) => (c, Continue)
      | (c, false) =>
          if String.eqb active TransportTCP then ((transport_send c TransportUDP outer).1, Continue)
          else if connected (tr_tcp c) then ((transport_send c TransportTCP outer).1, Continue)
          else (c, Continue)
      end
  end.

Definition transport_probe c (transport : string) (now : Z) : TransportClient * bool :=
  match read_full (tr_random c) 16 with
  | None => (c, false)
  | Some (token, random) =>
      match SealProbe (TC_TX cfg) token random with
      | Ok (packet, random) =>
          let c := tr_set_random c random in
          let key := hex_encode token in
          let c := tr_set_probes c (<[key := mkTransportPending transport now]> (tr_pending c)) (tr_results c) in
          match transport_send c transport packet with
          | (c, true) => (c, true)
          | (c, false) => (tr_set_probes c (delete key (tr_pending c)) (tr_results c), false)
          end
      | _ => (c, false)
      end
  end.

(** The end of a round with the measurements taken from the channel. *)
Definition transport_round_end c (taken : list transportProbeMeasurement) (now : Z) : result TransportClient :=
  let values t := tm_rtt <$> filter (λ m, tm_transport m = t) taken in
  let c := tr_set_probes c
    (filter (λ '(_, p), ¬ TC_ProbeTimeout cfg <= time_sub now (tp_sent p)) (tr_pending c)) (tr_results c) in
  udpRTT ← transport_median (values TransportUDP);
  tcpRTT ← transport_median (values TransportTCP);
  let next := choose_transport (TC_SwitchThreshold cfg) (tr_selected c) udpRTT tcpRTT in
  Ok (tr_set_selected c next
        (mkTransportReport next udpRTT tcpRTT (zlen (values TransportUDP)) (zlen (values TransportTCP)) 3
           (negb (String.eqb (tr_selected c) next)))).
End transport.
Arguments TransportConfig {GCM}.
Arguments TransportClient : clear implicits.

(** ** Facts *)

Section tcp_server_facts.
Context `{GCM : AesGcm} {U W : Type} `{UU : UDPLink U} `{WR : Writer W}.
Implicit Types c : tcpServed U W.

Lemma identify_spec peers c frame :
  peers !! "" = None →
  let '(c', r) := identify peers c frame in
  tc_target c' = tc_target c ∧ tc_stream c' = tc_stream c ∧
  (tc_peerID c ≠ "" → tc_peerID c' = tc_peerID c ∧ tc_fingerprint c' = tc_fingerprint c) ∧
  match r with
  | Some (peer, t, inner) =>
      tc_peerID c' ≠ "" ∧ peers !! tc_peerID c' = Some peer ∧ Fingerprint peer = tc_fingerprint c' ∧
      OpenTyped (RX peer) frame = Ok (t, inner)
  | None => tc_peerID c' = tc_peerID c
  end.
Proof.
  intros N. unfold identify. destruct (String.eqb_spec (tc_peerID c) "") as [E|E].
  - destruct (match_multi peers frame) as [[[[id peer] t] inner]|] eqn:M; [|done].
    apply match_multi_Some in M as [Hp Ho]. cbn. split_and!; [done..| |done|done|done].
    intros ->. congruence.
  - destruct (peers !! tc_peerID c) as [peer|] eqn:Hp; [|done].
    destruct (String.eqb_spec (Fingerprint peer) (tc_fingerprint c)) as [F|F]; cbn [negb]; [|done].
    destruct (OpenTyped (RX peer) frame) as [[t inner]|e|] eqn:O; [|done..]. by split_and!.
Qed.

(** What the frame handler writes to the target. *)
Lemma tcp_frame_read_target peers dialled c frame :
  let '(c1, r) := identify peers (tc_count c (add_OuterRX (tc_stats c) (zlen frame))) frame in
  let '(c', o) := tcp_frame_read peers dialled c frame in
  tc_peerID c' = tc_peerID c1 ∧ tc_fingerprint c' = tc_fingerprint c1 ∧
  match r with
  | None => o = Return ∧ tc_target c' = tc_target c1 ∧ tc_stream c' = tc_stream c1
  | Some (peer, t, inner) =>
      if IsData t then
        match (if tc_target c1 is Some u then Some u else dialled) with
        | Some u => tc_target c' = Some (LinkWrite u inner).1
        | None => o = Return ∧ tc_target c' = None
        end
      else tc_target c' = tc_target c1
  end.
Proof.
  unfold tcp_frame_read. destruct (identify _ _ _) as [c1 [[[peer t] inner]|]]; [|done].
  destruct (IsProbe t) eqn:P.
  - assert (IsData t = false) as -> by (unfold IsProbe, IsData in *; guards; by subst t).
    destruct (SealProbeReply _ _ _) as [[reply random]|e|]; [|done..].
    by destruct (frame_write _ _) as [w []].
  - destruct (IsData t); [|done]. cbn [negb]. unfold startTargetReader.
    destruct (tc_target c1) as [u|] eqn:T; [|destruct dialled as [u|]; [|done]];
      destruct (LinkWrite u inner) as [u' [e|]]; done.
Qed.

(** A TCP connection speaks for one peer.  The first frame binds it to the peer
    whose key opens it; a bound connection never changes its peer.  A frame is acted
    on only if it opens under the bound peer's current key with the fingerprint the
    connection was bound to, and what the target gets is that frame's data.  When the
    peer is removed or re-keyed, the next frame and the next answer end the connection
    without anything being forwarded in either direction. *)
Lemma tcp_connection_bound peers dialled c frame packet :
  peers !! "" = None →
  let '(c', o) := tcp_frame_read peers dialled c frame in
  (tc_peerID c ≠ "" → tc_peerID c' = tc_peerID c ∧ tc_fingerprint c' = tc_fingerprint c) ∧
  (o = Return ∧ tc_target c' = tc_target c ∧ tc_stream c' = tc_stream c ∨
   ∃ peer t inner, peers !! tc_peerID c' = Some peer ∧ Fingerprint peer = tc_fingerprint c' ∧
     OpenTyped (RX peer) frame = Ok (t, inner) ∧
     (tc_target c' = tc_target c ∨
      ∃ u, tc_target c' = Some (LinkWrite u inner).1 ∧ t = packetData ∧
        (tc_target c = Some u ∨ tc_target c = None ∧ dialled = Some u))) ∧
  (tc_peerID c ≠ "" → (∀ peer, peers !! tc_peerID c = Some peer → Fingerprint peer ≠ tc_fingerprint c) →
     o = Return ∧ tc_target c' = tc_target c ∧ tcp_target_read peers c packet = (c, Return)).
Proof.
  intros N. pose proof (tcp_frame_read_target peers dialled c frame) as T.
  pose proof (identify_spec peers (tc_count c (add_OuterRX (tc_stats c) (zlen frame))) frame N) as S.
  assert (∀ peer, peers !! tc_peerID c = Some peer → Fingerprint peer ≠ tc_fingerprint c →
    tcp_target_read peers c packet = (c, Return)) as TR.
  { intros peer Hp Hf. unfold tcp_target_read. rewrite Hp. by rewrite (proj2 (String.eqb_neq _ _) Hf). }
  assert (peers !! tc_peerID c = None → tcp_target_read peers c packet = (c, Return)) as TN.
  { intros Hp. unfold tcp_target_read. by rewrite Hp. }
  destruct (identify _ _ _) as [c1 r]. destruct (tcp_frame_read peers dialled c frame) as [c' o].
  destruct T as (T1 & T2 & T3). destruct S as (S1 & S2 & S3 & S4). cbn in S1, S2, S3. rewrite T1, T2.
  split_and!; [done| |].
  - destruct r as [[[peer t] inner]|]; [right|left; destruct T3 as (-> & -> & ->); by split_and!]. destruct S4 as (_ & Hp & Hf & Ho).
    exists peer, t, inner. split_and!; [done..|]. rewrite S1 in T3. destruct (IsData t) eqn:D; [|by left].
    unfold IsData in D. guards. subst t. destruct (tc_target c) as [u|]; [right; eauto 6|].
    destruct dialled as [u|]; [right; eauto 8|]. left. by destruct T3.
  - intros Hne Hrev. destruct (S3 Hne) as [E1 E2]. destruct r as [[[peer t] inner]|].
    + destruct S4 as (_ & Hp & Hf & _). rewrite E1 in Hp. rewrite E2 in Hf. by destruct (Hrev peer Hp).
    + destruct T3 as (-> & T3 & _). split_and!; [done|congruence|].
      destruct (peers !! tc_peerID c) as [peer|] eqn:Hp; [by eapply TR; [|apply Hrev]|by apply TN].
Qed.
End tcp_server_facts.

(** The choice between UDP and TCP: the transport that alone answered is taken,
    silence changes nothing, and when both answered the client leaves its transport
    only for one that is faster by more than the threshold.  The choice is one of the
    two transports and is stable: the same measurements never make it switch back. *)
Lemma choose_transport_spec threshold current udpRTT tcpRTT :
  0 <= threshold → 0 <= udpRTT → 0 <= tcpRTT → udpRTT + threshold < 2 ^ 63 → tcpRTT + threshold < 2 ^ 63 →
  current = TransportUDP ∨ current = TransportTCP →
  let next := choose_transport threshold current udpRTT tcpRTT in
  let rtt t := if String.eqb t TransportUDP then udpRTT else tcpRTT in
  (next = TransportUDP ∨ next = TransportTCP) ∧
  (0 < rtt current → next ≠ current → 0 < rtt next ∧ rtt next + threshold < rtt current) ∧
  (rtt current = 0 → 0 < udpRTT ∨ 0 < tcpRTT → next ≠ current ∧ 0 < rtt next) ∧
  (udpRTT = 0 → tcpRTT = 0 → next = current) ∧
  choose_transport threshold next udpRTT tcpRTT = next.
Proof.
  intros Ht Hu Hc Bu Bt Cur. unfold choose_transport.
  replace (int64 (tcpRTT + threshold)) with (tcpRTT + threshold) by (unfold int64; rewrite Z.mod_small; lia).
  replace (int64 (udpRTT + threshold)) with (udpRTT + threshold) by (unfold int64; rewrite Z.mod_small; lia).
  destruct (Z.eqb_spec udpRTT 0), (Z.eqb_spec tcpRTT 0), (Z.ltb_spec 0 udpRTT), (Z.ltb_spec 0 tcpRTT),
    (Z.ltb_spec (tcpRTT + threshold) udpRTT), (Z.ltb_spec (udpRTT + threshold) tcpRTT); try lia;
    destruct Cur as [-> | ->]; cbn; split_and!; intros; try done; try lia; try tauto.
Qed.

Section transport_facts.
Context `{GCM : AesGcm} `{GS : GoSort} {A L U W : Type}.
Context `{UL : UDPSocket A L} `{UU : UDPLink U} `{WR : Writer W}.
Context (cfg : TransportConfig).
Implicit Types c : TransportClient A L U W.

(** Whether a transport accepts a packet. *)
Definition accepts c (transport : string) (packet : bytes) : bool :=
  if String.eqb transport TransportTCP then is_ok (send (tr_tcp c) packet).2
  else bool_decide ((LinkWrite (tr_udp c) packet).2 = None).

Lemma transport_send_spec c transport packet :
  transport = TransportUDP ∨ transport = TransportTCP →
  let '(c', ok) := transport_send c transport packet in
  ok = accepts c transport packet ∧ tr_selected c' = tr_selected c ∧
  tr_udp c' = (if String.eqb transport TransportTCP then tr_udp c else (LinkWrite (tr_udp c) packet).1) ∧
  tr_tcp c' = (if String.eqb transport TransportTCP then (send (tr_tcp c) packet).1 else tr_tcp c).
Proof.
  intros [-> | ->]; unfold transport_send, accepts; cbn.
  - destruct (LinkWrite _ _) as [u [e|]]; by cbn.
  - destruct (send _ _) as [l [x|e|]]; by cbn.
Qed.

(** Fast fail-over between the two transports: the sealed packet is given to the
    selected transport; only if that fails it is given to the other one (to TCP only
    while it is connected), and nothing else is written. *)
Lemma transport_failover c packet from outer random :
  tr_selected c = TransportUDP ∨ tr_selected c = TransportTCP →
  Seal (TC_TX cfg) packet (tr_random c) = Ok (outer, random) →
  let '(c', o) := transport_local_read cfg c packet from in
  let sentUDP := (LinkWrite (tr_udp c) outer).1 in
  let sentTCP := (send (tr_tcp c) outer).1 in
  o = Continue ∧ tr_selected c' = tr_selected c ∧
  (tr_selected c = TransportUDP → tr_udp c' = sentUDP ∧
     tr_tcp c' = (if accepts c TransportUDP outer then tr_tcp c
                  else if connected (tr_tcp c) then sentTCP else tr_tcp c)) ∧
  (tr_selected c = TransportTCP → tr_tcp c' = sentTCP ∧
     tr_udp c' = (if accepts c TransportTCP outer then tr_udp c else sentUDP)).
Proof.
  intros Sel E. unfold transport_local_read. set (c1 := tr_count _ _).
  change (tr_random c1) with (tr_random c). rewrite E. set (c2 := tr_set_random c1 random).
  change (tr_selected c2) with (tr_selected c).
  pose proof (transport_send_spec c2 (tr_selected c) outer Sel) as S.
  destruct (transport_send c2 (tr_selected c) outer) as [c3 ok]. destruct S as (-> & S1 & S2 & S3).
  change (tr_udp c2) with (tr_udp c) in S2. change (tr_tcp c2) with (tr_tcp c) in S3.
  change (accepts c2) with (accepts c). change (tr_selected c2) with (tr_selected c) in S1.
  destruct Sel as [Es|Es]; rewrite Es in *; cbn [String.eqb] in *.
  - destruct (accepts c TransportUDP outer); [cbv zeta; by split_and!|].
    change (String.eqb TransportUDP TransportTCP) with false in *. cbn iota in *. rewrite S3.
    destruct (connected (tr_tcp c)); [|cbv zeta; by split_and!].
    pose proof (transport_send_spec c3 TransportTCP outer ltac:(by right)) as S'.
    destruct (transport_send c3 TransportTCP outer) as [c4 ok]. destruct S' as (_ & S1' & S2' & S3').
    cbn [fst]. change (String.eqb TransportTCP TransportTCP) with true in *. cbn iota in *.
    rewrite S1', S2', S3', S1, S2, S3. cbv zeta. by split_and!.
  - change (String.eqb TransportTCP TransportTCP) with true in *. cbn iota in *.
    destruct (accepts c TransportTCP outer); [cbv zeta; by split_and!|].
    pose proof (transport_send_spec c3 TransportUDP outer ltac:(by left)) as S'.
    destruct (transport_send c3 TransportUDP outer) as [c4 ok]. destruct S' as (_ & S1' & S2' & S3').
    cbn [fst]. change (String.eqb TransportUDP TransportTCP) with false in *. cbn iota in *.
    rewrite S1', S2', S3', S1, S2, S3. cbv zeta. by split_and!.
Qed.
End transport_facts.
