(* ===== verification/AgentTransport.v ===== *)
(** * The transport and the status of the agent ([cmd/bpc-agent]: [main.go],
    [migration_windows.go], [service_windows.go])

    The set-up of the shim from a runtime configuration and what becomes of its reports,
    the status files, the legacy tunnel that is taken over, updates on request and the
    registration of the service. *)

From Stdlib Require Import Strings.Byte Strings.Ascii.
From S2P Require Import Prelude GoLib GoNet GoStrings GoEncoding Netip Crypto ControlStore P2pGrant.
From S2P Require Import WgshimCodec WgshimPath WgshimAdaptive.
From S2P Require Import AgentConfig AgentControl AgentRuntime AgentP2p AgentInstall.

(** ** The shim *)

Section transport.
Context `{GCM : AesGcm} `{HS : Hashes}.

(** The codecs of both directions: from the client to the server and back. *)
Definition psk_codecs (psk : bytes) (padMin padMax : Z) : result (Codec * Codec) :=
  upKey ← DeriveKey psk ClientToServer;
  downKey ← DeriveKey psk ServerToClient;
  up ← NewCodec upKey padMin padMax;
  down ← NewCodec downKey padMin padMax;
  Ok (up, down).

Record transport := mkTransport { tr_config : AdaptiveClientConfig; tr_nodes : gmap string string }.

Definition node_table (paths : list TransportPath) : gmap string string :=
  fold_left (λ nodes path, <[Path_Endpoint path := Path_Node path]> nodes) paths ∅.

(** What [runWGShimLoopWithSwitch] prepares in each iteration: an error ends the loop. *)
Definition transport_setup (cfg : RuntimeConfig) : result transport :=
  psk ← (match base64_decode (Rc_WGShimPSK cfg) with
         | Some psk => check (negb (zlen psk =? 32)) "invalid runtime WGShim key" ;; Ok psk
         | None => Err "invalid runtime WGShim key"
         end);
  '(tx, rx) ← psk_codecs psk (Rc_PaddingMin cfg) (Rc_PaddingMax cfg);
  let paths := TransportPaths cfg in
  Ok (mkTransport
        (mkAdaptiveConfig true (Path_Endpoint <$> paths) tx rx (400 * millisecond) (10 * millisecond)
           0 0 (mkPathPolicy 0 0 0 0 0))
        (node_table paths)).
End transport.

(** ** Reports *)

Record transportTelemetry := mkTransportTelemetry {
  Tr_Paths : list PathHealth;
  Tr_UpdatedAt : Z;
  Tr_Endpoint : string;
  Tr_RTTMS : Z;
  Tr_Reachable : Z;
  Tr_Total : Z;
}.

(** [Milliseconds] truncates; a round trip below a millisecond is shown as one. *)
Definition rtt_ms (rtt : Z) : Z :=
  if 0 <? rtt then (let ms := Z.quot rtt millisecond in if ms =? 0 then 1 else ms) else 0.

Definition name_path (nodes : gmap string string) (p : PathHealth) : PathHealth :=
  mkPathHealth (default "" (nodes !! PH_Endpoint p)) (PH_Endpoint p) (PH_Reachable p) (PH_RTTMS p)
    (PH_LossPercent p) (PH_JitterMS p) (PH_LastSuccess p) (PH_FailureCount p) (PH_ConsecutiveFailures p)
    (PH_State p) (PH_LastTraffic p).

(** The callback [OnEndpointReport]: the node of the tracker, the mailbox of the overlay
    and the telemetry it writes. *)
Definition endpoint_report (nodes : gmap string string) (now : Z) (current : string)
    (mailbox : option pathSwitchEvent) (report : EndpointReport)
    : string * option pathSwitchEvent * transportTelemetry :=
  let '(current, event) :=
    observe current (Report_Selected report) (Report_Switched report) (Report_PreserveSession report) nodes in
  let mailbox := match event with
                 | Some event => (publishLatestPathSwitch mailbox event).1
                 | None => mailbox
                 end in
  (current, mailbox,
   mkTransportTelemetry (name_path nodes <$> Report_Paths report) (time_unix now) (Report_Selected report)
     (rtt_ms (Report_RTT report)) (Report_Reachable report) (Report_Total report)).

(** ** Status files *)

Record uiStatus := mkUiStatus {
  Ui_Version : string;
  Ui_Device : string;
  Ui_DeviceID : string;
  Ui_Service : string;
  Ui_Control : string;
  Ui_Relay : string;
  Ui_RelayPool : list string;
  Ui_TunnelAddress : string;
  Ui_Routes : list string;
  Ui_UpdatedAt : Z;
  Ui_HandshakeAt : Z;
  Ui_RXBytes : Z;
  Ui_TXBytes : Z;
  Ui_Transport : option transportTelemetry;
}.

(** The JSON of the three files. *)
Class StatusJson := {
  ui_json : uiStatus → bytes;
  ui_of_json : bytes → option uiStatus;
  runtime_of_json : bytes → option tunnelTelemetry;
  transport_of_json : bytes → option transportTelemetry;
  ui_printable : uiStatus → bool;
  ui_roundtrip : ∀ u, ui_printable u = true → ui_of_json (ui_json u) = Some u;
}.

Section status.
Context `{SJ : StatusJson} (version : string).

(** The payload of [writeUIStatus]. *)
Definition ui_status (s : State) : uiStatus :=
  mkUiStatus version (As_DeviceName s) (As_DeviceID s) "" (As_ControlURL s) (Rc_WGShimServer (As_Config s))
    (Rc_WGShimServers (As_Config s)) (Wg_Address (As_WireGuard s)) (Wg_AllowedIPs (As_WireGuard s)) 0 0 0 0 None.

(** [writeUIStatus]: the file afterwards. *)
Definition writeUIStatus (os : syscalls) (file : option bytes) (s : State) : option bytes * result unit :=
  let encoded := ui_json (ui_status s) in
  match sys os "open ui status" with
  | Ok _ =>
      match sys os "write ui status" with
      | Ok _ => (Some encoded, Ok tt)
      | e => (Some (take (sys_written os) encoded), e)
      end
  | e => (file, e)
  end.

Definition with_runtime (u : uiStatus) (t : tunnelTelemetry) : uiStatus :=
  mkUiStatus (Ui_Version u) (Ui_Device u) (Ui_DeviceID u) (Ui_Service u) (Ui_Control u) (Ui_Relay u)
    (Ui_RelayPool u) (Ui_TunnelAddress u) (Ui_Routes u) (Tt_UpdatedAt t) (Tt_HandshakeAt t) (Tt_RXBytes t)
    (Tt_TXBytes t) (Ui_Transport u).
Definition with_transport (u : uiStatus) (t : transportTelemetry) : uiStatus :=
  mkUiStatus (Ui_Version u) (Ui_Device u) (Ui_DeviceID u) (Ui_Service u) (Ui_Control u) (Ui_Relay u)
    (Ui_RelayPool u) (Ui_TunnelAddress u) (Ui_Routes u) (Ui_UpdatedAt u) (Ui_HandshakeAt u) (Ui_RXBytes u)
    (Ui_TXBytes u) (Some t).
Definition with_service (u : uiStatus) (service : string) : uiStatus :=
  mkUiStatus (Ui_Version u) (Ui_Device u) (Ui_DeviceID u) service (Ui_Control u) (Ui_Relay u)
    (Ui_RelayPool u) (Ui_TunnelAddress u) (Ui_Routes u) (Ui_UpdatedAt u) (Ui_HandshakeAt u) (Ui_RXBytes u)
    (Ui_TXBytes u) (Ui_Transport u).

(** [printStatusJSON]: what it prints; telemetry that is missing or damaged is left out. *)
Definition printStatusJSON (status runtime transport : option bytes) (service : string) : result uiStatus :=
  match status with
  | None => Err "file does not exist"
  | Some raw =>
      match ui_of_json raw with
      | None => Err "invalid status"
      | Some payload =>
          let payload := with_service payload service in
          let payload := match runtime ≫= runtime_of_json with
                         | Some t => with_runtime payload t | None => payload end in
          let payload := match transport ≫= transport_of_json with
                         | Some t => with_transport payload t | None => payload end in
          Ok payload
      end
  end.
End status.

(** ** The legacy tunnel *)

Section legacy.
Context `{UC : UnicodeCase} `{P6 : Prefix6}.

(** [captureLegacyWireGuardProfile]: whether [wg] is found and what the three commands
    print, [None] when one fails. *)
Definition captureLegacyWireGuardProfile (tunnel : string) (wgTool : bool)
    (showConf address mtuText : option string) : result WireGuardProfile :=
  check (blank tunnel) "legacy tunnel name is empty" ;;
  check (negb wgTool) "WireGuard for Windows is not installed or wg.exe was not found" ;;
  match showConf with
  | None => Err "read WireGuard tunnel %q configuration: %w: %s"
  | Some showConf =>
      match address with
      | None => Err "read WireGuard tunnel %q address: %w: %s"
      | Some address =>
          match mtuText with
          | None => Err "read WireGuard tunnel %q MTU: %w: %s"
          | Some mtuText =>
              match parse_int (trim_space mtuText) with
              | None => Err "parse legacy WireGuard MTU: %w"
              | Some mtu => ParseWireGuardShowConf showConf (trim_space address) mtu
              end
          end
      end
  end.
End legacy.

(** ** The registered service *)

Inductive start_type := StartAutomatic | StartManual.

Record service_config := mkServiceConfig {
  Sc_BinaryPathName : string;
  Sc_StartType : start_type;
  Sc_DisplayName : string;
  Sc_Description : string;
}.

(** Go's [%q] of a string of printable ASCII characters. *)
Definition double_quote : ascii := "034"%char.
Fixpoint quote_chars (s : string) : string :=
  match s with
  | "" => ""
  | String c rest =>
      if Ascii.eqb c double_quote || Ascii.eqb c "\"%char then String "\"%char (String c (quote_chars rest))
      else String c (quote_chars rest)
  end.
Definition percent_q (s : string) : string :=
  String double_quote (quote_chars s +:+ String double_quote "").

(** [quoted] is the command line the service manager builds from a path and the argument
    [run-service]. *)
Section service.
Context (quoted : string → string).

Abbreviation registry := (option service_config).

(** [configureServiceRecovery] is a command that may fail. *)
Definition installWindowsService (os : syscalls) (reg : registry) (exePath : string) : registry * result unit :=
  match (sys os "connect" ;; (if reg then sys os "config" ;; sys os "update" else sys os "create")) with
  | Ok _ =>
      let command := match reg with Some _ => percent_q exePath +:+ " run-service" | None => quoted exePath end in
      (Some (mkServiceConfig command StartAutomatic "BPC Agent" "BPC secure network agent"),
       sys os "failure actions")
  | e => (reg, e)
  end.

Definition setWindowsServiceAutomatic (os : syscalls) (reg : registry) (enabled : bool) : registry * result unit :=
  match sys os "connect" with
  | Ok _ =>
      match reg with
      | None => (None, Err "open service")
      | Some c =>
          match (sys os "config" ;; sys os "update") with
          | Ok _ => (Some (mkServiceConfig (Sc_BinaryPathName c) (if enabled then StartAutomatic else StartManual)
                             (Sc_DisplayName c) (Sc_Description c)), Ok tt)
          | e => (reg, e)
          end
      end
  | e => (reg, e)
  end.

(** It waits for the service to stop, but removes it in any case. *)
Definition removeWindowsService (os : syscalls) (reg : registry) : registry * result unit :=
  match sys os "connect" with
  | Ok _ =>
      match reg with
      | None => (None, Ok tt)
      | Some _ => match sys os "delete" with Ok _ => (None, Ok tt) | e => (reg, e) end
      end
  | e => (reg, e)
  end.

Definition uninstallAgent (os : syscalls) (admin : bool) (sm : service_manager) (reg : registry)
    : registry * result unit :=
  if negb admin then (reg, sys os "elevate")
  else match stopWindowsService sm with
  | Ok _ => removeWindowsService os reg
  | e => (reg, e)
  end.
End service.

(** ** Updates on request *)

Section update.
Context `{URL : GoURL} `{UC : UnicodeCase} `{P6 : Prefix6} `{PK : PublicKeys} `{ED : Ed25519} `{HS : Hashes}.
Context `{PJ : PayloadJson} {N : Type} `{HC : HttpClient N} `{SJ : StateJson}.
Context `{JRf : JsonBody RefreshResponse} `{JMf : JsonBody UpdateManifest}.
Context (version : string).

(** [updateNow] of an administrator: the state file, what is scheduled to replace the
    agent, and whether there was an update. *)
Definition updateNow (file : state_file) (net : N) (now : Z) (fault : option string)
    (contents : option bytes) (probe : bytes → option string) (schedule : result unit)
    : state_file * option bytes * result bool :=
  match (state ← LoadState file;
         control ← NewMultiClient (ControlEndpoints state) (ControlCredential state);
         Ok (mkAgent state file control net)) with
  | Ok a =>
      let '(a, r) := ensureControlCredential a now fault in
      match r with
      | Ok _ =>
          let '(a, staged, r) := checkAndStageUpdate version a contents probe schedule in
          (ag_file a, staged, r)
      | Err _ => (ag_file a, None, Err "refresh access credential: %w")
      | Panic => (ag_file a, None, Panic)
      end
  | Err e => (file, None, Err e)
  | Panic => (file, None, Panic)
  end.
End update.

(** ** Facts *)

Section transport_facts.
Context `{GCM : AesGcm} `{HS : Hashes}.

(** Key derivation and the construction of the codecs only fail on the size of the key
    and the range of the padding. *)
Lemma psk_codecs_iff psk lo hi up down :
  psk_codecs psk lo hi = Ok (up, down) ↔
  zlen psk = 32 ∧ 0 <= lo <= hi ∧ hi <= 255 ∧
  ∃ a b, new_gcm (hmac_sha256 psk (str_bytes "bpc-wgshim-v1-c2s")) = Some a ∧
    new_gcm (hmac_sha256 psk (str_bytes "bpc-wgshim-v1-s2c")) = Some b ∧
    up = mkCodec a lo hi ∧ down = mkCodec b lo hi.
Proof.
  unfold psk_codecs, DeriveKey, NewCodec. split.
  - intros E. destruct (Z.eqb_spec (zlen psk) 32) as [L|]; [|done]. cbn [check mbind result_bind negb] in E.
    destruct ((lo <? 0) || (hi <? lo) || (255 <? hi)) eqn:R; [done|]. cbn [check mbind result_bind negb] in E.
    destruct (new_gcm (hmac_sha256 psk (str_bytes "bpc-wgshim-v1-c2s"))) as [a|]; [|done]. cbn [check mbind result_bind negb] in E.
    destruct (new_gcm (hmac_sha256 psk (str_bytes "bpc-wgshim-v1-s2c"))) as [b|]; [|done].
    injection E as <- <-. guards. split_and!; [done|lia..|]. by exists a, b.
  - intros (L & ? & ? & a & b & Ea & Eb & -> & ->).
    assert ((lo <? 0) || (hi <? lo) || (255 <? hi) = false) as -> by (guards; lia).
    rewrite L. cbn [check mbind result_bind negb Z.eqb Pos.eqb]. by rewrite Ea, Eb.
Qed.

Lemma psk_codecs_total psk lo hi : zlen psk = 32 → 0 <= lo <= hi → hi <= 255 →
  ∃ up down, psk_codecs psk lo hi = Ok (up, down).
Proof.
  intros L ? ?.
  destruct (proj2 (new_gcm_key (hmac_sha256 psk (str_bytes "bpc-wgshim-v1-c2s")))) as [a Ea].
  { rewrite hmac_sha256_length. tauto. }
  destruct (proj2 (new_gcm_key (hmac_sha256 psk (str_bytes "bpc-wgshim-v1-s2c")))) as [b Eb].
  { rewrite hmac_sha256_length. tauto. }
  exists (mkCodec a lo hi), (mkCodec b lo hi). apply psk_codecs_iff. split_and!; [done|lia..|]. by exists a, b.
Qed.

(** Two ends with the same key: each opens what the other seals, whatever padding they
    use. *)
Lemma psk_codecs_agree psk lo hi lo' hi' up down up' down' :
  psk_codecs psk lo hi = Ok (up, down) → psk_codecs psk lo' hi' = Ok (up', down') →
  codec_wf up ∧ codec_wf down' ∧ codec_aead up' = codec_aead up ∧ codec_aead down' = codec_aead down.
Proof.
  intros (_ & ? & ? & a & b & Ea & Eb & -> & ->)%psk_codecs_iff (_ & ? & ? & a' & b' & Ea' & Eb' & -> & ->)%psk_codecs_iff.
  rewrite Ea in Ea'. rewrite Eb in Eb'. injection Ea' as <-. injection Eb' as <-. by split_and!; [split; cbn; lia..| |].
Qed.
End transport_facts.

Section node_table_facts.
Context `{UC : UnicodeCase}.

Lemma node_table_app paths path :
  node_table (paths ++ [path]) = <[Path_Endpoint path := Path_Node path]> (node_table paths).
Proof. unfold node_table. by rewrite fold_left_app. Qed.

Lemma node_table_lookup paths path :
  NoDup (Path_Endpoint <$> paths) → path ∈ paths → node_table paths !! Path_Endpoint path = Some (Path_Node path).
Proof.
  induction paths as [|q paths IH] using rev_ind; [by intros _ ?%not_elem_of_nil|].
  rewrite fmap_app, NoDup_app, node_table_app, elem_of_app, list_elem_of_singleton.
  intros (N & D & _) [E| ->]; [|by rewrite lookup_insert_eq].
  rewrite lookup_insert_ne; [by apply IH|]. intros Eq.
  destruct (D (Path_Endpoint path)); [by apply list_elem_of_fmap_2|]. cbn. rewrite <- Eq. left.
Qed.

(** Endpoints that differ in lower case differ. *)
Lemma validate_paths_distinct wg seen paths : validate_paths wg seen paths = Ok tt →
  NoDup (Path_Endpoint <$> paths) ∧ ∀ path, path ∈ paths → lower (Path_Endpoint path) ∉ seen.
Proof.
  revert seen. induction paths as [|p paths IH]; intros seen E; cbn in E.
  { split; [constructor|]. by intros ? ?%not_elem_of_nil. }
  apply check_then in E as [_ E]. apply check_then in E as [D E]. apply check_then in E as [_ E].
  guards. destruct (IH _ E) as [N F]. split.
  - cbn. constructor; [|done]. intros (q & Eq & Hq)%list_elem_of_fmap. specialize (F q Hq).
    rewrite <- Eq in F. apply F. left.
  - intros q [-> | Hq]%elem_of_cons; [done|]. intros H. apply (F q Hq). by right.
Qed.
End node_table_facts.

Section ready.
Context `{GCM : AesGcm} `{HS : Hashes} `{URL : GoURL} `{UC : UnicodeCase} `{P6 : Prefix6}.

(** What a validated configuration says about the transport. *)
Lemma valid_transport cfg : ValidateRuntimeConfig cfg = Ok tt →
  (∃ psk, base64_decode (Rc_WGShimPSK cfg) = Some psk ∧ zlen psk = 32) ∧
  0 <= Rc_PaddingMin cfg <= Rc_PaddingMax cfg ∧ Rc_PaddingMax cfg <= 255 ∧
  NoDup (Path_Endpoint <$> TransportPaths cfg) ∧ TransportPaths cfg ≠ [].
Proof.
  intros E. unfold ValidateRuntimeConfig in E. ok_step E. ok_step E.
  apply bind_Ok in E as ([] & Paths & E). ok_step E. ok_step E. ok_step E. guards.
  unfold ValidatePaths in Paths. apply check_then in Paths as [Count Paths]. guards.
  destruct (base64_decode (Rc_WGShimPSK cfg)) as [psk|]; [|done]. guards. split_and!; [eauto|lia..| |].
  - by apply (validate_paths_distinct _ _ _ Paths).
  - intros En. rewrite En, zlen_nil in Count. lia.
Qed.

(** A validated configuration gives a transport: it has the endpoints in order, its
    codecs carry the key, and each endpoint is attributed to its Node. *)
Lemma transport_ready cfg : ValidateRuntimeConfig cfg = Ok tt →
  ∃ tr psk, transport_setup cfg = Ok tr ∧ base64_decode (Rc_WGShimPSK cfg) = Some psk ∧
    psk_codecs psk (Rc_PaddingMin cfg) (Rc_PaddingMax cfg) = Ok (Cfg_TX (tr_config tr), Cfg_RX (tr_config tr)) ∧
    is_ok (adaptive_config (tr_config tr)) = true ∧
    Cfg_Servers (tr_config tr) = Path_Endpoint <$> TransportPaths cfg ∧
    ∀ path, path ∈ TransportPaths cfg → tr_nodes tr !! Path_Endpoint path = Some (Path_Node path).
Proof.
  intros ((psk & Ep & L) & Pad & Max & N & Ne)%valid_transport.
  destruct (psk_codecs_total psk _ _ L Pad Max) as (up & down & Ec). unfold transport_setup. rewrite Ep, L.
  change (negb (32 =? 32)) with false. cbn [check mbind result_bind]. rewrite Ec. cbn [mbind result_bind].
  eexists _, psk. split; [done|]. cbn [tr_config tr_nodes Cfg_TX Cfg_RX Cfg_Servers]. split_and!; [done..| |done|].
  - unfold adaptive_config. cbn [Cfg_Servers]. by destruct (TransportPaths cfg) as [|? ?].
  - intros path. by apply node_table_lookup.
Qed.
End ready.
