(* ===== verification/RelayCommands.v ===== *)
(** * The relay commands ([cmd/bpc-agent-relay], [cmd/bpc-wgshim], [cmd/bpc-p2p-relay])

    The public relay of the agents loads one key per Device; [bpc-wgshim] is a client or a
    server for a single key; [bpc-p2p-relay] serves the P2P relay.  What they prepare is
    given to the servers and clients of [internal/wgshim] and [internal/p2p]. *)

From Stdlib Require Import Strings.Byte Strings.Ascii.
From S2P Require Import Prelude GoLib GoNet GoStrings GoEncoding Netip Crypto P2pGrant.
From S2P Require Import WgshimCodec WgshimPath WgshimAdaptive WgshimTcp WgshimRelay WgshimFlow WgshimMulti WgshimTransport.
From S2P Require Import AgentConfig P2pPolicy P2pRelay AgentInstall AgentTransport.

(** ** The relay of the agents *)

(** [splitListeners]: the addresses in order, each once. *)
Definition splitListeners (raw : string) : list string :=
  distinct [] (filter (λ value, value ≠ "") (trim_space <$> split_on ","%char raw)).

Definition valueOrDisabled (value : string) : string := if blank value then "disabled" else value.

(** An entry of the key directory; [None] when it cannot be read. *)
Record dir_entry := mkEntry { de_name : string; de_dir : bool; de_contents : option string }.

(** [HasSuffix] and [TrimSuffix] with [".key"]. *)
Fixpoint key_name (s : string) : option string :=
  if String.eqb s ".key" then Some ""
  else match s with
       | "" => None
       | String c rest => String c <$> key_name rest
       end.

(** The Device an entry holds the key of. *)
Definition entry_id (e : dir_entry) : option string :=
  if de_dir e then None
  else match key_name (de_name e) with
       | Some "" => None
       | id => id
       end.

Inductive server_start := StartUDP (listen target : string) | StartTCP (listen target : string).

Section relay.
Context `{GCM : AesGcm} `{HS : Hashes}.

Definition load_entry (padMin padMax : Z) (e : dir_entry) : result LoadedPeer :=
  psk ← LoadPSK (de_contents e);
  '(rx, tx) ← psk_codecs psk padMin padMax;
  Ok (mkLoaded (bytes_str psk) (Some rx) (Some tx)).

Fixpoint load_entries (padMin padMax : Z) (peers : gmap string LoadedPeer) (entries : list dir_entry)
    : result (gmap string LoadedPeer) :=
  match entries with
  | [] => Ok peers
  | e :: entries =>
      match entry_id e with
      | None => load_entries padMin padMax peers entries
      | Some id => peer ← load_entry padMin padMax e; load_entries padMin padMax (<[id := peer]> peers) entries
      end
  end.

(** [loadPeers]: [None] when the directory cannot be read. *)
Definition loadPeers (dir : option (list dir_entry)) (padMin padMax : Z) : result (gmap string LoadedPeer) :=
  match dir with
  | None => Err "read key directory: %w"
  | Some entries => load_entries padMin padMax ∅ entries
  end.

(** The servers that [main] starts. *)
Definition relay_main (listen listenTCP target keyDir : string) : result (list server_start) :=
  check (blank keyDir) "usage" ;;
  let listeners := splitListeners listen in
  check (zlen listeners =? 0) "at least one WGShim listen address is required" ;;
  let tcpListener := trim_space listenTCP in
  Ok (((λ listener, StartUDP listener target) <$> listeners)
      ++ (if String.eqb tcpListener "" then [] else [StartTCP tcpListener target])).

(** ** [bpc-wgshim] *)

(** The flags that are common; the key file as its name and its contents. *)
Record shim_flags := mkShimFlags {
  sf_keyFile : string;
  sf_contents : option string;
  sf_paddingMin : Z;
  sf_paddingMax : Z;
}.

Definition mustLoadPSK (f : shim_flags) : result bytes := LoadPSK (sf_contents f).
Definition mustCodec (f : shim_flags) (psk : bytes) (direction : Direction) : result Codec :=
  key ← DeriveKey psk direction; NewCodec key (sf_paddingMin f) (sf_paddingMax f).

(** The codec to send and the one to receive with. *)
Definition client_codecs (f : shim_flags) : result (Codec * Codec) :=
  psk ← mustLoadPSK f;
  tx ← mustCodec f psk ClientToServer;
  rx ← mustCodec f psk ServerToClient;
  Ok (tx, rx).

(** [runClient] and [runTCPClient]: server and codecs. *)
Definition runClient (f : shim_flags) (server : string) : result (string * Codec * Codec) :=
  check (String.eqb server "" || String.eqb (sf_keyFile f) "") "usage" ;;
  '(tx, rx) ← client_codecs f;
  Ok (server, tx, rx).

Definition runAutoClient (f : shim_flags) (udpServer tcpServer : string)
    (probeInterval probeTimeout switchThreshold : Z) : result TransportConfig :=
  check (String.eqb udpServer "" || String.eqb tcpServer "" || String.eqb (sf_keyFile f) "") "usage" ;;
  '(tx, rx) ← client_codecs f;
  Ok (mkTransportConfig udpServer tcpServer tx rx probeInterval probeTimeout switchThreshold).

Definition runFlowAutoClient (f : shim_flags) (udpServer : string) (udpFlows : Z) (tcpServer : string)
    (tcpFlows probeInterval probeTimeout switchThreshold : Z) : result FlowConfig :=
  check (String.eqb udpServer "" || String.eqb (sf_keyFile f) "") "usage" ;;
  check ((udpFlows <? 1) || (16 <? udpFlows) || (tcpFlows <? 0) || (8 <? tcpFlows)) "usage" ;;
  check ((0 <? tcpFlows) && String.eqb tcpServer "") "usage" ;;
  '(tx, rx) ← client_codecs f;
  Ok (mkFlowConfig udpServer udpFlows tcpServer tcpFlows tx rx probeInterval probeTimeout switchThreshold).

(** [runServer]: target, and the codecs to receive and to send with. *)
Definition runServer (f : shim_flags) (target : string) : result (string * Codec * Codec) :=
  check (String.eqb target "" || String.eqb (sf_keyFile f) "") "usage" ;;
  psk ← mustLoadPSK f;
  rx ← mustCodec f psk ClientToServer;
  tx ← mustCodec f psk ServerToClient;
  Ok (target, rx, tx).
End relay.

(** ** [bpc-p2p-relay] *)

(** [serve] up to the listener: the relay it serves. *)
Definition p2p_serve (nargs : Z) (issuer cluster : string) (certificate listener : bool) : result Relay :=
  check (negb (nargs =? 0)) "unexpected relay arguments" ;;
  match base64_decode issuer with
  | Some key =>
      check (negb (zlen key =? 32) || negb (String.eqb (base64_encode key) issuer)) "Controller public trust required" ;;
      relay ← NewRelay key cluster 0;
      check (negb certificate) "P2P relay TLS files unavailable" ;;
      check (negb listener) "listen" ;;
      Ok relay
  | None => Err "Controller public trust required"
  end.

(** ** Facts *)

Lemma key_name_spec s id : key_name s = Some id ↔ s = id +:+ ".key".
Proof.
  split.
  - revert id. induction s as [|c s IH]; intros id; cbn [key_name]; [done|].
    destruct (String.eqb_spec (String c s) ".key") as [E|_]; [intros [= <-]; done|].
    destruct (key_name s) as [n|]; [|done]. cbn. intros [= <-]. by rewrite (IH n eq_refl).
  - intros ->. induction id as [|c id IH]; [done|].
    assert (String.eqb (String c (id +:+ ".key")) ".key" = false) as E.
    { apply String.eqb_neq. intros [= _ E]. destruct id as [|? [|? [|? [|? ?]]]]; discriminate E. }
    change (String c id +:+ ".key") with (String c (id +:+ ".key")). cbn [key_name].
    by rewrite E, IH.
Qed.

Lemma entry_id_spec e id : entry_id e = Some id → id ≠ "" ∧ de_name e = id +:+ ".key".
Proof.
  unfold entry_id. destruct (de_dir e); [done|]. destruct (key_name (de_name e)) as [n|] eqn:E; [|done].
  apply key_name_spec in E. destruct n; [done|]. intros [= <-]. done.
Qed.

Section load_facts.
Context `{GCM : AesGcm} `{HS : Hashes}.
Implicit Types peers : gmap string LoadedPeer.

(** One Device per key file, whose key it has. *)
Lemma load_entries_spec lo hi peers entries out : NoDup (de_name <$> entries) →
  load_entries lo hi peers entries = Ok out →
  (∀ e id, e ∈ entries → entry_id e = Some id → ∃ p, load_entry lo hi e = Ok p ∧ out !! id = Some p) ∧
  (∀ id p, out !! id = Some p → peers !! id = Some p ∨
     ∃ e, e ∈ entries ∧ entry_id e = Some id ∧ load_entry lo hi e = Ok p) ∧
  (∀ id p, peers !! id = Some p → (∀ e, e ∈ entries → entry_id e ≠ Some id) → out !! id = Some p).
Proof.
  revert peers. induction entries as [|e entries IH]; intros peers N E; cbn in E.
  { injection E as <-. split_and!; [|by left|done]. by intros ? ? ?%not_elem_of_nil. }
  cbn in N. apply NoDup_cons in N as [New N]. destruct (entry_id e) as [id|] eqn:Ei.
  - apply bind_Ok in E as (p & Ep & E). destruct (IH _ N E) as (A & B & C).
    assert (∀ e', e' ∈ entries → entry_id e' ≠ Some id) as Other.
    { intros e' He' Ei'. apply New. apply entry_id_spec in Ei as [_ ->]. apply entry_id_spec in Ei' as [_ <-].
      by apply list_elem_of_fmap_2. }
    split_and!.
    + intros e' id' [-> | He']%elem_of_cons Ei'; [|by apply A].
      assert (id' = id) as -> by congruence. exists p. split; [done|]. apply C; [by rewrite lookup_insert_eq|done].
    + intros id' p' H. apply B in H as [H|(e' & ? & ?)]; [|by right; exists e'; split; [right|]].
      destruct (decide (id' = id)) as [-> |Ne].
      * rewrite lookup_insert_eq in H. injection H as <-. right. exists e. by split; [left|].
      * left. by rewrite lookup_insert_ne in H.
    + intros id' p' H Free. apply C; [|by intros; apply Free; right].
      rewrite lookup_insert_ne; [done|]. intros <-. by destruct (Free e); [left|].
  - destruct (IH _ N E) as (A & B & C). split_and!.
    + intros e' id' [-> | He']%elem_of_cons Ei'; [congruence|by apply A].
    + intros id' p' H. apply B in H as [H|(e' & ? & ?)]; [by left|by right; exists e'; split; [right|]].
    + intros id' p' H Free. apply C; [done|by intros; apply Free; right].
Qed.

Lemma LoadPSK_length file psk : LoadPSK file = Ok psk → zlen psk = 32.
Proof.
  unfold LoadPSK. destruct file as [raw|]; [|done]. destruct (base64_decode _) as [key|]; [|done].
  intros [G [= <-]]%check_then. by guards.
Qed.

Lemma load_entry_valid lo hi e id p : entry_id e = Some id → load_entry lo hi e = Ok p →
  ∃ psk rx tx, LoadPSK (de_contents e) = Ok psk ∧ psk_codecs psk lo hi = Ok (rx, tx) ∧
    valid_peer id p = Some (mkMultiPeer (bytes_str psk) rx tx).
Proof.
  intros [Ni _]%entry_id_spec (psk & Ep & E)%bind_Ok. apply bind_Ok in E as ([rx tx] & Ec & E).
  injection E as <-. exists psk, rx, tx. split_and!; [done..|].
  apply LoadPSK_length in Ep. unfold valid_peer. cbn.
  destruct (String.eqb_spec id ""); [done|]. by destruct psk as [|? ?].
Qed.

Lemma validate_peers_total peers : (∀ id p, peers !! id = Some p → is_Some (valid_peer id p)) →
  ∃ next, validate_peers peers = Ok next.
Proof.
  intros V. exists (map_imap valid_peer peers). unfold validate_peers. rewrite bool_decide_eq_true_2; [done|].
  rewrite <- !size_dom. f_equal. apply set_eq. intros id. rewrite !elem_of_dom, map_lookup_imap.
  destruct (peers !! id) as [p|] eqn:E; cbn; [|done]. split; [by eauto|]. intros _. by apply V.
Qed.
End load_facts.

Section agree.
Context `{GCM : AesGcm} `{HS : Hashes} `{URL : GoURL} `{UC : UnicodeCase} `{P6 : Prefix6}.

(** What a relay makes of its key directory. *)
Lemma relay_table entries lo hi peers : NoDup (de_name <$> entries) → loadPeers (Some entries) lo hi = Ok peers →
  ∃ next, validate_peers peers = Ok next ∧
    (∀ id, is_Some (next !! id) ↔ ∃ e, e ∈ entries ∧ entry_id e = Some id) ∧
    (∀ e id, e ∈ entries → entry_id e = Some id → ∃ psk rx tx, LoadPSK (de_contents e) = Ok psk ∧
       psk_codecs psk lo hi = Ok (rx, tx) ∧ next !! id = Some (mkMultiPeer (bytes_str psk) rx tx)).
Proof.
  intros N E. destruct (load_entries_spec _ _ _ _ _ N E) as (A & B & _).
  destruct (validate_peers_total peers) as [next En].
  { intros id p [H|(e & _ & Ei & El)]%B; [by rewrite lookup_empty in H|].
    destruct (load_entry_valid _ _ _ _ _ Ei El) as (? & ? & ? & _ & _ & ->). eauto. }
  assert (∀ e id, e ∈ entries → entry_id e = Some id → ∃ psk rx tx, LoadPSK (de_contents e) = Ok psk ∧
    psk_codecs psk lo hi = Ok (rx, tx) ∧ next !! id = Some (mkMultiPeer (bytes_str psk) rx tx)) as Each.
  { intros e id He Ei. destruct (A e id He Ei) as (p & El & Eo).
    destruct (load_entry_valid _ _ _ _ _ Ei El) as (psk & rx & tx & Ep & Ec & Ev).
    exists psk, rx, tx. split_and!; [done..|]. apply (validate_peers_Ok _ _ En). eauto. }
  exists next. split_and!; [done| |done]. intros id. split.
  - intros [peer (p & Eo & _)%(validate_peers_Ok _ _ En)]. apply B in Eo as [H|(e & ? & ? & _)]; [|eauto].
    by rewrite lookup_empty in H.
  - intros (e & He & Ei). destruct (Each e id He Ei) as (? & ? & ? & _ & _ & ->). eauto.
Qed.

(** C33. An agent with a validated configuration and a relay that loaded its key directory
    understand each other: the relay serves exactly the Devices that have a key file,
    the agent's transport starts, and whatever padding either side uses, what one seals
    the other opens unchanged; each endpoint is attributed to its Node. *)
Theorem agent_reaches_relay cfg entries lo hi peers e id psk :
  ValidateRuntimeConfig cfg = Ok tt → base64_decode (Rc_WGShimPSK cfg) = Some psk →
  NoDup (de_name <$> entries) → loadPeers (Some entries) lo hi = Ok peers →
  e ∈ entries → entry_id e = Some id → LoadPSK (de_contents e) = Ok psk →
  ∃ tr next p, transport_setup cfg = Ok tr ∧ is_ok (adaptive_config (tr_config tr)) = true ∧
    validate_peers peers = Ok next ∧ next !! id = Some p ∧ Fingerprint p = bytes_str psk ∧
    (∀ id', is_Some (next !! id') ↔ ∃ e', e' ∈ entries ∧ entry_id e' = Some id') ∧
    (∀ t payload random packet rest, sealType (Cfg_TX (tr_config tr)) t payload random = Ok (packet, rest) →
       OpenTyped (RX p) packet = Ok (t, payload) ∧ is_Some (match_multi next packet)) ∧
    (∀ t payload random packet rest, sealType (TX p) t payload random = Ok (packet, rest) →
       OpenTyped (Cfg_RX (tr_config tr)) packet = Ok (t, payload)) ∧
    (∀ path, path ∈ TransportPaths cfg → tr_nodes tr !! Path_Endpoint path = Some (Path_Node path)).
Proof.
  intros (tr & psk0 & Et & Ep & Ec & Ea & _ & Nodes)%transport_ready Ep' N El He Ei Ek.
  assert (psk0 = psk) as -> by congruence. destruct (relay_table _ _ _ _ N El) as (next & En & Dom & Each).
  destruct (Each e id He Ei) as (psk' & rx & tx & Ek' & Er & Eo). assert (psk' = psk) as -> by congruence.
  destruct (psk_codecs_agree _ _ _ _ _ _ _ _ _ Ec Er) as (Wu & Wd & Au & Ad).
  exists tr, next, (mkMultiPeer (bytes_str psk) rx tx). split_and!; [done..| | |done].
  - intros t payload random packet rest E. destruct (sealType_OpenTyped _ rx _ _ _ _ _ Wu Au E) as [O _].
    split; [done|]. destruct (match_multi next packet) eqn:M; [by eauto|].
    destruct (proj1 (match_multi_None _ _) M id _ t payload Eo O).
  - intros t payload random packet rest E. cbn in E.
    by destruct (sealType_OpenTyped _ (Cfg_RX (tr_config tr)) _ _ _ _ _ Wd (eq_sym Ad) E).
Qed.

Lemma codec_pair f psk : psk_codecs psk (sf_paddingMin f) (sf_paddingMax f) =
  (tx ← mustCodec f psk ClientToServer; rx ← mustCodec f psk ServerToClient; Ok (tx, rx)).
Proof. unfold psk_codecs, mustCodec, DeriveKey. by destruct (zlen psk =? 32). Qed.

(** A [bpc-wgshim] client and server with the same key: each opens what the other seals. *)
Lemma shim_pair f g server target tx rx srx stx :
  runClient f server = Ok (server, tx, rx) → runServer g target = Ok (target, srx, stx) →
  mustLoadPSK f = mustLoadPSK g →
  (∀ t payload random packet rest, sealType tx t payload random = Ok (packet, rest) →
     OpenTyped srx packet = Ok (t, payload)) ∧
  (∀ t payload random packet rest, sealType stx t payload random = Ok (packet, rest) →
     OpenTyped rx packet = Ok (t, payload)).
Proof.
  intros [_ (p & (psk & Ek & E)%bind_Ok & Ec)%bind_Ok]%check_then [_ (psk' & Ek' & E')%bind_Ok]%check_then Same.
  assert (psk' = psk) as -> by congruence. destruct p as [tx' rx']. injection Ec as <- <-.
  rewrite <- codec_pair in E.
  assert (psk_codecs psk (sf_paddingMin g) (sf_paddingMax g) = Ok (srx, stx)) as E2.
  { rewrite codec_pair. destruct (mustCodec g psk ClientToServer); [|done..]. cbn in E' |- *.
    destruct (mustCodec g psk ServerToClient); [|done..]. cbn in E' |- *. by injection E' as <- <-. }
  destruct (psk_codecs_agree _ _ _ _ _ _ _ _ _ E E2) as (Wu & Wd & Au & Ad). split.
  - intros t payload random packet rest S. by destruct (sealType_OpenTyped _ srx _ _ _ _ _ Wu Au S).
  - intros t payload random packet rest S. by destruct (sealType_OpenTyped _ rx' _ _ _ _ _ Wd (eq_sym Ad) S).
Qed.

(** [client-flow-auto] accepts no TCP flows together with a TCP server, but the client
    then opens one. *)
Lemma zero_tcp_flows_opens_one f udpServer udpFlows tcpServer interval timeout threshold c :
  runFlowAutoClient f udpServer udpFlows tcpServer 0 interval timeout threshold = Ok c → tcpServer ≠ "" →
  ∃ c', flow_config c = Ok c' ∧ FC_UDPFlows c' = udpFlows ∧ FC_TCPFlows c' = 1.
Proof.
  unfold runFlowAutoClient. intros E Ht. ok_steps E. destruct x as [tx rx]. injection E as <-. guards.
  unfold flow_config. cbn [FC_UDPServer FC_TCPServer FC_UDPFlows FC_TCPFlows].
  destruct (String.eqb_spec udpServer ""), (String.eqb_spec tcpServer ""); try (exfalso; tauto).
  unfold positive_or. destruct (Z.leb_spec udpFlows 0); [lia|]. cbn [negb andb check mbind result_bind].
  assert ((udpFlows <? 0) || (16 <? udpFlows) = false) as -> by (guards; lia). eexists. by split.
Qed.
End agree.
