(* ===== verification/WgshimExamples.v ===== *)
(** * Concrete runs of the WireGuard shim

    The theorems of [WgshimCodec] and [WgshimPath] at concrete inputs: a datagram
    sealed and opened with a small executable cipher, and two relays between which
    the path manager migrates, rolls back and fails over. *)

From Stdlib Require Import Strings.Byte.
From S2P Require Import Prelude GoLib GoStrings Float64 Crypto WgshimCodec WgshimPath.

Module CodecRun.
Definition key : bytes := replicate 32 x07.
Definition codec : Codec := ok_or (mkCodec key 0 0) (NewCodec key 2 5).
Definition payload : bytes := str_bytes "hello".
Definition random : bytes := replicate 40 x03.
Definition packet : bytes := (ok_or ([], []) (sealType codec packetData payload random)).1.

Lemma sealType_OpenTyped_witness :
  ∃ rest, sealType codec packetData payload random = Ok (packet, rest) ∧
    OpenTyped codec packet = Ok (packetData, payload) ∧
    zlen payload + 32 + 2 <= zlen packet <= zlen payload + 32 + 5.
Proof.
  eexists. split; [vm_compute; reflexivity|].
  apply (sealType_OpenTyped codec codec packetData payload random packet (replicate 22 x03)).
  - vm_compute. intuition discriminate.
  - reflexivity.
  - vm_compute. reflexivity.
Defined.

Lemma OpenTyped_exact_witness :
  OpenTyped codec (replicate 40 x00) ≠ Panic ∧
  known_type packetData = true ∧ zlen payload <= 65535 ∧ ∃ nonce padding, zlen nonce = nonceSize ∧
    packet = nonce ++ aead_seal (codec_aead codec) nonce (plaintext_of packetData payload padding) aad.
Proof.
  split; [apply (OpenTyped_exact codec (replicate 40 x00))|].
  apply (OpenTyped_exact codec packet). vm_compute. reflexivity.
Defined.
End CodecRun.

Module PathRun.
Definition eps : list string := ["relay-a"; "relay-b"].
Definition pol : PathPolicy := mkPathPolicy 0 0 0 0 0.
Definition t0 : Z := 1000 * second.

Definition fresh : PathManager := NewPathManager eps pol.
(** Only the second relay answers. *)
Definition lonely : PathManager := ok_or fresh (Observe fresh 1 1 [20 * millisecond] t0).
(** Both answer, the second one faster. *)
Definition probed : PathManager := ok_or fresh (Observe lonely 0 2 [100 * millisecond; 90 * millisecond] t0).
Definition nominated : PathManager := (ok_or (fresh, 0, false) (Select probed t0)).1.1.
Definition migrated : PathManager :=
  (ok_or (fresh, 0, false) (Select nominated (t0 + 5 * second))).1.1.

Lemma lonely_reach : manager_reach eps pol lonely.
Proof. apply (reach_observe _ _ fresh 1 1 [20 * millisecond] t0); [apply reach_new|]. vm_compute. reflexivity. Qed.

Lemma nominated_reach : manager_reach eps pol nominated.
Proof.
  eapply (reach_select _ _ probed t0).
  - apply (reach_observe _ _ lonely 0 2 [100 * millisecond; 90 * millisecond] t0);
      [apply lonely_reach|]. vm_compute. reflexivity.
  - vm_compute. reflexivity.
Qed.

Lemma migrated_reach : manager_reach eps pol migrated.
Proof.
  eapply (reach_select _ _ nominated (t0 + 5 * second)); [apply nominated_reach|].
  vm_compute. reflexivity.
Qed.

Lemma path_manager_safe_witness : ∃ m' switched, Select migrated t0 = Ok (m', active m', switched).
Proof. apply (path_manager_safe eps pol migrated); [discriminate|apply migrated_reach]. Defined.

Lemma Select_switch_witness :
  ∃ current q, paths nominated !! 0%nat = Some current ∧ paths nominated !! 1%nat = Some q ∧
    PH_Reachable (health q) = true ∧ candidate nominated = 1.
Proof.
  destruct (Select_switch eps nominated (t0 + 5 * second) migrated 1) as (current & q & Hc & Hq & R & _).
  - apply (manager_reach_inv eps pol); [discriminate|apply nominated_reach].
  - vm_compute. reflexivity.
  - exists current, q. split; [exact Hc|]. split; [exact Hq|]. split; [exact R|].
    vm_compute. reflexivity.
Defined.

Lemma Select_handoff_witness :
  ∃ m' i q, Select lonely t0 = Ok (m', i, true) ∧ i ≠ active lonely ∧ active m' = i ∧
    paths lonely !! Z.to_nat i = Some q ∧ PH_Reachable (health q) = true.
Proof.
  eapply (Select_handoff eps lonely t0).
  - apply (manager_reach_inv eps pol); [discriminate|apply lonely_reach].
  - vm_compute. reflexivity.
  - reflexivity.
  - apply list_elem_of_lookup. exists 1%nat. vm_compute. reflexivity.
  - reflexivity.
  - vm_compute. discriminate.
Defined.

Lemma blackhole_rollback_witness :
  MigrationFallback (MarkSent migrated 1 (t0 + 6 * second)) = Ok 0.
Proof.
  apply (blackhole_rollback eps migrated 0 (t0 + 6 * second) (t0 + 9 * second)).
  - apply (manager_reach_inv eps pol); [discriminate|apply migrated_reach].
  - unfold eps. repeat constructor; set_solver.
  - vm_compute. reflexivity.
  - lia.
  - vm_compute. reflexivity.
  - eexists. split; [vm_compute; reflexivity|reflexivity].
  - vm_compute. discriminate.
  - vm_compute. reflexivity.
Defined.
End PathRun.
