(* ===== verification/WgshimNetExamples.v ===== *)
(** * Concrete runs of the shim's transports

    The theorems of the relay, the adaptive client, the flows, the multi-peer server
    and the TCP transport at concrete inputs, with the cipher and the sockets of
    [Crypto] and [GoNet]. *)

From Stdlib Require Import Strings.Byte.
From S2P Require Import Prelude GoLib GoStrings Float64 GoEncoding Crypto GoNet WgshimCodec WgshimPath.
From S2P Require Import WgshimTcp WgshimRelay WgshimAdaptive WgshimFlow WgshimMulti WgshimTransport.

(** A codec, a packet of transport data and its datagram. *)
Definition codec_of (b : byte) : Codec := ok_or (mkCodec [] 0 0) (NewCodec (replicate 32 b) 0 4).
Definition alice : Codec := codec_of x07.
Definition bob : Codec := codec_of x08.
Definition random : bytes := replicate 400 x03.
Definition data : bytes := [x04; x00; x00; x00] ++ replicate 28 x2a.
Definition datagram (c : Codec) (t : byte) (payload : bytes) : bytes := (ok_or ([], []) (sealType c t payload random)).1.

Definition sealed (c : Codec) (payload random : bytes) : bytes * bytes := ok_or ([], []) (Seal c payload random).

Lemma sealed_eq c payload random : is_ok (Seal c payload random) = true →
  Seal c payload random = Ok ((sealed c payload random).1, (sealed c payload random).2).
Proof. intros H. rewrite <- surjective_pairing. by apply ok_or_eq. Qed.

Module TcpRun.
Definition payloads : list bytes := [data; [x01; x02]].
(** The connection breaks inside the second frame. *)
Definition wire : narrow := mkNarrow [] 40.
Definition wrote : narrow := (write_frames wire payloads).1.

Lemma tcp_stream_integrity_witness :
  (write_frames wire payloads).2 = Err "broken pipe" ∧ (tcp_frames (written wrote)).1 `prefix_of` payloads ∧
  (tcp_frames (written wrote)).1 = [data].
Proof.
  split; [vm_compute; reflexivity|]. split; [|vm_compute; reflexivity].
  apply (tcp_stream_integrity wire payloads (written wrote)).
  - reflexivity.
  - repeat constructor; (vm_compute; (reflexivity || discriminate)).
  - reflexivity.
Defined.

(** A sender that read the first connection fails after it was replaced. *)
Definition link1 : tcpClientLink narrow := run_connected newTCPClientLink 0 (mkNarrow [] 0).
Definition link2 : tcpClientLink narrow := run_lost link1 0.
Definition link3 : tcpClientLink narrow := run_connected link2 1 wire.

Lemma link2_reach : link_reach link2.
Proof.
  eapply rtc_l; [apply (link_connect newTCPClientLink 0 (mkNarrow [] 0)); reflexivity|].
  apply rtc_once, link_lost. reflexivity.
Qed.

Lemma link_current_live_witness :
  current (send_on link3 0 data).1 = Some 1%nat ∧ (send_on link3 0 data).2 ≠ Ok tt.
Proof.
  split; [|vm_compute; discriminate].
  destruct (link_current_live link2 link2_reach) as (_ & _ & H & _).
  apply (H 0%nat 1%nat wire data); [reflexivity|discriminate].
Defined.
End TcpRun.

Module RelayRun.
Abbreviation log := (list (string * bytes)).
Definition client : Client string log (list bytes) := mkClient alice bob None [] [] no_stats random.
Definition server : Server string log (list bytes) := mkServer alice bob None [] [] no_stats random.
Definition outer : bytes := (sealed alice data random).1.

Lemma randomDuration_range_witness :
  ∃ d rest, randomDuration 5 9 random = Ok (d, rest) ∧ 5 <= d <= 9.
Proof. apply (randomDuration_range 5 9 random); lia. Defined.

Lemma relay_round_trip_witness :
  server_target (server_outer_read false server outer "1.2.3.4:5").1 = [data].
Proof.
  destruct (relay_round_trip client server data [x01] "wg:1" "1.2.3.4:5" outer (sealed alice data random).2)
    as (_ & H & _).
  - vm_compute. intuition discriminate.
  - apply sealed_eq. vm_compute. reflexivity.
  - exact H.
Defined.
End RelayRun.

Module AdaptiveRun.
Definition cfg : AdaptiveClientConfig :=
  mkAdaptiveConfig true ["relay-a"; "relay-b"] alice bob (400 * millisecond) (10 * millisecond) second second
    (mkPathPolicy 0 0 0 0 0).
Definition resolver : string → option string := Some.
Definition pool : resolution string := (resolveAdaptiveServers resolver (Cfg_Servers cfg)).1.
Definition t0 : Z := 1000 * second.

Abbreviation log := (list (string * bytes)).
Abbreviation state := (Adaptive string log log).
Definition dummy : state :=
  mkAdaptive None 0 ∅ [] (NewPathManager [] (mkPathPolicy 0 0 0 0 0)) None [] [] no_stats [] ∅ 0 0.
Definition noise : bytes := (λ i, byte_of (Z.of_nat i * 37 mod 251)) <$> seq 0 800.
Definition start : state := ok_or dummy (adaptive_start cfg pool [] [] noise).

(** The answer of an endpoint to the probe it was sent. *)
Definition token_for (a : state) (name : string) : string :=
  default "" (head (filter (λ k, probe_endpoint <$> ad_pending a !! k = Some name)
    (fst <$> map_to_list (ad_pending a)))).
Definition reply (a : state) (name : string) : bytes :=
  datagram bob packetProbeReply (default [] (hex_decode (token_for a name))).
Definition answered (a : state) (name : string) (now : Z) : state :=
  (adaptive_outer_read cfg pool false a (reply a name) name now).1.

(** A round with one sample per endpoint: the second endpoint answers after 20 ms, the
    first after 100 ms. *)
Definition probed (a : state) (t : Z) : state :=
  (send_probe cfg pool (send_probe cfg pool (ad_set_round a ∅ 0 0) 0 t).1 1 t).1.
Definition heard (a : state) (t : Z) : state :=
  answered (answered (probed a t) "relay-b" (t + 20 * millisecond)) "relay-a" (t + 100 * millisecond).
Definition counted (a : state) (t : Z) : state :=
  default dummy (collect (default dummy (collect (heard a t)))).
Definition round (a : state) (t : Z) : state :=
  ok_or dummy (round_end cfg pool (counted a t) (t + 100 * millisecond)).

Definition nominated : state := round start t0.
Definition moved : state := round nominated (t0 + 10 * second).

Lemma pool_is_ok : pool_ok cfg pool resolver.
Proof. split; [vm_compute; discriminate|]. exact (resolve_all_resolved resolver (Cfg_Servers cfg)). Qed.

Lemma round_steps a t :
  is_Some (collect (heard a t)) → is_Some (collect (default dummy (collect (heard a t)))) →
  is_ok (round_end cfg pool (counted a t) (t + 100 * millisecond)) = true →
  rtc (adaptive_step cfg pool) a (round a t).
Proof.
  intros [a1 C1] [a2 C2] R. eapply rtc_l; [apply step_round_begin|].
  eapply rtc_l; [apply (step_probe cfg pool _ 0 t); vm_compute; lia|].
  eapply rtc_l; [apply (step_probe cfg pool _ 1 t); vm_compute; lia|]. fold (probed a t).
  eapply rtc_l; [apply (step_outer cfg pool _ (reply (probed a t) "relay-b") "relay-b" (t + 20 * millisecond))|].
  fold (answered (probed a t) "relay-b" (t + 20 * millisecond)).
  eapply rtc_l; [apply (step_outer cfg pool _ (reply (answered (probed a t) "relay-b" (t + 20 * millisecond)) "relay-a")
    "relay-a" (t + 100 * millisecond))|].
  fold (answered (answered (probed a t) "relay-b" (t + 20 * millisecond)) "relay-a" (t + 100 * millisecond)).
  fold (heard a t). eapply rtc_l; [apply (step_collect _ _ _ a1 C1)|].
  unfold round, counted in *. rewrite C1 in *. cbn [default from_option Datatypes.id] in *.
  eapply rtc_l; [apply (step_collect _ _ _ a2 C2)|]. rewrite C2 in *.
  cbn [default from_option Datatypes.id] in *.
  apply rtc_once, (step_round_end cfg pool a2 (t + 100 * millisecond)).
  by destruct (round_end cfg pool a2 _).
Qed.

Lemma nominated_steps : rtc (adaptive_step cfg pool) start nominated.
Proof. apply round_steps; [apply (bool_decide_eq_true_1 (is_Some _)); vm_compute; reflexivity..|vm_compute; reflexivity]. Qed.

Lemma moved_steps : rtc (adaptive_step cfg pool) nominated moved.
Proof. apply round_steps; [apply (bool_decide_eq_true_1 (is_Some _)); vm_compute; reflexivity..|vm_compute; reflexivity]. Qed.

Lemma moved_reach : adaptive_reach cfg pool moved.
Proof.
  exists [], [], noise, start. split; [apply ok_or_eq; vm_compute; reflexivity|].
  etransitivity; [exact nominated_steps|exact moved_steps].
Qed.

Lemma adaptive_reachable_witness : ad_selected moved = active (ad_manager moved) ∧ ad_selected moved = 1.
Proof.
  destruct (adaptive_reachable cfg pool resolver pool_is_ok moved moved_reach) as [I _].
  split; [exact (ai_selected _ _ I)|vm_compute; reflexivity].
Defined.

(** After the migration, transport data goes to the new endpoint and the old one. *)
Definition doubled : bytes * bytes := sealed (Cfg_TX cfg) data (ad_random moved).

Lemma adaptive_handoff_witness :
  ∃ f previous, MigrationFallback (ad_manager moved) = Ok f ∧ f ≠ active (ad_manager moved) ∧
    serverAddrs pool !! Z.to_nat f = Some previous ∧
    ad_outer (adaptive_local_read cfg pool false moved data "wg:1" (t0 + 11 * second)).1
      = ad_outer moved ++ [("relay-b", doubled.1); (previous, doubled.1)].
Proof.
  assert (Seal (Cfg_TX cfg) data (ad_random moved) = Ok (doubled.1, doubled.2)) as E.
  { apply sealed_eq. vm_compute. reflexivity. }
  destruct (adaptive_handoff cfg pool resolver pool_is_ok moved data "wg:1" (t0 + 11 * second)
    doubled.1 doubled.2 moved_reach E) as (selected & S & H).
  assert (selected = "relay-b") as -> by (vm_compute in S; injection S as <-; reflexivity).
  cbn [WriteTo log_socket] in H. destruct H as [_ H].
  destruct (H eq_refl) as [(_ & [K|[K|K]])|(_ & _ & f & previous & p & M & N & _ & _ & P & O)].
  - vm_compute in K. discriminate.
  - vm_compute in K. discriminate.
  - vm_compute in K. discriminate.
  - exists f, previous. split; [exact M|]. split; [exact N|]. split; [exact P|].
    rewrite O. cbn [WriteTo log_socket fst]. rewrite <- app_assoc. reflexivity.
Defined.
End AdaptiveRun.

Module FlowRun.
Definition cfg : FlowConfig := mkFlowConfig "relay:1" 1 "relay:2" 1 alice bob second (400 * millisecond) (10 * millisecond).
(** The selected flow is a TCP connection that is down; the other one is UDP. *)
Definition flows : list (transportFlow (list bytes) narrow) :=
  [mkFlow "tcp-1" "relay:2" "" (TCPFlow newTCPClientLink); mkFlow "udp-1" "relay:1" "" (UDPFlow [])].
Definition client : FlowClient string (list (string * bytes)) (list bytes) narrow := start_flows flows [] random.
Definition outer : bytes * bytes := sealed alice data random.

Lemma flow_failover_witness :
  let c' := (flow_local_read cfg client data "wg:1").1 in
  ∃ failed k, failed ++ [k] = [0%nat; 1%nat] ∧
    flow_link <$> fc_flows c' !! k = Some (UDPFlow [outer.1]).
Proof.
  pose proof (flow_failover cfg client data "wg:1" outer.1 outer.2) as H.
  destruct (flow_local_read cfg client data "wg:1") as [c' o] eqn:E. cbv zeta. cbn [fst].
  destruct H as (_ & _ & _ & failed & rest & Er & _ & Hrest).
  - vm_compute. split; [discriminate|reflexivity].
  - apply sealed_eq. vm_compute. reflexivity.
  - assert (flow_link <$> fc_flows (flow_local_read cfg client data "wg:1").1 !! 1%nat
      = Some (UDPFlow [outer.1])) as L by (vm_compute; reflexivity).
    rewrite E in L. exists [0%nat], 1%nat. split; [reflexivity|exact L].
Defined.

Definition rtts : list (list Z) := [[100 * millisecond; 90 * millisecond]; [20 * millisecond; 30 * millisecond]].

Lemma choose_flow_spec_witness :
  ∃ scores, flow_scores 0 rtts = Ok scores ∧
    fs_index (choose_flow (10 * millisecond) 1 (ranked scores)) = 1.
Proof.
  assert (flow_scores 0 rtts = Ok (ok_or [] (flow_scores 0 rtts))) as E
    by (apply ok_or_eq; vm_compute; reflexivity).
  exists (ok_or [] (flow_scores 0 rtts)). split; [exact E|].
  destruct (choose_flow_spec (10 * millisecond) 0 rtts (ok_or [] (flow_scores 0 rtts))) as (_ & _ & _ & S).
  - vm_compute. discriminate.
  - repeat constructor; vm_compute; (reflexivity || discriminate).
  - exact E.
  - assert (fs_index (choose_flow (10 * millisecond) 0 (ranked (ok_or [] (flow_scores 0 rtts)))) = 1) as N
      by (vm_compute; reflexivity).
    rewrite N in S. exact S.
Defined.

Lemma flow_reachable_witness : 0 <= fc_selected client < 2.
Proof.
  apply (fi_selected 2 client), (flow_reachable cfg (λ _, "") 2 client []); [lia|].
  exists flows, [], random. split; reflexivity.
Defined.
End FlowRun.

Lemma none_of {A} (o : option A) : match o with Some _ => false | None => true end = true → o = None.
Proof. by destruct o. Qed.

Module MultiRun.
Definition loaded : gmap string LoadedPeer :=
  {["alice" := mkLoaded "fp-a" (Some alice) (Some alice); "bob" := mkLoaded "fp-b" (Some bob) (Some bob)]}.
Definition peers : gmap string MultiServerPeer := ok_or ∅ (validate_peers loaded).
Abbreviation run := (multi_run string (list (string * bytes)) (list bytes)).
Definition start : run := mkRun (multi_start peers [] random) peers None [].
Definition packet : bytes := datagram alice packetData data.
Definition first : run :=
  mkRun (multi_outer_read (run_server start) peers packet "1.2.3.4:5" (Some [])) peers None
    (log_datagram peers packet "1.2.3.4:5" []).

Lemma first_reach : multi_reach first.
Proof.
  exists loaded, peers, [], random. split; [apply ok_or_eq; vm_compute; reflexivity|].
  apply rtc_once, (multi_outer (run_server start) peers None [] packet "1.2.3.4:5" (Some [])).
Qed.


(** The next file has no entry for the peer. *)
Lemma reload_revokes_witness :
  let m' := (reloadPeers (run_server first) (Some {["bob" := mkLoaded "fp-b" (Some bob) (Some bob)]})).1 in
  multi_target_read m' 0 [x09] = m'.
Proof.
  pose proof (reload_revokes first (Some {["bob" := mkLoaded "fp-b" (Some bob) (Some bob)]}) first_reach) as H.
  cbv zeta in *.
  assert ((reloadPeers (run_server first) (Some {["bob" := mkLoaded "fp-b" (Some bob) (Some bob)]})).2 = Ok tt)
    as E by (vm_compute; reflexivity).
  assert (mu_peers (reloadPeers (run_server first)
    (Some {["bob" := mkLoaded "fp-b" (Some bob) (Some bob)]})).1 !! "alice" = None) as N
    by (apply none_of; vm_compute; reflexivity).
  destruct (reloadPeers _ _) as [m' r]. cbn [fst snd] in *.
  destruct (proj2 H E) as (_ & _ & K).
  assert (mu_sessions (run_server first) !! "alice" = Some 0%nat) as S by (vm_compute; reflexivity).
  assert (is_Some (mu_heap (run_server first) !! 0%nat)) as [s Hs]
    by (apply (bool_decide_eq_true_1 (is_Some _)); vm_compute; reflexivity).
  apply (K "alice" 0%nat s [x09] S Hs). intros peer Hp. rewrite N in Hp. discriminate.
Defined.

(** A TCP connection bound to a peer that was removed. *)
Definition bound : tcpServed (list bytes) narrow := mkServed "alice" "fp-a" (Some []) (mkNarrow [] 1000) no_stats random.

Lemma tcp_connection_bound_witness :
  (tcp_frame_read (delete "alice" peers) None bound packet).2 = Return ∧
  tcp_target_read (delete "alice" peers) bound [x09] = (bound, Return).
Proof.
  pose proof (tcp_connection_bound (delete "alice" peers) None bound packet [x09]) as H.
  destruct (tcp_frame_read _ _ _ _) as [c' o]. destruct H as (_ & _ & K).
  - apply none_of. vm_compute. reflexivity.
  - destruct K as (-> & _ & K); [discriminate| |split; [reflexivity|exact K]].
    intros peer Hp. change (tc_peerID bound) with "alice" in Hp. rewrite lookup_delete_eq in Hp. discriminate.
Defined.

Lemma choose_transport_spec_witness :
  choose_transport (10 * millisecond) TransportTCP (30 * millisecond) (80 * millisecond) = TransportUDP ∧
  choose_transport (10 * millisecond) TransportUDP (30 * millisecond) (80 * millisecond) = TransportUDP.
Proof.
  split; [vm_compute; reflexivity|].
  apply (choose_transport_spec (10 * millisecond) TransportTCP (30 * millisecond) (80 * millisecond));
    [vm_compute; (discriminate || reflexivity)..|right; reflexivity].
Defined.
End MultiRun.
