(* ===== verification/RoutedExamples.v ===== *)
(** * A routed site at work

    The theorems of [RoutedConfig], [RoutedFrame], [RoutedRouter] and
    [RoutedNetwork] at a concrete overlay: a Device behind the Node [edge] talks to
    a site behind the site router [site], over the Node [hub] or directly. *)

From Stdlib Require Import Strings.Byte.
From S2P Require Import Prelude GoLib GoStrings Float64 Netip RoutedConfig RoutedFrame RoutedRouter.
From S2P Require Import RoutedNetwork.

Module Site.
Definition now : Z := 1000 * second.
Definition ip (a b c d : Z) : Z := ((a * 256 + b) * 256 + c) * 256 + d.
Definition device : Z := ip 10 77 0 5.
Definition server : Z := ip 192 168 50 9.
Definition packet (src dst : Z) : bytes :=
  [x45; x00] ++ be_encode 2 22 ++ replicate 8 x00 ++ be_encode 4 src ++ be_encode 4 dst ++ [x68; x69].

Definition cidr : string := "192.168.50.0/24".
Definition path (id health : string) (hops : list string) (score : Z) : Path :=
  mkPath id "site" cidr hops health f0 f0 f0 (f_of_Z score) 0.
Definition via_hub : Path := path "p-hub" "healthy" ["edge"; "hub"; "site"] 100.
Definition direct : Path := path "p-direct" "healthy" ["edge"; "site"] 500.
Definition direct_down : Path := path "p-direct" "failed" ["edge"; "site"] 500.
Definition route : Route := mkRoute cidr "site".

Definition cfg (router : bool) : RoutingConfig :=
  mkRoutingConfig 2000 1 0 "10.77.0.0/16" false router ∅ [] [direct; via_hub] [direct; via_hub] [route].
Definition node (id : string) (router : bool) : Node := mkRouter id (cfg router) ∅ ∅ [] [].
Definition edge : Node := node "edge" false.
Definition hub : Node := node "hub" false.
Definition site : Node := node "site" true.

Definition request : bytes := packet device server.
Definition reply : bytes := packet server device.
Definition frame (i : Z) : Frame := mkFrame "p-hub" "site" ["edge"; "hub"; "site"] i false request.

Lemma RoutingConfig_Validate_witness : config_wf (cfg true) "site".
Proof. apply (RoutingConfig_Validate_iff (cfg true) "site"). vm_compute. reflexivity. Defined.

Lemma RouteFor_witness :
  route ∈ Routes (cfg true) ∧ ∃ q, Route_Prefix route = Ok q ∧ prefix_contains q server = true ∧
  ∀ r' q', r' ∈ Routes (cfg true) → Route_Prefix r' = Ok q' → prefix_contains q' server = true →
    pfx_bits q' <= pfx_bits q.
Proof. exact (RouteFor_longest_prefix (cfg true) server). Defined.

Lemma UnmarshalFrame_witness : MarshalFrame (frame 1) = Ok (frame_bytes (frame 1)).
Proof. apply (UnmarshalFrame_exact (frame_bytes (frame 1))). vm_compute. reflexivity. Defined.

Lemma ValidateFrame_witness : frame_authorised (frame 2) "site" "hub" (cfg true) via_hub.
Proof. apply (ValidateFrameForNode_iff (frame 2) "site" "hub" (cfg true) via_hub). vm_compute. reflexivity. Defined.

(** [edge] starts on the direct path and is then offered the better one. *)
Definition both : list Path := [direct; via_hub].
Definition started : Node := (choosePath edge route [direct] now).1.
Definition nominated : Node := (choosePath started route both (now + 10 * second)).1.
Definition switched : Node := (choosePath nominated route both (now + 20 * second)).1.

Lemma started_current : CurrentID (route_state started route) = "p-direct".
Proof. vm_compute. reflexivity. Qed.

Lemma choosePath_failover_witness :
  ∃ r' p s, choosePath started route [direct_down; via_hub] now = (r', Ok p) ∧
    viablePath started p = Some s ∧
    (∀ p' s', p' ∈ [direct_down; via_hub] → viablePath started p' = Some s' → flt s' s = false) ∧
    CurrentID (route_state r' route) = Path_ID p ∧ LastSwitch (route_state r' route) = now.
Proof.
  apply (choosePath_failover started route [direct_down; via_hub] now via_hub).
  - intros p s [->|[->|[]%not_elem_of_nil]%elem_of_cons]%elem_of_cons V; vm_compute in V;
      [discriminate|]. injection V as <-. reflexivity.
  - rewrite started_current. intros p [->|[->|[]%not_elem_of_nil]%elem_of_cons]%elem_of_cons E;
      [vm_compute; reflexivity|discriminate].
  - right. left.
  - eexists. vm_compute. reflexivity.
Defined.

Lemma choosePath_hysteresis_witness :
  pathRecoveryCooldown <= now + 20 * second -
    LastSwitch (observed_state nominated route both (now + 20 * second)).
Proof.
  refine (proj1 (choosePath_hysteresis nominated route both (now + 20 * second) switched via_hub
                   direct _ _ _ _ _)).
  - vm_compute. reflexivity.
  - left.
  - vm_compute. reflexivity.
  - eexists. vm_compute. reflexivity.
  - discriminate.
Defined.

Lemma choosePath_converges_witness :
  (choosePath (choosePath started route both (now + 10 * second)).1 route both
     (now + 20 * second)).2 = Ok via_hub.
Proof.
  apply (choosePath_converges started route both via_hub (f_of_Z 100)).
  - repeat constructor; set_solver.
  - intros p s [->|[->|[]%not_elem_of_nil]%elem_of_cons]%elem_of_cons V; vm_compute in V;
      injection V as <-; reflexivity.
  - split; [right; left|]. split; [vm_compute; reflexivity|].
    intros p s [->|[->|[]%not_elem_of_nil]%elem_of_cons]%elem_of_cons V N; vm_compute in V;
      [injection V as <-; vm_compute; reflexivity|done].
  - constructor; [vm_compute; discriminate..|].
    assert (map_Forall (λ _ a, RecoveredAt a <= now) (Availability (route_state started route))) as H.
    { refine (bool_decide_eq_true_1 _ _). vm_compute. reflexivity. }
    intros id a Ha. specialize (H id a Ha). transitivity now; [exact H|]. vm_compute. discriminate.
  - vm_compute. discriminate.
  - vm_compute. discriminate.
  - intros c sc [->|[->|[]%not_elem_of_nil]%elem_of_cons]%elem_of_cons _ V N; vm_compute in V;
      [injection V as <-; vm_compute; reflexivity|done].
  - vm_compute. discriminate.
Defined.

Lemma HandleMeshData_witness :
  ∃ fr p, frame_bytes (frame 1) = frame_bytes fr ∧ PolicyValid (config hub) now = true ∧
    frame_authorised fr "hub" "edge" (config hub) p ∧
    HandleMeshData hub "edge" (frame_bytes (frame 1)) now = accepted_frame hub fr p now.
Proof.
  destruct (HandleMeshData_gate hub "edge" (frame_bytes (frame 1)) now) as [[e E]|H]; [|exact H].
  vm_compute in E. discriminate.
Defined.

Lemma HandleTunPacket_witness :
  ∃ fr next, PolicyValid (config edge) now = true ∧ tun_frame edge request now fr ∧ frame_wf fr ∧
    Frame_Hops fr !! 1%nat = Some next ∧ CanSend (mesh edge) next = true ∧
    (mesh (HandleTunPacket edge request now).1, (HandleTunPacket edge request now).2)
      = Send (mesh edge) next (frame_bytes fr).
Proof.
  pose proof (HandleTunPacket_sends edge request now) as H.
  destruct (HandleTunPacket edge request now) as [r' res] eqn:E. cbn.
  destruct H as [(e & H & _)|H]; [|exact H].
  assert ((HandleTunPacket edge request now).2 = Ok tt) as K by (vm_compute; reflexivity).
  rewrite E in K. cbn in K. rewrite K in H. discriminate.
Defined.

Lemma UpdateConfig_witness : config (UpdateConfig started (cfg true)).1 = cfg true.
Proof.
  pose proof (UpdateConfig_spec started (cfg true)) as H.
  destruct (UpdateConfig started (cfg true)) as [r' res] eqn:E.
  assert ((UpdateConfig started (cfg true)).2 = Ok tt) as K by (vm_compute; reflexivity).
  rewrite E in K. cbn in K. subst res. exact (proj1 H).
Defined.


End Site.
