(* ===== verification/MeshExamples.v ===== *)
(** * Two Nodes of a mesh

    The theorems of [RoutedSession] and [RoutedMesh] at a concrete link: [alpha] and
    [beta] build their peers from the same key, exchange the probes that confirm
    their epochs, and then data.  The socket records what is written to it. *)

From Stdlib Require Import Strings.Byte.
From S2P Require Import Prelude GoLib GoStrings Float64 GoEncoding Crypto WgshimCodec RoutedConfig.
From S2P Require Import RoutedRouter RoutedSession RoutedMesh.

Module Window.
Definition fresh : peerSession := mkSession 0 0 0 (replicate 16 x01) zero_epoch.

Lemma replay_window_witness :
  NoDup (accept_all fresh [5; 3; 5; 100; 3; 37; 36]).2 ∧
  ((acceptSequenceLocked (accept_all fresh [5; 3; 5; 100; 3; 37; 36]).1 38).2 = true ↔
     0 < 38 ∧ 38 ∉ (accept_all fresh [5; 3; 5; 100; 3; 37; 36]).2 ∧
     recvHigh (accept_all fresh [5; 3; 5; 100; 3; 37; 36]).1 - 64 < 38).
Proof.
  pose proof (replay_window_exact fresh [5; 3; 5; 100; 3; 37; 36] eq_refl eq_refl) as H.
  destruct (accept_all fresh [5; 3; 5; 100; 3; 37; 36]) as [p' acc].
  destruct H as (Hnd & _ & _ & H); [repeat constructor; lia|]. split; [exact Hnd|].
  apply H. lia.
Defined.

Definition here : peerSession := mkSession 7 0 0 (replicate 16 x01) (replicate 16 x02).
Definition there : peerSession := mkSession 0 7 1 (replicate 16 x02) (replicate 16 x01).
Definition message : bytes :=
  replicate 16 x01 ++ replicate 16 x02 ++ be_encode 8 8 ++ str_bytes "ping".

Lemma acceptDataEnvelope_witness :
  remoteEpoch there ≠ zero_epoch ∧ str_bytes "ping" ≠ [] ∧
  ∃ sequence, 0 <= sequence < 2 ^ 64 ∧
    message = remoteEpoch there ++ localEpoch there ++ be_encode 8 sequence ++ str_bytes "ping" ∧
    acceptSequenceLocked there sequence = (set_window there 8 3, true).
Proof.
  apply (acceptDataEnvelope_exact there message).
  - constructor; vm_compute; try reflexivity. split; [discriminate|reflexivity].
  - vm_compute. reflexivity.
Defined.

Lemma transfer_witness :
  transfer here there [str_bytes "one"; str_bytes "two"] = Ok [str_bytes "one"; str_bytes "two"].
Proof.
  apply (transfer_in_order here there).
  - constructor; vm_compute; try reflexivity. split; [discriminate|reflexivity].
  - constructor; vm_compute; try reflexivity. split; [discriminate|reflexivity].
  - reflexivity.
  - reflexivity.
  - discriminate.
  - discriminate.
  - cbn. lia.
  - vm_compute. reflexivity.
  - repeat constructor; discriminate.
Defined.
End Window.

Definition wire : Type := list (bytes * UDPAddr).
#[export] Instance recording_conn : UDPConn wire := {|
  WriteToUDP c packet a := (c ++ [(packet, a)], true);
|}.

Module Link.
Definition now : Z := 1000 * second.
Definition addrA : UDPAddr := mkUDPAddr 167772161 24446.
Definition addrB : UDPAddr := mkUDPAddr 167772162 24446.
Definition resolve (s : string) : option UDPAddr :=
  if String.eqb s "beta.example:24446" then Some addrB else None.
Definition key : string := base64_encode (replicate 32 x09).
Definition link (id endpoint : string) : LinkConfig :=
  mkLinkConfig "link-1" id "" key endpoint false false 0 f0.
Definition to_beta : LinkConfig := link "beta" "beta.example:24446".
Definition to_alpha : LinkConfig := link "alpha" "".

Definition empty (id : string) (rnd : bytes) : Mesh wire := mkMesh id ∅ ∅ [] now rnd.
Definition alpha0 : Mesh wire := empty "alpha" (replicate 300 x01).
Definition beta0 : Mesh wire := empty "beta" (replicate 300 x02).
Definition written (m : Mesh wire) (i : nat) : bytes := default [] (fst <$> conn m !! i).

(** The handshake: [alpha] knows the endpoint of [beta] and probes it. *)
Definition alpha1 : Mesh wire := (Reconcile resolve alpha0 [to_beta]).1.
Definition beta1 : Mesh wire := (Reconcile resolve beta0 [to_alpha]).1.
Definition alpha2 : Mesh wire := probe_tick alpha1 now.
Definition beta2 : Mesh wire := (receive beta1 (written alpha2 0) addrA).1.
Definition alpha3 : Mesh wire := (receive alpha2 (written beta2 0) addrB).1.
Definition alpha4 : Mesh wire := (receive alpha3 (written beta2 1) addrB).1.
Definition beta3 : Mesh wire := (receive beta2 (written alpha4 1) addrA).1.

Lemma beta_only_alpha : map_Forall (λ k _, k = "alpha") (peers beta3).
Proof. refine (bool_decide_eq_true_1 _ _). vm_compute. reflexivity. Qed.

Lemma alpha_only_beta : map_Forall (λ k _, k = "beta") (peers alpha2).
Proof. refine (bool_decide_eq_true_1 _ _). vm_compute. reflexivity. Qed.

Lemma alpha2_inv : mesh_inv alpha2.
Proof.
  apply probe_tick_inv, Reconcile_inv.
  apply (NewMesh_inv (λ _, Some []) "alpha" 0 now (replicate 300 x01)). reflexivity.
Qed.

(** A decidable fact about the peer a mesh stores under an id. *)
Definition peer_is (m : Mesh wire) (id : string) (f : meshPeer → bool) : bool :=
  match peers m !! id with Some p => f p | None => false end.

Lemma peer_is_spec m id f : peer_is m id f = true → ∃ p, peers m !! id = Some p ∧ f p = true.
Proof. unfold peer_is. destruct (peers m !! id) as [p|]; [eauto|done]. Qed.

Lemma alpha2_peer : ∃ p, peers alpha2 !! "beta" = Some p ∧
  bool_decide (remoteEpoch (session p) = zero_epoch) = true.
Proof. apply peer_is_spec. vm_compute. reflexivity. Qed.

Lemma alpha3_peer : ∃ p, peers alpha3 !! "beta" = Some p ∧
  bool_decide (remoteEpoch (session p) = replicate 16 x02) = true.
Proof. apply peer_is_spec. vm_compute. reflexivity. Qed.

Lemma mesh_reachable_witness : mesh_inv beta3.
Proof.
  apply (mesh_reachable_inv resolve (λ _, Some []) "beta" 0 now (replicate 300 x02) beta0).
  - reflexivity.
  - eapply rtc_l; [apply (step_reconcile resolve beta0 [to_alpha])|].
    eapply rtc_l; [apply (step_receive resolve beta1 (written alpha2 0) addrA)|].
    apply rtc_once, (step_receive resolve beta2 (written alpha4 1) addrA).
Defined.

Lemma Reconcile_witness :
  is_Some (peers alpha1 !! "beta") ∧ ¬ is_Some (peers alpha1 !! "gamma").
Proof.
  pose proof (Reconcile_sessions resolve alpha0 [to_beta]) as H. unfold alpha1.
  destruct (Reconcile resolve alpha0 [to_beta]) as [m' res] eqn:E.
  assert ((Reconcile resolve alpha0 [to_beta]).2 = Ok tt) as K by (vm_compute; reflexivity).
  rewrite E in K. cbn in K. subst res. destruct H as [H _]. rewrite !H. split.
  - apply list_elem_of_singleton. reflexivity.
  - intros G. apply list_elem_of_singleton in G. discriminate.
Defined.

Lemma makePeer_witness :
  ∃ pa pb, makePeer resolve "alpha" to_beta now (replicate 16 x01) = Ok (pa, []) ∧
    makePeer resolve "beta" to_alpha now (replicate 16 x02) = Ok (pb, []) ∧ linked pa pb.
Proof.
  apply (makePeer_linked resolve to_beta to_alpha (replicate 32 x09) now (replicate 16 x01)
           (replicate 16 x02) (replicate 16 x01) [] (replicate 16 x02) []).
  - discriminate.
  - vm_compute. reflexivity.
  - vm_compute. reflexivity.
  - reflexivity.
  - reflexivity.
Defined.

Lemma receive_epoch_witness :
  ∃ token probe p', peers alpha3 !! "beta" = Some p' ∧
    pending alpha2 !! hex_encode token = Some probe ∧ pending_peer probe = "beta" ∧
    remoteEpoch (session p') = replicate 16 x02 ∧ pending alpha3 !! hex_encode token = None.
Proof.
  destruct alpha2_peer as (p & Hp & Ep%bool_decide_eq_true_1).
  destruct alpha3_peer as (p' & Hp' & Ep'%bool_decide_eq_true_1).
  destruct (receive_epoch_fresh alpha2 (written beta2 0) addrB alpha3 None "beta" p p')
    as (token & probe & _ & _ & Hq & Hi & _ & Hn).
  - exact alpha2_inv.
  - apply pair_of. vm_compute. reflexivity.
  - exact Hp.
  - exact Hp'.
  - rewrite Ep, Ep'. discriminate.
  - exists token, probe, p'. auto.
Defined.

(** The peer of [alpha] that waits for the answer of [beta]. *)
Lemma alpha2_challenged : ∃ p, peers alpha2 !! "beta" = Some p ∧ peer_inv "beta" p ∧
  OpenTyped (rx p) (written beta2 0) = Ok (packetProbeReply, replicate 32 x01 ++ replicate 16 x02) ∧
  addressSince (peer_address p) <= now.
Proof.
  assert (peer_is alpha2 "beta" (λ p, bool_decide (
      (Link_PeerNodeID (peer_config p) = "beta" ∧ zlen (samples (metrics p)) <= 20) ∧
      (length (localEpoch (session p)) = 16%nat ∧ length (remoteEpoch (session p)) = 16%nat) ∧
      OpenTyped (rx p) (written beta2 0) = Ok (packetProbeReply, replicate 32 x01 ++ replicate 16 x02) ∧
      addressSince (peer_address p) <= now)) = true) as H by (vm_compute; reflexivity).
  apply peer_is_spec in H as (p & Hp & ((? & ?) & (? & ?) & ? & ?)%bool_decide_eq_true_1).
  exists p. split; [exact Hp|]. split; [constructor; assumption|]. split; assumption.
Qed.

Lemma alpha2_pending : ∃ q, pending alpha2 !! hex_encode (replicate 32 x01) = Some q ∧
  pending_peer q = "beta" ∧ pending_endpoint q = udp_string addrB.
Proof.
  assert (match pending alpha2 !! hex_encode (replicate 32 x01) with
          | Some q => bool_decide (pending_peer q = "beta" ∧ pending_endpoint q = udp_string addrB)
          | None => false
          end = true) as H by (vm_compute; reflexivity).
  destruct (pending alpha2 !! _) as [q|]; [|discriminate]. apply bool_decide_eq_true_1 in H.
  exists q. split; [reflexivity|exact H].
Qed.

(** Both ends after the handshake. *)
Lemma handshake_done : ∃ pa pb, peers alpha4 !! "beta" = Some pa ∧ peers beta3 !! "alpha" = Some pb ∧
  peer_inv "alpha" pb ∧ linked pa pb ∧ in_session (session pa) (session pb).
Proof.
  assert (peer_is alpha4 "beta" (λ pa, peer_is beta3 "alpha" (λ pb, bool_decide (
      (Link_PeerNodeID (peer_config pb) = "alpha" ∧ zlen (samples (metrics pb)) <= 20) ∧
      (length (localEpoch (session pa)) = 16%nat ∧ length (remoteEpoch (session pa)) = 16%nat ∧
       0 <= sendSeq (session pa) < 2 ^ 64 - 1) ∧
      (length (localEpoch (session pb)) = 16%nat ∧ length (remoteEpoch (session pb)) = 16%nat ∧
       0 <= sendSeq (session pb) < 2 ^ 64) ∧
      (0 <= paddingMin (tx pa) <= paddingMax (tx pa) ∧ paddingMax (tx pa) <= 255) ∧
      (0 <= paddingMin (tx pb) <= paddingMax (tx pb) ∧ paddingMax (tx pb) <= 255) ∧
      ((codec_aead (rx pb) : bytes) = codec_aead (tx pa) ∧
       (codec_aead (rx pa) : bytes) = codec_aead (tx pb)) ∧
      (remoteEpoch (session pa) = localEpoch (session pb) ∧
       remoteEpoch (session pb) = localEpoch (session pa) ∧
       remoteEpoch (session pa) ≠ zero_epoch ∧ remoteEpoch (session pb) ≠ zero_epoch ∧
       0 <= recvHigh (session pb) <= sendSeq (session pa))))) = true) as H
    by (vm_compute; reflexivity).
  apply peer_is_spec in H as (pa & Ha & (pb & Hb & H)%peer_is_spec).
  apply bool_decide_eq_true_1 in H as ((? & ?) & (? & ? & ? & ?) & (? & ? & ?) & ? & ? & (? & ?) & ? & ? & ? & ? & ?).
  exists pa, pb. split; [exact Ha|]. split; [exact Hb|].
  clear Ha Hb. split; [|split]; repeat split; first [assumption|lia].
Qed.

Lemma probe_reply_witness :
  ∃ m' p', receive alpha2 (written beta2 0) addrB = (m', None) ∧ peers m' !! "beta" = Some p' ∧
    remoteEpoch (session p') = replicate 16 x02 ∧ address p' = Some addrB ∧
    ∀ t, Mesh_CanSend (at_time m' t) "beta" = (t - clock alpha2 <=? linkFailAfter).
Proof.
  destruct alpha2_challenged as (p & Hp & I & O & A). destruct alpha2_pending as (q & Hq & Hi & He).
  apply (probe_reply_liveness alpha2 "beta" p (written beta2 0) addrB (replicate 32 x01)
           (replicate 16 x02) q); try assumption.
  - intros k r packet x y Hk Hne. by destruct (Hne (alpha_only_beta k r Hk)).
  - reflexivity.
  - reflexivity.
  - discriminate.
  - vm_compute. reflexivity.
Defined.

End Link.
