(* ===== verification/RoutedNodeExamples.v ===== *)
(** * A Node that starts, is reconfigured and stops

    The theorems of [RoutedNode] with a small kernel, in which any command may also fail:
    a public Node that becomes private, a site router, a process; and two ways in which
    firewall rules of the Node outlive it. *)

From Stdlib Require Import Strings.Byte.
From stdpp Require Import pretty.
From S2P Require Import Prelude GoLib GoStrings Netip Crypto GoEncoding Float64 WgshimCodec.
From S2P Require Import RoutedConfig RoutedFrame RoutedRouter RoutedNetwork RoutedSession RoutedMesh RoutedNode MeshExamples.

(** ** A kernel *)

Record net := mkNet { net_objects : gset (list string); net_rules : list fw_rule }.

Definition occurrences (l : list fw_rule) (r : fw_rule) : nat := length (List.filter (λ x, bool_decide (x = r)) l).
Fixpoint remove_one (r : fw_rule) (l : list fw_rule) : list fw_rule :=
  match l with
  | [] => []
  | x :: rest => if bool_decide (x = r) then rest else x :: remove_one r rest
  end.

Lemma occurrences_cons x l r : occurrences (x :: l) r = if bool_decide (r = x) then S (occurrences l r) else occurrences l r.
Proof.
  unfold occurrences. cbn. rewrite (bool_decide_ext (x = r) (r = x)) by done. by case_bool_decide.
Qed.
Lemma occurrences_remove x l r : occurrences (remove_one x l) r =
  if bool_decide (r = x) then pred (occurrences l r) else occurrences l r.
Proof.
  induction l as [|y l IH]; [by case_bool_decide|]. cbn [remove_one]. rewrite occurrences_cons.
  destruct (decide (y = x)) as [->|Hy].
  - rewrite (bool_decide_eq_true_2 (x = x)) by done. by destruct (bool_decide (r = x)).
  - rewrite (bool_decide_eq_false_2 (y = x)) by done. rewrite occurrences_cons, IH.
    destruct (decide (r = y)) as [->|Hr].
    + rewrite (bool_decide_eq_true_2 (y = y)), (bool_decide_eq_false_2 (y = x)) by done. done.
    + rewrite (bool_decide_eq_false_2 (r = y)) by done. done.
Qed.
Lemma occurrences_elem l r : r ∈ l → (0 < occurrences l r)%nat.
Proof.
  induction l as [|y l IH]; [by intros ?%elem_of_nil|]. rewrite occurrences_cons. intros [->|H]%elem_of_cons.
  - rewrite bool_decide_eq_true_2 by done. lia.
  - specialize (IH H). case_bool_decide; lia.
Qed.

Definition iptables (k : net) (table : option string) (args : list string) : net * bool :=
  match args with
  | action :: chain :: spec =>
      let r := mkFw table chain spec in
      if String.eqb action "-C" then (k, bool_decide (r ∈ net_rules k))
      else if String.eqb action "-A" then (mkNet (net_objects k) (net_rules k ++ [r]), true)
      else if String.eqb action "-I" then (mkNet (net_objects k) (mkFw table chain (drop 1 spec) :: net_rules k), true)
      else if bool_decide (r ∈ net_rules k) then (mkNet (net_objects k) (remove_one r (net_rules k)), true)
      else (k, false)
  | _ => (k, false)
  end.

Definition tool (k : net) (argv : list string) : net * bool :=
  match argv with
  | "ip" :: kind :: action :: spec =>
      if String.eqb action "add" then
        if bool_decide (kind :: spec ∈ net_objects k) then (k, false)
        else (mkNet ({[ kind :: spec ]} ∪ net_objects k) (net_rules k), true)
      else if String.eqb action "del" then
        if bool_decide (kind :: spec ∈ net_objects k) then (mkNet (net_objects k ∖ {[ kind :: spec ]}) (net_rules k), true)
        else (k, false)
      else (k, true)
  | "iptables" :: "-t" :: table :: args => iptables k (Some table) args
  | "iptables" :: args => iptables k None args
  | _ => (k, false)
  end%string.

(** A command does its work or fails for another reason. *)
Definition tool_runs (k : net) (argv : list string) (k' : net) (ok : bool) : Prop :=
  tool k argv = (k', ok) ∨ (k' = k ∧ ok = false).

Lemma tool_fw k action position r : action ∈ ["-C"; "-A"; "-I"; "-D"] →
  tool k (fw_argv action position r) = iptables k (fw_table r) (action :: fw_chain r :: position ++ fw_spec r).
Proof.
  intros H. unfold fw_argv. destruct (fw_table r) as [t|]; cbn [app]; [reflexivity|].
  repeat (apply elem_of_cons in H as [->|H]; [reflexivity|]). by apply elem_of_nil in H.
Qed.

#[export] Program Instance toy_tools : NetTools net := {|
  runs := tool_runs; objects := net_objects; firewall k := occurrences (net_rules k);
|}.
Next Obligation.
  intros k kind spec k' ok _ [E|[-> ->]]; [|done]. cbn in E. case_bool_decide; injection E as <- <-; done.
Qed.
Next Obligation.
  intros k kind spec k' ok _ [E|[-> ->]]; [|done]. cbn in E. case_bool_decide; injection E as <- <-; done.
Qed.
Next Obligation. intros k iface k' ok [E|[-> ->]]; [|done]. cbn in E. by injection E as <- <-. Qed.
Next Obligation.
  intros k r k' ok [E|[-> ->]]; [|done]. rewrite tool_fw in E by left. cbn in E. injection E as <- <-.
  split_and!; [done|done|]. intros H%bool_decide_eq_true_1. apply occurrences_elem. by destruct r.
Qed.
Next Obligation.
  intros k r k' ok [E|[-> ->]]; [|done]. rewrite tool_fw in E by (right; right; left). cbn in E. injection E as <- <-.
  split; [done|]. intros s. cbn [net_rules andb]. rewrite occurrences_cons. by destruct r.
Qed.
Next Obligation.
  intros k r k' ok [E|[-> ->]]; [|done]. rewrite tool_fw in E by (right; left). cbn in E. injection E as <- <-.
  split; [done|]. intros s. cbn [net_rules andb]. unfold occurrences. rewrite List.filter_app, length_app.
  change (length (List.filter _ [?x])) with (occurrences [x] s). rewrite occurrences_cons.
  replace (mkFw (fw_table r) (fw_chain r) (fw_spec r)) with r by by destruct r.
  case_bool_decide; cbn; lia.
Qed.
Next Obligation.
  intros k r k' ok [E|[-> ->]]; [|done]. rewrite tool_fw in E by (right; right; right; left). cbn in E.
  replace (mkFw (fw_table r) (fw_chain r) (fw_spec r)) with r in E by by destruct r.
  case_bool_decide; injection E as <- <-; [|done]. split; [done|]. intros s. cbn [net_rules andb]. apply occurrences_remove.
Qed.

(** Running a program with the commands that fail given. *)
Fixpoint execute {A} (p : prog A) (broken : list string → bool) (k : net) : A * net :=
  match p with
  | Ret a => (a, k)
  | Cmd argv next =>
      if broken argv then execute (next false) broken k
      else let '(k, ok) := tool k argv in execute (next ok) broken k
  end.

Lemma execute_exec {A} (p : prog A) broken k : exec p k (execute p broken k).1 (execute p broken k).2.
Proof.
  revert k. induction p as [a|argv next IH]; intros k; cbn [execute]; [constructor|].
  destruct (broken argv); [eapply exec_cmd; [right; split; reflexivity|apply IH]|].
  destruct (tool k argv) as [k1 ok] eqn:E. eapply exec_cmd; [left; exact E|apply IH].
Qed.

Definition working (argv : list string) : bool := false.

(** ** Nodes *)

Definition site_route : Route := mkRoute "192.168.50.0/24" "site".
Definition public (overlay : string) : RoutingConfig := mkRoutingConfig 2000 1 0 overlay true false ∅ [] [] [] [site_route].
Definition site_router (overlay : string) : RoutingConfig :=
  mkRoutingConfig 2000 1 0 overlay false true ∅ [] [] [] [site_route].

Definition json (raw : bytes) : option (list (gmap string jany)) :=
  if bool_decide (raw = str_bytes "[]") then Some []
  else if bool_decide (raw = [x01]) then Some [ {[ "priority" := JInt 32766; "table" := JInt 254 ]};
                                                 {[ "fwmark" := JString "0x100/0xff00" ]} ]
  else None.
Definition clean : inspection := mkInspection (Some [x01]) (inr (Some "Error: ipv4: FIB table does not exist.")).
Definition order (m : gset string) : list string := elements m.
Lemma order_all : visits_all order.
Proof. intros m. reflexivity. Qed.

Definition uplink : list string := ["route"; "default"; "via"; "203.0.113.1"].
Definition machine : net := mkNet {[ uplink ]} [].
Definition overlay : string := "10.77.0.0/16".

Lemma clean_fresh : requireFreshPublicPolicy json clean = Ok tt.
Proof. vm_compute. reflexivity. Qed.

Module Public.
Definition started : (kernelState * result unit) * net :=
  execute (reconcile json (new_kernel "edge" "bpcrt0") order clean (public overlay)) working machine.
Definition stopped : (kernelState * result unit) * net :=
  execute (cleanup json started.1.1 order clean) working started.2.


(** A reload that has read the file when the Node is stopped and reconciles after the
    cleanup: the rule and the unreachable default stay, and the next start refuses them. *)
Definition late : (kernelState * result unit) * net :=
  execute (reconcile json stopped.1.1 order clean (public overlay)) working stopped.2.
Definition left_behind : gmap string jany :=
  {[ "priority" := JInt 120; "fwmark" := JString "0x425043"; "table" := JInt 12530 ]}.

Lemma late_reload_leaks :
  net_objects stopped.2 = {[ uplink ]} ∧ late.1.2 = Ok tt ∧
  rule_object ∈ net_objects late.2 ∧ default_object ∈ net_objects late.2 ∧ check_rule left_behind ≠ Ok tt.
Proof.
  split; [refine (bool_decide_eq_true_1 _ _); vm_compute; reflexivity|]. split; [vm_compute; reflexivity|].
  split; [refine (bool_decide_eq_true_1 _ _); vm_compute; reflexivity|].
  split; [refine (bool_decide_eq_true_1 _ _); vm_compute; reflexivity|]. vm_compute. discriminate.
Qed.
End Public.

Module SiteRouter.
Definition started : (kernelState * result unit) * net :=
  execute (reconcile json (new_kernel "site" "bpcrt0") order clean (site_router overlay)) working machine.

Lemma kernel_firewall_follows_witness :
  (0 < occurrences (net_rules started.2) (site_nat_rule "bpcrt0" overlay "192.168.50.0/24"))%nat.
Proof.
  destruct (kernel_firewall_follows json overlay "site" "bpcrt0" machine (new_kernel "site" "bpcrt0") machine order clean
    (site_router overlay) started.1.1 started.1.2 started.2) as [_ S].
  - constructor.
  - reflexivity.
  - exact order_all.
  - rewrite <- surjective_pairing. apply execute_exec.
  - apply S; [vm_compute; reflexivity|]. refine (bool_decide_eq_true_1 _ _). vm_compute. reflexivity.
Defined.

(** The overlay moves: the rules for the new one are not made, and those for the old one
    stay after the Node has cleaned up. *)
Definition moved : (kernelState * result unit) * net :=
  execute (reconcile json started.1.1 order clean (site_router "10.88.0.0/16")) working started.2.
Definition gone : (kernelState * result unit) * net := execute (cleanup json moved.1.1 order clean) working moved.2.

Lemma overlay_change_leaks :
  moved.1.2 = Ok tt ∧
  occurrences (net_rules moved.2) (site_nat_rule "bpcrt0" "10.88.0.0/16" "192.168.50.0/24") = 0%nat ∧
  gone.1.2 = Ok tt ∧
  occurrences (net_rules gone.2) (site_nat_rule "bpcrt0" overlay "192.168.50.0/24") = 1%nat.
Proof. vm_compute. split; [reflexivity|]. split; [reflexivity|]. split; reflexivity. Qed.

(** The rules that were made before a command failed are not remembered: the cleanup that
    follows leaves them. *)
Definition no_forward (argv : list string) : bool := bool_decide (take 3 argv = ["iptables"; "-I"; "FORWARD"]).
Definition half : (kernelState * result unit) * net :=
  execute (reconcile json (new_kernel "site" "bpcrt0") order clean (site_router overlay)) no_forward machine.
Definition undone : (kernelState * result unit) * net := execute (cleanup json half.1.1 order clean) working half.2.

Lemma failed_start_leaks :
  half.1.2 ≠ Ok tt ∧ undone.1.2 = Ok tt ∧
  occurrences (net_rules undone.2) (site_nat_rule "bpcrt0" overlay "192.168.50.0/24") = 1%nat.
Proof. vm_compute. split; [discriminate|]. split; reflexivity. Qed.
End SiteRouter.

(** ** A process *)

Module Process.
#[local] Instance packets : PacketWriter (list bytes) := {| WritePacket w p := (w ++ [p], Ok tt) |}.

Definition enrollment : Enrollment := mkEnrollment "edge" "Edge" ∅ (public overlay).
Definition read (path : string) : result bytes := Ok [].
Definition parse (raw : bytes) : result Enrollment := Ok enrollment.
Definition resolve (s : string) : option UDPAddr := None.
Definition e : start_env wire (list bytes) :=
  mkStartEnv "enrollment.json" (1000 * second) clean "bpcrt0" (Some ["lo"; "eth0"]) (Some "bpcrt0")
    (λ _, Some []) [] [] order.
Definition ran : option (process wire (list bytes)) * net :=
  execute (main_start resolve json read parse e) working machine.
Definition nobody : process wire (list bytes) :=
  mkProcess (mkRouter "" (public "") ∅ ∅ (mkMesh "" ∅ ∅ [] 0 []) []) (new_kernel "" "").
Definition started : process wire (list bytes) := default nobody ran.1.

Lemma node_lease_enforced_witness :
  0 < PolicyExpiresAt (config (pr_router started)) ∧
  ∀ packet, (HandleTunPacket (pr_router started) packet (2000 * second)).2 ≠ Ok tt.
Proof.
  destruct (node_lease_enforced resolve json read parse e machine started ran.2) as (_ & L & _ & X & _).
  - apply pr_start. assert (ran.1 = Some started) as <-; [|apply execute_exec].
    unfold started. assert (negb (bool_decide (is_Some ran.1)) = false) as S by (vm_compute; reflexivity).
    destruct ran.1; [reflexivity|]. vm_compute in S. discriminate.
  - exact order_all.
  - split; [exact L|]. intros packet. apply X.
    assert (PolicyExpiresAt (config (pr_router started)) = 2000) as -> by (vm_compute; reflexivity).
    vm_compute. discriminate.
Defined.
End Process.
