(* ===== verification/ControlExamples.v ===== *)
(** * A Controller at work

    The theorems of [ControlStore] and [ControlFsm] at a concrete Controller: a
    Node, its route, a second Node that claims part of it, and the files and
    snapshots that follow from them. *)

From Stdlib Require Import Strings.Byte.
From S2P Require Import Prelude GoLib GoStrings Netip Crypto ControlStore ControlLog ControlFsm.

Abbreviation bucket := (gmap string bytes).

Module Logs.
Definition store0 : Store bucket := mkStore ∅ ∅ ∅ ∅.
Definition entry (i : Z) : Log := mkLog i 1 x00 [x01; x02] [] (1700000000 * second).
Definition logs : list Log := [entry 3; entry 4; entry 5].
Definition store1 : Store bucket := (StoreLogs store0 logs).1.

Lemma entry_wf i : is_u64 i → log_wf (entry i) ∧ stamp_ok (entry i).
Proof. intros Hi. split; [constructor; (done || exact Hi)|done]. Qed.

Lemma logs_ok : Forall log_wf logs ∧ Forall stamp_ok logs.
Proof.
  split; repeat constructor; try apply entry_wf; done.
Qed.

Lemma store1_wf : logs_wf (raft_logs store1).
Proof.
  assert (map_Forall (λ k _, k = log_key 3 ∨ k = log_key 4 ∨ k = log_key 5)
            (bolt_view (raft_logs store1))) as H.
  { refine (bool_decide_eq_true_1 _ _). vm_compute. reflexivity. }
  intros k v Hk. pose proof (H k v Hk) as D. clear H Hk.
  destruct D as [->|[->| ->]]; eexists; (split; [|reflexivity]); unfold is_u64; lia.
Qed.

Lemma StoreLogs_witness : GetLog store1 4 (entry 9) = Ok (entry 4).
Proof.
  destruct (StoreLogs_GetLog store0 logs store1) as [_ H].
  - apply pair_of. vm_compute. reflexivity.
  - intros k v Hk. discriminate.
  - apply logs_ok.
  - apply logs_ok.
  - rewrite H by (unfold is_u64; lia). reflexivity.
Defined.

Lemma DeleteRange_witness :
  GetLog (DeleteRange store1 1 4).1 4 (entry 9) = Err "log not found" ∧
  GetLog (DeleteRange store1 1 4).1 5 (entry 9) = GetLog store1 5 (entry 9).
Proof.
  assert (DeleteRange store1 1 4 = ((DeleteRange store1 1 4).1, Ok tt)) as E.
  { apply pair_of. vm_compute. reflexivity. }
  split.
  - rewrite (DeleteRange_exact store1 1 4 _ E store1_wf) by (unfold is_u64; lia). reflexivity.
  - rewrite (DeleteRange_exact store1 1 4 _ E store1_wf) by (unfold is_u64; lia). reflexivity.
Defined.


Lemma prepareReplay_witness :
  ∃ s' floor, prepareReplay store0 false = (s', Ok floor) ∧ revisionFloor s' = floor ∧
    canonical s' = canonical store0.
Proof.
  pose proof (prepareReplay_floor store0 false) as H.
  destruct (prepareReplay store0 false) as [s' r] eqn:E.
  assert ((prepareReplay store0 false).2 = Ok 0) as K by (vm_compute; reflexivity).
  rewrite E in K. cbn in K. subst r. destruct H as (_ & H1 & H2 & _).
  exists s', 0. split; [reflexivity|]. split; [exact H1|exact H2].
Defined.

Definition unstamped : Log := mkLog 1 1 x00 [] [] zero_time.

Lemma zero_time_witness :
  ∃ l', decodeRaftLog (encodeRaftLog unstamped) unstamped = Ok l' ∧
    Log_AppendedAt l' = -6795364578871345152 ∧ time_is_zero (Log_AppendedAt l') = false.
Proof. apply (zero_time_not_preserved unstamped unstamped); [constructor; done|reflexivity]. Defined.
End Logs.

Module Control.
Definition put (path : string) (data : bytes) : Operation := mkOperation "put" path data false false "".
Definition node_file : bytes := [x20].
Definition route_file : bytes := [x10].
Definition theft_file : bytes := [x11].
Definition site_node : routeOwnerNodeRecord :=
  mkNodeRecord (Some ["192.168.50.0/24"]) [] "n1" false {[ "site_router" := true ]}.
Definition site_route : routeOwnershipRecord := mkRouteRecord "192.168.50.0/25" "" "n1".
Definition theft_route : routeOwnershipRecord := mkRouteRecord "192.168.50.0/25" "" "n2".
Definition enroll : Mutation :=
  mkMutation 1 "m1" "PutRoute" 0
    [put "control/nodes/n1.json" node_file; put "control/routes/r1.json" route_file] 0.
Definition theft : Mutation :=
  mkMutation 1 "m2" "PutRoute" 0 [put "control/routes/r2.json" theft_file] 0.

#[local] Instance json : ControlJson.
Proof.
  refine (table_json [([x01], enroll); ([x02], theft)]
    [(route_file, site_route); (theft_file, theft_route)] [(node_file, site_node)] _).
  by repeat constructor.
Defined.

Definition start : StateMachine bucket bucket :=
  NewStateMachine (mkStore ∅ ∅ ∅ ∅) "/var/lib/bpc" ∅.
Definition e1 : Log := mkLog 1 1 x00 [x01] [] 1.
Definition e2 : Log := mkLog 2 1 x00 [x02] [] 1.
Definition running : StateMachine bucket bucket := (Apply start e1).1.
Definition address : Z := 3232248329.

Lemma running_owns : owns (state_of (fsm_store running)) "n1" address.
Proof.
  exists "control/routes/r1.json", route_file, site_route. eexists.
  split; [vm_compute; reflexivity|]. split; [reflexivity|]. split; [reflexivity|].
  split; [reflexivity|]. split; [vm_compute; reflexivity|]. vm_compute. reflexivity.
Qed.

Lemma route_ownership_witness :
  "n1" = "n1" ∧ active_owner (state_of (fsm_store running)) "n1" address.
Proof.
  apply (route_ownership running address).
  - apply reach_apply; [|done]. apply reach_init. reflexivity.
  - done.
  - exact running_owns.
  - exact running_owns.
Defined.

Lemma small_index i : 0 <= i < 1000 → is_u64 i.
Proof. unfold is_u64. lia. Qed.

Lemma Apply_atomic_witness :
  Res_Conflict (Apply running e2).2 = true ∧
  state_of (fsm_store (Apply running e2).1) = state_of (fsm_store running).
Proof.
  assert (Res_Conflict (Apply running e2).2 = true) as K by (vm_compute; reflexivity).
  split; [exact K|]. pose proof (Apply_atomic running e2 (small_index 2 ltac:(lia))) as H.
  destruct (Apply running e2) as [f' res]. destruct H as (_ & _ & H & _). apply (H K).
Defined.

Lemma Apply_replay_witness :
  fsm_store (Apply (Apply start e1).1 e1).1 = fsm_store (Apply start e1).1 ∧
  (1 <= appliedIndex (fsm_store start) → (Apply start e1).1 = start).
Proof. apply (Apply_replay start e1); [exact (small_index 1 ltac:(lia))|discriminate]. Defined.

Lemma Apply_projection_witness : mirrors running.
Proof.
  pose proof (Apply_projection start e1) as H. unfold running.
  assert (Res_OK (Apply start e1).2 = true) as K by (vm_compute; reflexivity).
  destruct (Apply start e1) as [f' res]. apply H; [|exact (small_index 1 ltac:(lia))| |exact K].
  - exists ["var"; "lib"; "bpc"]. split; [reflexivity|]. split; [discriminate|].
    split; repeat constructor; done.
  - intros p. reflexivity.
Defined.

Lemma running_paths : map_Forall (λ k _, is_ok (NormalizeReplicatedPath k) = true)
  (state_of (fsm_store running)).
Proof. refine (bool_decide_eq_true_1 _ _). vm_compute. reflexivity. Qed.

Lemma snapshot_roundtrip_witness :
  ∃ raw, ExportSnapshot running = Ok raw ∧
    match restore_store (fsm_store start) raw with
    | (s', Ok _) =>
        state_of s' = state_of (fsm_store running) ∧ revision s' = revision (fsm_store running) ∧
        schemaVersion s' = schemaVersion (fsm_store running) ∧ appliedIndex s' = 0 ∧
        revisionFloor s' = revisionFloor (fsm_store start)
    | (s', Err e) => s' = fsm_store start ∧ e = "bolt"
    | (_, Panic) => False
    end.
Proof.
  destruct (ExportSnapshot running) as [raw|e|] eqn:E; [|vm_compute in E; discriminate..].
  exists raw. split; [reflexivity|].
  apply (snapshot_roundtrip running (fsm_store start) raw).
  - intros p _. reflexivity.
  - exact E.
  - vm_compute. discriminate.
  - intros p [v Hv]. exact (running_paths p v Hv).
Defined.
End Control.
