(* ===== verification/P2pExamples.v ===== *)
(** * A P2P session

    The theorems of [P2pGrant] and [P2pPolicy] at a concrete session between two
    Devices of one user, those of [P2pAuthority] at the store of one of them and
    that of [P2pMux] at its adapter, with small executable signatures and documents. *)

From Stdlib Require Import Strings.Byte.
From S2P Require Import Prelude GoLib GoStrings Netip GoEncoding Crypto ControlStore P2pGrant.
From S2P Require Import P2pPolicy P2pAuthority P2pMux.

#[export] Program Instance toy_ed25519 : Ed25519 := {|
  ed_public sk := take 32 sk;
  ed_sign sk m := toy_tag 64 (take 32 sk ++ m);
  ed_verify pk m sig := bool_decide (sig = toy_tag 64 (pk ++ m));
|}.
Next Obligation. intros sk H. rewrite length_take. lia. Qed.
Next Obligation. intros sk m _. by apply bool_decide_eq_true_2. Qed.

Module Stream.
Definition now : Z := 1000 * second.
Definition laptop : Participant :=
  mkParticipant "laptop" "alice" (base64_encode (replicate 32 x01)) (base64_encode (replicate 32 x02))
    (Some 167772161).
Definition desktop : Participant :=
  mkParticipant "desktop" "alice" (base64_encode (replicate 32 x03)) (base64_encode (replicate 32 x04))
    (Some 167772162).
Definition grant : Grant :=
  mkGrant 1 "cluster" (hex_encode (replicate 16 x0a)) 7 990 1030 "sunshine-v1" laptop desktop.

(** A signed document: each payload byte behind a mark, then the signature. *)
Definition marshal (e : signedGrant) : bytes :=
  flat_map (λ b, [x01; b]) (Payload e) ++ [x00] ++ Signature e.
Fixpoint unmarshal (b : bytes) : option signedGrant :=
  match b with
  | x00 :: sig => Some (mkSigned [] sig)
  | x01 :: c :: rest => e ← unmarshal rest; Some (mkSigned (c :: Payload e) (Signature e))
  | _ => None
  end.

Lemma document_roundtrip e : unmarshal (marshal e) = Some e.
Proof.
  destruct e as [payload sig]. unfold marshal. cbn. induction payload as [|b l IH]; [done|].
  cbn. by rewrite IH.
Qed.

#[local] Instance json : GrantJson.
Proof.
  refine {|
    marshal_grant _ := [x01];
    decode_grant raw := if bool_decide (raw = [x01]) then Some grant else None;
    marshal_signed := marshal; decode_signed := unmarshal;
    json_grant g := bool_decide (g = grant);
  |}.
  - intros g H. by apply bool_decide_eq_true_1 in H as ->.
  - apply document_roundtrip.
Defined.

Definition controller : bytes := replicate 64 x05.
Definition no_session : Session := mkSession grant [] 0 true None.
Definition ticket : bytes := match SignGrant grant controller now with Ok t => t | _ => [] end.
Definition session : Session :=
  match VerifyGrant ticket (replicate 32 x05) "cluster" 7 now with Ok s => s | _ => no_session end.

Lemma VerifyGrant_witness :
  VerifyGrant ticket (replicate 32 x05) "cluster" 7 now = Ok session ∧
  grant_wf (session_grant session) now ∧ active session now = true.
Proof.
  assert (VerifyGrant ticket (replicate 32 x05) "cluster" 7 now = Ok session) as E
    by (vm_compute; reflexivity).
  split; [exact E|].
  destruct (VerifyGrant_sound ticket (replicate 32 x05) "cluster" 7 now session E)
    as (_ & W & _ & _ & A & _).
  split; [exact W|exact A].
Defined.

(** A UDP packet with no payload, and the policy of the laptop. *)
Definition udp (src dst sport dport : Z) : bytes :=
  [x45; x00] ++ be_encode 2 28 ++ replicate 5 x00 ++ [x11; x00; x00] ++
  be_encode 4 src ++ be_encode 4 dst ++ be_encode 2 sport ++ be_encode 2 dport ++
  be_encode 2 8 ++ [x00; x00].
Definition ask : bytes := udp 167772161 167772162 5000 47998.
Definition answer : bytes := udp 167772162 167772161 47998 5000.

Definition policy : Policy := mkPolicy Initiator false ∅ zero_time.
Definition asked : Policy :=
  match Allowed policy session ask true now with Ok (p, _) => p | _ => policy end.
Definition answered : Policy :=
  match Allowed asked session answer false now with Ok (p, _) => p | _ => policy end.


Lemma host_only_answers_witness :
  Z.of_nat (size (flows answered)) <= maxFlows ∧ opened [(Initiator, (17, 5000, 47998), 0)] (17, 5000, 47998).
Proof.
  destruct (host_only_answers Initiator answered
    [(Host, (17, 5000, 47998), 0); (Initiator, (17, 5000, 47998), 0)]) as [H1 H2].
  - apply (reach_passed Initiator asked [(Initiator, (17, 5000, 47998), 0)] session answer false now).
    + apply (reach_passed Initiator policy [] session ask true now).
      * apply (reach_new Initiator session policy now). vm_compute. reflexivity.
      * vm_compute. reflexivity.
      * vm_compute. reflexivity.
    + vm_compute. reflexivity.
    + vm_compute. reflexivity.
  - split; [exact H1|]. apply (H2 [] _ _ 0). reflexivity.
Defined.
End Stream.

Module Device.
#[local] Existing Instance Stream.json.
Definition now : Z := Stream.now.
Definition trust : Trust := mkTrust "cluster" "laptop" (replicate 32 x05).
Definition id : string := Grant_SessionID Stream.grant.

Definition state_tuple (st : policyState) :=
  (St_Version st, St_Revision st, St_IssuedAt st, St_Denied st, St_Reserved st,
   (Trust_ClusterID (St_Trust st), Trust_DeviceID (St_Trust st), Trust_Issuer (St_Trust st))).
Definition tuple_state (x : Z * Z * Z * option (gmap string Z) * list (option Z) * (string * string * bytes))
    : policyState :=
  let '(v, r, i, d, rs, (c, dev, iss)) := x in mkState v (mkTrust c dev iss) r i d rs.

(** The checkpoint that lists the session. *)
Definition cp : checkpoint :=
  mkCheckpoint 1 "cluster" "laptop" 9 995 1020
    [mkEntry id (hex_encode (sha256 Stream.ticket))].

#[local] Instance policy_json : PolicyJson.
Proof.
  refine {|
    utf8 _ := true;
    decode_checkpoint raw := if bool_decide (raw = [x02]) then Some cp else None;
    decode_state raw := tuple_state <$> decode (of_bits raw);
    marshal_state st := bits_of (encode (state_tuple st));
  |}.
  - reflexivity.
  - done.
  - done.
  - intros st d _ _ _ _. rewrite of_bits_of, decode_encode. by destruct st as [? [? ? ?] ? ? ? ?].
Defined.

Abbreviation store := (PolicyStore (gmap string bytes)).
Definition none : store := mkPolicyStore ∅ false trust ∅.
Definition created : store := ok_or none (openPolicyStore ∅ trust true).
Definition tracked : store := (Track created Stream.ticket now).1.
Definition permit : bytes :=
  Stream.marshal (mkSigned [x02] (ed_sign Stream.controller (policy_label ++ [x02]))).
Definition permitted : store := (Apply tracked permit now).1.
Definition stopped : store := (Stop permitted id now).1.
Definition restarted : store :=
  ok_or none (openPolicyStore (ps_db (Close stopped)) (ps_trust (Close stopped)) false).

Lemma tracked_reach : store_reach now tracked.
Proof.
  exists ∅, now, trust, created. split; [apply ok_or_eq; vm_compute; reflexivity|].
  split; [reflexivity|]. split; [reflexivity|]. apply rtc_once, step_track.
Qed.

Lemma stopped_reach : store_reach now stopped.
Proof.
  destruct tracked_reach as (b & t0 & tr & p0 & C & U1 & U2 & R). exists b, t0, tr, p0.
  split; [exact C|]. split; [exact U1|]. split; [exact U2|]. etransitivity; [exact R|].
  eapply rtc_l; [apply (step_apply now tracked permit)|]. apply rtc_once, step_stop.
Qed.

Lemma stopped_denied : ∃ st, durable stopped st ∧ denied_of st !! id = Some 1030.
Proof.
  assert (match policy_state (ps_trust stopped) (ps_db stopped) with
          | Ok st => bool_decide (denied_of st !! id = Some 1030)
          | _ => false
          end = true) as H by (vm_compute; reflexivity).
  unfold durable. destruct (policy_state _ _) as [st|e|]; [|discriminate..].
  exists st. split; [reflexivity|]. exact (bool_decide_eq_true_1 _ H).
Qed.

Lemma revocation_witness :
  (∃ st, durable stopped st ∧ denied_of st !! id = Some 1030) ∧
  ∀ ticket s, (Track restarted ticket (now + 5 * second)).2 = Ok s →
    Grant_SessionID (session_grant s) ≠ id.
Proof.
  split; [exact stopped_denied|]. destruct stopped_denied as (st & D & H).
  apply (revocation_permanent now stopped (now + 5 * second) restarted st id 1030).
  - exact stopped_reach.
  - exact D.
  - exact H.
  - eapply rtc_l; [apply (P2pAuthority.step_close now stopped)|].
    eapply rtc_l; [apply (step_restart now (Close stopped) restarted), ok_or_eq; vm_compute; reflexivity|].
    apply rtc_once, step_later. vm_compute. discriminate.
  - vm_compute. reflexivity.
Defined.

Lemma permit_applied : (Apply tracked permit now).2 = Ok [].
Proof. vm_compute. reflexivity. Qed.

Lemma replay_witness : ∃ e, (Apply stopped permit now).2 = Err e.
Proof.
  apply (checkpoint_not_replayed now tracked permit permitted [] now stopped).
  - exact tracked_reach.
  - exact (pair_of _ _ permit_applied).
  - apply rtc_once, step_stop.
Defined.

Lemma Apply_authorizes_witness :
  ∃ payload sig, decode_signed permit = Some (mkSigned payload sig) ∧
    decode_checkpoint payload = Some cp ∧
    ∀ k s, ps_sessions permitted !! k = Some s → active s now = true → listed cp k s.
Proof.
  pose proof (Apply_authorizes now tracked permit tracked_reach) as H.
  pose proof permit_applied as K. unfold permitted.
  destruct (Apply tracked permit now) as [p' r]. cbn in K. subst r.
  destruct H as (c & payload & sig & st' & Hd & _ & Hc & _ & _ & _ & _ & H).
  assert (c = cp) as ->.
  { unfold decode_checkpoint, policy_json in Hc. destruct (bool_decide _); [|discriminate].
    injection Hc as <-. reflexivity. }
  exists payload, sig. split; [exact Hd|]. split; [exact Hc|].
  intros k s Hs A. exact (proj1 (proj1 (H k s Hs) now A)).
Defined.
End Device.

(** An adapter that records what is written to it. *)
#[export] Instance recording_tun : TunDevice (list bytes) := {|
  dev_write d packet := (d ++ [packet], Ok tt);
|}.

Module Adapter.
Definition fresh : MuxTUN (list bytes) := NewMuxTUN [].
(** A packet for the desktop is queued for the gateway before it is reserved. *)
Definition queued : MuxTUN (list bytes) := ok_or fresh (dispatch_packet fresh Stream.ask).
Definition attached : MuxTUN (list bytes) := (Attach queued (Some 167772162) (Some 167772162)).1.
Definition dispatched : MuxTUN (list bytes) := ok_or fresh (dispatch_packet attached Stream.ask).

Lemma mux_isolation_witness :
  (∀ room m2 packet, Mux_Read dispatched room = (m2, Got packet) →
     ¬ addressed_to 167772162 packet) ∧
  mux_gateway dispatched = [Stream.ask].
Proof.
  split; [|vm_compute; reflexivity].
  apply (mux_isolation [] attached 167772162 dispatched).
  - eapply rtc_l; [apply (step_dispatch fresh Stream.ask queued), ok_or_eq; vm_compute; reflexivity|].
    apply rtc_once, step_attach.
  - eexists. vm_compute. reflexivity.
  - apply rtc_once, (step_dispatch attached Stream.ask), ok_or_eq. vm_compute. reflexivity.
Defined.
End Adapter.
