(* ===== verification/AgentExamples.v ===== *)
(** * An agent at work

    The theorems of [AgentControl] and [AgentRuntime] at a laptop that enrols at two
    Controllers, refreshes its session, restarts and updates itself, with small
    executable documents and signatures. *)

From Stdlib Require Import Strings.Byte Strings.Ascii.
From S2P Require Import Prelude GoLib GoStrings GoEncoding Netip Crypto P2pGrant.
From S2P Require Import AgentConfig AgentControl AgentRuntime.

#[export] Instance TransportPath_eq : EqDecision TransportPath.
Proof. solve_decision. Defined.
#[export] Instance WireGuardProfile_eq : EqDecision WireGuardProfile.
Proof. solve_decision. Defined.
#[export] Instance RuntimeConfig_eq : EqDecision RuntimeConfig.
Proof. solve_decision. Defined.
#[export] Instance State_eq : EqDecision State.
Proof. solve_decision. Defined.

Module Laptop.
(** The scheme is what stands before the first colon. *)
#[local] Instance url : GoURL := {|
  url_parse s := '(scheme, rest) ← cut ":"%char s; Some (scheme, rest);
|}.
#[local] Instance ascii_case : UnicodeCase := {|
  lower s := bytes_str (lower_ascii_byte <$> str_bytes s);
|}.
#[local] Instance no_ipv6 : Prefix6 := {| prefix6_ok _ := false |}.

(** Keys of Devices start with 1; the release key signed one manifest. *)
Definition release_key : bytes := replicate 32 x02.
#[local] Instance pkix : PublicKeys := {| pkix_ed25519 raw := Some raw |}.

Definition program : bytes := [x4d; x5a].
Definition manifest : UpdateManifest :=
  mkManifest "1.4.0" "https://a.example/bpc-agent.exe" (hex_encode (sha256 program)) (base64_encode [x07]).
Definition signed_manifest : bytes := manifestSigningBytes manifest.

#[local] Program Instance keys : Ed25519 := {|
  ed_public sk := x01 :: take 31 sk;
  ed_sign sk m := toy_tag 64 (x01 :: take 31 sk ++ m);
  ed_verify pk m sig :=
    if bool_decide (pk = release_key) then bool_decide (m = signed_manifest ∧ sig = [x07])
    else bool_decide (sig = toy_tag 64 (pk ++ m));
|}.
Next Obligation. intros sk H. cbn. rewrite length_take. lia. Qed.
Next Obligation. intros sk m _. cbn. by apply bool_decide_eq_true_2. Qed.

Definition config : RuntimeConfig :=
  mkRuntimeConfig [] 3 ["https://a.example"; "https://b.example"] "relay.example:443" [] "127.0.0.1:51820"
    "127.0.0.1:51821" (base64_encode (replicate 32 x09)) 0 16 "" "" None.
Definition wg_key (b : byte) : string := base64_encode (replicate 32 b).
Definition profile : WireGuardProfile :=
  mkProfile "" "10.8.0.2/32" 1420 (wg_key x03) "" ["10.8.0.0/24"] 25.
Definition no_profile : WireGuardProfile := empty_profile.
Definition no_config : RuntimeConfig := mkRuntimeConfig [] 0 [] "" [] "" "" "" 0 0 "" "" None.

(** Replies of one byte stand for their documents.  The reply [x01] to a login has a
    token but no number for the expiry, [x02] has everything but the token. *)
#[local] Instance json_payload : PayloadJson := {| marshal_payload _ := [] |}.
#[local] Instance json_login : JsonBody LoginResponse := {|
  body_zero := mkLogin "" 0 "";
  decode_into l raw :=
    if bool_decide (raw = [x01]) then (mkLogin "token-a" (Lg_AccessExpiresAt l) (Lg_UserID l), false)
    else if bool_decide (raw = [x02]) then (mkLogin (Lg_AccessToken l) 5000 "alice", true)
    else if bool_decide (raw = [x03]) then (mkLogin "token" 5000 "alice", true)
    else (l, false);
|}.
#[local] Instance json_enrolled : JsonBody EnrollmentResponse := {|
  body_zero := mkEnrolled "" "" no_config no_profile; decode_into e _ := (e, false);
|}.
#[local] Instance json_registered : JsonBody DeviceRegistrationResponse := {|
  body_zero := mkRegistered "" "" 0 "" 0 no_config no_profile;
  decode_into r raw :=
    if bool_decide (raw = [x01]) then (mkRegistered "laptop" "access" 1010 "refresh" 9000 config profile, true)
    else (r, false);
|}.
#[local] Instance json_refreshed : JsonBody RefreshResponse := {|
  body_zero := mkRefreshed "" "" 0 "" 0;
  decode_into r raw :=
    if bool_decide (raw = [x01]) then (mkRefreshed "laptop" "access-2" 2000 "refresh-2" 9900, true)
    else (r, false);
|}.
#[local] Instance json_config : JsonBody RuntimeConfig := {|
  body_zero := no_config; decode_into c _ := (c, false);
|}.
#[local] Instance json_manifest : JsonBody UpdateManifest := {|
  body_zero := mkManifest "" "" "" ""; decode_into m raw := (if bool_decide (raw = [x01]) then manifest else m, true);
|}.

(** The first Controller is down. *)
Definition respond (req : http_request) : http_reply :=
  if bool_decide (req_url req = "https://b.example/v1/auth/login") then Reply 200 [x03]
  else if bool_decide (req_url req ∈ ["https://b.example/v1/devices/register";
      "https://b.example/v1/auth/refresh"; "https://b.example/v1/update/manifest"]) then Reply 200 [x01]
  else Reply 503 [].
#[local] Instance network : HttpClient (list http_request) := scripted respond.

Definition bootstrap : Bootstrap :=
  mkBootstrap 3 "laptop" "https://a.example" ["https://b.example"] "" (base64_encode release_key) "".
Definition id : identity :=
  mkIdentity (base64_encode (x01 :: replicate 31 x05)) (base64_encode (replicate 64 x05)) (wg_key x04) (wg_key x06).

Definition enrolled : State :=
  enrolled_state bootstrap id "laptop" "access" 1010 "refresh" 9000 "" config (set_private profile (wg_key x04)).
Definition refreshed : State := with_tokens enrolled "access-2" 2000 "refresh-2" 9900.

#[local] Program Instance json_state : StateJson := {|
  state_json s := if bool_decide (s = enrolled) then [x01] else if bool_decide (s = refreshed) then [x02] else [];
  state_of_json raw :=
    if bool_decide (raw = [x01]) then Some enrolled
    else if bool_decide (raw = [x02]) then Some refreshed else None;
  AgentControl.json_state s := bool_decide (s = enrolled) || bool_decide (s = refreshed);
|}.
Next Obligation.
  intros s H. apply orb_true_iff in H. rewrite !bool_decide_eq_true in H.
  destruct (bool_decide (s = enrolled)) eqn:E.
  - apply bool_decide_eq_true_1 in E as ->. reflexivity.
  - apply bool_decide_eq_false_1 in E. destruct H as [H|H]; [by destruct (E H)|].
    rewrite (bool_decide_eq_true_2 _ H), H. reflexivity.
Qed.

Definition now : Z := 1000 * second.
Definition wg_public : string → option string := Some.

Definition enrolment :=
  enrollOrLoadState "1.3.9" wg_public bootstrap None [] now (Some ("alice", "secret")) (Ok tt)
    (Ok no_profile) id None.
Definition started : agent :=
  mkAgent enrolled enrolment.1.1 (mkClient "https://b.example" ["https://a.example"; "https://b.example"] "") enrolment.1.2.
Definition renewed : agent := (ensureControlCredential started now None).1.
Definition restarted : agent := mkAgent refreshed (ag_file renewed) (ag_client renewed) (ag_net renewed).

Lemma enrolment_ok : enrolment.2 = Ok enrolled.
Proof. vm_compute. reflexivity. Qed.

Lemma renewed_file : ag_file renewed = Some [x02].
Proof. vm_compute. reflexivity. Qed.

Lemma renewed_readable : readable (ag_file renewed).
Proof.
  intros s. rewrite renewed_file. unfold state_json, AgentControl.json_state, json_state.
  destruct (bool_decide (s = enrolled)); [discriminate|].
  destruct (bool_decide (s = refreshed)); [reflexivity|discriminate].
Qed.

Lemma agent_restarts_witness :
  ∃ s', LoadState (ag_file restarted) = Ok s' ∧ As_DeviceID s' = "laptop" ∧
    Wg_PrivateKey (As_WireGuard s') = wg_key x04 ∧ As_RefreshToken s' = "refresh-2".
Proof.
  destruct (agent_restarts "1.3.9" wg_public bootstrap [] now (Some ("alice", "secret")) (Ok tt)
    (Ok no_profile) id None enrolment.1.1 enrolment.1.2 enrolled (ag_client started) restarted)
    as (_ & _ & H).
  - pose proof enrolment_ok as E. change (enrolment = (enrolment.1.1, enrolment.1.2, Ok enrolled)).
    rewrite <- E. destruct enrolment as [[? ?] ?]. reflexivity.
  - change (mkAgent enrolled _ _ _) with started. eapply rtc_l; [apply (step_ensure _ _ started now None)|].
    apply rtc_once, (AgentRuntime.step_restart _ _ renewed refreshed); [apply renewed_readable|].
    vm_compute. reflexivity.
  - destruct (H renewed_readable) as (s' & L & _ & D). exists s'. split; [exact L|].
    split; [exact (sm_device _ _ D)|]. split; [exact (sm_wireguard _ _ D)|].
    change (ag_file restarted) with (ag_file renewed) in L. rewrite renewed_file in L.
    injection L as <-. reflexivity.
Defined.

Definition offered := checkAndStageUpdate "1.3.9" renewed (Some program) (λ _, Some "bpc-agent 1.4.0") (Ok tt).

Lemma offered_ok : offered.1.2 = Some program ∧ offered.2 = Ok true.
Proof. split; vm_compute; reflexivity. Qed.

Lemma only_release message signature :
  ed_verify release_key message signature = true →
  ∃ m, m ∈ [manifest] ∧ plain_manifest m ∧ message = manifestSigningBytes m.
Proof.
  unfold ed_verify, keys. rewrite (bool_decide_eq_true_2 (release_key = release_key)) by reflexivity.
  rewrite bool_decide_eq_true. intros [-> _]. exists manifest. split; [left|]. split; [|reflexivity].
  unfold plain_manifest. split_and!; apply (bool_decide_eq_true_1 (_ ∉ _)); vm_compute; reflexivity.
Qed.


(** A Controller that is down is passed over. *)
Lemma doJSON_failover_witness :
  ∃ c' log out, doJSON (A := LoginResponse) (Some decode_into) body_zero (ag_client started) [] "POST"
      "/v1/auth/login" "" None = (c', log, Ok out) ∧
    Cl_BaseURL c' = "https://b.example" ∧ length log = 2%nat.
Proof.
  eexists _, _, _. split; [vm_compute; reflexivity|].
  destruct (doJSON_failover (A := LoginResponse) decode_into body_zero respond (ag_client started) [] "POST"
    "/v1/auth/login" "" None (mkClient "https://b.example" ["https://a.example"; "https://b.example"] "")
    [mkRequest "POST" "https://a.example/v1/auth/login" "" None;
     mkRequest "POST" "https://b.example/v1/auth/login" "" None] (Ok (mkLogin "token" 5000 "alice")))
    as (out & tried & rest & u & H & R & _).
  - vm_compute. reflexivity.
  - split; [|reflexivity]. destruct u as [[]|e|]; [|discriminate..].
    destruct (fo_ok _ _ _ _ _ _ _ _ _ _ _ _ _ _ _ _ H eq_refl)
      as (pre & url0 & status & raw & _ & _ & _ & _ & _ & B). reflexivity.
Defined.

(** Two replies of different Controllers make one login: the first has the token but
    fails to decode, the second succeeds without one. *)
Definition mixed (req : http_request) : http_reply :=
  if bool_decide (req_url req = "https://a.example/v1/auth/login") then Reply 200 [x01] else Reply 200 [x02].

Lemma Login_mixes_controllers :
  (decode_into (A := LoginResponse) body_zero [x01]).2 = false ∧
  Lg_AccessToken (decode_into (A := LoginResponse) body_zero [x02]).1 = "" ∧
  (Login (HC := scripted mixed) (ag_client started) [] "alice" "secret").2 = Ok (mkLogin "token-a" 5000 "alice") ∧
  Cl_BaseURL (Login (HC := scripted mixed) (ag_client started) [] "alice" "secret").1.1 = "https://b.example".
Proof. split_and!; vm_compute; reflexivity. Qed.

Definition consent : bytes :=
  ok_or [] (P2PConsentSigningBytes (hex_encode (replicate 32 x01)) (hex_encode (replicate 16 x02)) true "").

Lemma consent_binding_witness :
  ∃ message, P2PConsentSigningBytes (hex_encode (replicate 32 x01)) (hex_encode (replicate 16 x02)) true ""
      = Ok message ∧
    sha256 (str_bytes (hex_encode (replicate 32 x01))) = sha256 (str_bytes (hex_encode (replicate 32 x01))).
Proof.
  exists consent.
  assert (P2PConsentSigningBytes (hex_encode (replicate 32 x01)) (hex_encode (replicate 16 x02)) true ""
    = Ok consent) as E by (apply ok_or_eq; vm_compute; reflexivity).
  split; [exact E|]. apply (consent_binding _ _ true "" _ _ true "" consent E E).
Defined.
End Laptop.
