(* ===== verification/P2pRelayExamples.v ===== *)
(** * Two Devices at a relay

    The theorems of [P2pRelay] and [P2pEndpoint] at the session of [P2pExamples]: the
    laptop and the desktop dial a relay, prove their identities, exchange a datagram
    over connections that take three bytes at a time, and the session is revoked. *)

From Stdlib Require Import Strings.Byte Strings.Ascii.
From S2P Require Import Prelude GoLib GoStrings GoEncoding Netip Crypto ControlStore GoNet.
From S2P Require Import P2pGrant P2pPolicy P2pAuthority P2pMux P2pRelay P2pEndpoint P2pExamples.

Module Rendezvous.
#[local] Existing Instance Stream.json.

#[local] Program Instance auth_json : RelayJson := {|
  marshal_auth a :=
    Stream.marshal (mkSigned (Auth_Ticket a)
      (Stream.marshal (mkSigned (Auth_Proof a) (bits_of (encode (Auth_Side a))))));
  decode_auth raw :=
    e ← Stream.unmarshal raw; e' ← Stream.unmarshal (Signature e); side ← decode (of_bits (Signature e'));
    Some (mkAuth (Payload e) side (Payload e'));
|}.
Next Obligation.
  intros [ticket side proof]. cbn [Auth_Ticket Auth_Side Auth_Proof].
  rewrite Stream.document_roundtrip. cbn [mbind option_bind Signature Payload].
  rewrite Stream.document_roundtrip. cbn [mbind option_bind Signature Payload].
  by rewrite of_bits_of, decode_encode.
Qed.

Abbreviation world := (world (W := narrow)).
Definition now : Z := Stream.now.
Definition id : string := Grant_SessionID Stream.grant.
Definition relay : Relay := ok_or (mkRelay [] "" 0 ∅ ∅ 0 0) (NewRelay (replicate 32 x05) "cluster" 7).
Definition line : narrow := mkNarrow [] 100000.
Definition binding : bytes := replicate 32 x0b.
Definition challenge (c : nat) : bytes := replicate 32 (if bool_decide (c = 0%nat) then x0c else x0d).
Definition device_key (sd : Side) : bytes := replicate 64 (match sd with Initiator => x01 | Host => x03 end).

Definition handler_at (w : world) (c : nat) : handler := default (mkHandler [] [] Failed) (w_handlers w !! c).
Definition proof (sd : Side) (c : nat) : bytes :=
  tcp_frame (dial_auth Stream.session sd (device_key sd) (challenge c) binding).

(** Each connection is accepted, authenticated and acknowledged. *)
Definition accepted (w : world) (c : nat) : world := serve_accept w c line (Some (binding, challenge c)).
Definition admitted (w : world) (c : nat) (sd : Side) : world :=
  handle_auth (accepted w c) c (handler_at (accepted w c) c) (proof sd c) now.
Definition joined (w : world) (c : nat) (sd : Side) : world :=
  let w := admitted w c sd in
  match h_phase (handler_at w c) with
  | Joined i sd' s Acking => handle_ready w c (handler_at w c) i sd' s
  | _ => w
  end.

Definition start : world := relay_start relay now.
Definition waiting : world := joined start 0 Initiator.
Definition live : world := joined waiting 1 Host.
Definition packet : bytes := [x04; x00; x00; x00] ++ replicate 28 x2a.
Definition session_of (w : world) (c : nat) : Session :=
  match h_phase (handler_at w c) with Joined _ _ s _ => s | _ => Stream.session end.
Definition sending : world :=
  handle_packet live 0 (handler_at live 0) 0 Initiator (session_of live 0) (tcp_frame packet).
Definition sent : world := (send_frame sending 1 packet).1.

(** Whether a handler is at a given point. *)
Definition at_stage (w : world) (c : nat) (sd : Side) (st : stage) : bool :=
  match h_phase (handler_at w c), st with
  | Joined 0 sd' _ Acking, Acking => bool_decide (sd' = sd)
  | Joined 0 sd' _ Reading, Reading => bool_decide (sd' = sd)
  | Joined 0 sd' _ (Sending t p), Sending t' p' => bool_decide (sd' = sd ∧ t = t' ∧ p = p')
  | _, _ => false
  end.

Lemma at_stage_phase w c sd st : at_stage w c sd st = true →
  w_handlers w !! c = Some (handler_at w c) ∧ h_phase (handler_at w c) = Joined 0 sd (session_of w c) st.
Proof.
  unfold at_stage, session_of, handler_at. destruct (w_handlers w !! c) as [h|]; [|discriminate].
  intros H. split; [reflexivity|]. cbn [default from_option Datatypes.id] in *.
  destruct (h_phase h) as [|i sd' s st'|]; [discriminate| |discriminate].
  destruct i; [|discriminate].
  destruct st' as [| |t p|], st; try discriminate; apply bool_decide_eq_true_1 in H; [by subst..|].
  by destruct H as (-> & -> & ->).
Qed.

Lemma join_steps w c sd :
  w_conns w !! c = None → w_handlers (accepted w c) !! c = Some (handler_at (accepted w c) c) →
  h_phase (handler_at (accepted w c) c) = Challenged → now <= w_clock (accepted w c) →
  at_stage (admitted w c sd) c sd Acking = true → rtc relay_step w (joined w c sd).
Proof.
  intros N H P T A. destruct (at_stage_phase _ _ _ _ A) as [Hh Hp].
  eapply rtc_l.
  { apply (rs_accept w c line (Some (binding, challenge c)) N); [reflexivity|].
    intros ? ? [= _ <-]. unfold challenge. by case_bool_decide. }
  eapply rtc_l; [apply (rs_auth _ c _ (proof sd c) now H P T)|]. fold (accepted w c).
  change (handle_auth _ _ _ _ _) with (admitted w c sd).
  unfold joined. cbv zeta. rewrite Hp. by apply rtc_once, rs_ready.
Qed.

Lemma waiting_steps : rtc relay_step start waiting.
Proof. apply join_steps; try (vm_compute; reflexivity). vm_compute. discriminate. Qed.

Lemma live_steps : rtc relay_step waiting live.
Proof. apply join_steps; try (vm_compute; reflexivity). vm_compute. discriminate. Qed.

Lemma live_stages : at_stage live 0 Initiator Reading = true ∧ at_stage live 1 Host Reading = true.
Proof. split; vm_compute; reflexivity. Qed.

Lemma live_reach : relay_reach live.
Proof.
  exists (replicate 32 x05), "cluster", 7, relay, now. split; [apply ok_or_eq; vm_compute; reflexivity|].
  etransitivity; [exact waiting_steps|exact live_steps].
Qed.

Lemma sending_reach : relay_reach sending.
Proof.
  destruct live_reach as (i & c & r & r0 & t & N & S). exists i, c, r, r0, t. split; [exact N|].
  etransitivity; [exact S|]. destruct (at_stage_phase _ _ _ _ (proj1 live_stages)) as [Hh Hp].
  apply rtc_once. exact (rs_packet live 0 _ 0 Initiator _ (tcp_frame packet) Hh Hp).
Qed.

Lemma sending_stage : at_stage sending 0 Initiator (Sending 1 packet) = true.
Proof. vm_compute. reflexivity. Qed.

Lemma send_ok : (send_frame sending 1 packet).2 = true.
Proof. vm_compute. reflexivity. Qed.

Lemma readFrame_exact_witness :
  readFrame (tcp_frame packet ++ [x01]) 4096 = Ok (packet, [x01]) ∧
  readFrame (tcp_frame packet ++ [x01]) 4096 ≠ Panic.
Proof.
  destruct (readFrame_exact (tcp_frame packet ++ [x01]) 4096 packet [x01]) as [P E]; [lia|].
  split; [|exact P]. apply E. split; [reflexivity|]. vm_compute. split; [reflexivity|discriminate].
Defined.

Lemma relay_bounds_witness :
  Z.of_nat (size (w_handlers live)) <= 128 ∧ size (w_handlers live) = 2%nat ∧
  ∃ room, w_rooms live !! 0%nat = Some room ∧ room_id room = id.
Proof.
  destruct (relay_bounds live live_reach) as (H & _ & _ & R & _). split; [exact H|].
  split; [vm_compute; reflexivity|]. apply (R id 0%nat). vm_compute. reflexivity.
Defined.



(** The laptop dials the handler that challenged it. *)
Definition dialled := DialRelay true Stream.session Initiator (device_key Initiator) now (mkConn line false)
  (Some binding) (tcp_frame (challenge 0) ++ tcp_frame ready).

Lemma handshake_authenticates_witness :
  ∃ frame, written dialled.1 = frame ∧
    authenticate relay (mkHandler (challenge 0) binding Challenged) frame now = Some (Stream.session, Initiator).
Proof.
  assert (dialled.2 = Ok []) as E by (vm_compute; reflexivity).
  destruct (handshake_authenticates true Stream.session Initiator (device_key Initiator) now (mkConn line false)
    (tcp_frame (challenge 0) ++ tcp_frame ready) dialled.1 [] relay
    (mkHandler (challenge 0) binding Challenged) (tcp_frame ready) now Stream.session) as (frame & Ew & A).
  - exact (pair_of _ _ E).
  - reflexivity.
  - vm_compute. reflexivity.
  - vm_compute. reflexivity.
  - vm_compute. reflexivity.
  - exists frame. split; [exact Ew|exact A].
Defined.

Definition wireguard : Z * Z := (2130706433, 51820).

Lemma datagram_end_to_end_witness :
  ∃ k k' received, w_conns live !! 1%nat = Some k ∧ w_conns sent !! 1%nat = Some k' ∧
    written k' = written k ++ received ∧ endpoint_in received = Ok (Some packet, []).
Proof.
  destruct (at_stage_phase _ _ _ _ (proj1 live_stages)) as [Hh Hp].
  assert (match w_rooms live !! 0%nat with
          | Some room => negb (room_revoked room) && active (room_session room) (w_clock live)
                         && bool_decide (at_side (room_peers room) Host = Some 1%nat)
          | None => false end = true) as R by (vm_compute; reflexivity).
  destruct (w_rooms live !! 0%nat) as [room|] eqn:Er; [|discriminate].
  apply andb_true_iff in R as [R T]. apply andb_true_iff in R as [R A].
  apply bool_decide_eq_true_1 in T. apply negb_true_iff in R.
  assert (is_Some (w_conns live !! 1%nat)) as [k Ek] by (vm_compute; eexists; reflexivity).
  destruct (datagram_end_to_end live 0 _ 0 Initiator _ room 1 wireguard wireguard packet packet sending sent k
    ltac:(vm_compute; reflexivity) Hh Hp Er R A T Ek eq_refl (pair_of _ _ send_ok))
    as (_ & _ & _ & k' & Ek' & received & W & I).
  exists k, k', received. split; [exact Ek|]. split; [exact Ek'|]. split; [exact W|exact I].
Defined.
End Rendezvous.

Module Managed.
#[local] Existing Instance Stream.json.
#[local] Existing Instance Device.policy_json.
(** Public keys of WireGuard are the private ones here. *)
#[local] Instance x25519 : X25519 := {| x25519_base key := Some key |}.

Definition config : EndpointConfig :=
  mkConfig Stream.ticket "laptop" (replicate 64 x01) (base64_encode (replicate 32 x02)) (Some 167772161) "relay.example:443" true.

(** The Controller permits the session; time passes between the statements. *)
Abbreviation laptop_state := (endpoint (B := gmap string bytes) (D := list bytes)).
Definition later (n : nat) (e : laptop_state) : laptop_state :=
  mkEndpoint (ep_clock e + millisecond) (ep_store e) (ep_mux e) (ep_policy e) (ep_input e)
    (ep_bridge e) (ep_device e) (ep_relay e) (ep_pending e) (ep_updates e).
Definition env : environment :=
  mkEnvironment (Some Device.permit) (Some true) true true true
    (Some (String.append "listen_port=51820" (String "010"%char ""))) true None later.
Definition fresh : laptop_state :=
  mkEndpoint Stream.now Device.created Adapter.fresh None None false false false false None.
(** Ten seconds later the Controller does not answer, and the session ends. *)
Definition run := RunManagedEndpoint config env [Poll; Reconciled None; Updated] fresh.

Lemma later_shared n e : shared e (later n e).
Proof.
  split; cbn.
  - apply rtc_once, process_later. unfold millisecond. lia.
  - reflexivity.
  - by destruct (ep_policy e).
  - done.
Qed.

Lemma managed_endpoint_closes_witness :
  run.2 = ["P2P Controller policy unavailable"] ∧
  (∀ id s now, ps_sessions (ep_store run.1) !! id = Some s → active s now = false) ∧
  ep_relay run.1 = false ∧ ep_device run.1 = false.
Proof.
  assert (run.2 = ["P2P Controller policy unavailable"]) as E by (vm_compute; reflexivity).
  split; [exact E|].
  destruct (managed_endpoint_closes config env [Poll; Reconciled None; Updated] fresh run.1 run.2)
    as (S & _ & _ & _ & D & R & _).
  - reflexivity.
  - intros n e. apply later_shared.
  - exists ∅, Stream.now, Device.trust, Device.created. split; [apply ok_or_eq; vm_compute; reflexivity|].
    split; [reflexivity|]. split; [reflexivity|]. reflexivity.
  - exists []. reflexivity.
  - reflexivity.
  - reflexivity.
  - reflexivity.
  - reflexivity.
  - reflexivity.
  - apply surjective_pairing.
  - split; [exact S|]. split; [exact R|exact D].
Defined.
End Managed.
