(* ===== verification/ControlNodeExamples.v ===== *)
(** * Controllers that restart

    The theorems of [ControlProjection] and [ControlNode] at concrete Controllers: one
    whose files went stale, one that is bootstrapped from files, one that comes back
    below its revision floor, and a cluster that loses a member; and a file that the
    reconciliation never removes. *)

From Stdlib Require Import Strings.Byte.
From S2P Require Import Prelude GoLib GoStrings Netip Crypto GoNet ControlStore ControlFsm ControlProjection.
From S2P Require Import GoEncoding ControlNode ControlTls ControlCheckpoint.

(** A digest of the first bytes and the length, quick to compute. *)
Definition short_digest (b : bytes) : bytes := be_encode 32 (be_decode (take 4 b) * 2 ^ 64 + zlen b).
Program Definition short_hashes : Hashes := {|
  sha256 := short_digest; hmac_sha256 := λ k b, short_digest (k ++ b);
|}.
Next Obligation. intros. apply be_encode_length. Qed.
Next Obligation. intros. apply be_encode_length. Qed.

(** ** A file system that is a tree *)

Definition tree_okb (m : gmap string bytes) : bool :=
  bool_decide (map_Forall (λ q _, map_Forall (λ r _, has_prefix r (q +:+ "/") = false) m) m).

Record tree := mkTree { tree_raw : gmap string bytes }.
Definition tree_files (t : tree) : gmap string bytes := if tree_okb (tree_raw t) then tree_raw t else ∅.
Definition tree_put (t : tree) (m : gmap string bytes) : tree * bool :=
  if tree_okb (tree_raw t) && tree_okb m then (mkTree m, true) else (t, false).

Lemma tree_put_ok t m t' : tree_put t m = (t', true) → tree_files t' = m ∧ tree_raw t = tree_files t.
Proof.
  unfold tree_put, tree_files. destruct (tree_okb (tree_raw t)) eqn:E1; [|done].
  destruct (tree_okb m) eqn:E2; [|done]. intros [= <-]. cbn. by rewrite E2.
Qed.

Lemma tree_put_frame t m q : m !! q = tree_raw t !! q → tree_files (tree_put t m).1 !! q = tree_files t !! q.
Proof.
  unfold tree_put, tree_files. destruct (tree_okb (tree_raw t)) eqn:E1, (tree_okb m) eqn:E2; cbn; rewrite ?E1, ?E2; done.
Qed.

#[export] Program Instance tree_fs : ProjectionFS tree := {|
  fs_files := tree_files;
  fs_write t p d := tree_put t (<[p := d]> (tree_raw t));
  fs_remove t p := tree_put t (delete p (tree_raw t));
|}.
Next Obligation. by intros t p d t' [-> <-]%tree_put_ok. Qed.
Next Obligation. by intros t p t' [-> <-]%tree_put_ok. Qed.
Next Obligation. intros t p d q Hq. by apply tree_put_frame, lookup_insert_ne. Qed.
Next Obligation. intros t p q Hq. by apply tree_put_frame, lookup_delete_ne. Qed.

#[export] Instance tree_fs_tree : ProjectionTree tree.
Proof.
  intros t q r [d Hq] Hr. cbn in *. unfold tree_files in *. destruct (tree_okb (tree_raw t)) eqn:E; [|done].
  apply bool_decide_eq_true_1 in E. destruct (tree_raw t !! r) as [v|] eqn:Er; [|done].
  specialize (E q d Hq r v Er). cbn in E. congruence.
Qed.

(** ** JSON of mutations *)

(** Documents as numbers in base 256, the last digits first. *)
Fixpoint digits (n : nat) (z : Z) : bytes :=
  match n with
  | O => []
  | S n => byte_of (Z.land z 255) :: digits n (Z.shiftr z 8)
  end.
Definition number (b : bytes) (high : Z) : Z := foldr (λ x acc, Z.shiftl acc 8 + byte_val x) high b.
Definition size (p : positive) : nat := Z.to_nat (Z.log2 (Zpos p) / 8).
Definition pack (p : positive) : bytes := digits (S (size p)) (Zpos p).
Definition unpack (b : bytes) : positive := Z.to_pos (number b 0).
Definition bytes_code (b : bytes) : positive := Z.to_pos (number b 1).
Definition code_bytes (p : positive) : bytes := digits (size p) (Zpos p).

Lemma number_digits n z : 0 <= z → number (digits n z) (Z.shiftr z (8 * Z.of_nat n)) = z.
Proof.
  revert z. induction n as [|n IH]; intros z Hz; cbn [digits number foldr]; [done|].
  replace (8 * Z.of_nat (S n)) with (8 + 8 * Z.of_nat n) by lia. rewrite <- Z.shiftr_shiftr by lia.
  change (foldr _ ?h ?b) with (number b h). rewrite IH by (by apply Z.shiftr_nonneg).
  change 255 with (Z.ones 8). rewrite Z.land_ones, Z.shiftl_mul_pow2, Z.shiftr_div_pow2 by lia.
  pose proof (Z.mod_pos_bound z (2 ^ 8) ltac:(lia)). rewrite byte_val_of by lia.
  rewrite (Z.mod_small (_ mod _)) by lia. pose proof (Z.div_mod z (2 ^ 8) ltac:(lia)). lia.
Qed.

Lemma number_bounds b h : 0 <= h → h * 2 ^ (8 * zlen b) <= number b h < (h + 1) * 2 ^ (8 * zlen b).
Proof.
  intros Hh. unfold zlen. induction b as [|x b IH]; cbn [number foldr length]; [lia|]. change (foldr _ h b) with (number b h).
  pose proof (byte_val_range x). rewrite Z.shiftl_mul_pow2 by lia.
  replace (8 * Z.of_nat (S (length b))) with (8 * Z.of_nat (length b) + 8) by lia. rewrite Z.pow_add_r by lia. lia.
Qed.

Lemma digits_number b h : digits (length b) (number b h) = b.
Proof.
  revert h. induction b as [|x b IH]; intros h; cbn [number foldr length digits]; [done|].
  change (foldr _ h b) with (number b h). pose proof (byte_val_range x).
  change 255 with (Z.ones 8). rewrite Z.land_ones, Z.shiftl_mul_pow2, Z.shiftr_div_pow2 by lia.
  rewrite Z.add_comm, Z.mod_add, Z.div_add, Z.mod_small, Z.div_small, byte_of_val, Z.add_0_l by lia. by rewrite IH.
Qed.

Lemma unpack_pack p : unpack (pack p) = p.
Proof.
  unfold unpack, pack, size. pose proof (Z.log2_nonneg (Zpos p)). set (n := Z.to_nat _).
  assert (Z.log2 (Zpos p) < 8 * Z.of_nat (S n)) as H1.
  { subst n. pose proof (Z.div_mod (Z.log2 (Zpos p)) 8 ltac:(lia)). pose proof (Z.mod_pos_bound (Z.log2 (Zpos p)) 8).
    assert (0 <= Z.log2 (Zpos p) / 8) by (apply Z.div_pos; lia). lia. }
  rewrite <- (Z.shiftr_eq_0 (Zpos p) (8 * Z.of_nat (S n))) by lia. by rewrite number_digits.
Qed.

Lemma code_bytes_code b : code_bytes (bytes_code b) = b.
Proof.
  unfold code_bytes, bytes_code, size. pose proof (number_bounds b 1 ltac:(lia)) as H.
  assert (0 <= zlen b) as Hz by (unfold zlen; lia). pose proof (Z.pow_pos_nonneg 2 (8 * zlen b)).
  assert (Z.log2 (number b 1) = 8 * zlen b) as L.
  { apply Z.log2_unique; [lia|]. replace (Z.succ (8 * zlen b)) with (1 + 8 * zlen b) by lia. rewrite Z.pow_add_r by lia. lia. }
  rewrite Z2Pos.id, L, (Z.mul_comm 8), Z.div_mul by lia. unfold zlen. rewrite Nat2Z.id. apply digits_number.
Qed.

Definition operation_code (op : Operation) : positive :=
  encode [encode (Op op); encode (Op_Path op); bytes_code (Op_Data op); encode (IfAbsent op);
          encode (RequirePresent op); encode (ExpectedSHA256 op)].
Definition code_operation (p : positive) : option Operation :=
  l ← decode p;
  match l with
  | [a; b; c; d; e; f] =>
      a ← decode a; b ← decode b; d ← decode d; e ← decode e; f ← decode f;
      Some (mkOperation a b (code_bytes c) d e f)
  | _ => None
  end.
Definition mutation_code (m : Mutation) : positive :=
  encode [encode (Mut_Version m); encode (Mut_ID m); encode (Mut_Kind m); encode (Mut_IssuedAt m);
          encode (operation_code <$> Mut_Operations m); encode (Mut_RevisionMinimum m)].
Definition code_mutation (p : positive) : option Mutation :=
  l ← decode p;
  match l with
  | [a; b; c; d; e; f] =>
      a ← decode a; b ← decode b; c ← decode c; d ← decode d; e ← decode e; f ← decode f;
      ops ← mapM code_operation e; Some (mkMutation a b c d ops f)
  | _ => None
  end.

Lemma code_operation_code op : code_operation (operation_code op) = Some op.
Proof.
  unfold code_operation, operation_code. rewrite decode_encode. cbn [mbind option_bind].
  rewrite !decode_encode. cbn [mbind option_bind]. rewrite code_bytes_code. by destruct op.
Qed.

Lemma code_mutation_code m : code_mutation (mutation_code m) = Some m.
Proof.
  unfold code_mutation, mutation_code. rewrite decode_encode. cbn [mbind option_bind].
  rewrite !decode_encode. cbn [mbind option_bind].
  replace (mapM code_operation _) with (Some (Mut_Operations m)); [by destruct m|].
  symmetry. induction (Mut_Operations m) as [|op ops IH]; [done|]. cbn. by rewrite code_operation_code, IH.
Qed.

Definition decode_mutation (raw : bytes) : option Mutation :=
  m ← code_mutation (unpack raw);
  if bool_decide (0 <= Mut_RevisionMinimum m < 2 ^ 64) then Some m else None.

Definition decode_envelope (raw : bytes) : option snapshotEnvelope :=
  t ← decode (of_bits raw);
  let e := tuple_envelope t in
  if bool_decide (0 <= Env_Revision e < 2 ^ 64 ∧ 0 <= Env_SchemaVersion e < 2 ^ 64) then Some e else None.

#[export] Program Instance tuple_json : ControlJson := {|
  json_mutation := decode_mutation;
  json_route _ := None;
  json_node _ := None;
  json_string _ := true;
  json_marshal_envelope e := bits_of (encode (envelope_tuple e));
  json_envelope := decode_envelope;
|}.
Next Obligation.
  unfold decode_mutation. intros raw m (t & _ & H)%bind_Some. case_bool_decide; [|done].
  injection H as <-. done.
Qed.
Next Obligation. done. Qed.
Next Obligation.
  intros e _ Hs Hr _ _. unfold decode_envelope. rewrite of_bits_of, decode_encode. cbn [mbind option_bind].
  replace (tuple_envelope (envelope_tuple e)) with e by (by destruct e). by rewrite bool_decide_eq_true_2.
Qed.

#[export] Program Instance tuple_mutations : MutationJson := {|
  marshal_mutation m := pack (mutation_code m);
|}.
Next Obligation. done. Qed.
Next Obligation.
  intros m _ _ _ Hu _ _. cbn [json_mutation tuple_json]. unfold decode_mutation. rewrite unpack_pack, code_mutation_code. cbn [mbind option_bind].
  by rewrite bool_decide_eq_true_2.
Qed.

#[export] Program Instance list_membership : RaftMembership := {|
  raft_remove servers id := filter (λ s, srv_id s ≠ id) servers;
  raft_add servers s := s :: filter (λ t, srv_id t ≠ srv_id s) servers;
|}.
Next Obligation. done. Qed.
Next Obligation.
  intros servers s t H. rewrite elem_of_cons, list_elem_of_filter. split; [|naive_solver].
  intros [->|[_ ?]]; done.
Qed.
Next Obligation. intros servers s. exists s. split; [left|done]. Qed.

Abbreviation bucket := (gmap string bytes).

Lemma var_root_ok : root_ok "/var/lib/bpc".
Proof.
  exists ["var"; "lib"; "bpc"]. split; [reflexivity|]. split; [discriminate|]. split; repeat constructor; done.
Qed.

Definition record_path : string := "control/devices/d1.json".

(** A store with one record, of a given revision, floor and applied index. *)
Definition store_at (rev floor applied : Z) : Store bucket :=
  mkStore ∅ ∅ {[ record_path := [x10] ]}
    (<[keyRevision := u64key rev]> (<[keyRevisionFloor := u64key floor]> {[ keyAppliedIndex := u64key applied ]})).

Module Files.
(** The directory holds an old version of the record, a record that is gone, and a file
    that is not the Controller's. *)
Definition stale : tree := mkTree (list_to_map [
  ("/var/lib/bpc/control/devices/d1.json", [x01]);
  ("/var/lib/bpc/control/devices/gone.json", [x02]);
  ("/etc/hosts", [x03])]).
Definition machine : StateMachine bucket tree := mkFSM (store_at 1 0 1) "/var/lib/bpc" stale.

Lemma machine_paths : map_Forall (λ k _, NormalizeReplicatedPath k = Ok k) (state_of (fsm_store machine)).
Proof. refine (bool_decide_eq_true_1 _ _). vm_compute. reflexivity. Qed.

Lemma ReconcileProjection_mirrors_witness :
  let f' := (ReconcileProjection machine false).1 in
  fs_files (fsm_fs f') !! target "/var/lib/bpc" record_path = Some [x10] ∧
  fs_files (fsm_fs f') !! target "/var/lib/bpc" "control/devices/gone.json" = None ∧
  fs_files (fsm_fs f') !! "/etc/hosts" = Some [x03].
Proof.
  pose proof (ReconcileProjection_mirrors machine false var_root_ok) as H.
  assert ((ReconcileProjection machine false).2 = Ok tt) as K by (vm_compute; reflexivity).
  destruct (ReconcileProjection machine false) as [f' res]. cbn [snd fst] in *.
  destruct H as (_ & _ & O & H); [intros p [v Hv]; exists p; exact (machine_paths p v Hv)|].
  specialize (H K). split; [|split].
  - refine (eq_trans (H record_path _) _); [right; vm_compute; reflexivity|vm_compute; reflexivity].
  - refine (eq_trans (H "control/devices/gone.json" _) _); [right; vm_compute; reflexivity|vm_compute; reflexivity].
  - refine (eq_trans (O "/etc/hosts" _) _); [discriminate|vm_compute; reflexivity].
Defined.

(** A directory with two records and a file that is not one. *)
Definition directory : tree := mkTree (list_to_map [
  ("/var/lib/bpc/control/devices/d1.json", [x01]);
  ("/var/lib/bpc/cluster/cluster.json", [x02]);
  ("/var/lib/bpc/notes.txt", [x03])]).
Definition first_mutation : result Mutation := BootstrapMutation "/var/lib/bpc" directory false "boot" 7.
Definition first_log : Log :=
  mkLog 1 1 x00 (match first_mutation with Ok m => marshal_mutation m | _ => [] end) [] 1.
Definition blank_machine : StateMachine bucket tree := NewStateMachine (mkStore ∅ ∅ ∅ ∅) "/srv/bpc" (mkTree ∅).

Lemma directory_plain : plain_names "/var/lib/bpc" directory.
Proof.
  constructor.
  - intros q n [v Hq] Hn.
    assert (map_Forall (λ k _, ∃ r, r ∈ ["control/devices/d1.json"; "cluster/cluster.json"; "notes.txt"] ∧
      k = target "/var/lib/bpc" r) (tree_raw directory)) as H.
    { unfold directory. cbn [tree_raw list_to_map foldr]. 
      repeat apply map_Forall_insert_2; try apply map_Forall_empty; eexists; (split; [|reflexivity]);
        repeat (apply elem_of_cons; (left; reflexivity) || right). }
    assert (tree_files directory = tree_raw directory) as E by (vm_compute; reflexivity).
    cbn [fs_files tree_fs] in Hq. rewrite E in Hq. specialize (H _ _ Hq). cbv beta in H.
    destruct H as (r & Hr & Et). apply target_inj in Et. subst r. clear -Hr Hn.
    repeat (apply elem_of_cons in Hr as [->|Hr]; [vm_compute in Hn; congruence|]). by apply elem_of_nil in Hr.
  - assert (Forall (λ p, fs_files directory !! filepath_join "/var/lib/bpc" p = None) replicatedPrefixes) as H.
    { refine (bool_decide_eq_true_1 _ _). vm_compute. reflexivity. }
    intros p Hp. rewrite Forall_forall in H. by apply H.
Qed.

Lemma bootstrap_imports_witness :
  let f' := (Apply blank_machine first_log).1 in
  revision (fsm_store f') = 1 ∧ state_of (fsm_store f') !! "cluster/cluster.json" = Some [x02] ∧
  state_of (fsm_store f') !! "notes.txt" = None.
Proof.
  destruct first_mutation as [m| |] eqn:Em; [|vm_compute in Em; discriminate..].
  destruct (bootstrap_imports blank_machine "/var/lib/bpc" directory "boot" 7 m first_log) as [R S].
  - exact var_root_ok.
  - exact directory_plain.
  - vm_compute. reflexivity.
  - unfold is_u64. cbn. lia.
  - vm_compute. reflexivity.
  - exact Em.
  - unfold first_log. rewrite Em. cbn [Log_Data].
    vm_compute in Em. injection Em as <-. vm_compute. reflexivity.
  - vm_compute. reflexivity.
  - split; [exact R|]. split; [exact (S "cluster/cluster.json")|exact (S "notes.txt")].
Defined.

(** A file whose name is a record's with a space after it: the scan reads it as the
    record, so the reconciliation reports success and leaves it, and a bootstrap from
    the directory imports its contents in place of the record's. *)
Definition stray : StateMachine bucket tree :=
  mkFSM (store_at 1 0 1) "/var/lib/bpc" (mkTree {[ "/var/lib/bpc/control/devices/d1.json " := [x66] ]}).

Lemma stray_file_survives :
  let '(f', res) := ReconcileProjection stray false in
  res = Ok tt ∧
  fs_files (fsm_fs f') !! "/var/lib/bpc/control/devices/d1.json" = Some [x10] ∧
  fs_files (fsm_fs f') !! "/var/lib/bpc/control/devices/d1.json " = Some [x66] ∧
  BootstrapMutation "/var/lib/bpc" (fsm_fs f') false "boot" 7
    = Ok (mkMutation 1 "boot" "BootstrapCanonicalState" 7
            [mkOperation "put" "control/devices/d1.json" [x66] true false ""] 0).
Proof. vm_compute. split; [reflexivity|]. split; [reflexivity|]. split; reflexivity. Qed.
End Files.

Module Restarts.
(** A Controller at revision 5 goes down; what is left of it after a restore of a
    snapshot of revision 2 is below its floor. *)
Definition durable : Store bucket := store_at 5 0 9.
Definition env : start_env := mkStart (Some 1%nat) true (Some true) false true
  [mkServer "c1" "10.0.0.1:7000" Voter; mkServer "c2" "10.0.0.2:7000" Voter;
   mkServer "c3" "10.0.0.3:7000" Voter; mkServer "c4" "10.0.0.4:7000" Nonvoter].
Definition started : result (Node bucket bucket) := (NewNode "c1" "10.0.0.1:7000" durable "/var/lib/bpc" ∅ env).2.
Definition default_node : Node bucket bucket :=
  mkNode "" "" (NewStateMachine (mkStore ∅ ∅ ∅ ∅) "" ∅) 0 false [] 0 0.
Definition fresh : Node bucket bucket := match started with Ok n => n | _ => default_node end.

(** Raft elects it, and the old snapshot is restored. *)
Definition elected (n : Node bucket bucket) : Node bucket bucket :=
  mkNode (n_id n) (n_address n) (n_fsm n) (n_floor n) true (n_servers n) 3 10.
Definition old_state : StateMachine bucket bucket := mkFSM (store_at 2 0 4) "/var/lib/bpc" ∅.
Definition old_snapshot : bytes := match ExportSnapshot old_state with Ok raw => raw | _ => [] end.
Definition leader : Node bucket bucket := elected fresh.
Definition behind : Node bucket bucket := set_fsm leader (Restore (n_fsm leader) old_snapshot false).1.

Lemma fresh_reachable : rtc (ctl_step "c1" "10.0.0.1:7000" "/var/lib/bpc") (Down durable (∅ : bucket)) (Up leader).
Proof.
  eapply rtc_l.
  { apply (ctl_start _ _ _ durable ∅ env (NewNode "c1" "10.0.0.1:7000" durable "/var/lib/bpc" ∅ env).1.1
      (NewNode "c1" "10.0.0.1:7000" durable "/var/lib/bpc" ∅ env).1.2 started).
    unfold started. by destruct (NewNode _ _ _ _ _ _) as [[] ]. }
  replace (match started with Ok n => Up n | _ => Down _ _ end) with (Up fresh : controller (B := bucket) (F := bucket)).
  { apply rtc_once. apply ctl_raft. }
  unfold fresh. assert (is_ok started = true) as K by (vm_compute; reflexivity).
  destruct started; [reflexivity|discriminate..].
Qed.

Lemma behind_reachable : rtc (ctl_step "c1" "10.0.0.1:7000" "/var/lib/bpc") (Down durable (∅ : bucket)) (Up behind).
Proof. eapply rtc_r; [exact fresh_reachable|]. apply ctl_restore. Qed.

(** The restored Controller is below the floor and refuses; an entry that brings it back
    makes it answer. *)
Definition touch : Mutation :=
  mkMutation 1 "t1" "TouchDevice" 0 [mkOperation "put" record_path [x11] false false ""] 0.
Definition touched (i : Z) : Log := mkLog i 1 x00 (marshal_mutation touch) [] 1.
Definition catch_up : list Log := [touched 11; touched 12; touched 13].

Lemma revision_floor_fence_witness :
  (StrongRead behind (Some []) false).2
    = Err "canonical revision %d is below preserved pre-replay floor %d; migration requires revision reconciliation" ∧
  (StrongRead behind (Some catch_up) false).2 = Ok (10, 5) ∧ revision durable <= 5.
Proof.
  split; [vm_compute; reflexivity|].
  assert ((StrongRead behind (Some catch_up) false).2 = Ok (10, 5)) as E by (vm_compute; reflexivity).
  split; [exact E|].
  destruct (revision_floor_fence _ _ _ _ _ _ behind_reachable) as (_ & R & _).
  apply (R (Some catch_up) false (StrongRead behind (Some catch_up) false).1 10 5).
  - intros logs [= <-]. repeat constructor; unfold is_u64; cbn; lia.
  - exact (pair_of _ _ E).
Defined.

Definition seen_view : RecoveryState :=
  match (GetRecoveryState behind 0 (Some []) true).2 with
  | Ok v => v
  | _ => mkRecovery "" 0 0 0 "" 0
  end.
Definition committed : raft_answer := mkAnswer [] (Some (touched 11)).
Definition reconciled : Node bucket bucket * result MutationResult :=
  ReconcileRevision behind seen_view 7 (Some []) true committed (Some []) false.

Lemma ReconcileRevision_unblocks_witness :
  checkRevisionFloor behind
    = Err "canonical revision %d is below preserved pre-replay floor %d; migration requires revision reconciliation" ∧
  checkRevisionFloor reconciled.1 = Ok tt ∧ revision (fsm_store (n_fsm reconciled.1)) = 7 ∧
  state_of (fsm_store (n_fsm reconciled.1)) = state_of (fsm_store (n_fsm behind)).
Proof.
  split; [vm_compute; reflexivity|].
  assert (reconciled.2 = Ok (mkMutationResult 11 true 7 "" false)) as E by (vm_compute; reflexivity).
  destruct (ReconcileRevision_unblocks behind seen_view 7 (Some []) true committed (Some []) false
    reconciled.1 (mkMutationResult 11 true 7 "" false)) as (_ & _ & _ & _ & C & U).
  - vm_compute. reflexivity.
  - unfold is_u64. lia.
  - split; [constructor|]. intros log [= <-]. unfold log_ok, is_u64. cbn. lia.
  - intros logs [[= <-]|[= <-]]; constructor.
  - intros log [= <-]. vm_compute. reflexivity.
  - exact (pair_of _ _ E).
  - destruct (U eq_refl eq_refl) as [U1 U2]. split; [exact C|]. split; [exact U2|exact U1].
Defined.

(** Two voters and a member that does not vote: removing the latter, which leaves the two
    voters, is refused. *)
Definition pair_and_observer : Node bucket bucket := set_servers leader
  [mkServer "c1" "10.0.0.1:7000" Voter; mkServer "c2" "10.0.0.2:7000" Voter;
   mkServer "c4" "10.0.0.4:7000" Nonvoter].

Lemma nonvoter_removal_refused :
  (RemoveMember pair_and_observer "c4" false true true).2
    = Err "refusing to shrink controller cluster below two voters without force" ∧
  count_voters (raft_remove (n_servers pair_and_observer) "c4") = 2.
Proof. split; vm_compute; reflexivity. Qed.
End Restarts.

Module Checkpoints.
#[local] Existing Instance short_hashes.

Definition cert1 : Certificate := mkCert "c1" [x31] ["bpc://cl/controller/c1"].
Definition cert2 : Certificate := mkCert "c2" [x32] ["bpc://cl/controller/c2"].

#[local] Instance members : MembershipJson := λ raw,
  if bool_decide (raw = [x21]) then Some (mkMember "c1" "voter" (hex_encode (sha256 [x31])))
  else if bool_decide (raw = [x22]) then Some (mkMember "c2" "nonvoter" (hex_encode (sha256 [x32])))
  else None.

#[local] Program Instance snapshots : RaftSnapshots := {| SnapshotVersionMax := 1; snapshot_add l s := s :: l |}.
Next Obligation. done. Qed.

Definition servers : list Server := [mkServer "c1" "10.0.0.1:7000" Voter; mkServer "c2" "10.0.0.2:7000" Nonvoter].
Definition meta (state : bytes) : SnapshotMeta := mkMeta 1 "2-20" 20 2 servers 3 (zlen state).

(** A checkpoint travels as its state; the rest of it is fixed. *)
#[local] Program Instance checkpoints : CheckpointJson := {|
  marshal_checkpoint c := Cp_State c;
  json_checkpoint raw := Some (mkCheckpoint 1 "cl" "c1" (meta raw) raw (hex_encode (sha256 raw)));
  json_cluster raw := if bool_decide (raw = [x02]) then Some "cl" else None;
|}.
Next Obligation.
  intros raw e H. cbn in H. unfold decode_envelope in H. apply bind_Some in H as (u & _ & H).
  case_bool_decide as D; [|done]. injection H as <-. done.
Qed.

Definition records : gmap string bytes := list_to_map [
  ("cluster/cluster.json", [x02]); ("cluster/controllers/c1.json", [x21]); ("cluster/controllers/c2.json", [x22])].
Definition state_at (rev applied : Z) : Store bucket :=
  mkStore ∅ ∅ records (<[keyRevision := u64key rev]> {[ keyAppliedIndex := u64key applied ]}).
Definition source : Node bucket bucket :=
  mkNode "c1" "10.0.0.1:7000" (mkFSM (state_at 8 20) "/var/lib/bpc" ∅) 0 true servers 3 20.
Definition snapshot : bytes := match ExportSnapshot (n_fsm source) with Ok raw => raw | _ => [] end.
Definition exported : Node bucket bucket * result ReplayCheckpoint :=
  ExportReplayCheckpoint source (Some []) false SnapshotTaken (Some [(meta snapshot, snapshot)]) true.
Definition blank_checkpoint : ReplayCheckpoint := mkCheckpoint 0 "" "" (meta []) [] "".
Definition checkpoint : ReplayCheckpoint := match exported.2 with Ok c => c | _ => blank_checkpoint end.

Definition config : NodeConfig :=
  mkConfig "c2" "10.0.0.2:7000" (mkTLS "" "" "" "/var/lib/bpc/cluster/controllers" "cl").
Definition recipient_store : Store bucket := state_at 6 0.
Definition recipient : Node bucket bucket :=
  mkNode "c2" "10.0.0.2:7000" (mkFSM recipient_store "/var/lib/bpc" ∅) 6 false servers 3 0.

Lemma servers_ok : members_ok config "c1" servers.
Proof.
  apply members_found. exists (true, true). split; vm_compute; reflexivity.
Qed.

Definition envelope : snapshotEnvelope :=
  match json_envelope snapshot with Some e => e | None => mkEnvelope 0 0 0 ∅ "" end.

Lemma envelope_paths : map_Forall (λ k _, NormalizeReplicatedPath k = Ok k) (Env_Entries envelope).
Proof. refine (bool_decide_eq_true_1 _ _). vm_compute. reflexivity. Qed.

Lemma only_head {A C} (a a' : A) (c c' : C) l : Some [(a, c)] = Some ((a', c') :: l) → a' = a ∧ c' = c.
Proof. by intros [= -> ->]. Qed.


Definition answers : import_io := mkIO true true true true true "before.db" true true "2-20" true Closed true.
Definition stopped : disk bucket := mkDisk recipient_store [] [].
Definition origin : option Origin := Some (mkOrigin "https" "10.0.0.1:8443" false "" "" "").
Definition reply : option Response := Some (mkResponse 200 [cert1] (Some snapshot)).

Lemma checkpoint_import_safe_witness :
  let '(d', r) := ImportReplayCheckpoint stopped config origin true true (Some cert2) reply answers in
  r = Ok (mkImported 20 6 "before.db") ∧ canonical (dk_store d') = canonical (dk_store stopped) ∧
  revisionFloor (dk_store d') = 6 ∧ ("before.db", dk_store stopped) ∈ dk_backups d'.
Proof.
  pose proof (checkpoint_import_safe stopped config origin true true (Some cert2) reply answers) as H.
  assert ((ImportReplayCheckpoint stopped config origin true true (Some cert2) reply answers).2
    = Ok (mkImported 20 6 "before.db")) as E by (vm_compute; reflexivity).
  destruct (ImportReplayCheckpoint _ _ _ _ _ _ _ _) as [d' r]. cbn [snd] in E. destruct H as [U H].
  destruct (H _ E) as (c & crt & peer & rest & body & _ & _ & _ & _ & _ & _ & _ & _ & Bk & Fl & _).
  split; [exact E|]. split; [exact (un_canonical _ _ U)|]. split; [exact Fl|exact Bk].
Defined.

(** Two Controllers join, and one is removed. *)
Definition join : Mutation := mkMutation 1 "j" "JoinControllers" 0
  [mkOperation "put" "cluster/controllers/c1.json" [x21] false false "";
   mkOperation "put" "cluster/controllers/c2.json" [x22] false false ""] 0.
Definition leave : Mutation := mkMutation 1 "l" "RemoveController" 0
  [mkOperation "delete" "cluster/controllers/c2.json" [] false false ""] 0.
Definition entry (i : Z) (m : Mutation) : Log := mkLog i 1 x00 (marshal_mutation m) [] 1.
Definition empty_machine : StateMachine bucket bucket := NewStateMachine (mkStore ∅ ∅ ∅ ∅) "/var/lib/bpc" ∅.
Definition joined : StateMachine bucket bucket := (Apply empty_machine (entry 1 join)).1.

Lemma joined_mirrors : mirrors joined.
Proof.
  pose proof (Apply_projection empty_machine (entry 1 join) var_root_ok) as H.
  assert (Res_OK (Apply empty_machine (entry 1 join)).2 = true) as K by (vm_compute; reflexivity).
  unfold joined. destruct (Apply empty_machine (entry 1 join)) as [f' r].
  apply H; [unfold is_u64; cbn; lia|intros p; reflexivity|exact K].
Qed.

End Checkpoints.
