(* ===== verification/ControlApiExamples.v ===== *)
(** * Requests to a Controller

    The theorems of [ControlApi] at a concrete leader with two other members: a write, a
    Controller that joins and one that is removed, a reconciliation after a restore of an
    old snapshot; and a request that overwrites a record of another kind. *)

From Stdlib Require Import Strings.Byte.
From S2P Require Import Prelude GoLib GoStrings Netip GoEncoding Crypto GoNet P2pGrant AgentConfig ControlStore ControlFsm.
From S2P Require Import ControlProjection ControlNode ControlTls ControlCheckpoint ControlApi ControlNodeExamples P2pExamples.

#[local] Existing Instance short_hashes.

(** ** JSON of the interface *)

Definition controller_fields (r : controllerRecord) : list positive :=
  [encode (Ct_NodeID r); encode (Ct_RaftAddress r); encode (Ct_APIAddress r); encode (Ct_PublicURL r); encode (Ct_State r);
   encode (Ct_SoftwareVersion r); encode (Ct_ProtocolVersion r); encode (Ct_StateSchema r);
   encode (Ct_CertificateSHA256 r); encode (Ct_UpdatedAt r)].
Definition fields_controller (l : list positive) : option controllerRecord :=
  match l with
  | [a; b; c; d; e; f; g; h; i; j] =>
      a ← decode a; b ← decode b; c ← decode c; d ← decode d; e ← decode e; f ← decode f; g ← decode g; h ← decode h;
      i ← decode i; j ← decode j; Some (mkController a b c d e f g h i j)
  | _ => None
  end.
Definition encode_controller (r : controllerRecord) : bytes := pack (encode (controller_fields r)).
Definition decode_controller (raw : bytes) : option controllerRecord := decode (unpack raw) ≫= fields_controller.

Lemma decode_encode_controller r : decode_controller (encode_controller r) = Some r.
Proof.
  unfold decode_controller, encode_controller. rewrite unpack_pack, decode_encode. cbn [mbind option_bind].
  unfold fields_controller, controller_fields. rewrite !decode_encode. by destruct r.
Qed.

#[local] Instance members : MembershipJson := λ raw,
  (λ r, mkMember (Ct_NodeID r) (Ct_State r) (Ct_CertificateSHA256 r)) <$> decode_controller raw.

Definition cert3 : Certificate := mkCert "c3" [x33] ["bpc://cl/controller/c3"].
Definition digest3 : string := hex_encode (sha256 [x33]).

Definition add3 : addMemberRequest :=
  mkAdd "c3" "10.0.0.3:7000" "10.0.0.3:8443" "https://c3/" true "v1" 1 1 digest3.
(** A request whose Controller id leaves the directory of the members. *)
Definition add_config : addMemberRequest :=
  mkAdd "../../control/config" "10.0.0.9:7000" "10.0.0.9:8443" "https://x/" false "v1" 1 1 digest3.
Definition remove2 : removeMemberRequest := mkRemove "c2" false.

Definition member (id : string) : controllerRecord :=
  mkController id (id +:+ ":7000") (id +:+ ":8443") "https://c/" "voter" "v1" 1 1 "" 5.

(** The views and the receipt of the reconciliation: one digest, two revisions. *)
Definition records : gmap string bytes := list_to_map [
  ("cluster/controllers/c1.json", encode_controller (member "c1"));
  ("cluster/controllers/c2.json", encode_controller (member "c2"));
  ("control/nodes/g1.json", [x60])].
Definition store (rev floor applied : Z) : Store bucket :=
  mkStore ∅ ∅ records
    (<[keyRevision := u64key rev]> (<[keyRevisionFloor := u64key floor]> {[ keyAppliedIndex := u64key applied ]})).
Definition servers : list Server :=
  [mkServer "c1" "c1:7000" Voter; mkServer "c2" "c2:7000" Voter; mkServer "c4" "c4:7000" Voter].

Definition files : tree := mkTree (kmap (target "/var/lib/bpc") records).
Definition leader : Node bucket tree := mkNode "c1" "c1:7000" (mkFSM (store 5 0 9) "/var/lib/bpc" files) 0 true servers 3 9.
(** A leader restored from an old snapshot, below its floor. *)
Definition behind : Node bucket tree :=
  mkNode "c1" "c1:7000" (mkFSM (store 2 5 9) "/var/lib/bpc" files) 5 true (take 2 servers) 3 9.
Definition digest : string := Rv_Digest (recovery_view behind 9).
Definition view_before : RecoveryState := mkRecovery "c2" 9 6 7 digest 3.
Definition view_after : RecoveryState := mkRecovery "c2" 10 9 7 digest 3.

#[local] Program Instance checkpoints : CheckpointJson := {|
  marshal_checkpoint c := Cp_State c;
  json_checkpoint raw := None;
  json_cluster raw := Some "cl";
|}.
Next Obligation.
  intros raw e H. cbn in H. unfold decode_envelope in H. apply bind_Some in H as (u & _ & H).
  case_bool_decide as D; [|done]. injection H as <-. done.
Qed.
#[local] Program Instance snapshots : RaftSnapshots := {| SnapshotVersionMax := 1; snapshot_add l s := s :: l |}.
Next Obligation. done. Qed.

Definition receipt_message : bytes := receipt_domain ++ [x07].
Definition ca_key : bytes := replicate 32 x05.
Definition receipts : gmap string revisionReceipt :=
  {[ "g1" := mkReceipt receipt_message (ed_sign ca_key receipt_message) ]}.

#[local] Program Instance api : ApiJson := {|
  json_add raw := if bool_decide (raw = [x01]) then Some add3 else if bool_decide (raw = [x03]) then Some add_config else None;
  json_remove raw := if bool_decide (raw = [x02]) then Some remove2 else None;
  json_restore _ := None;
  json_index _ := None;
  json_receipts _ := Some receipts;
  json_receipt_snapshot raw := if bool_decide (raw = [x07]) then Some (mkReceiptSnapshot 1 1 "cl" 9 100 200) else None;
  json_result raw := if bool_decide (raw = [x11]) then Some (mkMutationResult 10 true 6 "" false) else None;
  json_barrier _ := None;
  json_view raw := if bool_decide (raw = [x12]) then Some (RevisionRecoveryVersion, view_before)
                   else if bool_decide (raw = [x13]) then Some (RevisionRecoveryVersion, view_after) else None;
  json_controller r raw := match decode_controller raw with Some c => (c, true) | None => (r, false) end;
  marshal_controller := encode_controller;
  marshal_revocation id now := pack (encode (id, now));
|}.
Next Obligation. intros raw version v H. cbn in H. repeat case_bool_decide; simplify_eq; unfold is_u64; cbn; lia. Qed.
Next Obligation. intros raw s H. cbn in H. case_bool_decide; simplify_eq. unfold is_u64. cbn. lia. Qed.
Next Obligation. done. Qed.
Next Obligation. done. Qed.
Next Obligation. done. Qed.
Next Obligation. done. Qed.
Next Obligation. intros r _. unfold json_membership, members. by rewrite decode_encode_controller. Qed.

Definition no_dial (address path : string) (raw : bytes) : option (Z * bytes) := None.
Definition entry (i : Z) : Log := mkLog i 3 x00 [] [] 1.

(** ** Members *)

Definition removal : remove_env := mkRemoveEnv true 20 true true [xaa] (mkAnswer [] (Some (entry 10))).
Definition cert2 : Certificate := mkCert "c2" [x32] ["bpc://cl/controller/c2"].
Definition removed : Node bucket tree * reply := removeMember leader "c1" no_dial (Some [x02]) removal.

Lemma removed_status : rp_status removed.2 = 200.
Proof. vm_compute. reflexivity. Qed.
Lemma plain_c2 : plain_id "c2".
Proof. split; vm_compute; reflexivity. Qed.


Definition adding : add_env := mkAddEnv [xa1] 20 (mkAnswer [] (Some (entry 10))) true
  [xa2] 21 (mkAnswer [] (Some (entry 11))) true 11 [None; Some (Some 8); Some (Some 11)] true
  [xa3] 22 (mkAnswer [] (Some (entry 12))).
Definition added : Node bucket tree * reply := addMember leader "c1" no_dial (Some [x01]) adding.

Lemma added_status : rp_status added.2 = 200.
Proof. vm_compute. reflexivity. Qed.
Lemma plain_c3 : plain_id "c3".
Proof. split; vm_compute; reflexivity. Qed.

Lemma addMember_admits_witness : admits (state_of (fsm_store (n_fsm added.1))) "cl" cert3.
Proof.
  destruct (addMember_admits leader "c1" no_dial (Some [x01]) adding added.1 added.2 add3)
    as (d & Ck & _ & _ & _ & A).
  - reflexivity.
  - exact (surjective_pairing added).
  - exact added_status.
  - reflexivity.
  - exact plain_c3.
  - unfold is_u64. vm_compute. repeat split; discriminate.
  - unfold is_i64. cbn. lia.
  - unfold is_i64. cbn. lia.
  - unfold is_i64. cbn. lia.
  - apply A.
    + vm_compute. reflexivity.
    + refine (bool_decide_eq_true_1 _ _). vm_compute. reflexivity.
    + vm_compute. reflexivity.
    + assert (check_add add3 = inl digest3) as K by (vm_compute; reflexivity). rewrite K in Ck. by injection Ck as <-.
    + left.
Defined.

(** The id of a Controller is only checked to be there: this one names a record of another
    kind, which the request overwrites, and the Controller has no record of its own. *)
Definition overwritten : Node bucket tree * reply := addMember leader "c1" no_dial (Some [x03]) adding.

Lemma addMember_other_record :
  rp_status overwritten.2 = 200 ∧
  from_option (λ _, true) false (state_of (fsm_store (n_fsm overwritten.1)) !! "control/config.json") = true ∧
  state_of (fsm_store (n_fsm overwritten.1)) !! ControlApi.record_path "../../control/config" = None.
Proof. split; [vm_compute; reflexivity|]. split; vm_compute; reflexivity. Qed.

(** ** Reconciliation *)

Definition ask (answer : bytes) (address : string) (index : Z) : option (Z * list Certificate * bytes) :=
  if bool_decide (address = "c2:8443") then Some (200, [cert2], answer) else None.
Definition json_gateway (raw : bytes) : option gatewayRecord := Some (mkGateway "g1" {[ "gateway" := true ]} false).
Definition material : TLSMaterial := mkTLS "" "" "" "/var/lib/bpc/cluster/controllers" "cl".
Definition recovery : reconcile_env := mkReconcileEnv (Some []) true (ask [x12]) (Some ca_key) 150
  (Some []) (mkAnswer [] (Some (entry 10))) (Some []) false (ask [x13]) (Some []) true.
Definition recovered : Node bucket tree * result MutationResult := reconcile behind material json_gateway receipts recovery.

Lemma recovered_Ok : recovered.2 = Ok (mkMutationResult 10 true 9 "" false).
Proof. vm_compute. reflexivity. Qed.

Lemma reconcile_sound_witness :
  checkRevisionFloor behind
    = Err "canonical revision %d is below preserved pre-replay floor %d; migration requires revision reconciliation" ∧
  checkRevisionFloor recovered.1 = Ok tt.
Proof.
  split; [vm_compute; reflexivity|].
  destruct (reconcile_sound behind material json_gateway receipts recovery recovered.1
    (mkMutationResult 10 true 9 "" false)) as (minimum & n2 & _ & _ & C & _).
  - exact (pair_of _ _ recovered_Ok).
  - vm_compute. reflexivity.
  - split; [constructor|]. intros log [= <-]. unfold log_ok, is_u64. cbn. lia.
  - intros logs [[= <-]|[[= <-]|[[= <-]|[= <-]]]]; constructor.
  - intros log [= <-]. vm_compute. reflexivity.
  - exact C.
Defined.

(** ** Writing through a follower *)

Definition follower : Node bucket tree :=
  mkNode "c2" "c2:7000" (mkFSM (store 5 0 9) "/var/lib/bpc" files) 0 false servers 3 9.
Definition write : Mutation :=
  mkMutation 1 "w" "PutDevice" 0 [mkOperation "put" "control/devices/d9.json" [x44] false false ""] 0.
Definition via_leader (address path : string) (raw : bytes) : option (Z * bytes) :=
  if bool_decide (address = "c1:8443" ∧ path = "/v1/mutate" ∧ raw = marshal_mutation write) then Some (200, [x11]) else None.
Definition write_log : Log := mkLog 10 3 x00 (marshal_mutation write) [] 1.
Definition applied_at (index : Z) : option (list Log) := if index =? 10 then Some [write_log] else None.

Lemma only_some {A} (c : bool) (a b : A) : (if c then Some a else None) = Some b → b = a.
Proof. destruct c; [by intros [= ->]|discriminate]. Qed.
Lemma applied_ok index logs : applied_at index = Some logs → Forall log_ok logs.
Proof.
  intros E. apply only_some in E. rewrite E. apply Forall_singleton. unfold log_ok, is_u64. cbn [Log_Index write_log]. lia.
Qed.
Definition written : Node bucket tree * reply :=
  mutate follower "c1" via_leader (Some (marshal_mutation write)) (mkAnswer [] None) applied_at false.

Lemma written_status : rp_status written.2 = 200.
Proof. vm_compute. reflexivity. Qed.
Lemma written_paths : map_Forall (λ k _, NormalizeReplicatedPath k = Ok k) (state_of (fsm_store (n_fsm written.1))).
Proof. refine (bool_decide_eq_true_1 _ _). vm_compute. reflexivity. Qed.
Lemma written_state : state_of (fsm_store (n_fsm written.1)) !! "control/devices/d9.json" = Some [x44].
Proof. vm_compute. reflexivity. Qed.
Lemma written_path : NormalizeReplicatedPath "control/devices/d9.json" = Ok "control/devices/d9.json".
Proof. vm_compute. reflexivity. Qed.

