(* ===== verification/AgentP2pExamples.v ===== *)
(** * The P2P pilot of a laptop

    The theorems of [AgentP2p] and [AgentLoop] at a machine on which the pilot is
    initialised, the Controller delivers an offer, and the loop starts and stops the
    session, with small executable documents. *)

From Stdlib Require Import Strings.Byte Strings.Ascii.
From S2P Require Import Prelude GoLib GoStrings GoEncoding Netip Crypto ControlStore GoNet.
From S2P Require Import P2pGrant P2pPolicy P2pAuthority P2pMux P2pRelay P2pEndpoint P2pExamples.
From S2P Require Import AgentConfig AgentControl AgentRuntime AgentP2p AgentLoop.

Module Pilot.
#[local] Existing Instance Device.policy_json.

(** ** Documents *)

(** A field: each byte behind a mark, and an end mark. *)
Definition field (b : bytes) : bytes := flat_map (λ x, [x01; x]) b ++ [x00].
Fixpoint get_field (raw : bytes) : option (bytes * bytes) :=
  match raw with
  | x00 :: rest => Some ([], rest)
  | x01 :: x :: rest => '(b, rest) ← get_field rest; Some (x :: b, rest)
  | _ => None
  end.

Lemma get_field_app b rest : get_field (field b ++ rest) = Some (b, rest).
Proof. unfold field. induction b as [|x b IH]; cbn; [done|]. cbn in IH. by rewrite IH. Qed.

Lemma get_field_prefix b n : (n < length (field b))%nat → get_field (take n (field b)) = None.
Proof.
  unfold field. revert n. induction b as [|x b IH]; intros n; cbn.
  - destruct n; [done|lia].
  - intros Hn. destruct n as [|[|n]]; [done..|]. cbn. by rewrite IH by (cbn in *; lia).
Qed.

Lemma field_length b : zlen (field b) = 2 * zlen b + 1.
Proof.
  unfold field, zlen. rewrite length_app. cbn. induction b as [|x b IH]; cbn in *; lia.
Qed.

(** A trust file is one field that holds the others. *)
Definition trust_fields (f : p2pTrustFile) : bytes :=
  field (bits_of (encode (Tf_Version f))) ++ field (str_bytes (Trust_ClusterID (Tf_Trust f))) ++
  field (str_bytes (Trust_DeviceID (Tf_Trust f))) ++ field (Trust_Issuer (Tf_Trust f)).
Definition read_trust_fields (raw : bytes) : option p2pTrustFile :=
  '(v, raw) ← get_field raw; '(c, raw) ← get_field raw; '(d, raw) ← get_field raw;
  '(i, _) ← get_field raw; v ← decode (of_bits v);
  Some (mkTrustFile v (mkTrust (bytes_str c) (bytes_str d) i)).

(** A request: the version, the stop, two fields and the ticket. *)
Definition request_doc (r : p2pRequest) : bytes :=
  (if Rq_Version r =? 1 then [x01] else x00 :: field (bits_of (encode (Rq_Version r)))) ++
  [if Rq_Stop r then x01 else x00] ++ field (str_bytes (Rq_ID r)) ++ field (str_bytes (Rq_Relay r)) ++ Rq_Ticket r.
Definition read_rest (v : Z) (raw : bytes) : option p2pRequest :=
  match raw with
  | stop :: raw =>
      '(id, raw) ← get_field raw; '(relay, ticket) ← get_field raw;
      Some (mkP2pRequest v (bytes_str id) (bool_decide (stop = x01)) ticket (bytes_str relay))
  | [] => None
  end.
Definition read_request (raw : bytes) : option p2pRequest :=
  match raw with
  | x01 :: raw => read_rest 1 raw
  | x00 :: raw => '(v, raw) ← get_field raw; v ← decode (of_bits v); read_rest v raw
  | _ => None
  end.

Lemma read_rest_doc v stop id relay ticket :
  read_rest v ((if stop : bool then x01 else x00) :: field (str_bytes id) ++ field (str_bytes relay) ++ ticket) =
  Some (mkP2pRequest v id stop ticket relay).
Proof.
  unfold read_rest. rewrite get_field_app. cbn. rewrite get_field_app. cbn.
  rewrite !bytes_str_bytes. by destruct stop.
Qed.

#[local] Program Instance files : P2pFileJson := {|
  decode_trust_file raw :=
    '(fields, rest) ← get_field raw; f ← read_trust_fields fields; Some (f, bool_decide (rest = []));
  decode_request raw := (λ r, (r, true)) <$> read_request raw;
  decode_raw_message raw := Some (raw, true);
  marshal_trust_file f := field (trust_fields f);
  marshal_request := request_doc;
|}.
Next Obligation.
  intros [v [c d i]] _ _. rewrite <- (app_nil_r (field _)), get_field_app. cbn [mbind option_bind].
  unfold trust_fields, read_trust_fields. cbn [Tf_Version Tf_Trust Trust_ClusterID Trust_DeviceID Trust_Issuer].
  rewrite !get_field_app. cbn [mbind option_bind]. rewrite get_field_app. cbn [mbind option_bind].
  rewrite get_field_app. cbn [mbind option_bind]. rewrite <- (app_nil_r (field i)), get_field_app.
  cbn [mbind option_bind]. rewrite of_bits_of, decode_encode. cbn. by rewrite !bytes_str_bytes.
Qed.
Next Obligation. intros f n H. cbv beta. by rewrite get_field_prefix. Qed.
Next Obligation.
  intros [v id stop ticket relay] _ _. cbv beta. unfold request_doc. cbn [Rq_Version Rq_ID Rq_Stop Rq_Ticket Rq_Relay].
  destruct (Z.eqb_spec v 1) as [->|].
  - cbn [app]. unfold read_request. by rewrite read_rest_doc.
  - cbn [app]. unfold read_request. rewrite get_field_app. cbn [mbind option_bind].
    rewrite of_bits_of, decode_encode. cbn [mbind option_bind app]. by rewrite read_rest_doc.
Qed.
Next Obligation.
  intros r H. cbv beta. unfold request_doc. rewrite H. cbn [app Z.eqb Pos.eqb].
  rewrite !zlen_cons, !zlen_app, !field_length, !zlen_str_bytes.
  pose proof (Z.div_mod (zlen (Rq_Ticket r) + 2) 3 ltac:(lia)).
  pose proof (Z.mod_pos_bound (zlen (Rq_Ticket r) + 2) 3 ltac:(lia)).
  pose proof (zlen_nonneg (Rq_Ticket r)). unfold str_len in *. lia.
Qed.

(** ** The machine *)

Definition now : Z := 1000 * second.
Definition laptop_id : string := hex_encode (replicate 16 xaa).
Definition desktop_id : string := hex_encode (replicate 16 xbb).
Definition laptop : Participant :=
  mkParticipant laptop_id "alice" (base64_encode (replicate 32 x01)) (base64_encode (replicate 32 x02)) (Some 167772161).
Definition desktop : Participant :=
  mkParticipant desktop_id "alice" (base64_encode (replicate 32 x03)) (base64_encode (replicate 32 x04)) (Some 167772162).
Definition session_id : string := hex_encode (replicate 16 x0a).
Definition grant : Grant := mkGrant 1 "cluster" session_id 7 990 1030 "sunshine-v1" laptop desktop.

#[local] Instance grant_json : GrantJson.
Proof.
  refine {|
    marshal_grant _ := [x01];
    decode_grant raw := if bool_decide (raw = [x01]) then Some grant else None;
    marshal_signed := Stream.marshal; decode_signed := Stream.unmarshal;
    json_grant g := bool_decide (g = grant);
  |}.
  - intros g H. by apply bool_decide_eq_true_1 in H as ->.
  - apply Stream.document_roundtrip.
Defined.
#[local] Instance x25519 : X25519 := {| x25519_base key := Some key |}.

Definition ticket : bytes := ok_or [] (SignGrant grant Stream.controller now).
Definition offer : P2POffer := mkOffer ticket "relay.example:443" 1030.
Definition profile : WireGuardProfile :=
  mkProfile (base64_encode (replicate 32 x02)) "10.0.0.1/32" 1420 (base64_encode (replicate 32 x09)) "" ["10.0.0.0/24"] 25.
Definition config : RuntimeConfig :=
  mkRuntimeConfig [] 3 ["https://a.example"] "node.example:443" [] "127.0.0.1:51820" "127.0.0.1:51821"
    (base64_encode (replicate 32 x09)) 0 16 "" "" None.
Definition enrolled : State :=
  mkAgentState 2 laptop_id "laptop" "access" 5000 "refresh" 9000 "" (base64_encode (replicate 32 x01))
    (base64_encode (replicate 64 x01)) "https://a.example" [] "" config profile.

#[local] Program Instance state_docs : StateJson := {|
  state_json _ := [x01];
  state_of_json raw := if bool_decide (raw = [x01]) then Some enrolled else None;
  AgentControl.json_state s := false;
|}.
Next Obligation. discriminate. Qed.

#[local] Instance url : GoURL := {| url_parse s := '(scheme, rest) ← cut ":"%char s; Some (scheme, rest) |}.
#[local] Instance same_case : UnicodeCase := {| lower s := s |}.
#[local] Instance no_ipv6 : Prefix6 := {| prefix6_ok _ := false |}.
#[local] Instance json_payload : PayloadJson := {| marshal_payload _ := [] |}.
Definition info : P2PInfo :=
  mkInfo [P2PCapability] "cluster" laptop_id (base64_encode (replicate 32 x05)) (hex_encode (replicate 32 x0e)) true "" true.
#[local] Instance json_info : JsonBody P2PInfo := {|
  body_zero := mkInfo [] "" "" "" "" false "" false;
  decode_into i raw := if bool_decide (raw = [x01]) then (info, true) else (i, false);
|}.
#[local] Instance json_ticket : JsonBody bytes := {| body_zero := []; decode_into _ raw := (raw, true) |}.
#[local] Instance json_peers : JsonBody (list P2PPeer) := {| body_zero := []; decode_into l _ := (l, true) |}.
#[local] Instance json_offer : JsonBody (option P2POffer) := {|
  body_zero := None; decode_into _ raw := (if bool_decide (raw = [x02]) then Some offer else None, true);
|}.

Definition respond (req : http_request) : http_reply :=
  if bool_decide (req_url req = "https://a.example/v1/p2p/info") then Reply 200 [x01]
  else if bool_decide (req_url req = "https://a.example/v1/p2p/inbox") then Reply 200 [x02]
  else Reply 404 [].
#[local] Instance network : HttpClient (list http_request) := scripted respond.

Abbreviation pc := (machine (gmap string bytes) (list http_request)).
Definition working : syscalls := mkSyscalls (λ _, None) 0 (λ _, None).
Definition bare : pc := mkMachine Absent (Some [x01]) ∅ [] true.
Definition nonce : option bytes := Some (replicate 16 x0f).
Definition prepared : pc := (p2pCommand working true ["prepare"] None nonce now bare).1.
Definition again := p2pCommand working true ["init"] (Some no_flags) nonce now prepared.

Definition no_dir : p2p_dir (gmap string bytes) := mkDir None None None.
Definition dir_of (m : pc) : p2p_dir (gmap string bytes) := match mc_p2p m with Directory d => d | _ => no_dir end.
Definition is_dir (m : pc) : bool := match mc_p2p m with Directory _ => true | _ => false end.
Lemma dir_of_eq m : is_dir m = true → mc_p2p m = Directory (dir_of m).
Proof. unfold is_dir, dir_of. by destruct (mc_p2p m). Qed.

Definition trust : Trust := mkTrust "cluster" laptop_id (replicate 32 x05).

Lemma info_strings : info_utf8 (JPi := json_info).
Proof. split; [reflexivity|]. intros out raw _. reflexivity. Qed.

Lemma prepared_trust : loadP2PTrust (dir_of prepared) laptop_id = Ok trust.
Proof. vm_compute. reflexivity. Qed.

Lemma prepared_steps : rtc machine_step bare prepared.
Proof. apply rtc_once. apply (ms_command working true ["prepare"] None nonce now bare). Qed.

Lemma working_ok call : sys working call = Ok tt.
Proof. reflexivity. Qed.

(** A second initialisation is refused and changes nothing. *)
Lemma p2p_trust_pinned_witness :
  again.2 = Err "P2P trust already exists or cannot be checked; refusing bootstrap" ∧
  (∃ b st, pd_policy (dir_of prepared) = Some (Some b) ∧ policy_state trust b = Ok st ∧
     pinned_later laptop_id trust st again.1) ∧
  ∃ store, openP2PAuthority working (mc_p2p prepared) (mc_state prepared) = (true, Ok (Some (store, trust))).
Proof.
  split; [vm_compute; reflexivity|].
  destruct (p2p_trust_pinned bare prepared again.1 (dir_of prepared) laptop_id trust info_strings eq_refl
    prepared_steps (rtc_once _ _ (ms_command working true ["init"] (Some no_flags) nonce now prepared))
    (dir_of_eq prepared ltac:(vm_compute; reflexivity)) ltac:(discriminate) prepared_trust)
    as (b & st & P & D & O & L).
  split; [exists b, st; split; [exact P|]; split; [exact D|exact L]|].
  eexists. apply (O working enrolled working_ok); vm_compute; reflexivity.
Defined.

(** ** A restart with a reserved peer *)

Definition no_store : PolicyStore (gmap string bytes) := mkPolicyStore ∅ false trust ∅.
Definition opened : PolicyStore (gmap string bytes) :=
  match openP2PAuthority working (mc_p2p prepared) (mc_state prepared) with
  | (_, Ok (Some (p, _))) => p
  | _ => no_store
  end.
Definition tracked : PolicyStore (gmap string bytes) := (Track opened ticket now).1.
(** The machine after the agent tracked the session and stopped. *)
Definition used : pc := set_entry prepared (Directory (with_policy (dir_of prepared) (Some (Some (ps_db tracked))))).

Lemma opened_eq : openP2PAuthority working (mc_p2p prepared) (mc_state prepared) = (true, Ok (Some (opened, trust))).
Proof. vm_compute. reflexivity. Qed.

Lemma used_steps : rtc machine_step bare used.
Proof.
  etransitivity; [exact prepared_steps|]. apply rtc_once.
  apply (ms_store working prepared (dir_of prepared) opened trust now now tracked);
    [apply dir_of_eq; vm_compute; reflexivity|exact opened_eq|].
  apply rtc_once, step_track.
Qed.

Definition windows : adapter :=
  mkAdapter 7 (Some 23) (Some "{00112233-4455-6677-8899-AABBCCDDEEFF}") (λ _, true).
Definition overlay := start_overlay (D := list bytes) profile working (mc_p2p used) (mc_state used) windows [].
Definition overlay_mux : MuxTUN (list bytes) := match overlay with Ok (Some (_, _, x)) => x | _ => NewMuxTUN [] end.

Definition used_state : policyState :=
  ok_or (mkState 0 trust 0 0 None []) (policy_state trust (ps_db tracked)).
Lemma used_state_eq : policy_state trust (ps_db tracked) = Ok used_state.
Proof. apply ok_or_eq. vm_compute. reflexivity. Qed.
Lemma used_reserved : Some 167772162 ∈ St_Reserved used_state.
Proof. apply (bool_decide_eq_true_1 (Some 167772162 ∈ St_Reserved used_state)). vm_compute. reflexivity. Qed.
Lemma used_trust : loadP2PTrust (dir_of used) laptop_id = Ok trust.
Proof. vm_compute. reflexivity. Qed.
Definition opened_again : PolicyStore (gmap string bytes) :=
  match overlay with Ok (Some (p, _, _)) => p | _ => no_store end.
Lemma overlay_eq : overlay = Ok (Some (opened_again, trust, overlay_mux)).
Proof. vm_compute. reflexivity. Qed.

Lemma reserved_across_restarts_witness :
  is_ok overlay = true ∧ mux_peers overlay_mux !! 167772162 = Some None ∧
  ∀ room x2 packet, Mux_Read overlay_mux room = (x2, Got packet) → ¬ addressed_to 167772162 packet.
Proof.
  split; [vm_compute; reflexivity|]. split; [vm_compute; reflexivity|].
  destruct (reserved_across_restarts bare used used (dir_of used) laptop_id trust (ps_db tracked) used_state 167772162
    profile working windows [] info_strings eq_refl used_steps eq_refl used_trust eq_refl used_state_eq
    used_reserved (rtc_refl _ _)) as [_ R].
  destruct (R opened_again trust overlay_mux overlay_mux overlay_eq (rtc_refl _ _)) as (_ & H1 & _). exact H1.
Defined.

(** ** The loop *)

Abbreviation objects := (endpoint (B := gmap string bytes) (D := list bytes)).
Definition later (n : nat) (e : objects) : objects :=
  mkEndpoint (ep_clock e + millisecond) (ep_store e) (ep_mux e) (ep_policy e) (ep_input e)
    (ep_bridge e) (ep_device e) (ep_relay e) (ep_pending e) (ep_updates e).
Lemma offer_shared n e : shared e (later n e).
Proof.
  split; cbn.
  - apply rtc_once, process_later. unfold millisecond. lia.
  - reflexivity.
  - by destruct (ep_policy e).
  - done.
Qed.

(** The Controller does not answer. *)
Definition course : environment (B := gmap string bytes) (D := list bytes) * list event :=
  (mkEnvironment None (Some true) true true true None true None later, []).
Lemma course_fair : fair course.
Proof. intros n e. apply offer_shared. Qed.

Abbreviation loop := (p2p_loop (B := gmap string bytes) (D := list bytes)).
Definition loop0 : loop :=
  mkLoop (mkEndpoint now opened (NewMuxTUN []) None None false false false false None)
    (mkWorker "" None) (replicate 32 x00).
Definition created : PolicyStore (gmap string bytes) := ok_or no_store (openPolicyStore ∅ trust true).

Lemma loop0_start : loop_start loop0.
Proof.
  split.
  - exists ∅, now, trust, created. split; [apply ok_or_eq; vm_compute; reflexivity|].
    split; [reflexivity|]. split; [reflexivity|]. apply rtc_once. apply (P2pAuthority.step_restart now created opened).
    vm_compute. reflexivity.
  - vm_compute. reflexivity.
  - exists []. reflexivity.
  - reflexivity.
  - reflexivity.
  - reflexivity.
Qed.

Definition start_file : bytes := marshal_request (mkP2pRequest 1 session_id false ticket "relay.example:443").
Definition stop_file : bytes := marshal_request (mkP2pRequest 1 (hex_encode (replicate 16 x0c)) true [] "").
Definition loop1 : loop := loop_tick trust profile loop0 (Some start_file) (Some [x01]) None.
Definition loop2 : loop := loop_tick trust profile loop1 (Some stop_file) (Some [x01]) (Some course).
Definition stop_request : p2pRequest := mkP2pRequest 1 (hex_encode (replicate 16 x0c)) true [] "".
Lemma stop_read : readP2PJSON decode_request (Some stop_file) 16384 = Ok (stop_request, stop_file).
Proof. vm_compute. reflexivity. Qed.
Lemma stop_new : bool_decide (sha256 stop_file = lp_last loop1) = false.
Proof. vm_compute. reflexivity. Qed.

Lemma loop1_steps : rtc (loop_step trust profile) loop0 loop1.
Proof. apply rtc_once. apply (ls_tick trust profile loop0 (Some start_file) (Some [x01]) None). discriminate. Qed.

Definition running (l : loop) : option (bytes * string) :=
  match wk_task (lp_worker l) with Some (Running c _ _) => Some (Cfg_Ticket c, Cfg_DeviceID c) | _ => None end.

Lemma p2p_loop_closed_witness :
  running loop1 = Some (ticket, laptop_id) ∧ loop_safe trust profile loop1 ∧ wk_task (lp_worker loop2) = None ∧
  nothing_authorised (ep_store (lp_idle loop2)).
Proof.
  split; [vm_compute; reflexivity|].
  destruct (p2p_loop_closed trust profile loop0 loop1 loop0_start loop1_steps) as [H1 H2].
  split; [exact H1|].
  destruct (H2 (Some stop_file) (Some [x01]) (Some course)) as [(E & N & _)|(E & _)].
  - intros h [= <-]. exact course_fair.
  - intros request raw E. rewrite stop_read in E. apply (f_equal (ok_or (stop_request, []))) in E.
    cbn [ok_or] in E. apply (f_equal fst) in E as E1. apply (f_equal snd) in E as E2. cbn [fst snd] in E1, E2.
    rewrite <- E1, <- E2. split; [reflexivity|]. exact (bool_decide_eq_false_1 _ stop_new).
  - split; [exact E|exact N].
  - discriminate.
Defined.

(** The Controller delivers the offer. *)
Definition client : Client := mkClient "https://a.example" ["https://a.example"] "access".
Definition asked := P2PInbox client (mc_net prepared).
Definition delivered : p2pRequest := mkP2pRequest 1 session_id false ticket "relay.example:443".
Lemma asked_eq : asked = (asked.1.1, asked.1.2, Ok (Some offer)).
Proof. vm_compute. reflexivity. Qed.
Lemma delivered_new : bool_decide (sha256 (marshal_request delivered) = lp_last loop0) = false.
Proof. vm_compute. reflexivity. Qed.

Lemma offer_reaches_session_witness :
  (inbox_tick working trust now (prepared, "")).2 = session_id ∧
  ∃ d' c, mc_p2p (inbox_tick working trust now (prepared, "")).1 = Directory d' ∧
    Cfg_Ticket c = ticket ∧ Cfg_RelayAddress c = "relay.example:443" ∧
    let l' := loop_tick trust profile loop0 (pd_request d') (mc_state prepared) (Some course) in
    lp_worker l' = mkWorker session_id (Some (Running c (new_call (lp_idle l')) false)).
Proof.
  destruct (offer_reaches_session working trust now prepared "" enrolled client asked.1.1 asked.1.2 offer delivered
    (dir_of prepared) profile loop0 loop0 course working_ok eq_refl
    (dir_of_eq prepared ltac:(vm_compute; reflexivity)) ltac:(vm_compute; reflexivity) eq_refl
    ltac:(vm_compute; reflexivity) asked_eq eq_refl ltac:(vm_compute; reflexivity) ltac:(discriminate) eq_refl
    loop0_start (rtc_refl _ _) (bool_decide_eq_false_1 _ delivered_new) course_fair)
    as (d' & Ed & Ei & session & c & sd & V & _ & Ec & Er & _ & _ & _ & W).
  split; [exact Ei|]. exists d', c. split; [exact Ed|]. split; [exact Ec|]. split; [exact Er|].
  assert (match VerifyGrant (Of_Ticket offer) (Trust_Issuer trust) (Trust_ClusterID trust) 0 now with
          | Ok s => String.eqb (Grant_SessionID (session_grant s)) session_id | _ => false end = true) as G
    by (vm_compute; reflexivity).
  rewrite V in G. apply String.eqb_eq in G. rewrite <- G. exact W.
Defined.
End Pilot.

Module Supervised.
#[local] Instance keys : FingerprintJson := {|
  marshal_transport k := String.concat "," (tk_listen k :: tk_psk k :: (Path_Endpoint <$> tk_paths k));
  marshal_overlay k := String.concat "," (ok_listen k :: ok_legacy k :: Wg_Address (ok_profile k) :: Wg_AllowedIPs (ok_profile k));
|}.

Definition moved : RuntimeConfig :=
  mkRuntimeConfig [mkPath "ru-02" "other.example:443" ""] 4 ["https://b.example"] "node.example:443" []
    "127.0.0.1:51820" "127.0.0.1:51821" (base64_encode (replicate 32 x09)) 0 16 "" "stable" None.
Definition ends {C} (i : instance C) : option (instance C) := Some (mkInstance (in_config i) true true).
Definition first := Supervisor_apply new_supervisor Pilot.config Pilot.profile ends ends.
Definition second := Supervisor_apply first.1 moved Pilot.profile ends ends.

Lemma ends_waits {C} : waits (@ends C).
Proof. intros i i' [= <-]. reflexivity. Qed.


(** A worker that was cancelled but has not ended is taken for the running one when its
    configuration comes back: [apply] succeeds, and nothing else is started. *)
Definition never {C} (i : instance C) : option (instance C) := None.
Definition hanging := Supervisor_apply first.1 moved Pilot.profile never never.
Definition back := Supervisor_apply hanging.1 Pilot.config Pilot.profile never never.
Lemma apply_keeps_cancelled :
  is_ok hanging.2 = false ∧ back.2 = Ok tt ∧
  wk_task (sv_transport back.1) = Some (mkInstance Pilot.config true false).
Proof. split; [vm_compute; reflexivity|]. split; vm_compute; reflexivity. Qed.
End Supervised.
