(* ===== verification/RelayExamples.v ===== *)
(** * A relay of agents at work

    A key directory with two Devices, a configuration with two Nodes, and the shim commands
    with small executable cryptography. *)

From Stdlib Require Import Strings.Byte Strings.Ascii.
From S2P Require Import Prelude GoLib GoNet GoStrings GoEncoding Netip Crypto P2pGrant.
From S2P Require Import AgentControl WgshimCodec WgshimAdaptive WgshimMulti WgshimFlow.
From S2P Require Import AgentConfig AgentInstall AgentTransport RelayCommands.

Module Office.
#[local] Instance url : GoURL := {| url_parse s := cut ":"%char s |}.
#[local] Instance ascii_case : UnicodeCase := {| lower s := bytes_str (lower_ascii_byte <$> str_bytes s) |}.
#[local] Instance no_ipv6 : Prefix6 := {| prefix6_ok _ := false |}.

Definition laptop_key : bytes := replicate 32 x09.
Definition paths : list TransportPath :=
  [mkPath "node-a" "a.example:443" ""; mkPath "node-b" "b.example:443" ""].
Definition config : RuntimeConfig :=
  mkRuntimeConfig paths 3 ["https://a.example"] "" [] "127.0.0.1:51820" "127.0.0.1:51821"
    (base64_encode laptop_key) 0 16 "" "" None.

(** A key file ends in a newline; other entries are passed over. *)
Definition laptop_file : dir_entry := mkEntry "laptop.key" false (Some (base64_encode laptop_key +:+ newline)).
Definition directory : list dir_entry :=
  [mkEntry ".key" false None; mkEntry "README" false (Some "keys"); laptop_file; mkEntry "old.key" true None;
   mkEntry "phone.key" false (Some (base64_encode (replicate 32 x08)))].

Definition loaded : gmap string LoadedPeer := ok_or ∅ (loadPeers (Some directory) 0 31).
Lemma loaded_eq : loadPeers (Some directory) 0 31 = Ok loaded.
Proof. apply ok_or_eq. vm_compute. reflexivity. Qed.

Lemma config_valid : ValidateRuntimeConfig config = Ok tt.
Proof. vm_compute. reflexivity. Qed.

Lemma laptop_psk : LoadPSK (de_contents laptop_file) = Ok laptop_key.
Proof. vm_compute. reflexivity. Qed.

Lemma agent_reaches_relay_witness :
  ∃ tr next p, transport_setup config = Ok tr ∧ validate_peers loaded = Ok next ∧ next !! "laptop" = Some p ∧
    Fingerprint p = bytes_str laptop_key ∧ tr_nodes tr !! "b.example:443" = Some "node-b" ∧
    (∀ payload random packet rest, Seal (Cfg_TX (tr_config tr)) payload random = Ok (packet, rest) →
       OpenTyped (RX p) packet = Ok (packetData, payload)).
Proof.
  destruct (agent_reaches_relay config directory 0 31 loaded laptop_file "laptop" laptop_key)
    as (tr & next & p & Et & _ & En & Ep & Ef & _ & Up & _ & Nodes).
  - exact config_valid.
  - apply base64_roundtrip.
  - apply (bool_decide_eq_true_1 _). vm_compute. reflexivity.
  - exact loaded_eq.
  - right. right. left.
  - reflexivity.
  - exact laptop_psk.
  - exists tr, next, p. split; [exact Et|]. split; [exact En|]. split; [exact Ep|]. split; [exact Ef|]. split.
    + apply (Nodes (mkPath "node-b" "b.example:443" "")). right. left.
    + intros payload random packet rest S. apply (Up packetData payload random packet rest S).
Defined.

(** A single key file that cannot be read keeps the whole directory from being loaded, so
    that the relay goes on with the table it had. *)
Example bad_key_blocks_reload :
  loadPeers (Some [laptop_file; mkEntry "zero.key" false (Some "")]) 0 31 = Err "key must decode to 32 bytes, got %d".
Proof. vm_compute. reflexivity. Qed.

Example listeners : splitListeners "0.0.0.0:443, 0.0.0.0:80,, 0.0.0.0:443" = ["0.0.0.0:443"; "0.0.0.0:80"].
Proof. vm_compute. reflexivity. Qed.
End Office.
